(** * BilibiliSponsorBlockServer: the vote and category-vote engine

    A shallow embedding of [vote] and [categoryVote] (the vote route) and of
    [acquireLock] (src/service/redis/redisLock.ts), with the relational
    store, the redis lock store, the logger and thrown errors made explicit.

    Conventions of the embedding.
    - A table is the list of its rows in the order in which the store
      returns them to a SELECT without ORDER BY.  [get] is the first
      matching row, [all] every matching row, UPDATE rewrites every
      matching row in place and INSERT appends.  The groups of a GROUP BY
      come in ascending order of the grouping column, as SQLite returns
      them.  Reads that are allowed to go to a replica see the same tables.
    - An [async] function is a computation [M A]: it takes the world and
      returns either a value or a thrown error (a rejected promise),
      together with the world it leaves behind.  State written before a
      throw stays written.
    - Every statement sent to either database and every redis command may
      fail; the two fault lists of the world say which ones do.
    - Work that is started and not awaited ([checkVideoDuration], the cache
      invalidation) runs beside the rest of the call or after it.  The
      model does not run it: it is recorded in the world, in [detached], in
      the order in which it is started, and the databases of the world that
      a call leaves behind are those written by the statements that the
      call awaits.  [checkVideoDuration] is given as a computation of its
      own, and what it can add is stated of it from every world.  One call
      of [vote] or [categoryVote] runs from start to end: the model has no
      interleaving of two calls.
    - A key of the redis lock store carries the time at which it expires.
      The clock of the world serves for redis too, and it stands still
      during a call.
    - JavaScript numbers that the code reads from integer columns are [Z];
      the [type] parameter, which may be missing or NaN, is a [jsnum].
      Video durations are integers as well: they are only compared.
      [Logger.info] and [Logger.debug] lines are not recorded.
    - [vote] is one function in the source; here its body is cut into
      [votePipeline] (while the lock is held), [checkLocks], [numericVote]
      and [voteBody] (the [try] block), each with the lines it stands for. *)

From Stdlib Require Import ZArith String List Bool Lia.
Import ListNotations.

Local Open Scope string_scope.
Local Open Scope Z_scope.
Local Open Scope list_scope.

Infix "+++" := String.append (right associativity, at level 60).

(** ** Identifiers and enumerations (types/segments.model.ts) *)

Definition SegmentUUID := string.
Definition VideoID := string.
Definition VideoIDHash := string.
Definition Category := string.
Definition Service := string.
Definition UserID := string.
Definition HashedUserID := string.
Definition IPAddress := string.
Definition HashedIP := string.
Definition VideoDuration := Z.

Inductive ActionType := Skip | Mute | Chapter | Full | Poi.

Definition ActionType_eqb (a b : ActionType) : bool :=
  match a, b with
  | Skip, Skip | Mute, Mute | Chapter, Chapter | Full, Full | Poi, Poi => true
  | _, _ => false
  end.

Definition ActionType_string (a : ActionType) : string :=
  match a with
  | Skip => "skip" | Mute => "mute" | Chapter => "chapter"
  | Full => "full" | Poi => "poi"
  end.

Module VoteType.
Definition Downvote : Z := 0.
Definition Upvote : Z := 1.
Definition ExtraDownvote : Z := 2.
Definition Undo : Z := 20.
Definition Malicious : Z := 30.
End VoteType.

Module Service.
Definition YouTube : Service := "YouTube".
End Service.

(** The [type] argument of [vote]: [parseInt] of the query parameter, or
    [undefined] when the parameter is missing. *)
Inductive jsnum := JsUndefined | JsNaN | JsNum (z : Z).

(** [!type] *)
Definition js_not (t : jsnum) : bool :=
  match t with JsNum z => z =? 0 | _ => true end.

(** [type == n] and [type === n] for a number literal [n] *)
Definition js_eq (t : jsnum) (n : Z) : bool :=
  match t with JsNum z => z =? n | _ => false end.

(** [type <= n] *)
Definition js_le (t : jsnum) (n : Z) : bool :=
  match t with JsNum z => z <=? n | _ => false end.

(** [isNaN(type)] *)
Definition js_isNaN (t : jsnum) : bool :=
  match t with JsNum _ => false | _ => true end.

(** [type !== undefined] *)
Definition js_defined (t : jsnum) : bool :=
  match t with JsUndefined => false | _ => true end.

(** Truthiness of a string and of an optional string parameter. *)
Definition truthy (s : string) : bool := negb (String.eqb s EmptyString).

Definition truthy_opt (s : option string) : bool :=
  match s with Some s => truthy s | None => false end.

Definition isSome {A} (o : option A) : bool :=
  match o with Some _ => true | None => false end.

(** [Math.ceil(v / 2)] on an integer [v]. *)
Definition ceil_half (v : Z) : Z := (v + 1) / 2.

(** ** Rows of the two databases *)

Module SponsorTimes.
Record row := {
  videoID : VideoID;
  cid : string;
  votes : Z;
  locked : Z;
  UUID : SegmentUUID;
  userID : UserID;
  timeSubmitted : Z;
  category : Category;
  actionType : ActionType;
  service : Service;
  videoDuration : VideoDuration;
  hidden : Z;
  shadowHidden : Z;
  hashedVideoID : VideoIDHash
}.

Definition set_votes (f : Z -> Z) (r : row) : row :=
  {| videoID := videoID r; cid := cid r; votes := f (votes r);
     locked := locked r; UUID := UUID r; userID := userID r;
     timeSubmitted := timeSubmitted r; category := category r;
     actionType := actionType r; service := service r;
     videoDuration := videoDuration r; hidden := hidden r;
     shadowHidden := shadowHidden r; hashedVideoID := hashedVideoID r |}.

Definition set_category (c : Category) (r : row) : row :=
  {| videoID := videoID r; cid := cid r; votes := votes r;
     locked := locked r; UUID := UUID r; userID := userID r;
     timeSubmitted := timeSubmitted r; category := c;
     actionType := actionType r; service := service r;
     videoDuration := videoDuration r; hidden := hidden r;
     shadowHidden := shadowHidden r; hashedVideoID := hashedVideoID r |}.

(** [SET "locked" = l, "hidden" = h, "shadowHidden" = s], a column left
    alone when its argument is [None]. *)
Definition set_flags (l h s : option Z) (r : row) : row :=
  {| videoID := videoID r; cid := cid r; votes := votes r;
     locked := match l with Some v => v | None => locked r end;
     UUID := UUID r; userID := userID r;
     timeSubmitted := timeSubmitted r; category := category r;
     actionType := actionType r; service := service r;
     videoDuration := videoDuration r;
     hidden := match h with Some v => v | None => hidden r end;
     shadowHidden := match s with Some v => v | None => shadowHidden r end;
     hashedVideoID := hashedVideoID r |}.

Definition set_videoDuration (d : VideoDuration) (r : row) : row :=
  {| videoID := videoID r; cid := cid r; votes := votes r;
     locked := locked r; UUID := UUID r; userID := userID r;
     timeSubmitted := timeSubmitted r; category := category r;
     actionType := actionType r; service := service r;
     videoDuration := d; hidden := hidden r;
     shadowHidden := shadowHidden r; hashedVideoID := hashedVideoID r |}.
End SponsorTimes.

(** The public [categoryVotes] table: one aggregate per segment and
    category. *)
Module CategoryVotes.
Record row := { UUID : SegmentUUID; category : Category; votes : Z }.

Definition add_votes (d : Z) (r : row) : row :=
  {| UUID := UUID r; category := category r; votes := votes r + d |}.
End CategoryVotes.

Module LockCategories.
Record row := {
  videoID : VideoID;
  service : Service;
  category : Category;
  actionType : ActionType
}.
End LockCategories.

Module Warnings.
Record row := {
  userID : HashedUserID;
  issueTime : Z;
  enabled : Z;
  type : Z;
  reason : string
}.
End Warnings.

(** The private [votes] table: one row per per-segment user identity. *)
Module Votes.
Record row := {
  UUID : SegmentUUID;
  userID : HashedUserID;
  hashedIP : HashedIP;
  type : Z;
  normalUserID : HashedUserID;
  originalType : Z
}.

Definition set_type (t o : Z) (r : row) : row :=
  {| UUID := UUID r; userID := userID r; hashedIP := hashedIP r;
     type := t; normalUserID := normalUserID r; originalType := o |}.
End Votes.

(** The private [categoryVotes] table: which category a user chose. *)
Module PrivateCategoryVotes.
Record row := {
  UUID : SegmentUUID;
  userID : HashedUserID;
  hashedIP : HashedIP;
  category : Category;
  timeSubmitted : Z
}.

Definition set_choice (c : Category) (t : Z) (ip : HashedIP) (r : row) : row :=
  {| UUID := UUID r; userID := userID r; hashedIP := ip;
     category := c; timeSubmitted := t |}.
End PrivateCategoryVotes.

Record Database := {
  sponsorTimes : list SponsorTimes.row;
  categoryVotes : list CategoryVotes.row;
  lockCategories : list LockCategories.row;
  warnings : list Warnings.row
}.

Record PrivateDB := {
  votes : list Votes.row;
  privateCategoryVotes : list PrivateCategoryVotes.row
}.

(** ** Configuration and collaborators that are not part of the sources *)

Record Config := {
  minUserIDLength : Z;
  globalSalt : string;
  hoursAfterWarningExpires : Z;
  maxNumberOfActiveWarnings : Z;
  categorySupport : list (Category * list ActionType);
  categoryList : list Category;
  redis_enabled : bool
}.

(** [getHashCache], the VIP and ban services and the video API are taken
    as functions: their sources are outside this development. *)
Record Collaborators := {
  getHashCache : string -> string;
  isUserVIP : HashedUserID -> bool;
  isUserTempVIP : HashedUserID -> VideoID -> bool;
  checkBanStatus : HashedUserID -> HashedIP -> bool;
  (** the pages of a video, each with its cid and duration *)
  getVideoDetails : VideoID -> option (list (string * VideoDuration))
}.

(** Work that the code starts and never awaits. *)
Inductive Detached :=
| CheckVideoDuration (UUID : SegmentUUID)
| ClearSegmentCache (videoInfo : SponsorTimes.row).

(** ** The world *)

Record World := {
  db : Database;
  privateDB : PrivateDB;
  (** keys set in redis, each with the time at which it expires *)
  redis : list (string * Z);
  (** outcome of the next statements sent to a database: [true] throws *)
  dbFaults : list bool;
  (** outcome of the next redis commands: [true] fails *)
  redisFaults : list bool;
  (** lines written by [Logger.error] *)
  errorLog : list string;
  (** how many times a lock's [unlock] has been called (bookkeeping only:
      with redis disabled [unlock] does nothing that could be observed) *)
  unlockCalls : nat;
  (** fire-and-forget work started so far, latest first *)
  detached : list Detached;
  (** [Date.now()] *)
  now : Z
}.

Definition with_db (d : Database) (w : World) : World :=
  {| db := d; privateDB := privateDB w; redis := redis w;
     dbFaults := dbFaults w; redisFaults := redisFaults w;
     errorLog := errorLog w; unlockCalls := unlockCalls w;
     detached := detached w; now := now w |}.

Definition with_privateDB (p : PrivateDB) (w : World) : World :=
  {| db := db w; privateDB := p; redis := redis w;
     dbFaults := dbFaults w; redisFaults := redisFaults w;
     errorLog := errorLog w; unlockCalls := unlockCalls w;
     detached := detached w; now := now w |}.

Definition with_redis (r : list (string * Z)) (w : World) : World :=
  {| db := db w; privateDB := privateDB w; redis := r;
     dbFaults := dbFaults w; redisFaults := redisFaults w;
     errorLog := errorLog w; unlockCalls := unlockCalls w;
     detached := detached w; now := now w |}.

Definition with_dbFaults (f : list bool) (w : World) : World :=
  {| db := db w; privateDB := privateDB w; redis := redis w;
     dbFaults := f; redisFaults := redisFaults w;
     errorLog := errorLog w; unlockCalls := unlockCalls w;
     detached := detached w; now := now w |}.

Definition with_redisFaults (f : list bool) (w : World) : World :=
  {| db := db w; privateDB := privateDB w; redis := redis w;
     dbFaults := dbFaults w; redisFaults := f;
     errorLog := errorLog w; unlockCalls := unlockCalls w;
     detached := detached w; now := now w |}.

Definition with_errorLog (l : list string) (w : World) : World :=
  {| db := db w; privateDB := privateDB w; redis := redis w;
     dbFaults := dbFaults w; redisFaults := redisFaults w;
     errorLog := l; unlockCalls := unlockCalls w;
     detached := detached w; now := now w |}.

Definition with_unlockCalls (n : nat) (w : World) : World :=
  {| db := db w; privateDB := privateDB w; redis := redis w;
     dbFaults := dbFaults w; redisFaults := redisFaults w;
     errorLog := errorLog w; unlockCalls := n;
     detached := detached w; now := now w |}.

Definition with_detached (d : list Detached) (w : World) : World :=
  {| db := db w; privateDB := privateDB w; redis := redis w;
     dbFaults := dbFaults w; redisFaults := redisFaults w;
     errorLog := errorLog w; unlockCalls := unlockCalls w;
     detached := d; now := now w |}.

(** The world at another time. *)
Definition with_now (t : Z) (w : World) : World :=
  {| db := db w; privateDB := privateDB w; redis := redis w;
     dbFaults := dbFaults w; redisFaults := redisFaults w;
     errorLog := errorLog w; unlockCalls := unlockCalls w;
     detached := detached w; now := t |}.

(** ** The monad of asynchronous functions *)

Inductive Outcome (A : Type) :=
| Returned (a : A)
| Thrown (err : string).
Arguments Returned {A} a.
Arguments Thrown {A} err.

Definition M (A : Type) : Type := World -> Outcome A * World.

Definition ret {A} (a : A) : M A := fun w => (Returned a, w).

Definition throw {A} (e : string) : M A := fun w => (Thrown e, w).

Definition bind {A B} (m : M A) (k : A -> M B) : M B :=
  fun w =>
    match m w with
    | (Returned a, w') => k a w'
    | (Thrown e, w') => (Thrown e, w')
    end.

(** [try { m } catch (err) { h err }] *)
Definition try_catch {A} (m : M A) (h : string -> M A) : M A :=
  fun w =>
    match m w with
    | (Returned a, w') => (Returned a, w')
    | (Thrown e, w') => h e w'
    end.

Declare Scope monad_scope.
Delimit Scope monad_scope with monad.
Notation "x <- m ;; k" := (bind m (fun x => k))
  (at level 61, m at next level, right associativity) : monad_scope.
Notation "m ;; k" := (bind m (fun _ => k))
  (at level 61, right associativity) : monad_scope.
Local Open Scope monad_scope.

(** [Logger.error(msg)] *)
Definition Logger_error (msg : string) : M unit :=
  fun w => (Returned tt, with_errorLog (msg :: errorLog w) w).

(** Starting work without awaiting it: the work is recorded, latest first,
    and not run. *)
Definition spawn (d : Detached) : M unit :=
  fun w => (Returned tt, with_detached (d :: detached w) w).

Definition Date_now : M Z := fun w => (Returned (now w), w).

(** ** Statements *)

(** Modelled from the spec: the database layer (databases/databases) is not
    among the sources; the spec gives it as parameterized get / all / run
    statement execution against a public and a private store (section 6),
    whose failures the vote route catches (section 7).  Sending one
    statement: the head of [dbFaults] says whether it throws. *)
Definition statement : M unit :=
  fun w =>
    match dbFaults w with
    | [] => (Returned tt, w)
    | false :: fs => (Returned tt, with_dbFaults fs w)
    | true :: fs => (Thrown "database error", with_dbFaults fs w)
    end.

(** [db.prepare("get" | "all", ...)] *)
Definition db_query {A} (q : Database -> A) : M A :=
  statement ;; fun w => (Returned (q (db w)), w).

(** [db.prepare("run", ...)] *)
Definition db_run (u : Database -> Database) : M unit :=
  statement ;; fun w => (Returned tt, with_db (u (db w)) w).

(** [privateDB.prepare("get", ...)] *)
Definition privateDB_query {A} (q : PrivateDB -> A) : M A :=
  statement ;; fun w => (Returned (q (privateDB w)), w).

(** [privateDB.prepare("run", ...)] *)
Definition privateDB_run (u : PrivateDB -> PrivateDB) : M unit :=
  statement ;; fun w => (Returned tt, with_privateDB (u (privateDB w)) w).

(** UPDATE ... WHERE: rewrite every row that satisfies the condition. *)
Definition update_where {R} (cond : R -> bool) (f : R -> R) (t : list R) : list R :=
  map (fun r => if cond r then f r else r) t.

(** ** The redis lock (service/redis/redisLock.ts) *)

Definition defaultTimeout : Z := 20000.

Fixpoint mem (k : string) (l : list string) : bool :=
  match l with
  | [] => false
  | x :: l' => String.eqb x k || mem k l'
  end.

(** A key set in redis is there until it expires.  The clock of the world
    serves for redis too. *)
Definition live (t : Z) (e : string * Z) : bool := t <? snd e.

(** The keys that are set in redis at the time of the world. *)
Definition redisKeys (w : World) : list string :=
  map fst (filter (live (now w)) (redis w)).

Definition without_key (key : string) (r : list (string * Z)) : list (string * Z) :=
  filter (fun e => negb (String.eqb (fst e) key)) r.

(** Modelled from the spec: the redis client (service/redis/redis) is not
    among the sources; the spec gives the lock backend the semantics of
    SET key value PX ms NX (set if absent, with millisecond expiry) and of
    DEL key (section 6).  [redis.set(key, "1", { PX: timeout, NX: true })]:
    the reply is ["OK"] when the key was absent, or had expired, and has
    now been set to expire [timeout] milliseconds from now; it is [null]
    when the key was there. *)
Definition redis_set_nx (key : string) (timeout : Z) : M (option string) :=
  fun w =>
    match redisFaults w with
    | true :: fs => (Thrown "redis error", with_redisFaults fs w)
    | fs0 =>
        let w1 := with_redisFaults (tl fs0) w in
        if mem key (redisKeys w1)
        then (Returned None, w1)
        else (Returned (Some "OK"),
              with_redis ((key, now w1 + timeout) :: without_key key (redis w1)) w1)
    end.

(** Modelled from the spec: DEL key of the same backend.  [redis.del(key)]
    is a promise, which is rejected when the command fails. *)
Definition redis_del (key : string) : M unit :=
  fun w =>
    match redisFaults w with
    | true :: fs => (Thrown "redis error", with_redisFaults fs w)
    | fs0 =>
        let w1 := with_redisFaults (tl fs0) w in
        (Returned tt, with_redis (without_key key (redis w1)) w1)
    end.

(** [promise.catch((err) => Logger.error(err))] *)
Definition catch_log (m : M unit) : M unit :=
  try_catch m (fun err => Logger_error err).

(** The world in which the keys [k] have just been set, each with the
    default lease. *)
Definition with_redisKeys (k : list string) (w : World) : World :=
  with_redis (map (fun key => (key, now w + defaultTimeout)) k) w.

Inductive AcquiredLock :=
| LockFailed
| LockHeld (unlock : M unit).

Definition lock_status (l : AcquiredLock) : bool :=
  match l with LockFailed => false | LockHeld _ => true end.

Definition acquireLock (config : Config) (key : string) (timeout : Z) : M AcquiredLock :=
  if negb (redis_enabled config) then
    ret (LockHeld (ret tt))
  else
    try_catch
      (result <- redis_set_nx key timeout ;;
       if isSome result then
         ret (LockHeld (catch_log (redis_del key)))
       else
         ret LockFailed)
      (fun e =>
         Logger_error e ;;
         (* Fallback to allowing *)
         ret (LockHeld (ret tt))).

(** [forceUnLock(key)] *)
Definition forceUnLock (config : Config) (key : string) : M unit :=
  if negb (redis_enabled config) then ret tt
  else try_catch (catch_log (redis_del key)) (fun e => Logger_error e).

(** ** Responses *)

Record Response := {
  status : Z;
  message : option string;
  json : option string
}.

Definition respond (s : Z) : Response :=
  {| status := s; message := None; json := None |}.

Definition respond_message (s : Z) (m : string) : Response :=
  {| status := s; message := Some m; json := None |}.

Inductive VoteWebhookType := Normal | Rejected.

Record FinalResponse := {
  blockVote : bool;
  finalStatus : Z;
  finalMessage : option string;
  webhookType : VoteWebhookType;
  webhookMessage : option string
}.

Module voteTypes.
Definition normal : Z := 0.
Definition incorrect : Z := 1.
End voteTypes.

(** ** The statements of the vote route, as functions of the tables *)

(** [SELECT ... FROM "sponsorTimes" WHERE "UUID" = ?] *)
Definition segmentByUUID (UUID : SegmentUUID) (d : Database) : option SponsorTimes.row :=
  find (fun r => String.eqb (SponsorTimes.UUID r) UUID) (sponsorTimes d).

Definition updateSegments (UUID : SegmentUUID) (f : SponsorTimes.row -> SponsorTimes.row)
  (d : Database) : Database :=
  {| sponsorTimes :=
       update_where (fun r => String.eqb (SponsorTimes.UUID r) UUID) f (sponsorTimes d);
     categoryVotes := categoryVotes d;
     lockCategories := lockCategories d;
     warnings := warnings d |}.

Definition with_categoryVotes (t : list CategoryVotes.row) (d : Database) : Database :=
  {| sponsorTimes := sponsorTimes d; categoryVotes := t;
     lockCategories := lockCategories d; warnings := warnings d |}.

Definition isCategoryRow (UUID : SegmentUUID) (c : Category) (r : CategoryVotes.row) : bool :=
  String.eqb (CategoryVotes.UUID r) UUID && String.eqb (CategoryVotes.category r) c.

(** [select votes from "categoryVotes" where "UUID" = ? and category = ?] *)
Definition categoryVotesOf (UUID : SegmentUUID) (c : Category) (d : Database) : option Z :=
  option_map CategoryVotes.votes (find (isCategoryRow UUID c) (categoryVotes d)).

(** [select count( * ) as count from "categoryVotes" where "UUID" = ? and category = ?] *)
Definition categoryVotesCount (UUID : SegmentUUID) (c : Category) (d : Database) : Z :=
  Z.of_nat (length (filter (isCategoryRow UUID c) (categoryVotes d))).

(** [update "categoryVotes" set "votes" = "votes" + ? where "UUID" = ? and "category" = ?] *)
Definition addCategoryVotes (UUID : SegmentUUID) (c : Category) (amount : Z)
  (d : Database) : Database :=
  with_categoryVotes
    (update_where (isCategoryRow UUID c) (CategoryVotes.add_votes amount) (categoryVotes d)) d.

(** [insert into "categoryVotes" ("UUID", "category", "votes") values (?, ?, ?)] *)
Definition insertCategoryVotes (UUID : SegmentUUID) (c : Category) (v : Z)
  (d : Database) : Database :=
  with_categoryVotes
    (categoryVotes d ++
     [{| CategoryVotes.UUID := UUID; CategoryVotes.category := c; CategoryVotes.votes := v |}]) d.

(** [SELECT "videoID", "category" FROM "lockCategories"
     WHERE "videoID" = ? AND "service" = ? AND "category" = ?] *)
Definition lockedCategory (v : VideoID) (s : Service) (c : Category)
  (d : Database) : option LockCategories.row :=
  find (fun r => String.eqb (LockCategories.videoID r) v
                 && String.eqb (LockCategories.service r) s
                 && String.eqb (LockCategories.category r) c)
       (lockCategories d).

(** [SELECT "category" FROM "lockCategories" WHERE "videoID" = ? AND
     "service" = ? AND "category" = ? AND "actionType" = ?] *)
Definition lockedCategoryAction (v : VideoID) (s : Service) (c : Category) (a : ActionType)
  (d : Database) : option LockCategories.row :=
  find (fun r => String.eqb (LockCategories.videoID r) v
                 && String.eqb (LockCategories.service r) s
                 && String.eqb (LockCategories.category r) c
                 && ActionType_eqb (LockCategories.actionType r) a)
       (lockCategories d).

(** ["userID" = ? AND "issueTime" > ? AND enabled = 1 AND type = 0] *)
Definition isActiveWarning (u : HashedUserID) (since : Z) (r : Warnings.row) : bool :=
  String.eqb (Warnings.userID r) u
  && (Warnings.issueTime r >? since)
  && (Warnings.enabled r =? 1)
  && (Warnings.type r =? 0).

(** [SELECT "reason" FROM warnings WHERE "userID" = ? AND "issueTime" > ?
     AND enabled = 1 AND type = 0]: no ordering is asked for. *)
Definition activeWarnings (u : HashedUserID) (since : Z) (d : Database) : list string :=
  map Warnings.reason (filter (isActiveWarning u since) (warnings d)).

(** [SELECT "userID" FROM "sponsorTimes" WHERE "userID" = ? AND "category" = ?
     AND "votes" > -2 AND "hidden" = 0 AND "shadowHidden" = 0 LIMIT 1] *)
Definition countedSubmission (u : HashedUserID) (c : Category)
  (d : Database) : option SponsorTimes.row :=
  find (fun r => String.eqb (SponsorTimes.userID r) u
                 && String.eqb (SponsorTimes.category r) c
                 && (SponsorTimes.votes r >? -2)
                 && (SponsorTimes.hidden r =? 0)
                 && (SponsorTimes.shadowHidden r =? 0))
       (sponsorTimes d).

Definition with_votes (t : list Votes.row) (p : PrivateDB) : PrivateDB :=
  {| votes := t; privateCategoryVotes := privateCategoryVotes p |}.

Definition with_privateCategoryVotes (t : list PrivateCategoryVotes.row)
  (p : PrivateDB) : PrivateDB :=
  {| votes := votes p; privateCategoryVotes := t |}.

Definition isVoteOf (u : HashedUserID) (UUID : SegmentUUID) (r : Votes.row) : bool :=
  String.eqb (Votes.userID r) u && String.eqb (Votes.UUID r) UUID.

(** [SELECT "type" FROM "votes" WHERE "userID" = ? AND "UUID" = ?] *)
Definition voteTypeOf (u : HashedUserID) (UUID : SegmentUUID) (p : PrivateDB) : option Z :=
  option_map Votes.type (find (isVoteOf u UUID) (votes p)).

(** [SELECT "UUID" FROM "votes" WHERE "UUID" = ? AND "hashedIP" = ? AND "userID" != ?] *)
Definition voteFromSameIP (UUID : SegmentUUID) (ip : HashedIP) (u : HashedUserID)
  (p : PrivateDB) : option Votes.row :=
  find (fun r => String.eqb (Votes.UUID r) UUID
                 && String.eqb (Votes.hashedIP r) ip
                 && negb (String.eqb (Votes.userID r) u))
       (votes p).

(** [UPDATE "votes" SET "type" = ?, "originalType" = ? WHERE "userID" = ? AND "UUID" = ?] *)
Definition updateVote (t o : Z) (u : HashedUserID) (UUID : SegmentUUID)
  (p : PrivateDB) : PrivateDB :=
  with_votes (update_where (isVoteOf u UUID) (Votes.set_type t o) (votes p)) p.

(** [INSERT INTO "votes" ("UUID", "userID", "hashedIP", "type", "normalUserID",
     "originalType") VALUES(?, ?, ?, ?, ?, ?)] *)
Definition insertVote (r : Votes.row) (p : PrivateDB) : PrivateDB :=
  with_votes (votes p ++ [r]) p.

Definition isChoiceOf (UUID : SegmentUUID) (u : HashedUserID)
  (r : PrivateCategoryVotes.row) : bool :=
  String.eqb (PrivateCategoryVotes.UUID r) UUID
  && String.eqb (PrivateCategoryVotes.userID r) u.

(** The least category, in byte order, among [c] and the categories of
    [rows]. *)
Fixpoint leastCategory (c : Category) (rows : list PrivateCategoryVotes.row) : Category :=
  match rows with
  | [] => c
  | r :: rows' =>
      leastCategory (if String.ltb (PrivateCategoryVotes.category r) c
                     then PrivateCategoryVotes.category r
                     else c) rows'
  end.

(** [select count( * ) as votes, category from "categoryVotes" where "UUID" = ?
     and "userID" = ? group by category], read with [get]: the first group.
     SQLite groups by sorting the rows on the grouping column, so the
     groups come out in ascending order of category (a text column under
     the BINARY collation: bytes are compared), whatever the order in which
     the rows were inserted.  The first group is the one of the least
     category among the user's rows for the segment, with the number of
     those rows that name it. *)
Definition usersLastVote (UUID : SegmentUUID) (u : HashedUserID)
  (p : PrivateDB) : option (Z * Category) :=
  let rows := filter (isChoiceOf UUID u) (privateCategoryVotes p) in
  match rows with
  | [] => None
  | r :: rows' =>
      let c := leastCategory (PrivateCategoryVotes.category r) rows' in
      Some (Z.of_nat (length (filter (fun r' => String.eqb (PrivateCategoryVotes.category r') c)
                                     rows)), c)
  end.

(** [update "categoryVotes" set "category" = ?, "timeSubmitted" = ?, "hashedIP" = ?
     where "userID" = ? and "UUID" = ?] on the private database *)
Definition updateChoice (c : Category) (t : Z) (ip : HashedIP) (u : HashedUserID)
  (UUID : SegmentUUID) (p : PrivateDB) : PrivateDB :=
  with_privateCategoryVotes
    (update_where (isChoiceOf UUID u) (PrivateCategoryVotes.set_choice c t ip)
                  (privateCategoryVotes p)) p.

(** [insert into "categoryVotes" ("UUID", "userID", "hashedIP", "category",
     "timeSubmitted") values (?, ?, ?, ?, ?)] on the private database *)
Definition insertChoice (r : PrivateCategoryVotes.row) (p : PrivateDB) : PrivateDB :=
  with_privateCategoryVotes (privateCategoryVotes p ++ [r]) p.

(** [config.categorySupport[category]?.includes(actionType)]: the entry of
    the category, if the configuration has one. *)
Fixpoint categorySupportOf (c : Category) (l : list (Category * list ActionType))
  : option (list ActionType) :=
  match l with
  | [] => None
  | (c', acts) :: l' => if String.eqb c' c then Some acts else categorySupportOf c l'
  end.

Definition supportsAction (config : Config) (c : Category) (a : ActionType) : bool :=
  match categorySupportOf c (categorySupport config) with
  | Some acts => existsb (ActionType_eqb a) acts
  | None => false
  end.

(** The members that an object inherits from Object.prototype. *)
Definition objectPrototypeMembers : list string :=
  ["constructor"; "__defineGetter__"; "__defineSetter__"; "hasOwnProperty";
   "__lookupGetter__"; "__lookupSetter__"; "isPrototypeOf"; "propertyIsEnumerable";
   "toString"; "valueOf"; "__proto__"; "toLocaleString"].

(** [config.categorySupport[category]] is not an entry of the configuration
    but a member inherited from Object.prototype: the category has no entry
    and names such a member.  It is not nullish, so [?.] goes on, and it
    has no [includes]: the call throws. *)
Definition inheritedSupport (config : Config) (c : Category) : bool :=
  negb (isSome (categorySupportOf c (categorySupport config)))
  && mem c objectPrototypeMembers.

(** ** categoryVote *)

Definition categoryVote (config : Config) (env : Collaborators)
  (UUID : SegmentUUID) (userID : HashedUserID)
  (isVIP isTempVIP isOwnSubmission : bool)
  (category : Category) (hashedIP : HashedIP)
  (finalResponse : FinalResponse) : M Response :=
  (* Check if they've already made a vote *)
  usersLastVoteInfo <- privateDB_query (usersLastVote UUID userID) ;;
  if match usersLastVoteInfo with
     | Some (_, c) => String.eqb c category
     | None => false
     end
  then
    (* Double vote, ignore *)
    ret (respond (finalStatus finalResponse))
  else
    segmentInfo <- db_query (segmentByUUID UUID) ;;
    match segmentInfo with
    | None => throw "TypeError: Cannot read properties of undefined (reading 'actionType')"
    | Some segmentInfo =>
      if inheritedSupport config category then
        throw "TypeError: config.categorySupport[category]?.includes is not a function"
      else if negb (supportsAction config category (SponsorTimes.actionType segmentInfo))
         || ActionType_eqb (SponsorTimes.actionType segmentInfo) Full
      then
        ret (respond_message 400
               ("Not allowed to change to " +++ category +++ " when for segment of type "
                +++ ActionType_string (SponsorTimes.actionType segmentInfo)))
      else if negb (mem category (categoryList config)) then
        ret (respond_message 400 "Category doesn't exist.")
      else
        (* Ignore vote if the next category is locked *)
        nextCategoryLocked <-
          db_query (lockedCategory (SponsorTimes.videoID segmentInfo)
                                   (SponsorTimes.service segmentInfo) category) ;;
        if isSome nextCategoryLocked && negb isVIP then
          ret (respond 200)
        (* Ignore vote if the segment is locked *)
        else if negb isVIP && (SponsorTimes.locked segmentInfo =? 1) then
          ret (respond 200)
        else
          nextCategoryInfo <- db_query (categoryVotesOf UUID category) ;;
          timeSubmitted <- Date_now ;;
          let voteAmount := if isVIP || isTempVIP then 500 else 1 in
          let ableToVote := finalStatus finalResponse =? 200 in
          (if ableToVote then
             (* Add the vote *)
             count <- db_query (categoryVotesCount UUID category) ;;
             (if count >? 0 then
                db_run (addCategoryVotes UUID category voteAmount)
              else
                db_run (insertCategoryVotes UUID category voteAmount)) ;;
             (* Add the info into the private db *)
             match usersLastVoteInfo with
             | Some (n, lastCategory) =>
                 if n >? 0 then
                   (* Reverse the previous vote *)
                   db_run (addCategoryVotes UUID lastCategory (- voteAmount)) ;;
                   privateDB_run (updateChoice category timeSubmitted hashedIP userID UUID)
                 else
                   privateDB_run
                     (insertChoice
                        {| PrivateCategoryVotes.UUID := UUID;
                           PrivateCategoryVotes.userID := userID;
                           PrivateCategoryVotes.hashedIP := hashedIP;
                           PrivateCategoryVotes.category := category;
                           PrivateCategoryVotes.timeSubmitted := timeSubmitted |})
             | None =>
                 privateDB_run
                   (insertChoice
                      {| PrivateCategoryVotes.UUID := UUID;
                         PrivateCategoryVotes.userID := userID;
                         PrivateCategoryVotes.hashedIP := hashedIP;
                         PrivateCategoryVotes.category := category;
                         PrivateCategoryVotes.timeSubmitted := timeSubmitted |})
             end ;;
             (* See if the submissions category is ready to change *)
             currentCategoryInfo <-
               db_query (categoryVotesOf UUID (SponsorTimes.category segmentInfo)) ;;
             submissionInfo <- db_query (segmentByUUID UUID) ;;
             let isSubmissionVIP :=
               match submissionInfo with
               | Some s => isUserVIP env (SponsorTimes.userID s)
               | None => false
               end in
             let startingVotes := if isSubmissionVIP then 10000 else 1 in
             let currentCategoryCount :=
               match currentCategoryInfo with
               | Some v => v
               | None => startingVotes
               end in
             (* Add submission as vote *)
             match currentCategoryInfo, submissionInfo with
             | None, Some s =>
                 db_run (insertCategoryVotes UUID (SponsorTimes.category segmentInfo)
                                             currentCategoryCount) ;;
                 privateDB_run
                   (insertChoice
                      {| PrivateCategoryVotes.UUID := UUID;
                         PrivateCategoryVotes.userID := SponsorTimes.userID s;
                         PrivateCategoryVotes.hashedIP := "unknown";
                         PrivateCategoryVotes.category := SponsorTimes.category segmentInfo;
                         PrivateCategoryVotes.timeSubmitted := SponsorTimes.timeSubmitted s |})
             | _, _ => ret tt
             end ;;
             let nextCategoryCount :=
               match nextCategoryInfo with Some v => v | None => 0 end + voteAmount in
             (* VIPs change it every time; [Math.max(Math.ceil(undefined / 2), 2)]
                is NaN and compares false *)
             if isVIP || isTempVIP || isOwnSubmission
                || match submissionInfo with
                   | Some s =>
                       nextCategoryCount - currentCategoryCount
                       >=? Z.max (ceil_half (SponsorTimes.votes s)) 2
                   | None => false
                   end
             then
               (* Replace the category *)
               db_run (updateSegments UUID (SponsorTimes.set_category category))
             else ret tt
           else ret tt) ;;
          spawn (ClearSegmentCache segmentInfo) ;;
          ret (respond (finalStatus finalResponse))
    end.

(** ** Video duration *)

(** [videoDurationChanged] *)
Definition videoDurationChanged (segmentDuration APIDuration : VideoDuration) : bool :=
  (APIDuration >? 0) && (Z.abs (segmentDuration - APIDuration) >? 2).

(** [apiVideoDetails?.page.filter((p) => p.cid == cid)[0].duration], where
    the video API is asked only for [Service.YouTube]: [Returned None] is
    [undefined], and the read of [duration] throws when no page matches. *)
Definition apiVideoDuration (env : Collaborators) (videoID : VideoID) (cid : string)
  (service : Service) : M (option VideoDuration) :=
  match (if String.eqb service Service.YouTube then getVideoDetails env videoID else None) with
  | None => ret None
  | Some page =>
      match filter (fun p => String.eqb (fst p) cid) page with
      | [] => throw "TypeError: Cannot read properties of undefined (reading 'duration')"
      | p :: _ => ret (Some (snd p))
      end
  end.

Definition updateSegmentVideoDuration (env : Collaborators) (UUID : SegmentUUID) : M unit :=
  r <- db_query (segmentByUUID UUID) ;;
  match r with
  | None => throw "TypeError: Cannot destructure property 'videoDuration'"
  | Some r =>
      d <- apiVideoDuration env (SponsorTimes.videoID r) (SponsorTimes.cid r)
                            (SponsorTimes.service r) ;;
      match d with
      | Some d =>
          if videoDurationChanged (SponsorTimes.videoDuration r) d then
            db_run (updateSegments UUID (SponsorTimes.set_videoDuration d))
          else ret tt
      | None => ret tt
      end
  end.

(** ** vote *)

(** [lock.unlock()] *)
Definition call_unlock (unlock : M unit) : M unit :=
  fun w => unlock (with_unlockCalls (S (unlockCalls w)) w).

Definition MILLISECONDS_IN_HOUR : Z := 3600000.

Definition warningLead : string :=
  "Vote rejected due to a tip from a moderator. This means that we noticed you were making some common mistakes that are not malicious, and we just want to clarify the rules. "
  +++ "Could you please send a message in Discord or Matrix so we can further help you?".

Definition warningMessage (warningReason : string) : string :=
  warningLead
  +++ (if (Z.of_nat (String.length warningReason) >? 0)
       then " Tip message: '" +++ warningReason +++ "'"
       else EmptyString).

(** The increment asked for by a vote type; [None] is the unrecognised
    type, which is also where a missing or NaN type ends up. *)
Definition incrementAmountOf (type : jsnum) : option (Z * Z) :=
  match type with
  | JsNum t =>
      if t =? VoteType.Upvote then Some (t, 1)
      else if (t =? VoteType.Downvote) || (t =? VoteType.Malicious) then Some (t, -1)
      else if t =? VoteType.Undo then Some (t, 0)
      else None
  | _ => None
  end.

(** The increment that the stored vote row stands for. *)
Definition oldIncrementAmountOf (votesRow : option Z) : Z :=
  match votesRow with
  | Some type =>
      if type =? VoteType.Upvote then 1
      else if type =? VoteType.Downvote then -1
      else if type =? VoteType.ExtraDownvote then -4
      else if type =? VoteType.Undo then 0
      else if type <? 0 then type
      else if type =? 12 then -500
      else if type =? 13 then 500
      else 0
  | None => 0
  end.

(** Lines 513-523: the increment and the type to store, after the boost of
    a VIP, temporary VIP or submitter downvote and the cap of a malicious
    vote. *)
Definition amplified (privileged : bool) (segmentVotes oldIncrementAmount : Z)
  (type incrementAmount : Z) : Z * Z :=
  let '(type, incrementAmount) :=
    if privileged && (incrementAmount <? 0)
    then (- (segmentVotes + 2 - oldIncrementAmount), - (segmentVotes + 2 - oldIncrementAmount))
    else (type, incrementAmount) in
  if type =? VoteType.Malicious
  then (- Z.min (segmentVotes + 2 - oldIncrementAmount) 5,
        - Z.min (segmentVotes + 2 - oldIncrementAmount) 5)
  else (type, incrementAmount).

(** Lines 527-545, with the short-circuit of [||] and [&&]. *)
Definition ableToVote (isVIP isTempVIP isOwnSubmission : bool)
  (incrementAmount oldIncrementAmount originalType : Z)
  (segmentInfo : SponsorTimes.row) (finalResponse : FinalResponse)
  (nonAnonUserID : HashedUserID) (UUID : SegmentUUID) (hashedIP : HashedIP)
  (userID : HashedUserID) : M bool :=
  if isVIP || isTempVIP then ret true
  else if negb (isOwnSubmission && (incrementAmount >? 0) && (oldIncrementAmount >=? 0))
          && negb ((originalType =? VoteType.Malicious)
                   && negb (ActionType_eqb (SponsorTimes.actionType segmentInfo) Chapter))
          && negb (blockVote finalResponse)
          && (finalStatus finalResponse =? 200)
  then
    submission <- db_query (countedSubmission nonAnonUserID (SponsorTimes.category segmentInfo)) ;;
    if isSome submission then
      other <- privateDB_query (voteFromSameIP UUID hashedIP userID) ;;
      ret (negb (isSome other))
    else ret false
  else ret false.

(** Lines 466-593: the body of the [try] block.  Past the check of the
    type, [type0] is the type as it was received ([originalType]) and [type]
    the one that is stored. *)
Definition voteBody (env : Collaborators) (unlock : M unit)
  (UUID : SegmentUUID) (type : jsnum)
  (nonAnonUserID userID : HashedUserID) (hashedIP : HashedIP)
  (segmentInfo : SponsorTimes.row) (isVIP isTempVIP isOwnSubmission : bool)
  (finalResponse : FinalResponse) (voteTypeEnum : Z) : M Response :=
  (* check if vote has already happened *)
  votesRow <- privateDB_query (voteTypeOf userID UUID) ;;
  match incrementAmountOf type with
  | None =>
      call_unlock unlock ;;
      (* unrecongnised type of vote *)
      ret (respond 400)
  | Some (type0, incrementAmount0) =>
      let oldIncrementAmount := oldIncrementAmountOf votesRow in
      let '(type, incrementAmount) :=
        amplified (isVIP || isTempVIP || isOwnSubmission) (SponsorTimes.votes segmentInfo)
                  oldIncrementAmount type0 incrementAmount0 in
      able <- ableToVote isVIP isTempVIP isOwnSubmission incrementAmount oldIncrementAmount
                         type0 segmentInfo finalResponse nonAnonUserID UUID hashedIP userID ;;
      (if able then
         (* update the votes table *)
         (if isSome votesRow then
            privateDB_run (updateVote type type0 userID UUID)
          else
            privateDB_run
              (insertVote {| Votes.UUID := UUID; Votes.userID := userID;
                             Votes.hashedIP := hashedIP; Votes.type := type;
                             Votes.normalUserID := nonAnonUserID;
                             Votes.originalType := type0 |})) ;;
         (* update the vote count on this sponsorTime *)
         db_run (updateSegments UUID
                   (SponsorTimes.set_votes
                      (fun v => v + (incrementAmount - oldIncrementAmount)))) ;;
         (* tempVIP can bring back hidden segments *)
         (if isTempVIP && (incrementAmount >? 0) && (voteTypeEnum =? voteTypes.normal) then
            db_run (updateSegments UUID (SponsorTimes.set_flags None (Some 0) None))
          else ret tt) ;;
         (* additional processing for VIP *)
         (if isVIP && (incrementAmount >? 0) && (voteTypeEnum =? voteTypes.normal) then
            updateSegmentVideoDuration env UUID ;;
            db_run (updateSegments UUID (SponsorTimes.set_flags (Some 1) (Some 0) (Some 0)))
          else if isVIP && (incrementAmount <=? 0) && (voteTypeEnum =? voteTypes.normal) then
            db_run (updateSegments UUID (SponsorTimes.set_flags (Some 0) None None))
          else ret tt) ;;
         spawn (ClearSegmentCache segmentInfo)
       else ret tt) ;;
      call_unlock unlock ;;
      ret {| status := finalStatus finalResponse;
             message := finalMessage finalResponse;
             json := None |}
  end.

(** Lines 427-443: a vote other than a VIP's, and other than an upvote of
    a live segment, is blocked when the segment or its category is locked. *)
Definition checkLocks (isVIP : bool) (type : jsnum) (segmentInfo : SponsorTimes.row)
  (finalResponse : FinalResponse) : M FinalResponse :=
  (* If not upvote, or an upvote on a dead segment (for ActionType.Full) *)
  if negb isVIP && (negb (js_eq type 1) || (SponsorTimes.votes segmentInfo <=? -2)) then
    locked <-
      (if negb (SponsorTimes.locked segmentInfo =? 0) then ret true
       else
         r <- db_query (lockedCategoryAction
                          (SponsorTimes.videoID segmentInfo)
                          (SponsorTimes.service segmentInfo)
                          (SponsorTimes.category segmentInfo)
                          (SponsorTimes.actionType segmentInfo)) ;;
         ret (isSome r)) ;;
    if locked then
      ret {| blockVote := true;
             finalStatus := finalStatus finalResponse;
             finalMessage := finalMessage finalResponse;
             webhookType := Rejected;
             webhookMessage :=
               Some "Vote rejected: A moderator has decided that this segment is correct" |}
    else ret finalResponse
  else ret finalResponse.

(** Lines 427-599: the numeric vote, once warnings, ban and the category
    vote are out of the way. *)
Definition numericVote (env : Collaborators) (unlock : M unit)
  (UUID : SegmentUUID) (type : jsnum)
  (nonAnonUserID userID : HashedUserID) (hashedIP : HashedIP)
  (segmentInfo : SponsorTimes.row) (isVIP isTempVIP isOwnSubmission : bool)
  (finalResponse : FinalResponse) : M Response :=
  finalResponse <- checkLocks isVIP type segmentInfo finalResponse ;;
  (* if on downvoted non-full segment and is not VIP/ tempVIP/ submitter *)
  let dead :=
    negb (js_isNaN type) && (SponsorTimes.votes segmentInfo <=? -2)
    && negb (ActionType_eqb (SponsorTimes.actionType segmentInfo) Full)
    && negb (isVIP || isTempVIP || isOwnSubmission) in
  if dead && js_eq type 1 then
    call_unlock unlock ;;
    ret (respond_message 403
           "Not allowed to upvote segment with too many downvotes unless you are VIP.")
  else if dead && js_eq type 0 then
    call_unlock unlock ;;
    (* Already downvoted enough, ignore *)
    ret (respond 200)
  else
    let voteTypeEnum :=
      if js_eq type 0 || js_eq type 1 || js_eq type 20
      then voteTypes.normal else voteTypes.incorrect in
    (* check duration of all submissions on this video *)
    (if js_le type 0 then spawn (CheckVideoDuration UUID) else ret tt) ;;
    try_catch
      (voteBody env unlock UUID type nonAnonUserID userID hashedIP
                segmentInfo isVIP isTempVIP isOwnSubmission finalResponse voteTypeEnum)
      (fun err =>
         call_unlock unlock ;;
         Logger_error err ;;
         ret {| status := 500;
                message := finalMessage finalResponse;
                json := Some "{ error: 'Internal error creating segment vote' }" |}).

(** [!UUID || !paramUserID || !(type !== undefined || category)] *)
Definition missingKeyParameters (UUID : SegmentUUID) (paramUserID : UserID)
  (type : jsnum) (category : option Category) : bool :=
  negb (truthy UUID) || negb (truthy paramUserID)
  || negb (js_defined type || truthy_opt category).

Definition lockKey (UUID : SegmentUUID) (paramUserID : UserID) : string :=
  "voteOnSponsorTime:" +++ UUID +++ "." +++ paramUserID.

(** Lines 363-425 and the call of the numeric vote: what [vote] does while
    it holds the lock. *)
Definition votePipeline (config : Config) (env : Collaborators)
  (UUID : SegmentUUID) (type : jsnum) (category : option Category)
  (nonAnonUserID userID : HashedUserID) (hashedIP : HashedIP)
  (unlock : M unit) : M Response :=
  (* To force a non 200, change this early *)
  let finalResponse :=
    {| blockVote := false; finalStatus := 200; finalMessage := None;
       webhookType := Normal; webhookMessage := None |} in
  segmentInfo <- db_query (segmentByUUID UUID) ;;
  match segmentInfo with
  | None =>
      (* segment doesnt exist *)
      call_unlock unlock ;;
      ret (respond 404)
  | Some segmentInfo =>
    let isTempVIP := isUserTempVIP env nonAnonUserID (SponsorTimes.videoID segmentInfo) in
    let isVIP := isUserVIP env nonAnonUserID in
    let isBanned := checkBanStatus env nonAnonUserID hashedIP in
    (* check if user voting on own submission *)
    let isOwnSubmission := String.eqb nonAnonUserID (SponsorTimes.userID segmentInfo) in
    (* disallow vote types 10/11 *)
    if js_eq type 10 || js_eq type 11 then
      call_unlock unlock ;;
      ret (respond 400)
    else
      now <- Date_now ;;
      warnings <-
        db_query (activeWarnings nonAnonUserID
                    (now - hoursAfterWarningExpires config * MILLISECONDS_IN_HOUR)) ;;
      if Z.of_nat (length warnings) >=? maxNumberOfActiveWarnings config then
        let warningReason := hd_error warnings in
        call_unlock unlock ;;
        match warningReason with
        | Some warningReason => ret (respond_message 403 (warningMessage warningReason))
        | None => throw "TypeError: Cannot read properties of undefined (reading 'length')"
        end
      (* we can return out of the function early if the user is banned
         after warning checks *)
      else if isBanned then
        call_unlock unlock ;;
        ret (respond 200)
      (* no type but has category, categoryVote *)
      else if js_not type && truthy_opt category then
        (* the promise of categoryVote is returned without being awaited:
           unlock is called before any of its statements has completed *)
        call_unlock unlock ;;
        categoryVote config env UUID nonAnonUserID isVIP isTempVIP isOwnSubmission
                     (match category with Some c => c | None => EmptyString end)
                     hashedIP finalResponse
      else
        numericVote env unlock UUID type nonAnonUserID userID hashedIP
                    segmentInfo isVIP isTempVIP isOwnSubmission finalResponse
  end.

Definition vote (config : Config) (env : Collaborators)
  (ip : IPAddress) (UUID : SegmentUUID) (paramUserID : UserID)
  (type : jsnum) (category : option Category) : M Response :=
  (* missing key parameters *)
  if missingKeyParameters UUID paramUserID type category
  then ret (respond 400)
  (* Ignore this vote, invalid *)
  else if Z.of_nat (String.length paramUserID) <? minUserIDLength config
  then ret (respond 200)
  else
    (* hash the userID *)
    let nonAnonUserID := getHashCache env paramUserID in
    let userID := getHashCache env (paramUserID +++ UUID) in
    (* hash the ip 5000 times so no one can get it from the database *)
    let hashedIP := getHashCache env (ip +++ globalSalt config) in
    lock <- acquireLock config (lockKey UUID paramUserID) defaultTimeout ;;
    match lock with
    | LockFailed => ret (respond_message 429 "Vote already in progress")
    | LockHeld unlock =>
        votePipeline config env UUID type category nonAnonUserID userID hashedIP unlock
    end.

(** ** Detached work: checkVideoDuration *)

(** The newest row of a list, by [timeSubmitted]
    ([ORDER BY "timeSubmitted" DESC LIMIT 1]). *)
Fixpoint latestOf (l : list SponsorTimes.row) : option SponsorTimes.row :=
  match l with
  | [] => None
  | r :: l' =>
      match latestOf l' with
      | Some r' =>
          if SponsorTimes.timeSubmitted r' >? SponsorTimes.timeSubmitted r
          then Some r' else Some r
      | None => Some r
      end
  end.

Definition countedOnVideo (v : VideoID) (s : Service) (r : SponsorTimes.row) : bool :=
  String.eqb (SponsorTimes.videoID r) v && String.eqb (SponsorTimes.service r) s
  && (SponsorTimes.hidden r =? 0) && (SponsorTimes.shadowHidden r =? 0)
  && negb (ActionType_eqb (SponsorTimes.actionType r) Full)
  && (SponsorTimes.votes r >? -2).

Definition hideUpTo (v : VideoID) (s : Service) (t : Z) (d : Database) : Database :=
  {| sponsorTimes :=
       update_where (fun r => countedOnVideo v s r && (SponsorTimes.timeSubmitted r <=? t))
                    (SponsorTimes.set_flags None (Some 1) None) (sponsorTimes d);
     categoryVotes := categoryVotes d;
     lockCategories := lockCategories d;
     warnings := warnings d |}.

(** [deleteLockCategories(videoID, null, null, service)] is not part of the
    sources: all that is used of it is that it rewrites the lock table. *)
Definition with_lockCategories (t : list LockCategories.row) (d : Database) : Database :=
  {| sponsorTimes := sponsorTimes d; categoryVotes := categoryVotes d;
     lockCategories := t; warnings := warnings d |}.

Definition checkVideoDuration (env : Collaborators)
  (deleteLockCategories : VideoID -> Service -> list LockCategories.row
                          -> list LockCategories.row)
  (UUID : SegmentUUID) : M unit :=
  r <- db_query (segmentByUUID UUID) ;;
  match r with
  | None => throw "TypeError: Cannot destructure property 'videoID'"
  | Some r =>
      let videoID := SponsorTimes.videoID r in
      let service := SponsorTimes.service r in
      d <- apiVideoDuration env videoID (SponsorTimes.cid r) service ;;
      match d with
      | None => ret tt (* if no videoDuration return early *)
      | Some apiVideoDuration =>
          (* fetch latest submission *)
          latestSubmission <-
            db_query (fun d =>
              latestOf (filter (fun r => countedOnVideo videoID service r
                                         && negb (SponsorTimes.videoDuration r =? 0))
                               (sponsorTimes d))) ;;
          match latestSubmission with
          | Some l =>
              if videoDurationChanged (SponsorTimes.videoDuration l) apiVideoDuration then
                db_run (hideUpTo videoID service (SponsorTimes.timeSubmitted l)) ;;
                catch_log
                  (db_run (fun d =>
                     with_lockCategories
                       (deleteLockCategories videoID service (lockCategories d)) d))
              else ret tt
          | None => ret tt
          end
      end
  end.

(** ** Vocabulary of the properties *)

(** [hoare P m Q E]: from a world in [P], [m] either returns a value in
    [Q] or throws with the world in [E]. *)
Definition hoare {A} (P : World -> Prop) (m : M A)
  (Q : A -> World -> Prop) (E : World -> Prop) : Prop :=
  forall w, P w ->
    match m w with
    | (Returned a, w') => Q a w'
    | (Thrown _, w') => E w'
    end.

(** [preserves I m]: [I] holds after [m], returned or thrown, if it held
    before. *)
Definition preserves {A} (I : World -> Prop) (m : M A) : Prop :=
  hoare I m (fun _ => I) I.

(** A property of the two databases only. *)
Definition onStores (I : Database -> PrivateDB -> Prop) : World -> Prop :=
  fun w => I (db w) (privateDB w).

(** [same_stores w w']: [w'] differs from [w] in redis and the error log at
    most. *)
Definition same_stores (w w' : World) : Prop :=
  db w' = db w /\ privateDB w' = privateDB w /\ dbFaults w' = dbFaults w
  /\ unlockCalls w' = unlockCalls w /\ detached w' = detached w /\ now w' = now w.

(** What [vote] relies on about a lock's [unlock]: it returns, and it
    touches nothing but redis and the log. *)
Definition benign (u : M unit) : Prop :=
  forall w, exists w', u w = (Returned tt, w') /\ same_stores w w'.


(** The two databases and the clock are as given. *)
Definition unchanged (d : Database) (p : PrivateDB) (n : Z) : World -> Prop :=
  fun w => db w = d /\ privateDB w = p /\ now w = n.

Definition heldLock (o : Outcome AcquiredLock) : bool :=
  match o with Returned (LockHeld _) => true | _ => false end.

(** The call passes the parameter checks and is granted the lock. *)
Definition entersPipeline (config : Config) (UUID : SegmentUUID) (paramUserID : UserID)
  (type : jsnum) (category : option Category) (w : World) : Prop :=
  missingKeyParameters UUID paramUserID type category = false
  /\ (Z.of_nat (String.length paramUserID) <? minUserIDLength config) = false
  /\ heldLock (fst (acquireLock config (lockKey UUID paramUserID) defaultTimeout w)) = true.

(** The warnings that the call counts. *)
Definition warningsOf (config : Config) (env : Collaborators) (paramUserID : UserID)
  (w : World) : list string :=
  activeWarnings (getHashCache env paramUserID)
                 (now w - hoursAfterWarningExpires config * MILLISECONDS_IN_HOUR) (db w).

(** The call holds the lock, no statement fails, the segment [seg] is
    found and the type is not 10 or 11: the call gets to counting the
    warnings. *)
Definition reachesWarningCheck (config : Config) (UUID : SegmentUUID)
  (paramUserID : UserID) (type : jsnum) (category : option Category)
  (seg : SponsorTimes.row) (w : World) : Prop :=
  entersPipeline config UUID paramUserID type category w
  /\ dbFaults w = []
  /\ segmentByUUID UUID (db w) = Some seg
  /\ (js_eq type 10 || js_eq type 11) = false.

(** ... and the warnings are below the maximum and the user is not banned:
    the call gets to the choice between category vote and numeric vote. *)
Definition reachesDelegation (config : Config) (env : Collaborators) (ip : IPAddress)
  (UUID : SegmentUUID) (paramUserID : UserID) (type : jsnum) (category : option Category)
  (seg : SponsorTimes.row) (w : World) : Prop :=
  reachesWarningCheck config UUID paramUserID type category seg w
  /\ (Z.of_nat (length (warningsOf config env paramUserID w))
      >=? maxNumberOfActiveWarnings config) = false
  /\ checkBanStatus env (getHashCache env paramUserID)
                    (getHashCache env (ip +++ globalSalt config)) = false.

(** The newest warning of a list, by [issueTime]. *)
Fixpoint newestWarning (l : list Warnings.row) : option Warnings.row :=
  match l with
  | [] => None
  | r :: l' =>
      match newestWarning l' with
      | Some r' => if Warnings.issueTime r' >? Warnings.issueTime r then Some r' else Some r
      | None => Some r
      end
  end.

(** The reason of the most recent of the warnings that the call counts. *)
Definition mostRecentReason (config : Config) (env : Collaborators) (paramUserID : UserID)
  (w : World) : option string :=
  option_map Warnings.reason
    (newestWarning
       (filter (isActiveWarning (getHashCache env paramUserID)
                  (now w - hoursAfterWarningExpires config * MILLISECONDS_IN_HOUR))
               (warnings (db w)))).

(** [contains sub s]: [sub] occurs in [s]. *)
Fixpoint contains (sub s : string) : bool :=
  if String.prefix sub s then true
  else match s with
       | EmptyString => false
       | String _ s' => contains sub s'
       end.

(** A category vote that goes through: no statement fails, the segment is
    [seg], the group that the first query returns for the user does not
    name this category, the category is known and allowed for the
    segment's action type, neither the category nor the segment is locked
    against the caller, and the status handed in is 200. *)
Definition eligibleCategoryVote (config : Config) (UUID : SegmentUUID)
  (userID : HashedUserID) (isVIP : bool) (category : Category)
  (finalResponse : FinalResponse) (seg : SponsorTimes.row) (w : World) : Prop :=
  dbFaults w = []
  /\ segmentByUUID UUID (db w) = Some seg
  /\ match usersLastVote UUID userID (privateDB w) with
     | Some (_, c) => String.eqb c category
     | None => false
     end = false
  /\ (negb (supportsAction config category (SponsorTimes.actionType seg))
      || ActionType_eqb (SponsorTimes.actionType seg) Full) = false
  /\ negb (mem category (categoryList config)) = false
  /\ (isSome (lockedCategory (SponsorTimes.videoID seg) (SponsorTimes.service seg)
                             category (db w))
      && negb isVIP) = false
  /\ (negb isVIP && (SponsorTimes.locked seg =? 1)) = false
  /\ (finalStatus finalResponse =? 200) = true.

(** The categories under which the private table records a user for a
    segment. *)
Definition choicesOf (UUID : SegmentUUID) (u : HashedUserID) (p : PrivateDB)
  : list Category :=
  map PrivateCategoryVotes.category (filter (isChoiceOf UUID u) (privateCategoryVotes p)).

(** The private table records the user under one category at most. *)
Definition oneCategory (UUID : SegmentUUID) (u : HashedUserID) (p : PrivateDB) : Prop :=
  forall c c', In c (choicesOf UUID u p) -> In c' (choicesOf UUID u p) -> c = c'.

(** Lines 278-290 count the submission as a vote: when the segment's
    current category has no aggregate row after the tally, one is inserted
    together with a private row in the submitter's name.  In an eligible
    vote for [category] on the database [d] this happens when the current
    category has no aggregate row in [d] and is not the candidate, and the
    private row goes to [userID] when [userID] is the submitter. *)
Definition seededFor (UUID : SegmentUUID) (userID : HashedUserID) (category : Category)
  (seg : SponsorTimes.row) (d : Database) : bool :=
  String.eqb userID (SponsorTimes.userID seg)
  && negb (isSome (categoryVotesOf UUID (SponsorTimes.category seg) d))
  && negb (String.eqb (SponsorTimes.category seg) category).

(** [unlock] has been called [k] times. *)
Definition unlocked (k : nat) : World -> Prop := fun w => unlockCalls w = k.

(** What a vote does to the segment's count: the type that is stored and
    the amount added, for a caller whom [ableToVote] lets through. *)
Definition appliedVote (privileged : bool) (segmentVotes : Z) (votesRow : option Z)
  (type incrementAmount : Z) : Z * Z :=
  let oldIncrementAmount := oldIncrementAmountOf votesRow in
  let '(type, incrementAmount) :=
    amplified privileged segmentVotes oldIncrementAmount type incrementAmount in
  (type, incrementAmount - oldIncrementAmount).

(** ** A small deployment, for the concrete runs *)

Module Sample.
Definition config : Config :=
  {| minUserIDLength := 4; globalSalt := "salt"; hoursAfterWarningExpires := 24;
     maxNumberOfActiveWarnings := 1;
     categorySupport :=
       [("sponsor", [Skip; Mute; Full]); ("intro", [Skip; Mute]); ("chapter", [Chapter])];
     categoryList := ["sponsor"; "intro"; "chapter"];
     redis_enabled := true |}.

Definition hash (s : string) : string := "#" +++ s.

Definition env : Collaborators :=
  {| getHashCache := hash;
     isUserVIP := fun u => String.eqb u (hash "vip-user");
     isUserTempVIP := fun _ _ => false;
     checkBanStatus := fun u _ => String.eqb u (hash "banned-user");
     getVideoDetails := fun _ => None |}.

Definition segment (uuid : SegmentUUID) (v : Z) (c : Category) (a : ActionType)
  (owner : HashedUserID) : SponsorTimes.row :=
  {| SponsorTimes.videoID := "video"; SponsorTimes.cid := "1"; SponsorTimes.votes := v;
     SponsorTimes.locked := 0; SponsorTimes.UUID := uuid; SponsorTimes.userID := owner;
     SponsorTimes.timeSubmitted := 1000; SponsorTimes.category := c;
     SponsorTimes.actionType := a; SponsorTimes.service := "YouTube";
     SponsorTimes.videoDuration := 100; SponsorTimes.hidden := 0;
     SponsorTimes.shadowHidden := 0; SponsorTimes.hashedVideoID := "hv" |}.

Definition warning (u : HashedUserID) (t : Z) (r : string) : Warnings.row :=
  {| Warnings.userID := u; Warnings.issueTime := t; Warnings.enabled := 1;
     Warnings.type := 0; Warnings.reason := r |}.

Definition world (segs : list SponsorTimes.row) (ws : list Warnings.row) : World :=
  {| db := {| sponsorTimes := segs; categoryVotes := []; lockCategories := [];
              warnings := ws |};
     privateDB := {| votes := []; privateCategoryVotes := [] |};
     redis := []; dbFaults := []; redisFaults := []; errorLog := [];
     unlockCalls := 0; detached := []; now := 100000000 |}.

(** One segment with three votes, nothing else. *)
Definition quiet_world : World :=
  world [segment "seg" 3 "sponsor" Skip "#owner"] [].

(** The user "user-u" has two active warnings, the older one stored first. *)
Definition warned_world : World :=
  world [segment "seg" 3 "sponsor" Skip "#owner"]
        [warning "#user-u" 99999000 "first tip";
         warning "#user-u" 99999500 "second tip"].

(** The banned user also has an active warning. *)
Definition banned_warned_world : World :=
  world [segment "seg" 3 "sponsor" Skip "#owner"]
        [warning "#banned-user" 99999000 "be careful"].

(** A segment with ten votes in category "sponsor"; the aggregates say 1
    for "sponsor" and 5 for "intro". *)
Definition category_world : World :=
  with_db
    {| sponsorTimes := [segment "seg" 10 "sponsor" Skip "#owner"];
       categoryVotes :=
         [{| CategoryVotes.UUID := "seg"; CategoryVotes.category := "sponsor";
             CategoryVotes.votes := 1 |};
          {| CategoryVotes.UUID := "seg"; CategoryVotes.category := "intro";
             CategoryVotes.votes := 5 |}];
       lockCategories := []; warnings := [] |}
    quiet_world.

Definition finalResponse : FinalResponse :=
  {| blockVote := false; finalStatus := 200; finalMessage := None;
     webhookType := Normal; webhookMessage := None |}.

(** A segment with [v] votes in category "sponsor"; the aggregates say
    [sponsor] for "sponsor" and [intro] for "intro". *)
Definition tally_world (v sponsor intro : Z) : World :=
  with_db
    {| sponsorTimes := [segment "seg" v "sponsor" Skip "#owner"];
       categoryVotes :=
         [{| CategoryVotes.UUID := "seg"; CategoryVotes.category := "sponsor";
             CategoryVotes.votes := sponsor |};
          {| CategoryVotes.UUID := "seg"; CategoryVotes.category := "intro";
             CategoryVotes.votes := intro |}];
       lockCategories := []; warnings := [] |}
    quiet_world.

(** [category_world], where "user-u" has voted "intro" before. *)
Definition switch_world : World :=
  with_privateDB
    {| votes := [];
       privateCategoryVotes :=
         [{| PrivateCategoryVotes.UUID := "seg"; PrivateCategoryVotes.userID := "#user-u";
             PrivateCategoryVotes.hashedIP := "#1.2.3.4salt";
             PrivateCategoryVotes.category := "intro";
             PrivateCategoryVotes.timeSubmitted := 99999000 |}] |}
    category_world.

(** "user-a" has voted on the segment from the address 1.2.3.4, and
    "user-u" has a counted submission of their own in the same category. *)
Definition shared_ip_world : World :=
  with_privateDB
    {| votes := [{| Votes.UUID := "seg"; Votes.userID := "#user-aseg";
                    Votes.hashedIP := "#1.2.3.4salt"; Votes.type := 1;
                    Votes.normalUserID := "#user-a"; Votes.originalType := 1 |}];
       privateCategoryVotes := [] |}
    (world [segment "seg" 3 "sponsor" Skip "#owner";
            segment "mine" 0 "sponsor" Skip "#user-u"] []).

(** A chapter segment at -14 votes; "user-u" has a counted chapter
    submission of their own. *)
Definition chapter_world : World :=
  world [segment "seg" (-14) "chapter" Chapter "#owner";
         segment "mine" 0 "chapter" Chapter "#user-u"] [].

(** ... after "user-u" has sent a malicious vote on it. *)
Definition chapter_world_voted : World :=
  snd (vote config env "1.2.3.4" "seg" "user-u" (JsNum VoteType.Malicious) None
            chapter_world).

(** The first statement sent to the database fails. *)
Definition failing_world : World := with_dbFaults [true] quiet_world.
End Sample.

(** * Further vocabulary and the other routes *)

(** ** Accepted votes *)

(** Lines 445-456: the vote is turned away because the segment is dead
    (at -2 votes or below, not a full-video label) and the caller is
    neither VIP, temporary VIP nor the submitter. *)
Definition deadSegmentReturn (type : jsnum) (seg : SponsorTimes.row)
  (isVIP isTempVIP isOwnSubmission : bool) : bool :=
  negb (js_isNaN type) && (SponsorTimes.votes seg <=? -2)
  && negb (ActionType_eqb (SponsorTimes.actionType seg) Full)
  && negb (isVIP || isTempVIP || isOwnSubmission)
  && (js_eq type 1 || js_eq type 0).

(** The response is one of the refusals of [vote]: any status other than
    200 and 500. *)
Definition refused (r : Response) : Prop := status r <> 200 /\ status r <> 500.

(** The two databases, the clock and the work started without being
    awaited are as given. *)
Definition untouched (d : Database) (p : PrivateDB) (n : Z) (l : list Detached)
  : World -> Prop :=
  fun w => unchanged d p n w /\ detached w = l.

(** [m] starts no work that it does not await. *)
Definition keepsDetached {A} (m : M A) : Prop :=
  forall w, detached (snd (m w)) = detached w.

(** What a vote that wrote nothing has left running, [l] being the work
    detached before the call: nothing, or the duration check of lines
    462-464, which a vote of type 0 or less starts before it is answered. *)
Definition checkingAtMost (type : jsnum) (UUID : SegmentUUID) (l : list Detached)
  : World -> Prop :=
  fun w => detached w = l
           \/ (js_le type 0 = true /\ detached w = CheckVideoDuration UUID :: l).

(** What a refused vote leaves behind: the stores as they were and no
    work, or, after the 400 for an unrecognised type of 0 or less, the
    duration check. *)
Definition leftByRefusal (d : Database) (p : PrivateDB) (n : Z) (l : list Detached)
  (type : jsnum) (UUID : SegmentUUID) : Response -> World -> Prop :=
  fun r w =>
    refused r ->
    unchanged d p n w
    /\ (detached w = l
        \/ (js_le type 0 = true /\ incrementAmountOf type = None /\ status r = 400
            /\ detached w = CheckVideoDuration UUID :: l)).

(** Lock, visibility and shadow-ban flags of a segment. *)
Definition flagsOf (UUID : SegmentUUID) (d : Database) : option (Z * Z * Z) :=
  option_map (fun r => (SponsorTimes.locked r, SponsorTimes.hidden r,
                        SponsorTimes.shadowHidden r))
             (segmentByUUID UUID d).

Definition votesOf (UUID : SegmentUUID) (d : Database) : option Z :=
  option_map SponsorTimes.votes (segmentByUUID UUID d).

(** The caller is neither VIP, temporary VIP for the segment's video, nor
    the segment's submitter. *)
Definition ordinaryCaller (env : Collaborators) (paramUserID : UserID)
  (seg : SponsorTimes.row) : Prop :=
  isUserVIP env (getHashCache env paramUserID) = false
  /\ isUserTempVIP env (getHashCache env paramUserID) (SponsorTimes.videoID seg) = false
  /\ String.eqb (getHashCache env paramUserID) (SponsorTimes.userID seg) = false.

(** The numeric vote of type [t] is accepted: the call gets to the numeric
    vote, it is not turned away for a dead segment, [t] is a recognised
    type, and with the answer of the lock check the final check [ableToVote]
    answers true. *)
Definition acceptedVote (config : Config) (env : Collaborators) (ip : IPAddress)
  (UUID : SegmentUUID) (paramUserID : UserID) (t : Z) (category : option Category)
  (seg : SponsorTimes.row) (w : World) : Prop :=
  let nonAnonUserID := getHashCache env paramUserID in
  let userID := getHashCache env (paramUserID +++ UUID) in
  let hashedIP := getHashCache env (ip +++ globalSalt config) in
  let isVIP := isUserVIP env nonAnonUserID in
  let isTempVIP := isUserTempVIP env nonAnonUserID (SponsorTimes.videoID seg) in
  let isOwnSubmission := String.eqb nonAnonUserID (SponsorTimes.userID seg) in
  let oldIncrementAmount := oldIncrementAmountOf (voteTypeOf userID UUID (privateDB w)) in
  reachesDelegation config env ip UUID paramUserID (JsNum t) category seg w
  /\ (js_not (JsNum t) && truthy_opt category) = false
  /\ deadSegmentReturn (JsNum t) seg isVIP isTempVIP isOwnSubmission = false
  /\ match incrementAmountOf (JsNum t),
           fst (checkLocks isVIP (JsNum t) seg
                  {| blockVote := false; finalStatus := 200; finalMessage := None;
                     webhookType := Normal; webhookMessage := None |} w) with
     | Some (_, i), Returned fr =>
         fst (ableToVote isVIP isTempVIP isOwnSubmission
                (snd (amplified (isVIP || isTempVIP || isOwnSubmission)
                                (SponsorTimes.votes seg) oldIncrementAmount t i))
                oldIncrementAmount t seg fr nonAnonUserID UUID hashedIP userID w)
         = Returned true
     | _, _ => False
     end.

(** ** The category vote *)

(** A segment row with its category blanked when it is the row of [UUID]:
    what a category vote must leave alone. *)
Definition withoutCategory (UUID : SegmentUUID) (r : SponsorTimes.row) : SponsorTimes.row :=
  if String.eqb (SponsorTimes.UUID r) UUID then SponsorTimes.set_category EmptyString r
  else r.

(** The public category-vote table holds at most one row for each category
    of the segment. *)
Definition oneAggregate (UUID : SegmentUUID) (d : Database) : Prop :=
  forall c, categoryVotesCount UUID c d <= 1.

(** ** The duration check *)

(** The row is as it was, or it has been hidden. *)
Definition hiddenOrSame (r r' : SponsorTimes.row) : Prop :=
  r' = r \/ r' = SponsorTimes.set_flags None (Some 1) None r.

(** ** Further sample worlds *)

Module Fixtures.
(** The segment "seg" with three votes, and a counted submission of
    "user-u" in the same category. *)
Definition voter_world : World :=
  Sample.world [Sample.segment "seg" 3 "sponsor" Skip "#owner";
                Sample.segment "mine" 0 "sponsor" Skip "#user-u"] [].

(** ... after "user-u" has upvoted "seg". *)
Definition voter_world_upvoted : World :=
  snd (vote Sample.config Sample.env "1.2.3.4" "seg" "user-u" (JsNum VoteType.Upvote) None
            voter_world).

(** The segment "seg" is hidden and shadow-hidden. *)
Definition hidden_segment : SponsorTimes.row :=
  SponsorTimes.set_flags None (Some 1) (Some 1)
    (Sample.segment "seg" 3 "sponsor" Skip "#owner").

Definition hidden_world : World := Sample.world [hidden_segment] [].

(** The segment "seg" is locked; "user-u" has a counted submission. *)
Definition locked_segment : SponsorTimes.row :=
  SponsorTimes.set_flags (Some 1) None None
    (Sample.segment "seg" 3 "sponsor" Skip "#owner").

Definition locked_world : World :=
  Sample.world [locked_segment; Sample.segment "mine" 0 "sponsor" Skip "#user-u"] [].

(** An "intro" segment that has no category votes yet. *)
Definition intro_world : World :=
  Sample.world [Sample.segment "seg" 3 "intro" Skip "#owner"] [].

(** ... after its submitter has voted "sponsor" on it: the private table
    records the submitter under "sponsor", for the vote, and then under
    "intro", for the submission counted as a vote. *)
Definition intro_world_voted : World :=
  snd (vote Sample.config Sample.env "1.2.3.4" "seg" "owner" JsUndefined (Some "sponsor")
            intro_world).

(** The video API knows the one page of "video": 101 seconds, where the
    sample segments say 100. *)
Definition env_with_api : Collaborators :=
  {| getHashCache := Sample.hash;
     isUserVIP := isUserVIP Sample.env;
     isUserTempVIP := isUserTempVIP Sample.env;
     checkBanStatus := checkBanStatus Sample.env;
     getVideoDetails := fun _ => Some [("1", 101)] |}.

(** ... or 250 seconds. *)
Definition env_with_long_video : Collaborators :=
  {| getHashCache := Sample.hash;
     isUserVIP := isUserVIP Sample.env;
     isUserTempVIP := isUserTempVIP Sample.env;
     checkBanStatus := checkBanStatus Sample.env;
     getVideoDetails := fun _ => Some [("1", 250)] |}.
End Fixtures.

(** * The read-through cache and the routes around it

    [QueryCacher] (utils/queryCacher.ts), the segment readers of
    dao/skipSegment.ts, [saveVideoInfo], [addFeature] (routes/feature.ts)
    and the port-video route ([getPortVideo], [checkDuration]).

    These functions run on a state of their own, [Site]: the tables they
    read and write, the redis keyspace with the value and the expiry of
    every key, the faults of the statements and of the redis commands to
    come, the error log and the clock.  The conventions are those of the
    vote route: a table is the list of its rows, an [async] function is a
    computation that returns a value or throws and leaves a state behind,
    and a promise that is started and given a [catch] handler without being
    awaited ([redis.del(key).catch(...)]) runs at the place where it is
    started.  Times of a segment are rationals. *)

From Stdlib Require QArith.

(** ** Rows *)

Module HiddenType.
Definition Show : Z := 0.
Definition Hidden : Z := 1.
Definition MismatchHidden : Z := 2.
End HiddenType.

(** A row of "sponsorTimes" with every column ([DBSegment] of
    types/segments.model.ts): the columns that the vote route reads, and
    the others. *)
Module DBSegment.
Record row := {
  columns : SponsorTimes.row;
  startTime : QArith_base.Q;
  endTime : QArith_base.Q;
  views : Z;
  reputation : QArith_base.Q;
  userAgent : string;
  description : string;
  ytbID : VideoID;
  ytbSegmentUUID : SegmentUUID;
  portUUID : string
}.

Definition set_hidden (h : Z) (r : row) : row :=
  {| columns := SponsorTimes.set_flags None (Some h) None (columns r);
     startTime := startTime r; endTime := endTime r; views := views r;
     reputation := reputation r; userAgent := userAgent r;
     description := description r; ytbID := ytbID r;
     ytbSegmentUUID := ytbSegmentUUID r; portUUID := portUUID r |}.
End DBSegment.

Module UserFeatures.
Record row := {
  userID : HashedUserID;
  feature : Z;
  issuerUserID : string;
  timeSubmitted : Z
}.
End UserFeatures.

Module VideoInfo.
Record row := {
  videoID : VideoID;
  channelID : string;
  title : string;
  published : Z
}.
End VideoInfo.

(** [PortVideo] and [PortVideoDB] of types/portVideo.model.ts *)
Module PortVideo.
Record row := {
  bvID : VideoID;
  cid : string;
  ytbID : VideoID;
  UUID : string;
  votes : Z;
  locked : bool;
  hidden : Z;
  biliDuration : VideoDuration;
  ytbDuration : VideoDuration;
  timeSubmitted : Z;
  hashedBvID : string
}.

Definition set_hidden (h : Z) (r : row) : row :=
  {| bvID := bvID r; cid := cid r; ytbID := ytbID r; UUID := UUID r;
     votes := votes r; locked := locked r; hidden := h;
     biliDuration := biliDuration r; ytbDuration := ytbDuration r;
     timeSubmitted := timeSubmitted r; hashedBvID := hashedBvID r |}.
End PortVideo.

Module PortVideoDB.
Record row := {
  portVideo : PortVideo.row;
  userID : HashedUserID;
  userAgent : string
}.

Definition set_hidden (h : Z) (r : row) : row :=
  {| portVideo := PortVideo.set_hidden h (portVideo r);
     userID := userID r; userAgent := userAgent r |}.
End PortVideoDB.

(** What [getPortVideo] sends: [PortVideoInterface], whose [cid] the route
    leaves out. *)
Module PortVideoInterface.
Record t := {
  bvID : VideoID;
  cid : option string;
  ytbID : VideoID;
  UUID : string;
  votes : Z;
  locked : bool
}.
End PortVideoInterface.

(** ** The state *)

Record Tables := {
  segments : list DBSegment.row;
  userFeatures : list UserFeatures.row;
  videoInfo : list VideoInfo.row;
  portVideo : list PortVideoDB.row
}.

Definition with_segments (l : list DBSegment.row) (t : Tables) : Tables :=
  {| segments := l; userFeatures := userFeatures t; videoInfo := videoInfo t;
     portVideo := portVideo t |}.

Definition with_userFeatures (l : list UserFeatures.row) (t : Tables) : Tables :=
  {| segments := segments t; userFeatures := l; videoInfo := videoInfo t;
     portVideo := portVideo t |}.

Definition with_videoInfo (l : list VideoInfo.row) (t : Tables) : Tables :=
  {| segments := segments t; userFeatures := userFeatures t; videoInfo := l;
     portVideo := portVideo t |}.

Definition with_portVideo (l : list PortVideoDB.row) (t : Tables) : Tables :=
  {| segments := segments t; userFeatures := userFeatures t;
     videoInfo := videoInfo t; portVideo := l |}.

(** A key of redis: its value, and the seconds it has left to live
    ([None]: it does not expire). *)
Module Cached.
Record entry := { value : string; expiry : option Z }.
End Cached.

(** What becomes of a redis command: it is answered, it fails, or it is
    turned away with a [TooManyActiveConnectionsError]. *)
Inductive RedisFault := Answers | Fails | TooManyActiveConnections.

Record Site := {
  tables : Tables;
  keyspace : list (string * Cached.entry);
  (** outcome of the next statements: [true] throws *)
  statementFaults : list bool;
  (** outcome of the next redis commands *)
  commandFaults : list RedisFault;
  (** lines written by [Logger.error], latest first *)
  logged : list string;
  (** [Date.now()], in milliseconds *)
  clock : Z
}.

Definition with_tables (t : Tables) (s : Site) : Site :=
  {| tables := t; keyspace := keyspace s; statementFaults := statementFaults s;
     commandFaults := commandFaults s; logged := logged s; clock := clock s |}.

Definition with_keyspace (k : list (string * Cached.entry)) (s : Site) : Site :=
  {| tables := tables s; keyspace := k; statementFaults := statementFaults s;
     commandFaults := commandFaults s; logged := logged s; clock := clock s |}.

Definition with_statementFaults (f : list bool) (s : Site) : Site :=
  {| tables := tables s; keyspace := keyspace s; statementFaults := f;
     commandFaults := commandFaults s; logged := logged s; clock := clock s |}.

Definition with_commandFaults (f : list RedisFault) (s : Site) : Site :=
  {| tables := tables s; keyspace := keyspace s;
     statementFaults := statementFaults s; commandFaults := f;
     logged := logged s; clock := clock s |}.

Definition with_logged (l : list string) (s : Site) : Site :=
  {| tables := tables s; keyspace := keyspace s;
     statementFaults := statementFaults s; commandFaults := commandFaults s;
     logged := l; clock := clock s |}.

(** ** Asynchronous functions on a site *)

Declare Scope task_scope.
Delimit Scope task_scope with task.

Module Task.
Definition t (A : Type) : Type := Site -> Outcome A * Site.

Definition ret {A} (a : A) : t A := fun s => (Returned a, s).

Definition throw {A} (e : string) : t A := fun s => (Thrown e, s).

Definition bind {A B} (m : t A) (k : A -> t B) : t B :=
  fun s =>
    match m s with
    | (Returned a, s') => k a s'
    | (Thrown e, s') => (Thrown e, s')
    end.

(** [try { m } catch (err) { h err }] *)
Definition try_catch {A} (m : t A) (h : string -> t A) : t A :=
  fun s =>
    match m s with
    | (Returned a, s') => (Returned a, s')
    | (Thrown e, s') => h e s'
    end.

(** [Logger.error(msg)] *)
Definition Logger_error (msg : string) : t unit :=
  fun s => (Returned tt, with_logged (msg :: logged s) s).

Definition Date_now : t Z := fun s => (Returned (clock s), s).

(** [promise.catch((err) => Logger.error(err))] *)
Definition catch_log (m : t unit) : t unit :=
  try_catch m (fun err => Logger_error err).

(** Modelled from the spec: the database layer (databases/databases) is not
    among the sources; the spec gives it as parameterized get / all / run
    statement execution (section 6), whose failures are thrown (section 7).
    Sending one statement: the head of [statementFaults] says whether it
    throws. *)
Definition statement : t unit :=
  fun s =>
    match statementFaults s with
    | [] => (Returned tt, s)
    | false :: fs => (Returned tt, with_statementFaults fs s)
    | true :: fs => (Thrown "database error", with_statementFaults fs s)
    end.

(** [db.prepare("get" | "all", ...)] *)
Definition db_query {A} (q : Tables -> A) : t A :=
  bind statement (fun _ s => (Returned (q (tables s)), s)).

(** [db.prepare("run", ...)] *)
Definition db_run (u : Tables -> Tables) : t unit :=
  bind statement (fun _ s => (Returned tt, with_tables (u (tables s)) s)).
End Task.

Notation "x <- m ;; k" := (Task.bind m (fun x => k))
  (at level 61, m at next level, right associativity) : task_scope.
Notation "m ;; k" := (Task.bind m (fun _ => k))
  (at level 61, right associativity) : task_scope.

(** ** The redis client *)

Definition TooManyActiveConnectionsError : string := "TooManyActiveConnectionsError".

(** [e instanceof TooManyActiveConnectionsError] *)
Definition instanceof_TooManyActiveConnectionsError (e : string) : bool :=
  String.eqb e TooManyActiveConnectionsError.

Fixpoint lookup (key : string) (k : list (string * Cached.entry)) : option Cached.entry :=
  match k with
  | [] => None
  | (x, e) :: k' => if String.eqb x key then Some e else lookup key k'
  end.

Definition remove (key : string) (k : list (string * Cached.entry))
  : list (string * Cached.entry) :=
  filter (fun xe => negb (String.eqb (fst xe) key)) k.

Definition put (key : string) (e : Cached.entry) (k : list (string * Cached.entry))
  : list (string * Cached.entry) :=
  (key, e) :: remove key k.

Module redis.
Section Commands.
(** Does a key match a pattern of redis. *)
Variable keyMatches : string -> string -> bool.

(** Modelled from the spec: the redis client (service/redis/redis) is not
    among the sources; the spec gives the cache as a read-through key-value
    cache whose entries are deleted one by one or by a wildcard pattern and
    otherwise go away by their own expiry (sections 1 and 4.4), on a
    backend with the commands of redis (section 6).  One command: the head
    of [commandFaults] says whether it is answered; a command that is not
    answered has no effect. *)
Definition command {A} (run : Site -> A * Site) : Task.t A :=
  fun s =>
    match commandFaults s with
    | Fails :: fs => (Thrown "redis error", with_commandFaults fs s)
    | TooManyActiveConnections :: fs =>
        (Thrown TooManyActiveConnectionsError, with_commandFaults fs s)
    | fs0 =>
        let (a, s') := run (with_commandFaults (tl fs0) s) in (Returned a, s')
    end.

(** Modelled from the spec: GET key, the value or [null]. *)
Definition get (key : string) : Task.t (option string) :=
  command (fun s => (option_map Cached.value (lookup key (keyspace s)), s)).

(** Modelled from the spec: [getWithCache] answers as GET does. *)
Definition getWithCache (key : string) : Task.t (option string) := get key.

(** Modelled from the spec: SETEX key seconds value. *)
Definition setEx (key : string) (seconds : Z) (value : string) : Task.t unit :=
  command (fun s =>
    (tt, with_keyspace
           (put key {| Cached.value := value; Cached.expiry := Some seconds |}
                (keyspace s)) s)).

(** Modelled from the spec: [setExWithCache] acts as SETEX does. *)
Definition setExWithCache (key : string) (seconds : Z) (value : string) : Task.t unit :=
  setEx key seconds value.

(** Modelled from the spec: SET key value, without expiry. *)
Definition setWithCache (key : string) (value : string) : Task.t unit :=
  command (fun s =>
    (tt, with_keyspace
           (put key {| Cached.value := value; Cached.expiry := None |}
                (keyspace s)) s)).

(** Modelled from the spec: DEL key. *)
Definition del (key : string) : Task.t unit :=
  command (fun s => (tt, with_keyspace (remove key (keyspace s)) s)).

(** Modelled from the spec: deleting every key that matches the pattern. *)
Definition delPattern (keyPattern : string) : Task.t unit :=
  command (fun s =>
    (tt, with_keyspace
           (filter (fun xe => negb (keyMatches keyPattern (fst xe))) (keyspace s)) s)).

(** Modelled from the spec: TTL key, the seconds that the key has left,
    -1 when it does not expire and -2 when there is no such key. *)
Definition ttl (key : string) : Task.t Z :=
  command (fun s =>
    (match lookup key (keyspace s) with
     | None => -2
     | Some e => match Cached.expiry e with Some t => t | None => -1 end
     end, s)).
End Commands.
End redis.

(** The keys of the cache (service/redis/redisKeys), taken as functions:
    their source is outside this development. *)
Record RedisKeys := {
  skipSegmentsKey : VideoID -> Service -> string;
  skipSegmentGroupsKey : VideoID -> string -> Service -> string;
  skipSegmentsHashKey : VideoIDHash -> Service -> string;
  videoLabelsKey : VideoIDHash -> Service -> string;
  videoLabelsHashKey : VideoIDHash -> Service -> string;
  reputationKey : UserID -> string;
  ratingHashKey : VideoIDHash -> Service -> string;
  userFeatureKey : HashedUserID -> Z -> string;
  portVideoCacheKey : VideoID -> string;
  portVideoByHashCacheKey : string -> string
}.

(** ** utils/queryCacher.ts *)

(** The argument of [clearSegmentCache]. *)
Module SegmentCacheInfo.
Record t := {
  videoID : VideoID;
  cid : option string;
  hashedVideoID : VideoIDHash;
  service : Service;
  userID : option UserID
}.
End SegmentCacheInfo.

(** What [getTraced] returns. *)
Module Traced.
Record t (T : Type) := {
  data : T;
  startTime : Z;
  dbStartTime : option Z;
  endTime : Z
}.
Arguments data {T} _.
Arguments startTime {T} _.
Arguments dbStartTime {T} _.
Arguments endTime {T} _.
End Traced.

Module QueryCacher.
Section QueryCacher.
Local Open Scope task_scope.

(** [config.redis?.enabled] is [redis_enabled config]. *)
Variable config : Config.
(** [config.redis?.expiryTime], in seconds *)
Variable expiryTime : Z.
Variable keyMatches : string -> string -> bool.
Variable keys : RedisKeys.
(** [getHash(videoID, 1)] *)
Variable getHash : VideoID -> VideoIDHash.

Section Get.
Context {T : Type}.
(** [JSON.stringify] and [JSON.parse] at type [T]; [None] is a
    [SyntaxError]. *)
Variable JSON_stringify : T -> string.
Variable JSON_parse : string -> option T.

(** Lines 21-32 of [get] and 56-71 of [getTraced]: the answer of the cache,
    if it has one. *)
Definition cachedReply (key : string) : Task.t (option T) :=
  Task.try_catch
    (reply <- redis.getWithCache key ;;
     if truthy_opt reply then
       match reply with
       | Some reply =>
           match JSON_parse reply with
           | Some v => Task.ret (Some v)
           | None => Task.throw "SyntaxError"
           end
       | None => Task.ret None
       end
     else Task.ret None)
    (fun e =>
       if instanceof_TooManyActiveConnectionsError e then Task.throw e
       else Task.ret None).

Definition get (fetchFromDB : Task.t T) (key : string) (ttl : Z) : Task.t T :=
  cached <- cachedReply key ;;
  match cached with
  | Some v => Task.ret v
  | None =>
      data <- fetchFromDB ;;
      (if ttl >=? 0 then
         Task.catch_log
           (redis.setExWithCache key (if ttl =? 0 then expiryTime else ttl)
                                 (JSON_stringify data))
       else
         Task.catch_log (redis.setWithCache key (JSON_stringify data))) ;;
      Task.ret data
  end.

Definition getTraced (fetchFromDB : Task.t T) (key : string) : Task.t (Traced.t T) :=
  startTime <- Task.Date_now ;;
  cached <- cachedReply key ;;
  match cached with
  | Some v =>
      endTime <- Task.Date_now ;;
      Task.ret {| Traced.data := v; Traced.startTime := startTime;
                  Traced.dbStartTime := None; Traced.endTime := endTime |}
  | None =>
      dbStartTime <- Task.Date_now ;;
      data <- fetchFromDB ;;
      Task.catch_log (redis.setExWithCache key expiryTime (JSON_stringify data)) ;;
      endTime <- Task.Date_now ;;
      Task.ret {| Traced.data := data; Traced.startTime := startTime;
                  Traced.dbStartTime := Some dbStartTime; Traced.endTime := endTime |}
  end.
End Get.

Definition clearKey (key : string) : Task.t unit :=
  Task.catch_log (redis.del key).

Definition clearKeyPattern (keyPattern : string) : Task.t unit :=
  Task.catch_log (redis.delPattern keyMatches keyPattern).

Definition clearSegmentCache (videoInfo : option SegmentCacheInfo.t) : Task.t unit :=
  match videoInfo with
  | Some videoInfo =>
      Task.catch_log
        (redis.del (skipSegmentsKey keys (SegmentCacheInfo.videoID videoInfo)
                                    (SegmentCacheInfo.service videoInfo))) ;;
      (if negb (truthy_opt (SegmentCacheInfo.cid videoInfo))
          || match SegmentCacheInfo.cid videoInfo with
             | Some c => String.eqb c "*"
             | None => false
             end
       then
         clearKeyPattern
           (skipSegmentGroupsKey keys (SegmentCacheInfo.videoID videoInfo) "*"
                                 (SegmentCacheInfo.service videoInfo))
       else
         Task.catch_log
           (redis.del
              (skipSegmentGroupsKey keys (SegmentCacheInfo.videoID videoInfo)
                 (match SegmentCacheInfo.cid videoInfo with
                  | Some c => c
                  | None => EmptyString
                  end)
                 (SegmentCacheInfo.service videoInfo)))) ;;
      Task.catch_log
        (redis.del (skipSegmentsHashKey keys (SegmentCacheInfo.hashedVideoID videoInfo)
                                        (SegmentCacheInfo.service videoInfo))) ;;
      Task.catch_log
        (redis.del (videoLabelsKey keys (SegmentCacheInfo.hashedVideoID videoInfo)
                                   (SegmentCacheInfo.service videoInfo))) ;;
      Task.catch_log
        (redis.del (videoLabelsHashKey keys (SegmentCacheInfo.hashedVideoID videoInfo)
                                       (SegmentCacheInfo.service videoInfo))) ;;
      (match SegmentCacheInfo.userID videoInfo with
       | Some userID =>
           if truthy userID then Task.catch_log (redis.del (reputationKey keys userID))
           else Task.ret tt
       | None => Task.ret tt
       end)
  | None => Task.ret tt
  end.

Definition clearSegmentCacheByID (videoID : VideoID) (cid : option string) : Task.t unit :=
  if truthy videoID then
    clearSegmentCache
      (Some {| SegmentCacheInfo.videoID := videoID; SegmentCacheInfo.cid := cid;
               SegmentCacheInfo.hashedVideoID := getHash videoID;
               SegmentCacheInfo.service := Service.YouTube;
               SegmentCacheInfo.userID := None |})
  else Task.ret tt.

(** The date is given in milliseconds, as [Date.now()] is. *)
Definition getKeyLastModified (key : string) : Task.t Z :=
  if negb (redis_enabled config) then Task.throw "ETag - Redis not enabled"
  else
    Task.try_catch
      (ttl <- redis.ttl key ;;
       if ttl <=? 0 then Task.Date_now
       else
         let sinceLive := expiryTime - ttl in
         now <- Task.Date_now ;;
         let now := now / 1000 in
         Task.ret ((now - sinceLive) * 1000))
      (fun _ => Task.throw "ETag - Redis error").

Definition clearRatingCache (videoInfo : option (VideoIDHash * Service)) : Task.t unit :=
  match videoInfo with
  | Some (hashedVideoID, service) =>
      Task.catch_log (redis.del (ratingHashKey keys hashedVideoID service))
  | None => Task.ret tt
  end.

Definition clearFeatureCache (userID : HashedUserID) (feature : Z) : Task.t unit :=
  Task.catch_log (redis.del (userFeatureKey keys userID feature)).

Definition clearPortVideoCache (videoID : VideoID) (prefix : string) : Task.t unit :=
  Task.catch_log (redis.del (portVideoCacheKey keys videoID)) ;;
  Task.catch_log (redis.del (portVideoByHashCacheKey keys prefix)) ;;
  Task.catch_log (redis.del ("updatePortSegment:" +++ videoID)).
End QueryCacher.
End QueryCacher.

(** ** dao/skipSegment.ts *)

Fixpoint insert_by_startTime (r : DBSegment.row) (l : list DBSegment.row)
  : list DBSegment.row :=
  match l with
  | [] => [r]
  | x :: l' =>
      if QArith_base.Qle_bool (DBSegment.startTime r) (DBSegment.startTime x)
      then r :: l
      else x :: insert_by_startTime r l'
  end.

(** ORDER BY "startTime" *)
Definition order_by_startTime (l : list DBSegment.row) : list DBSegment.row :=
  fold_right insert_by_startTime [] l.

Section SkipSegment.
Local Open Scope task_scope.

Variable expiryTime : Z.
(** [value LIKE pattern] of the store *)
Variable LIKE : string -> string -> bool.
(** [skipSegmentsKey] and [skipSegmentsHashKey] of utils/redisKeys *)
Variable skipSegmentsKey : VideoID -> Service -> string.
Variable skipSegmentsHashKey : VideoIDHash -> Service -> string.
Variable JSON_stringify : list DBSegment.row -> string.
Variable JSON_parse : string -> option (list DBSegment.row).

(** SELECT ... FROM "sponsorTimes" WHERE "hashedVideoID" LIKE ? AND
    "service" = ? ORDER BY "startTime".  The rows are given with all their
    columns. *)
Definition segmentsByHash (pattern : string) (service : Service) (t : Tables)
  : list DBSegment.row :=
  order_by_startTime
    (filter (fun r =>
               LIKE (SponsorTimes.hashedVideoID (DBSegment.columns r)) pattern
               && String.eqb (SponsorTimes.service (DBSegment.columns r)) service)
            (segments t)).


Definition getSegmentsFromDBByHash (hashedVideoIDPrefix : VideoIDHash) (service : Service)
  : Task.t (list DBSegment.row) :=
  let fetchFromDB :=
    Task.db_query (segmentsByHash (hashedVideoIDPrefix +++ "%") service) in
  if Z.of_nat (String.length hashedVideoIDPrefix) =? 4 then
    QueryCacher.get expiryTime JSON_stringify JSON_parse fetchFromDB
                    (skipSegmentsHashKey hashedVideoIDPrefix service) 0
  else fetchFromDB.

End SkipSegment.

(** ** dao/videoInfo *)

(** The fields of [videoDetails] (utils/getVideoDetails) that are stored. *)
Module videoDetails.
Record t := {
  videoId : VideoID;
  authorId : option string;
  title : option string;
  published : option Z
}.
End videoDetails.

(** [s || EmptyString] *)
Definition or_empty (s : option string) : string :=
  match s with Some s => s | None => EmptyString end.

(** [n || 0] *)
Definition or_zero (n : option Z) : Z :=
  match n with Some n => n | None => 0 end.

(** INSERT INTO "videoInfo" ... SELECT ?, ?, ?, ? WHERE NOT EXISTS (SELECT 1
    FROM "videoInfo" WHERE "videoID" = ?) *)
Definition insertVideoInfo (r : VideoInfo.row) (t : Tables) : Tables :=
  if existsb (fun x => String.eqb (VideoInfo.videoID x) (VideoInfo.videoID r)) (videoInfo t)
  then t
  else with_videoInfo (videoInfo t ++ [r]) t.

(** The argument is [None] when the caller has no details ([null]):
    reading [videoId] of it is a [TypeError]. *)
Definition saveVideoInfo (biliVideoDetail : option videoDetails.t) : Task.t unit :=
  match biliVideoDetail with
  | Some d =>
      Task.db_run
        (insertVideoInfo
           {| VideoInfo.videoID := videoDetails.videoId d;
              VideoInfo.channelID := or_empty (videoDetails.authorId d);
              VideoInfo.title := or_empty (videoDetails.title d);
              VideoInfo.published := or_zero (videoDetails.published d) |})
  | None => Task.throw "TypeError"
  end.

(** ** Answers of the routes *)

Inductive Sent (B : Type) :=
| SendStatus (code : Z)
| Send (code : Z) (text : string)
| Json (code : Z) (body : B).
Arguments SendStatus {B} code.
Arguments Send {B} code text.
Arguments Json {B} code body.

Definition statusOf {B} (r : Sent B) : Z :=
  match r with
  | SendStatus c | Send c _ | Json c _ => c
  end.

(** ** routes/feature.ts *)

Section Feature.
Local Open Scope task_scope.

Variable env : Collaborators.
Variable keys : RedisKeys.
(** [config.adminUserID] *)
Variable config_adminUserID : HashedUserID.
(** The members of [Feature] (types/user.model) that can be granted. *)
Variables ChapterSubmitter FillerSubmitter DeArrowTitleSubmitter : Z.

Definition allowedFeatures_vip : list Z :=
  [ChapterSubmitter; FillerSubmitter; DeArrowTitleSubmitter].

Definition allowedFeatures_admin : list Z :=
  [ChapterSubmitter; FillerSubmitter; DeArrowTitleSubmitter].

Definition hasFeature (userID : HashedUserID) (feature : Z) (r : UserFeatures.row) : bool :=
  String.eqb (UserFeatures.userID r) userID && (UserFeatures.feature r =? feature).

(** SELECT "feature" from "userFeatures" WHERE "userID" = ? AND "feature" = ? *)
Definition featureAdded (userID : HashedUserID) (feature : Z) (t : Tables) : option Z :=
  option_map UserFeatures.feature (find (hasFeature userID feature) (userFeatures t)).

(** INSERT INTO "userFeatures" ... *)
Definition insertFeature (r : UserFeatures.row) (t : Tables) : Tables :=
  with_userFeatures (userFeatures t ++ [r]) t.

(** DELETE FROM "userFeatures" WHERE "userID" = ? AND "feature" = ? *)
Definition deleteFeature (userID : HashedUserID) (feature : Z) (t : Tables) : Tables :=
  with_userFeatures
    (filter (fun r => negb (hasFeature userID feature r)) (userFeatures t)) t.

(** The fields of the body are [None] when they are missing; [feature] is
    [parseInt(req.body.feature)]. *)
Definition addFeature (userID adminUserID : option string) (feature : jsnum)
  (enabled : option string) : Task.t (Sent unit) :=
  let enabled :=
    negb (match enabled with Some e => String.eqb e "false" | None => false end) in
  match userID, adminUserID with
  | Some userID, Some adminUserID =>
      if negb (truthy userID) || negb (truthy adminUserID) then
        (* invalid request *)
        Task.ret (SendStatus 400)
      else
        (* hash the userID *)
        let adminUserIDInput := getHashCache env adminUserID in
        let isAdmin := String.eqb adminUserIDInput config_adminUserID in
        let isVIP := isUserVIP env adminUserIDInput || isAdmin in
        if negb isVIP then
          (* not authorized *)
          Task.ret (SendStatus 403)
        else
          Task.try_catch
            (let currentAllowedFeatures :=
               if isAdmin then allowedFeatures_admin else allowedFeatures_vip in
             match feature with
             | JsNum f =>
                 if existsb (Z.eqb f) currentAllowedFeatures then
                   (if enabled then
                      featureAdded <- Task.db_query (featureAdded userID f) ;;
                      if negb (isSome featureAdded) then
                        now <- Task.Date_now ;;
                        Task.db_run
                          (insertFeature
                             {| UserFeatures.userID := userID;
                                UserFeatures.feature := f;
                                UserFeatures.issuerUserID := adminUserID;
                                UserFeatures.timeSubmitted := now |})
                      else Task.ret tt
                    else
                      Task.db_run (deleteFeature userID f)) ;;
                   QueryCacher.clearFeatureCache keys userID f ;;
                   Task.ret (SendStatus 200)
                 else Task.ret (Send 400 "Invalid feature")
             | _ =>
                 (* NaN is in no list *)
                 Task.ret (Send 400 "Invalid feature")
             end)
            (fun e =>
               Task.Logger_error e ;;
               Task.ret (SendStatus 500))
  | _, _ => Task.ret (SendStatus 400)
  end.
End Feature.

(** ** The port-video route *)

Section PortVideoRoute.
Local Open Scope task_scope.

(** [validate] (utils/bilibiliID), [durationsAllEqual] (utils/durationUtil)
    and [getPortVideoByBvIDCached] (dao/portVideo), taken as they are:
    their sources are outside this development.  The reader answers with
    the records, or with [None] for [null]. *)
Variable validate : VideoID -> bool.
Variable durationsAllEqual : list VideoDuration -> bool.
Variable getPortVideoByBvIDCached : VideoID -> Task.t (option (list PortVideo.row)).

(** UPDATE "portVideo" SET "hidden" = 1 WHERE "UUID" = ? *)
Definition hidePortVideo (UUID : string) (t : Tables) : Tables :=
  with_portVideo
    (update_where
       (fun r => String.eqb (PortVideo.UUID (PortVideoDB.portVideo r)) UUID)
       (PortVideoDB.set_hidden 1) (portVideo t)) t.

(** UPDATE "sponsorTimes" SET "hidden" = ? WHERE "portUUID" = ? *)
Definition hidePortedSegments (h : Z) (UUID : string) (t : Tables) : Tables :=
  with_segments
    (update_where (fun r => String.eqb (DBSegment.portUUID r) UUID)
                  (DBSegment.set_hidden h) (segments t)) t.

Definition checkDuration (portVideo : PortVideo.row) (duration : VideoDuration)
  : Task.t bool :=
  if durationsAllEqual [duration; PortVideo.biliDuration portVideo;
                        PortVideo.ytbDuration portVideo] then
    Task.ret true
  else
    (* mark the record as invalid *)
    Task.db_run (hidePortVideo (PortVideo.UUID portVideo)) ;;
    Task.db_run (hidePortedSegments HiddenType.MismatchHidden (PortVideo.UUID portVideo)) ;;
    Task.ret false.

(** [parseFloat(req.query.duration)] is [None] when it is NaN. *)
Definition getPortVideo (bvID : VideoID) (parsedDuration : option VideoDuration)
  : Task.t (Sent PortVideoInterface.t) :=
  let duration := or_zero parsedDuration in
  (* validate parameters *)
  if negb (validate bvID) then
    Task.ret (Send 400 "无效BV号")
  else
    (* get cached data from redis *)
    portVideoInfo <- getPortVideoByBvIDCached bvID ;;
    match portVideoInfo with
    | None | Some [] => Task.ret (SendStatus 404)
    | Some (portVideo :: others) =>
        (if (2 <=? Z.of_nat (List.length (portVideo :: others))) then
           (* multiple found *)
           Task.Logger_error ("Multiple port video matches found for " +++ bvID)
         else Task.ret tt) ;;
        (if duration >? 0 then
           _ <- checkDuration portVideo duration ;; Task.ret tt
         else Task.ret tt) ;;
        Task.ret
          (Json 200
             {| PortVideoInterface.bvID := PortVideo.bvID portVideo;
                PortVideoInterface.cid := None;
                PortVideoInterface.ytbID := PortVideo.ytbID portVideo;
                PortVideoInterface.UUID := PortVideo.UUID portVideo;
                PortVideoInterface.votes := PortVideo.votes portVideo;
                PortVideoInterface.locked := PortVideo.locked portVideo |})
    end.
End PortVideoRoute.

(** ** Vocabulary for the properties of these functions *)

(** The state in which the command after the next one is sent. *)
Definition afterCommand (s : Site) : Site := with_commandFaults (tl (commandFaults s)) s.

(** The second state has the tables, the statement faults and the clock of
    the first: they differ in redis and in the log at most. *)
Definition sameDatabase (s s' : Site) : Prop :=
  tables s' = tables s /\ statementFaults s' = statementFaults s /\ clock s' = clock s.

(** The second state differs from the first in the statement faults at
    most. *)
Definition sameButStatements (s s0 : Site) : Prop :=
  tables s0 = tables s /\ keyspace s0 = keyspace s /\ commandFaults s0 = commandFaults s
  /\ clock s0 = clock s /\ logged s0 = logged s.

(** The state after [get] has cached [data] under [key]. *)
Definition filled {T} (JSON_stringify : T -> string) (expiryTime : Z) (key : string)
  (ttl : Z) (data : T) (s : Site) : Site :=
  with_keyspace
    (put key {| Cached.value := JSON_stringify data;
                Cached.expiry := if ttl >=? 0 then Some (if ttl =? 0 then expiryTime else ttl)
                                 else None |}
         (keyspace s)) s.

(** The keys that [clearSegmentCache] is to drop for a video. *)
Definition dropped (keyMatches : string -> string -> bool) (keys : RedisKeys)
  (videoInfo : SegmentCacheInfo.t) (k : string) : bool :=
  let videoID := SegmentCacheInfo.videoID videoInfo in
  let hashedVideoID := SegmentCacheInfo.hashedVideoID videoInfo in
  let service := SegmentCacheInfo.service videoInfo in
  String.eqb k (skipSegmentsKey keys videoID service)
  || match SegmentCacheInfo.cid videoInfo with
     | Some c =>
         if negb (truthy c) || String.eqb c "*"
         then keyMatches (skipSegmentGroupsKey keys videoID "*" service) k
         else String.eqb k (skipSegmentGroupsKey keys videoID c service)
     | None => keyMatches (skipSegmentGroupsKey keys videoID "*" service) k
     end
  || String.eqb k (skipSegmentsHashKey keys hashedVideoID service)
  || String.eqb k (videoLabelsKey keys hashedVideoID service)
  || String.eqb k (videoLabelsHashKey keys hashedVideoID service)
  || match SegmentCacheInfo.userID videoInfo with
     | Some u => truthy u && String.eqb k (reputationKey keys u)
     | None => false
     end.

(** Every entry of the second keyspace is an entry of the first, and the
    database is the same. *)
Definition shrinks (s s' : Site) : Prop :=
  sameDatabase s s'
  /\ forall k e, lookup k (keyspace s') = Some e -> lookup k (keyspace s) = Some e.

(** The state without the keys that satisfy [p]. *)
Definition without (p : string -> bool) (s : Site) : Site :=
  with_keyspace (filter (fun xe => negb (p (fst xe))) (keyspace s)) s.

(** The computation returns, removes nothing but keys, and removes the
    keys that satisfy [p] when redis answers. *)
Definition deletes (p : string -> bool) (m : Task.t unit) : Prop :=
  forall s, exists s',
    m s = (Returned tt, s')
    /\ shrinks s s'
    /\ (commandFaults s = [] -> s' = without p s).

(** The rows of "userFeatures" that grant [feature] to [userID], and the
    others. *)
Definition grants (userID : HashedUserID) (feature : Z) (t : Tables) : list UserFeatures.row :=
  filter (hasFeature userID feature) (userFeatures t).

Definition otherGrants (userID : HashedUserID) (feature : Z) (t : Tables)
  : list UserFeatures.row :=
  filter (fun r => negb (hasFeature userID feature r)) (userFeatures t).

(** The row of "videoInfo" that a SELECT by [videoID] returns. *)
Definition videoInfoOf (videoID : VideoID) (t : Tables) : option VideoInfo.row :=
  find (fun r => String.eqb (VideoInfo.videoID r) videoID) (videoInfo t).

(** What [getPortVideo] sends for a record. *)
Definition portVideoInterface (portVideo : PortVideo.row) : PortVideoInterface.t :=
  {| PortVideoInterface.bvID := PortVideo.bvID portVideo;
     PortVideoInterface.cid := None;
     PortVideoInterface.ytbID := PortVideo.ytbID portVideo;
     PortVideoInterface.UUID := PortVideo.UUID portVideo;
     PortVideoInterface.votes := PortVideo.votes portVideo;
     PortVideoInterface.locked := PortVideo.locked portVideo |}.

(** ** Sample sites *)

Module SiteSample.
Definition keys : RedisKeys :=
  {| skipSegmentsKey := fun videoID service => "segments." +++ service +++ ".videoID." +++ videoID;
     skipSegmentGroupsKey := fun videoID cid service =>
       "segments.groups." +++ service +++ ".videoID." +++ videoID +++ "." +++ cid;
     skipSegmentsHashKey := fun hash service => "segments." +++ service +++ "." +++ hash;
     videoLabelsKey := fun hash service => "labels." +++ service +++ ".videoID." +++ hash;
     videoLabelsHashKey := fun hash service => "labels." +++ service +++ "." +++ hash;
     reputationKey := fun userID => "reputation.user." +++ userID;
     ratingHashKey := fun hash service => "rating." +++ service +++ "." +++ hash;
     userFeatureKey := fun userID _ => "user." +++ userID +++ ".feature";
     portVideoCacheKey := fun videoID => "port.video." +++ videoID;
     portVideoByHashCacheKey := fun prefix => "port.hash." +++ prefix |}.


(** A port of "BV1" from "yt1", 100 seconds long on both sides. *)
Definition port : PortVideo.row :=
  {| PortVideo.bvID := "BV1"; PortVideo.cid := "1"; PortVideo.ytbID := "yt1";
     PortVideo.UUID := "port-1"; PortVideo.votes := 0; PortVideo.locked := false;
     PortVideo.hidden := 0; PortVideo.biliDuration := 100; PortVideo.ytbDuration := 100;
     PortVideo.timeSubmitted := 1000; PortVideo.hashedBvID := "hb" |}.

(** No segment, no feature, no video; the port above. *)
Definition emptyTables : Tables :=
  {| segments := []; userFeatures := []; videoInfo := [];
     portVideo := [{| PortVideoDB.portVideo := port; PortVideoDB.userID := "#user-u";
                      PortVideoDB.userAgent := "agent" |}] |}.

(** Nothing is cached and nothing fails. *)
Definition site : Site :=
  {| tables := emptyTables; keyspace := []; statementFaults := []; commandFaults := [];
     logged := []; clock := 100000000 |}.

(** Every duration of the list is the first one. *)
Definition durationsAllEqual (l : list VideoDuration) : bool :=
  match l with
  | [] => true
  | d :: l' => forallb (Z.eqb d) l'
  end.
End SiteSample.
(** * Properties *)

(** ** Reasoning about computations *)

Lemma hoare_ret {A} (P : World -> Prop) (a : A) (Q : A -> World -> Prop) E :
  (forall w, P w -> Q a w) -> hoare P (ret a) Q E.
Proof. intros H w Hw. exact (H w Hw). Qed.

Lemma hoare_throw {A} (P : World -> Prop) e (Q : A -> World -> Prop) (E : World -> Prop) :
  (forall w, P w -> E w) -> hoare P (throw e) Q E.
Proof. intros H w Hw. exact (H w Hw). Qed.

Lemma hoare_bind {A B} (P : World -> Prop) (m : M A) (k : A -> M B)
  (R : A -> World -> Prop) (Q : B -> World -> Prop) E :
  hoare P m R E -> (forall a, hoare (R a) (k a) Q E) -> hoare P (bind m k) Q E.
Proof.
  intros Hm Hk w Hw. unfold bind. specialize (Hm w Hw).
  destruct (m w) as [[a|e] w']; [exact (Hk a w' Hm) | exact Hm].
Qed.

Lemma hoare_try_catch {A} (P : World -> Prop) (m : M A) (h : string -> M A)
  (Q : A -> World -> Prop) (E' E : World -> Prop) :
  hoare P m Q E' -> (forall e, hoare E' (h e) Q E) -> hoare P (try_catch m h) Q E.
Proof.
  intros Hm Hh w Hw. unfold try_catch. specialize (Hm w Hw).
  destruct (m w) as [[a|e] w']; [exact Hm | exact (Hh e w' Hm)].
Qed.

Lemma hoare_weaken {A} (P P' : World -> Prop) (m : M A)
  (Q Q' : A -> World -> Prop) (E E' : World -> Prop) :
  hoare P' m Q' E' ->
  (forall w, P w -> P' w) -> (forall a w, Q' a w -> Q a w) -> (forall w, E' w -> E w) ->
  hoare P m Q E.
Proof.
  intros H HP HQ HE w Hw. specialize (H w (HP w Hw)).
  destruct (m w) as [[a|e] w']; auto.
Qed.

Lemma preserves_ret {A} I (a : A) : preserves I (ret a).
Proof. apply hoare_ret; auto. Qed.

Lemma preserves_throw {A} I e : preserves I (@throw A e).
Proof. apply hoare_throw; auto. Qed.

Lemma preserves_bind {A B} I (m : M A) (k : A -> M B) :
  preserves I m -> (forall a, preserves I (k a)) -> preserves I (bind m k).
Proof. intros Hm Hk. eapply hoare_bind; [exact Hm | exact Hk]. Qed.

Lemma preserves_try_catch {A} I (m : M A) h :
  preserves I m -> (forall e, preserves I (h e)) -> preserves I (try_catch m h).
Proof. intros Hm Hh. eapply hoare_try_catch; [exact Hm | exact Hh]. Qed.

Lemma same_stores_refl w : same_stores w w.
Proof. repeat split. Qed.

Lemma benign_ret : benign (ret tt).
Proof. intros w. exists w. split; [reflexivity | apply same_stores_refl]. Qed.

Lemma with_redisFaults_same w : redisFaults w = [] -> with_redisFaults [] w = w.
Proof. destruct w. cbn. intros ->. reflexivity. Qed.

Lemma run_redis_set_nx key timeout w :
  redisFaults w = [] ->
  redis_set_nx key timeout w
  = if mem key (redisKeys w)
    then (Returned None, w)
    else (Returned (Some "OK"),
          with_redis ((key, now w + timeout) :: without_key key (redis w)) w).
Proof.
  intros Hrf. unfold redis_set_nx. rewrite Hrf. cbn [tl].
  rewrite (with_redisFaults_same w Hrf). reflexivity.
Qed.

Lemma run_redis_del key w :
  redisFaults w = [] ->
  redis_del key w = (Returned tt, with_redis (without_key key (redis w)) w).
Proof.
  intros Hrf. unfold redis_del. rewrite Hrf. cbn [tl].
  rewrite (with_redisFaults_same w Hrf). reflexivity.
Qed.

(** A key that has just been set with a positive lease is there. *)
Lemma mem_redisKeys_set key timeout r w :
  0 < timeout ->
  mem key (redisKeys (with_redis ((key, now w + timeout) :: r) w)) = true.
Proof.
  intros Hpos. unfold redisKeys, live. cbn [redis now with_redis filter snd].
  replace (now w <? now w + timeout) with true by (symmetry; apply Z.ltb_lt; lia).
  cbn [map fst mem]. rewrite String.eqb_refl. reflexivity.
Qed.

Lemma benign_del key : benign (catch_log (redis_del key)).
Proof.
  intros w. unfold catch_log, try_catch, redis_del, Logger_error.
  destruct (redisFaults w) as [|[|] fs]; eexists; (split; [reflexivity | repeat split]).
Qed.

(** ** The lock *)

Lemma acquireLock_cases config key timeout w :
  exists l w', acquireLock config key timeout w = (Returned l, w')
               /\ same_stores w w'
               /\ (forall u, l = LockHeld u -> benign u).
Proof.
  unfold acquireLock. destruct (redis_enabled config); cbn [negb].
  - unfold try_catch, bind, redis_set_nx, Logger_error, ret.
    destruct (redisFaults w) as [|[|] fs]; cbn [tl].
    + destruct (mem key _); cbn [isSome];
        eexists; eexists; (split; [reflexivity | split; [repeat split |]]);
        intros u [= <-] || (intros u Hu; discriminate Hu). apply benign_del.
    + eexists; eexists; (split; [reflexivity | split; [repeat split |]]).
      intros u [= <-]. apply benign_ret.
    + destruct (mem key _); cbn [isSome];
        eexists; eexists; (split; [reflexivity | split; [repeat split |]]);
        intros u [= <-] || (intros u Hu; discriminate Hu). apply benign_del.
  - exists (LockHeld (ret tt)), w. split; [reflexivity | split; [apply same_stores_refl |]].
    intros u [= <-]. apply benign_ret.
Qed.

(** C9. [acquireLock] never throws.  It returns a held lock when redis is
    disabled in the configuration (the world is left as it was) and when
    the SET command throws (the error is then logged); it returns status
    false exactly when redis is enabled and the SET NX command completes
    with a null reply, that is without acquiring the key.  The [unlock] of
    a held lock always returns: a failing DEL is logged, not thrown. *)
Theorem acquireLock_fail_open config key timeout w :
  (exists lock w', acquireLock config key timeout w = (Returned lock, w')) /\
  (redis_enabled config = false ->
   exists unlock, acquireLock config key timeout w = (Returned (LockHeld unlock), w)) /\
  (redis_enabled config = true ->
   forall e w1, redis_set_nx key timeout w = (Thrown e, w1) ->
   exists unlock,
     acquireLock config key timeout w
     = (Returned (LockHeld unlock), with_errorLog (e :: errorLog w1) w1)) /\
  (forall w', acquireLock config key timeout w = (Returned LockFailed, w') <->
              redis_enabled config = true
              /\ redis_set_nx key timeout w = (Returned None, w')) /\
  (forall unlock w', acquireLock config key timeout w = (Returned (LockHeld unlock), w') ->
                     forall w0, exists w1, unlock w0 = (Returned tt, w1)).
Proof.
  split; [| split; [| split; [| split]]].
  - destruct (acquireLock_cases config key timeout w) as (l & w' & H & _).
    exists l, w'. exact H.
  - intros Hd. unfold acquireLock. rewrite Hd. cbn [negb]. eexists. reflexivity.
  - intros He e w1 Hset. unfold acquireLock. rewrite He. cbn [negb].
    unfold try_catch, bind. rewrite Hset. cbn. eexists. reflexivity.
  - intros w'. unfold acquireLock.
    destruct (redis_enabled config); cbn [negb].
    + unfold try_catch, bind.
      destruct (redis_set_nx key timeout w) as [[[s|]|e] w1]; cbn;
        (split; [intros H | intros [_ H]]); try discriminate H.
      * split; [reflexivity | congruence].
      * congruence.
    + split; [intros H | intros [H _]]; discriminate H.
  - intros unlock w' H w0.
    destruct (acquireLock_cases config key timeout w) as (l & w1 & H1 & _ & Hb).
    rewrite H1 in H. injection H as Hl _.
    destruct (Hb unlock Hl w0) as (w2 & Hu & _). exists w2. exact Hu.
Qed.

(** A run of C9's theorem: redis is enabled and the SET command fails. *)
Lemma acquireLock_fail_open_witness :
  exists unlock,
    acquireLock Sample.config "k" defaultTimeout
                (with_redisFaults [true] (Sample.world [] []))
    = (Returned (LockHeld unlock),
       with_errorLog ["redis error"] (Sample.world [] [])).
Proof.
  destruct (acquireLock_fail_open Sample.config "k" defaultTimeout
              (with_redisFaults [true] (Sample.world [] [])))
    as (_ & _ & H & _).
  exact (H eq_refl "redis error" (Sample.world [] []) eq_refl).
Defined.

(** ** Running a computation when no statement fails *)

Lemma statement_ok w : dbFaults w = [] -> statement w = (Returned tt, w).
Proof. intros H. unfold statement. rewrite H. reflexivity. Qed.

Lemma run_db_query {A B} (q : Database -> A) (k : A -> M B) w :
  dbFaults w = [] -> bind (db_query q) k w = k (q (db w)) w.
Proof. intros H. unfold db_query, bind. rewrite (statement_ok w H). reflexivity. Qed.

Lemma run_privateDB_query {A B} (q : PrivateDB -> A) (k : A -> M B) w :
  dbFaults w = [] -> bind (privateDB_query q) k w = k (q (privateDB w)) w.
Proof. intros H. unfold privateDB_query, bind. rewrite (statement_ok w H). reflexivity. Qed.

Lemma run_db_run {B} (u : Database -> Database) (k : unit -> M B) w :
  dbFaults w = [] -> bind (db_run u) k w = k tt (with_db (u (db w)) w).
Proof. intros H. unfold db_run, bind. rewrite (statement_ok w H). reflexivity. Qed.

Lemma run_privateDB_run {B} (u : PrivateDB -> PrivateDB) (k : unit -> M B) w :
  dbFaults w = [] -> bind (privateDB_run u) k w = k tt (with_privateDB (u (privateDB w)) w).
Proof. intros H. unfold privateDB_run, bind. rewrite (statement_ok w H). reflexivity. Qed.

Lemma run_call_unlock {B} (u : M unit) (k : unit -> M B) w :
  benign u ->
  exists w', bind (call_unlock u) k w = k tt w'
             /\ db w' = db w /\ privateDB w' = privateDB w /\ dbFaults w' = dbFaults w
             /\ unlockCalls w' = S (unlockCalls w) /\ detached w' = detached w
             /\ now w' = now w.
Proof.
  intros Hb. unfold bind, call_unlock.
  destruct (Hb (with_unlockCalls (S (unlockCalls w)) w))
    as (w' & Hu & Hd & Hp & Hf & Hc & Hdt & Hn).
  exists w'. rewrite Hu. repeat split; assumption.
Qed.

Lemma run_Date_now {B} (k : Z -> M B) w : bind Date_now k w = k (now w) w.
Proof. reflexivity. Qed.

Lemma run_ret {A B} (a : A) (k : A -> M B) w : bind (ret a) k w = k a w.
Proof. reflexivity. Qed.

Lemma run_spawn {B} t (k : unit -> M B) w :
  bind (spawn t) k w = k tt (with_detached (t :: detached w) w).
Proof. reflexivity. Qed.

Lemma bind_assoc {A B C} (m : M A) (f : A -> M B) (g : B -> M C) w :
  bind (bind m f) g w = bind m (fun a => bind (f a) g) w.
Proof. unfold bind. destruct (m w) as [[a|e] w']; reflexivity. Qed.

Ltac nofault :=
  cbn [dbFaults with_db with_privateDB with_detached with_unlockCalls with_errorLog];
  assumption.

Ltac mrun :=
  repeat first
    [ rewrite bind_assoc
    | rewrite run_ret
    | rewrite run_Date_now
    | rewrite run_spawn
    | rewrite run_db_query by nofault
    | rewrite run_privateDB_query by nofault
    | rewrite run_db_run by nofault
    | rewrite run_privateDB_run by nofault ].

(** ** Invariants of the two databases, whatever fails *)

Lemma hoare_pure {A} (phi : Prop) (P : World -> Prop) (m : M A) Q E :
  (phi -> hoare P m Q E) -> hoare (fun w => phi /\ P w) m Q E.
Proof. intros H w [Hphi Hw]. exact (H Hphi w Hw). Qed.

Lemma unchanged_db_query {A} d p n (q : Database -> A) :
  hoare (unchanged d p n) (db_query q)
        (fun a w => a = q d /\ unchanged d p n w) (unchanged d p n).
Proof.
  intros w (Hd & Hp & Hn). unfold db_query, bind, statement.
  destruct (dbFaults w) as [|[|] fs]; cbn; repeat split; auto; congruence.
Qed.

Lemma unchanged_privateDB_query {A} d p n (q : PrivateDB -> A) :
  hoare (unchanged d p n) (privateDB_query q)
        (fun a w => a = q p /\ unchanged d p n w) (unchanged d p n).
Proof.
  intros w (Hd & Hp & Hn). unfold privateDB_query, bind, statement.
  destruct (dbFaults w) as [|[|] fs]; cbn; repeat split; auto; congruence.
Qed.

Lemma unchanged_call_unlock d p n u :
  benign u -> preserves (unchanged d p n) (call_unlock u).
Proof.
  intros Hb w (Hd & Hp & Hn). unfold call_unlock.
  destruct (Hb (with_unlockCalls (S (unlockCalls w)) w))
    as (w' & Hu & Hd' & Hp' & _ & _ & _ & Hn').
  rewrite Hu. cbn in *. repeat split; congruence.
Qed.

Lemma unchanged_Date_now d p n :
  hoare (unchanged d p n) Date_now (fun a w => a = n /\ unchanged d p n w) (unchanged d p n).
Proof. intros w H. cbn. split; [apply H | exact H]. Qed.

Lemma unchanged_spawn d p n t : preserves (unchanged d p n) (spawn t).
Proof. intros w H. exact H. Qed.

Lemma unchanged_Logger_error d p n s : preserves (unchanged d p n) (Logger_error s).
Proof. intros w H. exact H. Qed.

Lemma unchanged_unlock_ret d p n u (r : Response) :
  benign u -> preserves (unchanged d p n) (call_unlock u ;; ret r).
Proof.
  intros Hb. apply preserves_bind; [apply unchanged_call_unlock, Hb |].
  intros _. apply preserves_ret.
Qed.

(** ** Tables *)

Lemma find_update_where {R} (c : R -> bool) (f : R -> R) (l : list R) :
  (forall r, c r = true -> c (f r) = true) ->
  find c (update_where c f l) = option_map f (find c l).
Proof.
  intros Hf. induction l as [|r l IH]; [reflexivity |].
  cbn. destruct (c r) eqn:Hr.
  - rewrite (Hf r Hr). reflexivity.
  - rewrite Hr. exact IH.
Qed.

Lemma find_app {R} (c : R -> bool) (l l' : list R) :
  find c (l ++ l') = match find c l with Some r => Some r | None => find c l' end.
Proof.
  induction l as [|r l IH]; [reflexivity |]. cbn. destruct (c r); [reflexivity | exact IH].
Qed.

Lemma segmentByUUID_updateSegments UUID f d :
  (forall r, SponsorTimes.UUID (f r) = SponsorTimes.UUID r) ->
  segmentByUUID UUID (updateSegments UUID f d) = option_map f (segmentByUUID UUID d).
Proof.
  intros Hf. unfold segmentByUUID, updateSegments. cbn [sponsorTimes].
  apply find_update_where. intros r Hr. rewrite Hf. exact Hr.
Qed.

Lemma voteTypeOf_updateVote t o u UUID p :
  voteTypeOf u UUID (updateVote t o u UUID p)
  = option_map (fun _ => t) (voteTypeOf u UUID p).
Proof.
  unfold voteTypeOf, updateVote. cbn [votes with_votes].
  rewrite find_update_where; [| intros r Hr; exact Hr].
  destruct (find _ _); reflexivity.
Qed.

Lemma voteTypeOf_insertVote r u UUID p :
  voteTypeOf u UUID p = None ->
  isVoteOf u UUID r = true ->
  voteTypeOf u UUID (insertVote r p) = Some (Votes.type r).
Proof.
  unfold voteTypeOf, insertVote. cbn [votes with_votes]. intros Hn Hr.
  rewrite find_app. destruct (find _ (votes p)); [discriminate |].
  cbn. rewrite Hr. reflexivity.
Qed.

(** ** Invariants that speak of the databases only *)

Lemma onStores_db_query {A} I (q : Database -> A) : preserves (onStores I) (db_query q).
Proof.
  intros w H. unfold db_query, bind, statement.
  destruct (dbFaults w) as [|[|] fs]; exact H.
Qed.

Lemma onStores_privateDB_query {A} I (q : PrivateDB -> A) :
  preserves (onStores I) (privateDB_query q).
Proof.
  intros w H. unfold privateDB_query, bind, statement.
  destruct (dbFaults w) as [|[|] fs]; exact H.
Qed.

Lemma onStores_db_run (I : Database -> PrivateDB -> Prop) u :
  (forall d p, I d p -> I (u d) p) -> preserves (onStores I) (db_run u).
Proof.
  intros Hu w H. unfold db_run, bind, statement.
  destruct (dbFaults w) as [|[|] fs]; try exact H; apply Hu, H.
Qed.

Lemma onStores_privateDB_run (I : Database -> PrivateDB -> Prop) u :
  (forall d p, I d p -> I d (u p)) -> preserves (onStores I) (privateDB_run u).
Proof.
  intros Hu w H. unfold privateDB_run, bind, statement.
  destruct (dbFaults w) as [|[|] fs]; try exact H; apply Hu, H.
Qed.

Lemma onStores_call_unlock I u : benign u -> preserves (onStores I) (call_unlock u).
Proof.
  intros Hb w H. unfold call_unlock.
  destruct (Hb (with_unlockCalls (S (unlockCalls w)) w)) as (w' & Hu & Hd & Hp & _).
  rewrite Hu. unfold onStores in *. cbn in Hd, Hp. rewrite Hd, Hp. exact H.
Qed.

Lemma onStores_spawn I t : preserves (onStores I) (spawn t).
Proof. intros w H. exact H. Qed.

Lemma onStores_Logger_error I s : preserves (onStores I) (Logger_error s).
Proof. intros w H. exact H. Qed.

Lemma onStores_apiVideoDuration I env v c s :
  preserves (onStores I) (apiVideoDuration env v c s).
Proof.
  unfold apiVideoDuration.
  destruct (if String.eqb s Service.YouTube then getVideoDetails env v else None)
    as [page|]; [| apply preserves_ret].
  destruct (filter _ page); [apply preserves_throw | apply preserves_ret].
Qed.

Lemma onStores_updateSegmentVideoDuration (I : Database -> PrivateDB -> Prop) env UUID :
  (forall dur d p, I d p -> I (updateSegments UUID (SponsorTimes.set_videoDuration dur) d) p) ->
  preserves (onStores I) (updateSegmentVideoDuration env UUID).
Proof.
  intros HS. unfold updateSegmentVideoDuration.
  apply preserves_bind; [apply onStores_db_query |].
  intros [r|]; [| apply preserves_throw].
  apply preserves_bind; [apply onStores_apiVideoDuration |].
  intros [dur|]; [| apply preserves_ret].
  destruct (videoDurationChanged _ _); [| apply preserves_ret].
  apply onStores_db_run. intros d p. apply HS.
Qed.

(** ** Entering the pipeline *)

Lemma vote_enters config env ip UUID paramUserID type category w :
  entersPipeline config UUID paramUserID type category w ->
  exists unlock w1,
    benign unlock /\ same_stores w w1
    /\ vote config env ip UUID paramUserID type category w
       = votePipeline config env UUID type category
                      (getHashCache env paramUserID)
                      (getHashCache env (paramUserID +++ UUID))
                      (getHashCache env (ip +++ globalSalt config)) unlock w1.
Proof.
  intros (Hm & Hs & Hl). unfold vote. rewrite Hm, Hs. cbv zeta. unfold bind.
  destruct (acquireLock_cases config (lockKey UUID paramUserID) defaultTimeout w)
    as (l & w1 & Hacq & Hsame & Hben).
  rewrite Hacq in Hl |- *. cbn in Hl. destruct l as [|unlock]; [discriminate |].
  exists unlock, w1. repeat split; try apply Hsame. exact (Hben unlock eq_refl).
Qed.

Lemma unchanged_vote_from_pipeline config env ip UUID paramUserID type category d p n :
  (forall unlock, benign unlock ->
     preserves (unchanged d p n)
       (votePipeline config env UUID type category
                     (getHashCache env paramUserID)
                     (getHashCache env (paramUserID +++ UUID))
                     (getHashCache env (ip +++ globalSalt config)) unlock)) ->
  preserves (unchanged d p n) (vote config env ip UUID paramUserID type category).
Proof.
  intros H. unfold vote.
  destruct (missingKeyParameters _ _ _ _); [apply preserves_ret |].
  destruct (_ <? _); [apply preserves_ret |]. cbv zeta.
  eapply hoare_bind with
    (R := fun l w => (forall u, l = LockHeld u -> benign u) /\ unchanged d p n w).
  - intros w (Hd & Hp & Hn).
    destruct (acquireLock_cases config (lockKey UUID paramUserID) defaultTimeout w)
      as (l & w1 & Hacq & (Hd1 & Hp1 & _ & _ & _ & Hn1) & Hben).
    rewrite Hacq. split; [exact Hben |]. repeat split; congruence.
  - intros [|unlock]; apply hoare_pure; intros Hben.
    + apply preserves_ret.
    + apply H. apply Hben. reflexivity.
Qed.

(** The pipeline up to the warnings, when no statement fails. *)
Lemma votePipeline_to_warnings config env UUID type category nonAnonUserID userID hashedIP
  unlock seg w :
  dbFaults w = [] ->
  segmentByUUID UUID (db w) = Some seg ->
  (js_eq type 10 || js_eq type 11) = false ->
  votePipeline config env UUID type category nonAnonUserID userID hashedIP unlock w
  = (let finalResponse :=
       {| blockVote := false; finalStatus := 200; finalMessage := None;
          webhookType := Normal; webhookMessage := None |} in
     let isTempVIP := isUserTempVIP env nonAnonUserID (SponsorTimes.videoID seg) in
     let isVIP := isUserVIP env nonAnonUserID in
     let isOwnSubmission := String.eqb nonAnonUserID (SponsorTimes.userID seg) in
     let warnings :=
       activeWarnings nonAnonUserID
         (now w - hoursAfterWarningExpires config * MILLISECONDS_IN_HOUR) (db w) in
     if Z.of_nat (length warnings) >=? maxNumberOfActiveWarnings config then
       call_unlock unlock ;;
       match hd_error warnings with
       | Some warningReason => ret (respond_message 403 (warningMessage warningReason))
       | None => throw "TypeError: Cannot read properties of undefined (reading 'length')"
       end
     else if checkBanStatus env nonAnonUserID hashedIP then
       call_unlock unlock ;; ret (respond 200)
     else if js_not type && truthy_opt category then
       call_unlock unlock ;;
       categoryVote config env UUID nonAnonUserID isVIP isTempVIP isOwnSubmission
                    (match category with Some c => c | None => EmptyString end)
                    hashedIP finalResponse
     else
       numericVote env unlock UUID type nonAnonUserID userID hashedIP
                   seg isVIP isTempVIP isOwnSubmission finalResponse) w.
Proof.
  intros Hf Hseg Ht. unfold votePipeline. cbv zeta.
  rewrite (run_db_query _ _ w Hf), Hseg, Ht, run_Date_now, (run_db_query _ _ w Hf).
  reflexivity.
Qed.

Lemma votePipeline_banned_unchanged config env UUID type category nonAnonUserID userID
  hashedIP unlock d p n :
  benign unlock ->
  checkBanStatus env nonAnonUserID hashedIP = true ->
  (Z.of_nat (length (activeWarnings nonAnonUserID
                       (n - hoursAfterWarningExpires config * MILLISECONDS_IN_HOUR) d))
   >=? maxNumberOfActiveWarnings config) = false ->
  preserves (unchanged d p n)
    (votePipeline config env UUID type category nonAnonUserID userID hashedIP unlock).
Proof.
  intros Hb Hban Hw. unfold votePipeline. cbv zeta.
  eapply hoare_bind; [apply unchanged_db_query |].
  intros seg. apply hoare_pure. intros ->.
  destruct (segmentByUUID UUID d) as [seg|]; [| apply unchanged_unlock_ret, Hb].
  destruct (js_eq type 10 || js_eq type 11); [apply unchanged_unlock_ret, Hb |].
  eapply hoare_bind; [apply unchanged_Date_now |].
  intros n'. apply hoare_pure. intros ->.
  eapply hoare_bind; [apply unchanged_db_query |].
  intros ws. apply hoare_pure. intros ->.
  rewrite Hw, Hban. apply unchanged_unlock_ret, Hb.
Qed.

(** C7. A banned user (by hashed user id or hashed IP, as [checkBanStatus]
    answers) whose active warnings are below the maximum: whatever else
    happens, even a failing statement, the call leaves both databases as
    they were; and when it gets as far as the checks (parameters present,
    lock granted, no failing statement, segment found, type not 10 or 11)
    it returns 200 without a message, starts no detached work (so neither
    the category vote nor the numeric vote is reached) and calls [unlock]
    once. *)
Theorem vote_banned_is_silent config env ip UUID paramUserID type category w :
  checkBanStatus env (getHashCache env paramUserID)
                 (getHashCache env (ip +++ globalSalt config)) = true ->
  (Z.of_nat (length (warningsOf config env paramUserID w))
   >=? maxNumberOfActiveWarnings config) = false ->
  (db (snd (vote config env ip UUID paramUserID type category w)) = db w
   /\ privateDB (snd (vote config env ip UUID paramUserID type category w)) = privateDB w)
  /\ (forall seg,
        reachesWarningCheck config UUID paramUserID type category seg w ->
        fst (vote config env ip UUID paramUserID type category w) = Returned (respond 200)
        /\ detached (snd (vote config env ip UUID paramUserID type category w)) = detached w
        /\ unlockCalls (snd (vote config env ip UUID paramUserID type category w))
           = S (unlockCalls w)).
Proof.
  intros Hban Hw. split.
  - assert (H : preserves (unchanged (db w) (privateDB w) (now w))
                  (vote config env ip UUID paramUserID type category)).
    { apply unchanged_vote_from_pipeline. intros unlock Hb.
      apply votePipeline_banned_unchanged; assumption. }
    specialize (H w (conj eq_refl (conj eq_refl eq_refl))).
    destruct (vote config env ip UUID paramUserID type category w) as [[r|e] w'];
      cbn; split; apply H.
  - intros seg (Henter & Hf & Hseg & Ht).
    destruct (vote_enters config env ip UUID paramUserID type category w Henter)
      as (unlock & w1 & Hb & (Hd & Hp & Hf1 & Hc & Hdt & Hn) & ->).
    rewrite votePipeline_to_warnings with (seg := seg); try congruence.
    cbv zeta. unfold warningsOf in Hw. rewrite Hd, Hn, Hw, Hban.
    destruct (run_call_unlock unlock (fun _ => ret (respond 200)) w1 Hb)
      as (w2 & -> & _ & _ & _ & Hc2 & Hdt2 & _).
    cbn. split; [reflexivity |]. split; congruence.
Qed.

(** A run of C7's theorem: a banned user downvotes an existing segment. *)
Lemma vote_banned_is_silent_witness :
  fst (vote Sample.config Sample.env "1.2.3.4" "seg" "banned-user" (JsNum 0) None
            Sample.quiet_world)
  = Returned (respond 200)
  /\ db (snd (vote Sample.config Sample.env "1.2.3.4" "seg" "banned-user" (JsNum 0) None
                   Sample.quiet_world))
     = db Sample.quiet_world.
Proof.
  destruct (vote_banned_is_silent Sample.config Sample.env "1.2.3.4" "seg" "banned-user"
              (JsNum 0) None Sample.quiet_world eq_refl eq_refl) as ((Hd & Hp) & H).
  destruct (H (Sample.segment "seg" 3 "sponsor" Skip "#owner")) as (Hr & _).
  - repeat split.
  - split; assumption.
Defined.

(** C4, as stated, fails: the warnings are read without ORDER BY and the
    message takes the first row.  Here the user has two active warnings,
    the older stored first; the 403 message carries the older reason and
    not the most recent one. *)
Lemma vote_warning_message_not_most_recent :
  mostRecentReason Sample.config Sample.env "user-u" Sample.warned_world
  = Some "second tip"
  /\ exists m,
       fst (vote Sample.config Sample.env "1.2.3.4" "seg" "user-u" (JsNum 1) None
                 Sample.warned_world)
       = Returned (respond_message 403 m)
       /\ contains "second tip" m = false
       /\ contains "first tip" m = true.
Proof.
  split; [reflexivity |].
  eexists. split; [vm_compute; reflexivity |]. split; vm_compute; reflexivity.
Qed.

Lemma warningMessage_embeds reason :
  reason <> EmptyString ->
  warningMessage reason = warningLead +++ " Tip message: '" +++ reason +++ "'".
Proof.
  intros Hne. unfold warningMessage.
  destruct reason as [|c s]; [congruence |].
  replace (Z.of_nat (String.length (String c s)) >? 0) with true; [reflexivity |].
  symmetry. apply Z.gtb_lt. cbn [String.length]. lia.
Qed.

(** C4, amended.  A call that gets as far as the warning check (parameters
    present, lock granted, no failing statement, segment found, type not
    10 or 11) and finds at least [maxNumberOfActiveWarnings] active
    warnings returns 403 with the message built from the FIRST warning that
    the query returned, whose reason it embeds when not empty; both
    databases are left as they were, no detached work is started and
    [unlock] is called once.  Nothing is asked of the ban status: the
    banned user gets the same answer. *)
Theorem vote_warned_is_rejected config env ip UUID paramUserID type category seg w reason rest :
  reachesWarningCheck config UUID paramUserID type category seg w ->
  warningsOf config env paramUserID w = reason :: rest ->
  (Z.of_nat (length (reason :: rest)) >=? maxNumberOfActiveWarnings config) = true ->
  fst (vote config env ip UUID paramUserID type category w)
  = Returned (respond_message 403 (warningMessage reason))
  /\ (reason <> EmptyString ->
      warningMessage reason = warningLead +++ " Tip message: '" +++ reason +++ "'")
  /\ db (snd (vote config env ip UUID paramUserID type category w)) = db w
  /\ privateDB (snd (vote config env ip UUID paramUserID type category w)) = privateDB w
  /\ detached (snd (vote config env ip UUID paramUserID type category w)) = detached w
  /\ unlockCalls (snd (vote config env ip UUID paramUserID type category w))
     = S (unlockCalls w).
Proof.
  intros (Henter & Hf & Hseg & Ht) Hws Hmax.
  destruct (vote_enters config env ip UUID paramUserID type category w Henter)
    as (unlock & w1 & Hb & (Hd & Hp & Hf1 & Hc & Hdt & Hn) & ->).
  rewrite votePipeline_to_warnings with (seg := seg); try congruence.
  cbv zeta. unfold warningsOf in Hws. rewrite Hd, Hn, Hws, Hmax. cbn [hd_error].
  destruct (run_call_unlock unlock
              (fun _ => ret (respond_message 403 (warningMessage reason))) w1 Hb)
    as (w2 & -> & Hd2 & Hp2 & _ & Hc2 & Hdt2 & _).
  cbn. split; [reflexivity |]. split; [apply warningMessage_embeds |].
  repeat split; congruence.
Qed.

(** A run of the amended C4: a banned user with one active warning. *)
Lemma vote_warned_is_rejected_witness :
  fst (vote Sample.config Sample.env "1.2.3.4" "seg" "banned-user" (JsNum 1) None
            Sample.banned_warned_world)
  = Returned (respond_message 403 (warningMessage "be careful")).
Proof.
  refine (proj1 (vote_warned_is_rejected Sample.config Sample.env "1.2.3.4" "seg"
                   "banned-user" (JsNum 1) None
                   (Sample.segment "seg" 3 "sponsor" Skip "#owner")
                   Sample.banned_warned_world "be careful" []
                   _ eq_refl eq_refl)).
  repeat split.
Defined.

(** ** Type and category together *)

Lemma votePipeline_falsy_type config env UUID c nonAnonUserID userID hashedIP unlock w :
  truthy c = true ->
  votePipeline config env UUID (JsNum 0) (Some c) nonAnonUserID userID hashedIP unlock w
  = votePipeline config env UUID JsUndefined (Some c) nonAnonUserID userID hashedIP unlock w.
Proof.
  intros Hc. unfold votePipeline. cbn [js_eq js_not truthy_opt].
  rewrite Hc. reflexivity.
Qed.

Lemma votePipeline_ignores_category config env UUID t c nonAnonUserID userID hashedIP
  unlock w :
  t <> 0 ->
  votePipeline config env UUID (JsNum t) (Some c) nonAnonUserID userID hashedIP unlock w
  = votePipeline config env UUID (JsNum t) None nonAnonUserID userID hashedIP unlock w.
Proof.
  intros Ht. apply Z.eqb_neq in Ht. unfold votePipeline. cbn [js_not].
  rewrite Ht. cbn [andb]. reflexivity.
Qed.

(** C10. With a non-empty category, type 0 is treated like a missing type:
    the call does what the call without a type does, and when it gets as
    far as the choice (checks passed, warnings below the maximum, not
    banned) it is [unlock] followed by [categoryVote], so the numeric vote
    is not run.  A call with both a numeric type and a category is not
    taken for one with missing parameters, and for a non-zero type the
    category is ignored: the call does what the call without category
    does. *)
Theorem vote_type_zero_with_category config env ip UUID paramUserID c w :
  truthy c = true ->
  vote config env ip UUID paramUserID (JsNum 0) (Some c) w
  = vote config env ip UUID paramUserID JsUndefined (Some c) w
  /\ (forall seg,
        reachesDelegation config env ip UUID paramUserID (JsNum 0) (Some c) seg w ->
        exists unlock w1,
          benign unlock /\ same_stores w w1
          /\ vote config env ip UUID paramUserID (JsNum 0) (Some c) w
             = (call_unlock unlock ;;
                categoryVote config env UUID (getHashCache env paramUserID)
                  (isUserVIP env (getHashCache env paramUserID))
                  (isUserTempVIP env (getHashCache env paramUserID) (SponsorTimes.videoID seg))
                  (String.eqb (getHashCache env paramUserID) (SponsorTimes.userID seg))
                  c (getHashCache env (ip +++ globalSalt config))
                  {| blockVote := false; finalStatus := 200; finalMessage := None;
                     webhookType := Normal; webhookMessage := None |}) w1)
  /\ (forall t,
        missingKeyParameters UUID paramUserID (JsNum t) (Some c)
        = negb (truthy UUID) || negb (truthy paramUserID))
  /\ (forall t, t <> 0 ->
        vote config env ip UUID paramUserID (JsNum t) (Some c) w
        = vote config env ip UUID paramUserID (JsNum t) None w).
Proof.
  intros Hc. split; [| split; [| split]].
  - unfold vote, missingKeyParameters. cbn [js_defined truthy_opt orb]. rewrite Hc.
    cbn [orb]. destruct (negb (truthy UUID) || negb (truthy paramUserID) || negb true);
      [reflexivity |].
    destruct (_ <? _); [reflexivity |]. cbv zeta. unfold bind.
    destruct (acquireLock _ _ _ w) as [[[|unlock]|e] w1];
      [reflexivity | apply votePipeline_falsy_type, Hc | reflexivity].
  - intros seg ((Henter & Hf & Hseg & Ht) & Hw & Hban).
    destruct (vote_enters config env ip UUID paramUserID (JsNum 0) (Some c) w Henter)
      as (unlock & w1 & Hb & Hsame & ->).
    exists unlock, w1. split; [exact Hb |]. split; [exact Hsame |].
    destruct Hsame as (Hd & Hp & Hf1 & Hcalls & Hdt & Hn).
    rewrite votePipeline_to_warnings with (seg := seg); try congruence.
    cbv zeta. unfold warningsOf in Hw. rewrite Hd, Hn, Hw, Hban.
    cbn [js_not truthy_opt]. rewrite Hc. reflexivity.
  - intros t. unfold missingKeyParameters. cbn [js_defined orb negb].
    destruct (negb (truthy UUID) || negb (truthy paramUserID)); reflexivity.
  - intros t Ht. unfold vote, missingKeyParameters. cbn [js_defined orb].
    destruct (negb (truthy UUID) || negb (truthy paramUserID) || negb true);
      [reflexivity |].
    destruct (_ <? _); [reflexivity |]. cbv zeta. unfold bind.
    destruct (acquireLock _ _ _ w) as [[[|unlock]|e] w1];
      [reflexivity | apply votePipeline_ignores_category, Ht | reflexivity].
Qed.

(** A run of C10's theorem: type 0 together with the category "intro". *)
Lemma vote_type_zero_with_category_witness :
  vote Sample.config Sample.env "1.2.3.4" "seg" "user-u" (JsNum 0) (Some "intro")
       Sample.quiet_world
  = vote Sample.config Sample.env "1.2.3.4" "seg" "user-u" JsUndefined (Some "intro")
         Sample.quiet_world.
Proof.
  exact (proj1 (vote_type_zero_with_category Sample.config Sample.env "1.2.3.4" "seg"
                  "user-u" "intro" Sample.quiet_world eq_refl)).
Defined.

(** ** The checks of the numeric vote, when no statement fails *)

Lemma checkLocks_run isVIP type seg fr0 w :
  dbFaults w = [] ->
  exists fr, checkLocks isVIP type seg fr0 w = (Returned fr, w)
             /\ finalStatus fr = finalStatus fr0
             /\ finalMessage fr = finalMessage fr0.
Proof.
  intros Hf. unfold checkLocks.
  destruct (negb isVIP && _); [| eexists; repeat split].
  destruct (negb (SponsorTimes.locked seg =? 0)).
  - rewrite run_ret. eexists; repeat split.
  - rewrite bind_assoc, (run_db_query _ _ w Hf), run_ret.
    destruct (isSome _); eexists; repeat split.
Qed.

Lemma checkLocks_frame isVIP type seg fr0 w w1 :
  dbFaults w = [] -> dbFaults w1 = [] -> db w1 = db w ->
  fst (checkLocks isVIP type seg fr0 w1) = fst (checkLocks isVIP type seg fr0 w).
Proof.
  intros Hf Hf1 Hd. unfold checkLocks.
  destruct (negb isVIP && _); [| reflexivity].
  destruct (negb (SponsorTimes.locked seg =? 0)).
  - reflexivity.
  - rewrite !bind_assoc, (run_db_query _ _ w Hf), (run_db_query _ _ w1 Hf1), !run_ret, Hd.
    destruct (isSome _); reflexivity.
Qed.

Lemma ableToVote_run isVIP isTempVIP isOwn inc old t0 seg fr nonAnon UUID hashedIP userID w :
  dbFaults w = [] ->
  exists b,
    ableToVote isVIP isTempVIP isOwn inc old t0 seg fr nonAnon UUID hashedIP userID w
    = (Returned b, w).
Proof.
  intros Hf. unfold ableToVote.
  destruct (isVIP || isTempVIP); [eexists; reflexivity |].
  match goal with |- context [if ?c then _ else _] => destruct c end;
    [| eexists; reflexivity].
  rewrite (run_db_query _ _ w Hf).
  destruct (isSome _); [| eexists; reflexivity].
  rewrite (run_privateDB_query _ _ w Hf). eexists; reflexivity.
Qed.

Lemma ableToVote_frame isVIP isTempVIP isOwn inc old t0 seg fr nonAnon UUID hashedIP userID
  w w1 :
  dbFaults w = [] -> dbFaults w1 = [] -> db w1 = db w -> privateDB w1 = privateDB w ->
  fst (ableToVote isVIP isTempVIP isOwn inc old t0 seg fr nonAnon UUID hashedIP userID w1)
  = fst (ableToVote isVIP isTempVIP isOwn inc old t0 seg fr nonAnon UUID hashedIP userID w).
Proof.
  intros Hf Hf1 Hd Hp. unfold ableToVote.
  destruct (isVIP || isTempVIP); [reflexivity |].
  match goal with |- context [if ?c then _ else _] => destruct c end; [| reflexivity].
  rewrite (run_db_query _ _ w Hf), (run_db_query _ _ w1 Hf1), Hd.
  destruct (isSome _); [| reflexivity].
  rewrite (run_privateDB_query _ _ w Hf), (run_privateDB_query _ _ w1 Hf1), Hp.
  reflexivity.
Qed.

(** The call gets to the numeric vote. *)
Lemma vote_reaches_numericVote config env ip UUID paramUserID type category seg w :
  reachesDelegation config env ip UUID paramUserID type category seg w ->
  (js_not type && truthy_opt category) = false ->
  exists unlock w1,
    benign unlock /\ same_stores w w1
    /\ vote config env ip UUID paramUserID type category w
       = numericVote env unlock UUID type
           (getHashCache env paramUserID) (getHashCache env (paramUserID +++ UUID))
           (getHashCache env (ip +++ globalSalt config)) seg
           (isUserVIP env (getHashCache env paramUserID))
           (isUserTempVIP env (getHashCache env paramUserID) (SponsorTimes.videoID seg))
           (String.eqb (getHashCache env paramUserID) (SponsorTimes.userID seg))
           {| blockVote := false; finalStatus := 200; finalMessage := None;
              webhookType := Normal; webhookMessage := None |} w1.
Proof.
  intros ((Henter & Hf & Hseg & Ht) & Hw & Hban) Hnum.
  destruct (vote_enters config env ip UUID paramUserID type category w Henter)
    as (unlock & w1 & Hb & Hsame & ->).
  exists unlock, w1. split; [exact Hb |]. split; [exact Hsame |].
  destruct Hsame as (Hd & Hp & Hf1 & Hcalls & Hdt & Hn).
  rewrite votePipeline_to_warnings with (seg := seg); try congruence.
  cbv zeta. unfold warningsOf in Hw. rewrite Hd, Hn, Hw, Hban, Hnum. reflexivity.
Qed.

Lemma amplified_privileged_downvote v old t :
  amplified true v old t (-1) = (- (v + 2 - old), - (v + 2 - old)).
Proof.
  unfold amplified. cbn [andb]. change (-1 <? 0) with true. cbv iota.
  destruct (- (v + 2 - old) =? VoteType.Malicious) eqn:E; [| reflexivity].
  apply Z.eqb_eq in E. unfold VoteType.Malicious in E.
  rewrite Z.min_l by lia. reflexivity.
Qed.

(** ** The privileged downvote *)

(** What the privileged downvote establishes: the segment counts -2 votes
    and the stored vote row has type [a]. *)
Lemma minus_two_stable UUID userID a f :
  (forall r, SponsorTimes.UUID (f r) = SponsorTimes.UUID r) ->
  (forall r, SponsorTimes.votes (f r) = SponsorTimes.votes r) ->
  forall d p,
    option_map SponsorTimes.votes (segmentByUUID UUID d) = Some (-2)
    /\ voteTypeOf userID UUID p = Some a ->
    option_map SponsorTimes.votes (segmentByUUID UUID (updateSegments UUID f d)) = Some (-2)
    /\ voteTypeOf userID UUID p = Some a.
Proof.
  intros HU Hv d p [H1 H2]. split; [| exact H2].
  rewrite segmentByUUID_updateSegments by exact HU.
  destruct (segmentByUUID UUID d) as [r|]; [| discriminate].
  cbn in *. rewrite Hv. exact H1.
Qed.

Lemma voteBody_privileged_downvote env unlock UUID t nonAnon userID hashedIP seg
  isVIP isTempVIP isOwn fr vte w w2 :
  benign unlock ->
  dbFaults w = [] -> dbFaults w2 = [] -> db w2 = db w -> privateDB w2 = privateDB w ->
  segmentByUUID UUID (db w) = Some seg ->
  (isVIP || isTempVIP || isOwn) = true ->
  t = VoteType.Downvote \/ t = VoteType.Malicious ->
  fst (ableToVote isVIP isTempVIP isOwn
         (- (SponsorTimes.votes seg + 2
             - oldIncrementAmountOf (voteTypeOf userID UUID (privateDB w))))
         (oldIncrementAmountOf (voteTypeOf userID UUID (privateDB w)))
         t seg fr nonAnon UUID hashedIP userID w) = Returned true ->
  hoare (fun w' => w' = w2)
    (voteBody env unlock UUID (JsNum t) nonAnon userID hashedIP seg isVIP isTempVIP isOwn
              fr vte)
    (fun _ => onStores (fun d p =>
       option_map SponsorTimes.votes (segmentByUUID UUID d) = Some (-2)
       /\ voteTypeOf userID UUID p
          = Some (- (SponsorTimes.votes seg + 2
                     - oldIncrementAmountOf (voteTypeOf userID UUID (privateDB w))))))
    (onStores (fun d p =>
       option_map SponsorTimes.votes (segmentByUUID UUID d) = Some (-2)
       /\ voteTypeOf userID UUID p
          = Some (- (SponsorTimes.votes seg + 2
                     - oldIncrementAmountOf (voteTypeOf userID UUID (privateDB w)))))).
Proof.
  intros Hb Hf Hf2 Hd2 Hp2 Hseg Hpriv Ht Hable w' ->.
  set (old := oldIncrementAmountOf (voteTypeOf userID UUID (privateDB w))) in *.
  set (a := - (SponsorTimes.votes seg + 2 - old)) in *.
  unfold voteBody. rewrite (run_privateDB_query _ _ w2 Hf2), Hp2.
  assert (Hinc : incrementAmountOf (JsNum t) = Some (t, -1)).
  { destruct Ht as [-> | ->]; reflexivity. }
  rewrite Hinc, Hpriv. fold old. rewrite amplified_privileged_downvote. fold a. cbv iota beta.
  destruct (ableToVote_run isVIP isTempVIP isOwn a old t seg fr nonAnon UUID hashedIP userID
              w2 Hf2) as (b & Hrun).
  pose proof (ableToVote_frame isVIP isTempVIP isOwn a old t seg fr nonAnon UUID hashedIP
                userID w w2 Hf Hf2 Hd2 Hp2) as Hfr.
  rewrite Hrun, Hable in Hfr. cbn in Hfr. injection Hfr as ->.
  unfold bind at 1. rewrite Hrun. cbv iota beta.
  rewrite !bind_assoc.
  match goal with
  | |- context [bind (if isSome ?v then privateDB_run ?u1 else privateDB_run ?u2) ?k w2] =>
      assert (Hw : exists u,
                 bind (if isSome v then privateDB_run u1 else privateDB_run u2) k w2
                 = k tt (with_privateDB (u (privateDB w2)) w2)
                 /\ voteTypeOf userID UUID (u (privateDB w2)) = Some a)
  end.
  { destruct (voteTypeOf userID UUID (privateDB w)) as [ty|] eqn:Hrow; cbn [isSome].
    - exists (updateVote a t userID UUID). split; [apply run_privateDB_run, Hf2 |].
      rewrite voteTypeOf_updateVote, Hp2, Hrow. reflexivity.
    - exists (insertVote {| Votes.UUID := UUID; Votes.userID := userID;
                            Votes.hashedIP := hashedIP; Votes.type := a;
                            Votes.normalUserID := nonAnon; Votes.originalType := t |}).
      split; [apply run_privateDB_run, Hf2 |].
      rewrite voteTypeOf_insertVote; [reflexivity | rewrite Hp2; exact Hrow |].
      unfold isVoteOf. cbn. rewrite !String.eqb_refl. reflexivity. }
  destruct Hw as (u & -> & Hrow').
  rewrite !bind_assoc, run_db_run by exact Hf2.
  cbn [db with_privateDB with_db].
  match goal with
  | |- match ?m ?w3 with _ => _ end =>
      refine ((_ : preserves (onStores (fun d p =>
                 option_map SponsorTimes.votes (segmentByUUID UUID d) = Some (-2)
                 /\ voteTypeOf userID UUID p = Some a)) m) w3 _)
  end.
  - pose proof (minus_two_stable UUID userID a) as Hst.
    repeat first
      [ apply preserves_ret
      | apply onStores_spawn
      | apply onStores_call_unlock, Hb
      | apply onStores_updateSegmentVideoDuration; intros dur; apply Hst; intros r; reflexivity
      | apply onStores_db_run; apply Hst; intros r; reflexivity
      | match goal with |- preserves _ (if ?c then _ else _) => destruct c end
      | apply preserves_bind; [| intros _] ].
  - unfold onStores. cbn [db privateDB with_db with_privateDB]. split; [| exact Hrow'].
    rewrite segmentByUUID_updateSegments by (intros r; reflexivity).
    rewrite Hd2, Hseg. cbn. f_equal. unfold a. lia.
Qed.

Lemma negative_increment_types t i :
  incrementAmountOf (JsNum t) = Some (t, i) -> i < 0 ->
  t = VoteType.Downvote \/ t = VoteType.Malicious.
Proof.
  unfold incrementAmountOf. intros H Hi.
  destruct (t =? VoteType.Upvote); [injection H as <-; lia |].
  destruct (t =? VoteType.Downvote) eqn:E0; [left; apply Z.eqb_eq, E0 |].
  destruct (t =? VoteType.Malicious) eqn:E30; [right; apply Z.eqb_eq, E30 |].
  cbn [orb] in H. destruct (t =? VoteType.Undo); [injection H as <-; lia | discriminate].
Qed.

Lemma numericVote_privileged_downvote env unlock UUID t nonAnon userID hashedIP seg
  isVIP isTempVIP isOwn fr0 fr w w1 :
  benign unlock ->
  dbFaults w = [] -> dbFaults w1 = [] -> db w1 = db w -> privateDB w1 = privateDB w ->
  segmentByUUID UUID (db w) = Some seg ->
  (isVIP || isTempVIP || isOwn) = true ->
  t = VoteType.Downvote \/ t = VoteType.Malicious ->
  fst (checkLocks isVIP (JsNum t) seg fr0 w) = Returned fr ->
  fst (ableToVote isVIP isTempVIP isOwn
         (- (SponsorTimes.votes seg + 2
             - oldIncrementAmountOf (voteTypeOf userID UUID (privateDB w))))
         (oldIncrementAmountOf (voteTypeOf userID UUID (privateDB w)))
         t seg fr nonAnon UUID hashedIP userID w) = Returned true ->
  onStores (fun d p =>
      option_map SponsorTimes.votes (segmentByUUID UUID d) = Some (-2)
      /\ voteTypeOf userID UUID p
         = Some (- (SponsorTimes.votes seg + 2
                    - oldIncrementAmountOf (voteTypeOf userID UUID (privateDB w)))))
    (snd (numericVote env unlock UUID (JsNum t) nonAnon userID hashedIP seg
                      isVIP isTempVIP isOwn fr0 w1)).
Proof.
  intros Hb Hf Hf1 Hd1 Hp1 Hseg Hpriv Ht Hlocks Hable.
  unfold numericVote.
  destruct (checkLocks_run isVIP (JsNum t) seg fr0 w1 Hf1) as (fr' & Hrun & _).
  pose proof (checkLocks_frame isVIP (JsNum t) seg fr0 w w1 Hf Hf1 Hd1) as Hfr.
  rewrite Hrun, Hlocks in Hfr. cbn in Hfr. injection Hfr as ->.
  unfold bind at 1. rewrite Hrun. cbv zeta. rewrite Hpriv. cbn [negb].
  rewrite !andb_false_r. cbn [andb].
  assert (Htry : forall w2,
             dbFaults w2 = [] -> db w2 = db w -> privateDB w2 = privateDB w ->
             forall h,
               (forall e, preserves
                  (onStores (fun d p =>
                     option_map SponsorTimes.votes (segmentByUUID UUID d) = Some (-2)
                     /\ voteTypeOf userID UUID p
                        = Some (- (SponsorTimes.votes seg + 2
                                   - oldIncrementAmountOf
                                       (voteTypeOf userID UUID (privateDB w))))))
                  (h e)) ->
               forall vte,
               onStores (fun d p =>
                  option_map SponsorTimes.votes (segmentByUUID UUID d) = Some (-2)
                  /\ voteTypeOf userID UUID p
                     = Some (- (SponsorTimes.votes seg + 2
                                - oldIncrementAmountOf
                                    (voteTypeOf userID UUID (privateDB w)))))
                 (snd (try_catch
                         (voteBody env unlock UUID (JsNum t) nonAnon userID hashedIP seg
                                   isVIP isTempVIP isOwn fr vte) h w2))).
  { intros w2 Hf2 Hd2 Hp2 h Hh vte.
    pose proof (hoare_try_catch _ _ h _ _ _
                  (voteBody_privileged_downvote env unlock UUID t nonAnon userID hashedIP
                     seg isVIP isTempVIP isOwn fr vte w w2
                     Hb Hf Hf2 Hd2 Hp2 Hseg Hpriv Ht Hable) Hh w2 eq_refl) as H.
    destruct (try_catch _ h w2) as [[r|e] w']; exact H. }
  destruct (js_le (JsNum t) 0); [rewrite run_spawn | rewrite run_ret];
    apply Htry; try assumption;
    intros e;
    (apply preserves_bind; [apply onStores_call_unlock, Hb | intros _]);
    (apply preserves_bind; [apply onStores_Logger_error | intros _]);
    apply preserves_ret.
Qed.

(** C1. A call of [vote] that gets to the numeric vote (checks passed,
    warnings below the maximum, not banned, not a category vote), made by a
    VIP, a temporary VIP or the segment's own submitter, with a type that
    asks for a negative increment (Downvote or Malicious), and for which
    the final check [ableToVote] answers true: afterwards the segment counts
    exactly -2 votes, and the vote row of the caller stores as its type the
    boosted increment -(votes + 2 - oldIncrementAmount). *)
Theorem vote_privileged_downvote_resets_to_minus_two
  config env ip UUID paramUserID t category seg fr w :
  let nonAnonUserID := getHashCache env paramUserID in
  let userID := getHashCache env (paramUserID +++ UUID) in
  let hashedIP := getHashCache env (ip +++ globalSalt config) in
  let isVIP := isUserVIP env nonAnonUserID in
  let isTempVIP := isUserTempVIP env nonAnonUserID (SponsorTimes.videoID seg) in
  let isOwnSubmission := String.eqb nonAnonUserID (SponsorTimes.userID seg) in
  let oldIncrementAmount := oldIncrementAmountOf (voteTypeOf userID UUID (privateDB w)) in
  let incrementAmount := - (SponsorTimes.votes seg + 2 - oldIncrementAmount) in
  reachesDelegation config env ip UUID paramUserID (JsNum t) category seg w ->
  (js_not (JsNum t) && truthy_opt category) = false ->
  (isVIP || isTempVIP || isOwnSubmission) = true ->
  (exists i, incrementAmountOf (JsNum t) = Some (t, i) /\ i < 0) ->
  fst (checkLocks isVIP (JsNum t) seg
         {| blockVote := false; finalStatus := 200; finalMessage := None;
            webhookType := Normal; webhookMessage := None |} w) = Returned fr ->
  fst (ableToVote isVIP isTempVIP isOwnSubmission incrementAmount oldIncrementAmount
         t seg fr nonAnonUserID UUID hashedIP userID w) = Returned true ->
  option_map SponsorTimes.votes
    (segmentByUUID UUID (db (snd (vote config env ip UUID paramUserID (JsNum t) category w))))
  = Some (-2)
  /\ voteTypeOf userID UUID
       (privateDB (snd (vote config env ip UUID paramUserID (JsNum t) category w)))
     = Some incrementAmount.
Proof.
  intros nonAnonUserID userID hashedIP isVIP isTempVIP isOwnSubmission
         oldIncrementAmount incrementAmount Hreach Hnum Hpriv (i & Hi & Hneg) Hlocks Hable.
  destruct (vote_reaches_numericVote config env ip UUID paramUserID (JsNum t) category seg w
              Hreach Hnum) as (unlock & w1 & Hb & (Hd & Hp & Hf1 & _) & ->).
  destruct Hreach as ((_ & Hf & Hseg & _) & _).
  apply (numericVote_privileged_downvote env unlock UUID t nonAnonUserID userID hashedIP seg
           isVIP isTempVIP isOwnSubmission _ fr w w1); try assumption; try congruence.
  exact (negative_increment_types t i Hi Hneg).
Qed.

(** A run of C1's theorem: a VIP downvotes a segment that has 3 votes and
    has no vote row yet; the segment ends at -2 and the row stores -5. *)
Lemma vote_privileged_downvote_resets_to_minus_two_witness :
  option_map SponsorTimes.votes
    (segmentByUUID "seg"
       (db (snd (vote Sample.config Sample.env "1.2.3.4" "seg" "vip-user" (JsNum 0) None
                      Sample.quiet_world))))
  = Some (-2)
  /\ voteTypeOf (Sample.hash "vip-userseg") "seg"
       (privateDB (snd (vote Sample.config Sample.env "1.2.3.4" "seg" "vip-user" (JsNum 0)
                             None Sample.quiet_world)))
     = Some (-5).
Proof.
  apply (vote_privileged_downvote_resets_to_minus_two Sample.config Sample.env "1.2.3.4"
           "seg" "vip-user" 0 None (Sample.segment "seg" 3 "sponsor" Skip "#owner")
           {| blockVote := false; finalStatus := 200; finalMessage := None;
              webhookType := Normal; webhookMessage := None |} Sample.quiet_world).
  - repeat split.
  - reflexivity.
  - reflexivity.
  - exists (-1). split; [reflexivity | lia].
  - reflexivity.
  - reflexivity.
Defined.

(** ** The vote from an address that has already voted *)

Lemma find_In_some {R} (c : R -> bool) (l : list R) (r : R) :
  In r l -> c r = true -> find c l <> None.
Proof.
  intros Hin Hc Hnone. pose proof (find_none c l Hnone r Hin) as H. congruence.
Qed.

Lemma unchanged_db_query_any {A} d p n (q : Database -> A) :
  preserves (unchanged d p n) (db_query q).
Proof.
  intros w H. pose proof (unchanged_db_query d p n q w H) as H'.
  destruct (db_query q w) as [[a|e] w']; [apply H' | exact H'].
Qed.

Lemma unchanged_privateDB_query_any {A} d p n (q : PrivateDB -> A) :
  preserves (unchanged d p n) (privateDB_query q).
Proof.
  intros w H. pose proof (unchanged_privateDB_query d p n q w H) as H'.
  destruct (privateDB_query q w) as [[a|e] w']; [apply H' | exact H'].
Qed.

Lemma unchanged_checkLocks d p n isVIP type seg fr0 :
  preserves (unchanged d p n) (checkLocks isVIP type seg fr0).
Proof.
  unfold checkLocks.
  destruct (negb isVIP && _); [| apply preserves_ret].
  apply preserves_bind.
  - destruct (negb (SponsorTimes.locked seg =? 0)); [apply preserves_ret |].
    apply preserves_bind; [| intros r; apply preserves_ret].
    apply unchanged_db_query_any.
  - intros [|]; apply preserves_ret.
Qed.

Lemma ableToVote_same_ip d p n isOwn inc old t0 seg fr nonAnon UUID hashedIP userID :
  voteFromSameIP UUID hashedIP userID p <> None ->
  hoare (unchanged d p n)
    (ableToVote false false isOwn inc old t0 seg fr nonAnon UUID hashedIP userID)
    (fun b w => b = false /\ unchanged d p n w) (unchanged d p n).
Proof.
  intros Hother. unfold ableToVote. cbn [orb].
  match goal with |- context [if ?c then _ else _] => destruct c end;
    [| apply hoare_ret; auto].
  eapply hoare_bind; [apply unchanged_db_query |].
  intros s. apply hoare_pure. intros ->.
  destruct (isSome _); [| apply hoare_ret; auto].
  eapply hoare_bind; [apply unchanged_privateDB_query |].
  intros o. apply hoare_pure. intros ->.
  apply hoare_ret. intros w H. split; [| exact H].
  destruct (voteFromSameIP UUID hashedIP userID p); [reflexivity | congruence].
Qed.

Lemma numericVote_same_ip_unchanged env unlock UUID type nonAnon userID hashedIP seg isOwn
  fr0 d p n :
  benign unlock ->
  voteFromSameIP UUID hashedIP userID p <> None ->
  preserves (unchanged d p n)
    (numericVote env unlock UUID type nonAnon userID hashedIP seg false false isOwn fr0).
Proof.
  intros Hb Hother. unfold numericVote.
  apply preserves_bind; [apply unchanged_checkLocks |].
  intros fr. cbv zeta.
  destruct (_ && js_eq type 1); [apply unchanged_unlock_ret, Hb |].
  destruct (_ && js_eq type 0); [apply unchanged_unlock_ret, Hb |].
  apply preserves_bind.
  { destruct (js_le type 0); [apply unchanged_spawn | apply preserves_ret]. }
  intros _. apply preserves_try_catch.
  - unfold voteBody.
    apply preserves_bind; [apply unchanged_privateDB_query_any |].
    intros votesRow.
    destruct (incrementAmountOf type) as [[t0 i0]|]; [| apply unchanged_unlock_ret, Hb].
    destruct (amplified _ _ _ _ _) as [ty inc].
    eapply hoare_bind; [apply ableToVote_same_ip, Hother |].
    intros b. apply hoare_pure. intros ->.
    apply preserves_bind; [apply preserves_ret |].
    intros _. apply unchanged_unlock_ret, Hb.
  - intros e.
    apply preserves_bind; [apply unchanged_call_unlock, Hb | intros _].
    apply preserves_bind; [apply unchanged_Logger_error | intros _].
    apply preserves_ret.
Qed.

Lemma votePipeline_same_ip_unchanged config env UUID type category nonAnon userID hashedIP
  unlock d p n :
  benign unlock ->
  isUserVIP env nonAnon = false ->
  (forall seg, segmentByUUID UUID d = Some seg ->
               isUserTempVIP env nonAnon (SponsorTimes.videoID seg) = false) ->
  (js_not type && truthy_opt category) = false ->
  voteFromSameIP UUID hashedIP userID p <> None ->
  preserves (unchanged d p n)
    (votePipeline config env UUID type category nonAnon userID hashedIP unlock).
Proof.
  intros Hb Hvip Htemp Hnum Hother. unfold votePipeline. cbv zeta.
  eapply hoare_bind; [apply unchanged_db_query |].
  intros seg. apply hoare_pure. intros ->.
  destruct (segmentByUUID UUID d) as [seg|] eqn:Hseg; [| apply unchanged_unlock_ret, Hb].
  destruct (js_eq type 10 || js_eq type 11); [apply unchanged_unlock_ret, Hb |].
  eapply hoare_bind; [apply unchanged_Date_now |].
  intros n'. apply hoare_pure. intros ->.
  eapply hoare_bind; [apply unchanged_db_query |].
  intros ws. apply hoare_pure. intros ->.
  destruct (_ >=? _).
  { apply preserves_bind; [apply unchanged_call_unlock, Hb | intros _].
    destruct (hd_error _); [apply preserves_ret | apply preserves_throw]. }
  destruct (checkBanStatus env nonAnon hashedIP); [apply unchanged_unlock_ret, Hb |].
  rewrite Hnum, Hvip, (Htemp seg eq_refl).
  apply numericVote_same_ip_unchanged; assumption.
Qed.

Lemma numericVote_same_ip_response env unlock UUID type nonAnon userID hashedIP seg isOwn
  fr0 t0 i0 w :
  benign unlock ->
  dbFaults w = [] ->
  voteFromSameIP UUID hashedIP userID (privateDB w) <> None ->
  incrementAmountOf type = Some (t0, i0) ->
  finalStatus fr0 = 200 -> finalMessage fr0 = None ->
  fst (numericVote env unlock UUID type nonAnon userID hashedIP seg false false isOwn fr0 w)
  = Returned
      (if negb (js_isNaN type) && (SponsorTimes.votes seg <=? -2)
          && negb (ActionType_eqb (SponsorTimes.actionType seg) Full)
          && negb (false || false || isOwn) && js_eq type 1
       then respond_message 403
              "Not allowed to upvote segment with too many downvotes unless you are VIP."
       else respond 200).
Proof.
  intros Hb Hf Hother Hinc Hst Hmsg. unfold numericVote.
  destruct (checkLocks_run false type seg fr0 w Hf) as (fr & Hrun & Hst' & Hmsg').
  unfold bind at 1. rewrite Hrun. cbv zeta.
  destruct (_ && js_eq type 1).
  { destruct (run_call_unlock unlock
                (fun _ => ret (respond_message 403
                   "Not allowed to upvote segment with too many downvotes unless you are VIP."))
                w Hb) as (w' & -> & _).
    reflexivity. }
  destruct (_ && js_eq type 0).
  { destruct (run_call_unlock unlock (fun _ => ret (respond 200)) w Hb) as (w' & -> & _).
    reflexivity. }
  assert (Hbody : forall w2 vte,
             dbFaults w2 = [] -> privateDB w2 = privateDB w ->
             fst (voteBody env unlock UUID type nonAnon userID hashedIP seg
                           false false isOwn fr vte w2) = Returned (respond 200)).
  { intros w2 vte Hf2 Hp2. unfold voteBody.
    rewrite (run_privateDB_query _ _ w2 Hf2), Hinc.
    destruct (amplified _ _ _ _ _) as [ty inc].
    destruct (ableToVote_run false false isOwn inc
                (oldIncrementAmountOf (voteTypeOf userID UUID (privateDB w2)))
                t0 seg fr nonAnon UUID hashedIP userID w2 Hf2) as (b & Hab).
    assert (Hother2 : voteFromSameIP UUID hashedIP userID (privateDB w2) <> None)
      by (rewrite Hp2; exact Hother).
    pose proof (ableToVote_same_ip (db w2) (privateDB w2) (now w2) isOwn inc
                  (oldIncrementAmountOf (voteTypeOf userID UUID (privateDB w2)))
                  t0 seg fr nonAnon UUID hashedIP userID Hother2 w2
                  (conj eq_refl (conj eq_refl eq_refl))) as Hfalse.
    rewrite Hab in Hfalse. destruct Hfalse as [-> _].
    unfold bind at 1. rewrite Hab. cbv iota beta. rewrite run_ret.
    destruct (run_call_unlock unlock
                (fun _ => ret {| status := finalStatus fr; message := finalMessage fr;
                                 json := None |}) w2 Hb) as (w' & -> & _).
    cbn. rewrite Hst', Hmsg', Hst, Hmsg. reflexivity. }
  assert (Htry : forall w2 vte h,
             dbFaults w2 = [] -> privateDB w2 = privateDB w ->
             fst (try_catch (voteBody env unlock UUID type nonAnon userID hashedIP seg
                                      false false isOwn fr vte) h w2)
             = Returned (respond 200)).
  { intros w2 vte h Hf2 Hp2. specialize (Hbody w2 vte Hf2 Hp2). unfold try_catch.
    destruct (voteBody _ _ _ _ _ _ _ _ _ _ _ _ _ w2) as [[r|e] w']; cbn in *;
      [exact Hbody | discriminate]. }
  destruct (js_le type 0); [rewrite run_spawn | rewrite run_ret]; apply Htry;
    first [exact Hf | reflexivity].
Qed.

(** C6. A numeric vote (one that is not handed to [categoryVote]) by a
    caller who is neither VIP nor temporary VIP, when the private votes
    table already holds a row for the same segment and the same hashed IP
    under another per-segment user identity: the check [ableToVote] does not
    answer true, whatever its other arguments; whatever else happens, even
    a failing statement, both databases are left as they were, so no vote
    row is written and the segment's votes do not change.  And when the call
    gets to the numeric vote with a recognised type, the answer is the one
    of the checks before [ableToVote]: 403 for the upvote of a dead segment,
    else the base status 200 without a message. *)
Theorem vote_same_ip_is_not_counted config env ip UUID paramUserID type category w other :
  let nonAnonUserID := getHashCache env paramUserID in
  let userID := getHashCache env (paramUserID +++ UUID) in
  let hashedIP := getHashCache env (ip +++ globalSalt config) in
  isUserVIP env nonAnonUserID = false ->
  (forall seg, segmentByUUID UUID (db w) = Some seg ->
               isUserTempVIP env nonAnonUserID (SponsorTimes.videoID seg) = false) ->
  (js_not type && truthy_opt category) = false ->
  In other (votes (privateDB w)) ->
  Votes.UUID other = UUID -> Votes.hashedIP other = hashedIP -> Votes.userID other <> userID ->
  (forall seg isOwnSubmission incrementAmount oldIncrementAmount originalType finalResponse,
     segmentByUUID UUID (db w) = Some seg ->
     fst (ableToVote (isUserVIP env nonAnonUserID)
            (isUserTempVIP env nonAnonUserID (SponsorTimes.videoID seg))
            isOwnSubmission incrementAmount oldIncrementAmount originalType seg
            finalResponse nonAnonUserID UUID hashedIP userID w) <> Returned true)
  /\ (db (snd (vote config env ip UUID paramUserID type category w)) = db w
      /\ privateDB (snd (vote config env ip UUID paramUserID type category w)) = privateDB w)
  /\ (forall seg t0 i0,
        reachesDelegation config env ip UUID paramUserID type category seg w ->
        incrementAmountOf type = Some (t0, i0) ->
        fst (vote config env ip UUID paramUserID type category w)
        = Returned
            (if negb (js_isNaN type) && (SponsorTimes.votes seg <=? -2)
                && negb (ActionType_eqb (SponsorTimes.actionType seg) Full)
                && negb (String.eqb nonAnonUserID (SponsorTimes.userID seg))
                && js_eq type 1
             then respond_message 403
                    "Not allowed to upvote segment with too many downvotes unless you are VIP."
             else respond 200)).
Proof.
  intros nonAnonUserID userID hashedIP Hvip Htemp Hnum Hin HU Hip Huser.
  assert (Hother : voteFromSameIP UUID hashedIP userID (privateDB w) <> None).
  { unfold voteFromSameIP. apply (find_In_some _ _ other Hin).
    rewrite HU, Hip, !String.eqb_refl. cbn.
    destruct (String.eqb_spec (Votes.userID other) userID); [contradiction | reflexivity]. }
  split; [| split].
  - intros seg isOwn inc old t0 fr Hseg. rewrite Hvip, (Htemp seg Hseg).
    pose proof (ableToVote_same_ip (db w) (privateDB w) (now w) isOwn inc old t0 seg fr
                  nonAnonUserID UUID hashedIP userID Hother w
                  (conj eq_refl (conj eq_refl eq_refl))) as H.
    destruct (ableToVote _ _ _ _ _ _ _ _ _ _ _ _ w) as [[b|e] w']; cbn;
      [destruct H as [-> _] |]; discriminate.
  - assert (H : preserves (unchanged (db w) (privateDB w) (now w))
                  (vote config env ip UUID paramUserID type category)).
    { apply unchanged_vote_from_pipeline. intros unlock Hb.
      apply votePipeline_same_ip_unchanged; assumption. }
    specialize (H w (conj eq_refl (conj eq_refl eq_refl))).
    destruct (vote config env ip UUID paramUserID type category w) as [[r|e] w'];
      cbn; split; apply H.
  - intros seg t0 i0 Hreach Hinc.
    destruct (vote_reaches_numericVote config env ip UUID paramUserID type category seg w
                Hreach Hnum) as (unlock & w1 & Hb & (Hd & Hp & Hf1 & _) & ->).
    destruct Hreach as ((_ & Hf & Hseg & _) & _).
    fold nonAnonUserID userID hashedIP. rewrite Hvip, (Htemp seg Hseg).
    rewrite (numericVote_same_ip_response env unlock UUID type nonAnonUserID userID hashedIP
               seg _ _ t0 i0 w1 Hb); try congruence; reflexivity.
Qed.

(** A run of C6's theorem: "user-u" upvotes from the address from which
    "user-a" has voted; the answer is 200 and nothing is written. *)
Lemma vote_same_ip_is_not_counted_witness :
  fst (vote Sample.config Sample.env "1.2.3.4" "seg" "user-u" (JsNum 1) None
            Sample.shared_ip_world) = Returned (respond 200)
  /\ db (snd (vote Sample.config Sample.env "1.2.3.4" "seg" "user-u" (JsNum 1) None
                   Sample.shared_ip_world)) = db Sample.shared_ip_world
  /\ privateDB (snd (vote Sample.config Sample.env "1.2.3.4" "seg" "user-u" (JsNum 1) None
                          Sample.shared_ip_world)) = privateDB Sample.shared_ip_world.
Proof.
  destruct (vote_same_ip_is_not_counted Sample.config Sample.env "1.2.3.4" "seg"
              "user-u" (JsNum 1) None Sample.shared_ip_world
              {| Votes.UUID := "seg"; Votes.userID := "#user-aseg";
                 Votes.hashedIP := "#1.2.3.4salt"; Votes.type := 1;
                 Votes.normalUserID := "#user-a"; Votes.originalType := 1 |})
    as (_ & Hsame & Hstatus).
  - reflexivity.
  - intros seg _. reflexivity.
  - reflexivity.
  - left. reflexivity.
  - reflexivity.
  - reflexivity.
  - discriminate.
  - split; [| exact Hsame].
    apply (Hstatus (Sample.segment "seg" 3 "sponsor" Skip "#owner") 1 1);
      [repeat split | reflexivity].
Defined.

(** ** Voting twice *)

(** C5 is not met by the code.  An ordinary user with a counted chapter
    submission sends a malicious vote on a chapter segment that stands at
    -14 votes: the capped increment is 12, the segment goes to -2 and the
    row stores type 12.  The user sends the same vote again: the stored 12
    is read back as the legacy code for -500, and the segment goes from -2
    to 493. *)
Theorem revote_malicious_changes_votes :
  fst (vote Sample.config Sample.env "1.2.3.4" "seg" "user-u" (JsNum VoteType.Malicious)
            None Sample.chapter_world) = Returned (respond 200)
  /\ option_map SponsorTimes.votes (segmentByUUID "seg" (db Sample.chapter_world_voted))
     = Some (-2)
  /\ voteTypeOf "#user-useg" "seg" (privateDB Sample.chapter_world_voted) = Some 12
  /\ fst (vote Sample.config Sample.env "1.2.3.4" "seg" "user-u"
               (JsNum VoteType.Malicious) None Sample.chapter_world_voted)
     = Returned (respond 200)
  /\ option_map SponsorTimes.votes
       (segmentByUUID "seg"
          (db (snd (vote Sample.config Sample.env "1.2.3.4" "seg" "user-u"
                         (JsNum VoteType.Malicious) None Sample.chapter_world_voted))))
     = Some 493.
Proof. repeat split; vm_compute; reflexivity. Qed.

Lemma amplified_unprivileged_malicious v old :
  amplified false v old VoteType.Malicious (-1)
  = (- Z.min (v + 2 - old) 5, - Z.min (v + 2 - old) 5).
Proof. reflexivity. Qed.

Lemma oldIncrementAmountOf_cases t :
  oldIncrementAmountOf (Some t)
  = if t =? 1 then 1 else if t =? 0 then -1 else if t =? 2 then -4
    else if t =? 20 then 0 else if t <? 0 then t else if t =? 12 then -500
    else if t =? 13 then 500 else 0.
Proof. reflexivity. Qed.

(** Where voting twice does net to zero: for every accepted type, the
    second of two equal votes adds nothing to the count, unless the first
    was the capped malicious vote of an unprivileged caller and stored the
    value 12. *)
Lemma revote_nets_to_zero privileged v row t0 i0 :
  incrementAmountOf (JsNum t0) = Some (t0, i0) ->
  (privileged = false -> t0 = VoteType.Malicious ->
   fst (appliedVote privileged v row t0 i0) <> 12) ->
  snd (appliedVote privileged (v + snd (appliedVote privileged v row t0 i0))
                   (Some (fst (appliedVote privileged v row t0 i0))) t0 i0) = 0.
Proof.
  intros Hinc Hnot.
  assert (Hcases : (t0 = VoteType.Upvote /\ i0 = 1) \/ (t0 = VoteType.Undo /\ i0 = 0)
                   \/ ((t0 = VoteType.Downvote \/ t0 = VoteType.Malicious) /\ i0 = -1)).
  { unfold incrementAmountOf in Hinc.
    destruct (Z.eqb_spec t0 VoteType.Upvote); [injection Hinc as <-; auto |].
    destruct (Z.eqb_spec t0 VoteType.Downvote); [injection Hinc as <-; auto |].
    destruct (Z.eqb_spec t0 VoteType.Malicious); [injection Hinc as <-; auto |].
    cbn [orb] in Hinc.
    destruct (Z.eqb_spec t0 VoteType.Undo); [injection Hinc as <-; auto | discriminate]. }
  clear Hinc. unfold appliedVote in *.
  set (old := oldIncrementAmountOf row) in *.
  destruct Hcases as [[-> ->] | [[-> ->] | [Ht ->]]].
  - destruct privileged; reflexivity.
  - destruct privileged; reflexivity.
  - destruct privileged.
    + rewrite amplified_privileged_downvote. cbn [fst snd].
      rewrite amplified_privileged_downvote. cbn [snd]. lia.
    + destruct Ht as [-> | ->]; [reflexivity |].
      specialize (Hnot eq_refl eq_refl).
      rewrite amplified_unprivileged_malicious in Hnot |- *. cbn [fst snd] in Hnot |- *.
      rewrite amplified_unprivileged_malicious. cbn [snd].
      rewrite oldIncrementAmountOf_cases.
      repeat match goal with |- context [if ?c then _ else _] => destruct c eqn:? end;
        repeat match goal with
               | H : (_ =? _) = true |- _ => apply Z.eqb_eq in H
               | H : (_ =? _) = false |- _ => apply Z.eqb_neq in H
               | H : (_ <? _) = true |- _ => apply Z.ltb_lt in H
               | H : (_ <? _) = false |- _ => apply Z.ltb_ge in H
               end;
        cbn [fst snd] in *; lia.
Qed.

(** ** The lock on the paths of [vote] *)

Lemma unlocked_db_query {A} k (q : Database -> A) : preserves (unlocked k) (db_query q).
Proof.
  intros w H. unfold db_query, bind, statement.
  destruct (dbFaults w) as [|[|] fs]; exact H.
Qed.

Lemma unlocked_privateDB_query {A} k (q : PrivateDB -> A) :
  preserves (unlocked k) (privateDB_query q).
Proof.
  intros w H. unfold privateDB_query, bind, statement.
  destruct (dbFaults w) as [|[|] fs]; exact H.
Qed.

Lemma unlocked_db_run k u : preserves (unlocked k) (db_run u).
Proof.
  intros w H. unfold db_run, bind, statement.
  destruct (dbFaults w) as [|[|] fs]; exact H.
Qed.

Lemma unlocked_privateDB_run k u : preserves (unlocked k) (privateDB_run u).
Proof.
  intros w H. unfold privateDB_run, bind, statement.
  destruct (dbFaults w) as [|[|] fs]; exact H.
Qed.

Lemma unlocked_call_unlock k u E :
  benign u -> hoare (unlocked k) (call_unlock u) (fun _ => unlocked (S k)) E.
Proof.
  intros Hb w H. unfold call_unlock.
  destruct (Hb (with_unlockCalls (S (unlockCalls w)) w)) as (w' & Hu & _ & _ & _ & Hc & _).
  rewrite Hu. unfold unlocked in *. cbn in Hc. congruence.
Qed.

Lemma unlocked_unlock_ret k u (r : Response) E :
  benign u -> hoare (unlocked k) (call_unlock u ;; ret r) (fun _ => unlocked (S k)) E.
Proof.
  intros Hb. eapply hoare_bind; [apply unlocked_call_unlock, Hb |].
  intros ?. apply hoare_ret. auto.
Qed.

Ltac keeps_unlocked :=
  repeat first
    [ apply preserves_ret
    | apply preserves_throw
    | apply unlocked_db_query
    | apply unlocked_privateDB_query
    | apply unlocked_db_run
    | apply unlocked_privateDB_run
    | match goal with |- preserves _ (spawn _) => intros ? ?; assumption end
    | match goal with |- preserves _ (Logger_error _) => intros ? ?; assumption end
    | match goal with |- preserves _ Date_now => intros ? ?; assumption end
    | match goal with |- preserves _ (if ?c then _ else _) => destruct c end
    | match goal with |- preserves _ (match ?c with Some _ => _ | None => _ end) =>
        destruct c end
    | match goal with |- preserves _ (match ?c with (_, _) => _ end) => destruct c end
    | match goal with |- preserves _ (match ?c with [] => _ | _ :: _ => _ end) =>
        destruct c end
    | apply preserves_bind; [| intros ?] ].

Lemma unlocked_categoryVote k config env UUID userID isVIP isTempVIP isOwn category
  hashedIP fr :
  preserves (unlocked k)
    (categoryVote config env UUID userID isVIP isTempVIP isOwn category hashedIP fr).
Proof. unfold categoryVote. keeps_unlocked. Qed.

Lemma unlocked_updateSegmentVideoDuration k env UUID :
  preserves (unlocked k) (updateSegmentVideoDuration env UUID).
Proof. unfold updateSegmentVideoDuration, apiVideoDuration. keeps_unlocked. Qed.

Lemma unlocked_checkLocks k isVIP type seg fr :
  preserves (unlocked k) (checkLocks isVIP type seg fr).
Proof. unfold checkLocks. keeps_unlocked. Qed.

Lemma unlocked_ableToVote k isVIP isTempVIP isOwn inc old t0 seg fr nonAnon UUID hashedIP
  userID :
  preserves (unlocked k)
    (ableToVote isVIP isTempVIP isOwn inc old t0 seg fr nonAnon UUID hashedIP userID).
Proof. unfold ableToVote. keeps_unlocked. Qed.

(** The [try] block returns with the lock released, or throws with the
    lock still held. *)
Lemma unlocked_voteBody k env unlock UUID type nonAnon userID hashedIP seg isVIP isTempVIP
  isOwn fr vte :
  benign unlock ->
  hoare (unlocked k)
    (voteBody env unlock UUID type nonAnon userID hashedIP seg isVIP isTempVIP isOwn fr vte)
    (fun _ => unlocked (S k)) (unlocked k).
Proof.
  intros Hb. unfold voteBody.
  eapply hoare_bind; [apply unlocked_privateDB_query |]. intros votesRow.
  destruct (incrementAmountOf type) as [[t0 i0]|]; [| apply unlocked_unlock_ret, Hb].
  destruct (amplified _ _ _ _ _) as [ty inc].
  eapply hoare_bind; [apply unlocked_ableToVote |]. intros able.
  eapply hoare_bind; [| intros ?; apply unlocked_unlock_ret, Hb].
  destruct able; [| apply preserves_ret].
  pose proof (unlocked_updateSegmentVideoDuration k env UUID) as Hdur.
  repeat first
    [ exact Hdur
    | apply preserves_ret
    | apply unlocked_db_run
    | apply unlocked_privateDB_run
    | match goal with |- preserves _ (spawn _) => intros ? ?; assumption end
    | match goal with |- preserves _ (if ?c then _ else _) => destruct c end
    | apply preserves_bind; [| intros ?] ].
Qed.

Lemma unlocked_numericVote k env unlock UUID type nonAnon userID hashedIP seg isVIP
  isTempVIP isOwn fr0 :
  benign unlock ->
  hoare (unlocked k)
    (numericVote env unlock UUID type nonAnon userID hashedIP seg isVIP isTempVIP isOwn fr0)
    (fun _ => unlocked (S k)) (unlocked k).
Proof.
  intros Hb. unfold numericVote.
  eapply hoare_bind; [apply unlocked_checkLocks |]. intros fr. cbv zeta.
  destruct (_ && js_eq type 1); [apply unlocked_unlock_ret, Hb |].
  destruct (_ && js_eq type 0); [apply unlocked_unlock_ret, Hb |].
  eapply hoare_bind with (R := fun _ => unlocked k).
  { destruct (js_le type 0); [intros ? ?; assumption | apply preserves_ret]. }
  intros ?. eapply hoare_try_catch; [apply unlocked_voteBody, Hb |].
  intros e. eapply hoare_bind; [apply unlocked_call_unlock, Hb |]. intros ?.
  eapply hoare_bind with (R := fun _ => unlocked (S k)); [intros ? ?; assumption |].
  intros ?. apply hoare_ret. auto.
Qed.

Lemma hoare_exn_left {A} P (m : M A) Q (E E' : World -> Prop) :
  hoare P m Q E -> hoare P m Q (fun w => E w \/ E' w).
Proof.
  intros H w Hw. specialize (H w Hw).
  destruct (m w) as [[a|e] w']; [exact H | left; exact H].
Qed.

Lemma hoare_exn_right {A} P (m : M A) Q (E E' : World -> Prop) :
  hoare P m Q E' -> hoare P m Q (fun w => E w \/ E' w).
Proof.
  intros H w Hw. specialize (H w Hw).
  destruct (m w) as [[a|e] w']; [exact H | right; exact H].
Qed.

(** Holding the lock, [vote] returns with [unlock] called exactly once;
    when it throws, [unlock] has been called once or not at all. *)
Lemma unlocked_votePipeline k config env UUID type category nonAnon userID hashedIP unlock :
  benign unlock ->
  hoare (unlocked k)
    (votePipeline config env UUID type category nonAnon userID hashedIP unlock)
    (fun _ => unlocked (S k)) (fun w => unlocked k w \/ unlocked (S k) w).
Proof.
  intros Hb. unfold votePipeline. cbv zeta.
  eapply hoare_bind with (R := fun _ => unlocked k).
  { apply hoare_exn_left. apply unlocked_db_query. }
  intros [seg|]; [| apply unlocked_unlock_ret, Hb].
  destruct (js_eq type 10 || js_eq type 11); [apply unlocked_unlock_ret, Hb |].
  eapply hoare_bind with (R := fun _ => unlocked k); [intros ? ?; assumption |].
  intros n.
  eapply hoare_bind with (R := fun _ => unlocked k).
  { apply hoare_exn_left. apply unlocked_db_query. }
  intros ws.
  destruct (_ >=? _).
  { eapply hoare_bind; [apply unlocked_call_unlock, Hb |]. intros ?.
    destruct (hd_error ws); [apply hoare_ret; auto | apply hoare_throw].
    intros w H. right. exact H. }
  destruct (checkBanStatus env nonAnon hashedIP); [apply unlocked_unlock_ret, Hb |].
  destruct (js_not type && truthy_opt category).
  - eapply hoare_bind; [apply unlocked_call_unlock, Hb |]. intros ?.
    apply hoare_exn_right. apply unlocked_categoryVote.
  - apply hoare_exn_left. apply unlocked_numericVote, Hb.
Qed.

(** Every call that is granted the lock and returns has called [unlock]
    exactly once: this covers the returns of C3's list (404, 400, 403, the
    banned 200, the category vote, the dead segment, the unrecognised type,
    the normal end) and the catch branch with its 500. *)
Lemma vote_returns_unlocked config env ip UUID paramUserID type category w r w' :
  entersPipeline config UUID paramUserID type category w ->
  vote config env ip UUID paramUserID type category w = (Returned r, w') ->
  unlockCalls w' = S (unlockCalls w).
Proof.
  intros Henter Hvote.
  destruct (vote_enters config env ip UUID paramUserID type category w Henter)
    as (unlock & w1 & Hb & (_ & _ & _ & Hc & _) & Heq).
  rewrite Heq in Hvote.
  pose proof (unlocked_votePipeline (unlockCalls w) config env UUID type category
                (getHashCache env paramUserID) (getHashCache env (paramUserID +++ UUID))
                (getHashCache env (ip +++ globalSalt config)) unlock Hb w1 Hc) as H.
  rewrite Hvote in H. exact H.
Qed.

(** C3 is not met by the code.  A statement that throws before the
    [try] block is not caught: when the SELECT of the segment fails, a call
    that holds the lock throws without ever calling [unlock]; with redis
    enabled and working, the key of the lock is still set when the call is
    over. *)
Theorem vote_leaks_lock_when_segment_query_fails
  config env ip UUID paramUserID type category w fs :
  entersPipeline config UUID paramUserID type category w ->
  dbFaults w = true :: fs ->
  (exists e, fst (vote config env ip UUID paramUserID type category w) = Thrown e)
  /\ unlockCalls (snd (vote config env ip UUID paramUserID type category w)) = unlockCalls w
  /\ (redis_enabled config = true -> redisFaults w = [] ->
      mem (lockKey UUID paramUserID)
          (redisKeys (snd (vote config env ip UUID paramUserID type category w))) = true).
Proof.
  intros Henter Hf. split; [| split].
  - destruct (vote_enters config env ip UUID paramUserID type category w Henter)
      as (unlock & w1 & Hb & (_ & _ & Hf1 & _) & ->).
    unfold votePipeline, bind, db_query, bind, statement. rewrite Hf1, Hf.
    eexists. reflexivity.
  - destruct (vote_enters config env ip UUID paramUserID type category w Henter)
      as (unlock & w1 & Hb & (_ & _ & Hf1 & Hc & _) & ->).
    unfold votePipeline, bind, db_query, bind, statement. rewrite Hf1, Hf.
    cbn. exact Hc.
  - intros Hen Hrf. destruct Henter as (Hm & Hs & Hl).
    unfold vote. rewrite Hm, Hs. cbv zeta.
    unfold acquireLock in Hl |- *. rewrite Hen in Hl |- *. cbn [negb] in Hl |- *.
    unfold bind, try_catch in Hl |- *.
    rewrite (run_redis_set_nx _ _ w Hrf) in Hl |- *.
    destruct (mem (lockKey UUID paramUserID) (redisKeys w)); [discriminate Hl |].
    cbn [isSome ret fst snd]. unfold votePipeline, bind, db_query, bind, statement.
    cbn [dbFaults with_redis]. rewrite Hf. cbn [snd].
    apply (mem_redisKeys_set _ defaultTimeout _ w). reflexivity.
Qed.

(** A run of C3's theorem: the segment exists, the caller is an ordinary
    user, and the first statement fails. *)
Lemma vote_leaks_lock_when_segment_query_fails_witness :
  fst (vote Sample.config Sample.env "1.2.3.4" "seg" "user-u" (JsNum 1) None
            Sample.failing_world) = Thrown "database error"
  /\ unlockCalls (snd (vote Sample.config Sample.env "1.2.3.4" "seg" "user-u" (JsNum 1) None
                            Sample.failing_world)) = 0%nat
  /\ redisKeys (snd (vote Sample.config Sample.env "1.2.3.4" "seg" "user-u" (JsNum 1) None
                          Sample.failing_world)) = ["voteOnSponsorTime:seg.user-u"].
Proof.
  destruct (vote_leaks_lock_when_segment_query_fails Sample.config Sample.env "1.2.3.4"
              "seg" "user-u" (JsNum 1) None Sample.failing_world [])
    as (_ & Hc & _).
  - repeat split.
  - reflexivity.
  - split; [reflexivity |]. split; [exact Hc | reflexivity].
Defined.

(** ** The category vote *)

(** [ceil_half v] is the least integer that is at least [v / 2]. *)
Lemma ceil_half_spec v : v <= 2 * ceil_half v < v + 2.
Proof.
  unfold ceil_half.
  pose proof (Z.div_mod (v + 1) 2 ltac:(lia)) as H.
  pose proof (Z.mod_pos_bound (v + 1) 2 ltac:(lia)) as Hm.
  lia.
Qed.

Lemma categoryVotesOf_add UUID c c' amount d :
  categoryVotesOf UUID c (addCategoryVotes UUID c' amount d)
  = option_map (fun v => if String.eqb c c' then v + amount else v)
               (categoryVotesOf UUID c d).
Proof.
  unfold categoryVotesOf, addCategoryVotes. cbn [categoryVotes with_categoryVotes].
  induction (categoryVotes d) as [|r l IH]; [reflexivity |].
  cbn [update_where map find].
  destruct (isCategoryRow UUID c r) eqn:Hc.
  - destruct (isCategoryRow UUID c' r) eqn:Hc'.
    + cbn [CategoryVotes.add_votes]. unfold isCategoryRow in *. cbn.
      rewrite Hc. cbn.
      apply andb_prop in Hc, Hc'. destruct Hc as [_ Hc], Hc' as [_ Hc'].
      apply String.eqb_eq in Hc, Hc'. rewrite <- Hc, <- Hc', String.eqb_refl. reflexivity.
    + rewrite Hc. cbn. unfold isCategoryRow in *.
      apply andb_prop in Hc. destruct Hc as [HU Hc]. rewrite HU in Hc'. cbn in Hc'.
      apply String.eqb_eq in Hc. subst c. rewrite Hc'. reflexivity.
  - destruct (isCategoryRow UUID c' r) eqn:Hc'.
    + unfold isCategoryRow in *. cbn. rewrite Hc. exact IH.
    + rewrite Hc. exact IH.
Qed.

Lemma categoryVotesOf_insert UUID c c' v d :
  categoryVotesOf UUID c (insertCategoryVotes UUID c' v d)
  = match categoryVotesOf UUID c d with
    | Some x => Some x
    | None => if String.eqb c' c then Some v else None
    end.
Proof.
  unfold categoryVotesOf, insertCategoryVotes. cbn [categoryVotes with_categoryVotes].
  rewrite find_app. destruct (find _ (categoryVotes d)); [reflexivity |].
  cbn. unfold isCategoryRow. cbn. rewrite String.eqb_refl. cbn.
  destruct (String.eqb c' c); reflexivity.
Qed.

Lemma categoryVotesCount_pos UUID c d :
  (categoryVotesCount UUID c d >? 0) = isSome (categoryVotesOf UUID c d).
Proof.
  unfold categoryVotesCount, categoryVotesOf.
  induction (categoryVotes d) as [|r l IH]; [reflexivity |].
  cbn [filter find]. destruct (isCategoryRow UUID c r); [| exact IH].
  cbn [length option_map isSome]. apply Z.gtb_lt. lia.
Qed.

Lemma leastCategory_In c rows :
  leastCategory c rows = c
  \/ In (leastCategory c rows) (map PrivateCategoryVotes.category rows).
Proof.
  revert c. induction rows as [|r rows IH]; intros c; [left; reflexivity |].
  cbn [leastCategory map].
  destruct (IH (if String.ltb (PrivateCategoryVotes.category r) c
                then PrivateCategoryVotes.category r else c)) as [H | H].
  - rewrite H. destruct (String.ltb _ c); [right; left | left]; reflexivity.
  - right. right. exact H.
Qed.

Lemma count_of_member c (rows : list PrivateCategoryVotes.row) :
  In c (map PrivateCategoryVotes.category rows) ->
  (0 < length (filter (fun r => String.eqb (PrivateCategoryVotes.category r) c) rows))%nat.
Proof.
  induction rows as [|r rows IH]; [intros [] |].
  cbn [map filter]. intros [<- | H].
  - rewrite String.eqb_refl. cbn [length]. lia.
  - specialize (IH H). destruct (String.eqb _ c); cbn [length]; lia.
Qed.

(** The group that the query returns is one of the user's rows. *)
Lemma usersLastVote_member UUID u p n c :
  usersLastVote UUID u p = Some (n, c) ->
  In c (map PrivateCategoryVotes.category
            (filter (isChoiceOf UUID u) (privateCategoryVotes p))).
Proof.
  unfold usersLastVote. destruct (filter _ _) as [|r l]; [discriminate |].
  intros [= _ <-]. cbn [map].
  destruct (leastCategory_In (PrivateCategoryVotes.category r) l) as [-> | H];
    [left; reflexivity | right; exact H].
Qed.

Lemma usersLastVote_count UUID u p n c :
  usersLastVote UUID u p = Some (n, c) -> (n >? 0) = true.
Proof.
  intros H. pose proof (usersLastVote_member _ _ _ _ _ H) as Hin.
  apply count_of_member in Hin.
  unfold usersLastVote in H. destruct (filter _ _) as [|r l]; [discriminate |].
  cbv zeta in H. injection H as Hn Hc. rewrite Hc in Hn. subst n.
  cbn [filter] in Hin |- *. apply Z.gtb_lt. lia.
Qed.

(** ** Running the category vote *)

Lemma segmentByUUID_addCategoryVotes UUID U c amount d :
  segmentByUUID UUID (addCategoryVotes U c amount d) = segmentByUUID UUID d.
Proof. reflexivity. Qed.

Lemma segmentByUUID_insertCategoryVotes UUID U c v d :
  segmentByUUID UUID (insertCategoryVotes U c v d) = segmentByUUID UUID d.
Proof. reflexivity. Qed.

(** A category that is allowed for some action type has an entry of its
    own in the configuration. *)
Lemma supported_not_inherited config c a (b : bool) :
  (negb (supportsAction config c a) || b) = false -> inheritedSupport config c = false.
Proof.
  unfold supportsAction, inheritedSupport. intros H. apply orb_false_elim in H.
  destruct H as [H _]. destruct (categorySupportOf c (categorySupport config));
    [reflexivity | discriminate H].
Qed.

Lemma categoryVote_eligible_run config env UUID userID isVIP isTempVIP isOwn category
  hashedIP fr seg w :
  eligibleCategoryVote config UUID userID isVIP category fr seg w ->
  let voteAmount := if isVIP || isTempVIP then 500 else 1 in
  let last := usersLastVote UUID userID (privateDB w) in
  let d1 :=
    if categoryVotesCount UUID category (db w) >? 0
    then addCategoryVotes UUID category voteAmount (db w)
    else insertCategoryVotes UUID category voteAmount (db w) in
  let d2 :=
    match last with
    | Some (_, lastCategory) => addCategoryVotes UUID lastCategory (- voteAmount) d1
    | None => d1
    end in
  let choice :=
    {| PrivateCategoryVotes.UUID := UUID; PrivateCategoryVotes.userID := userID;
       PrivateCategoryVotes.hashedIP := hashedIP;
       PrivateCategoryVotes.category := category;
       PrivateCategoryVotes.timeSubmitted := now w |} in
  let p1 :=
    match last with
    | Some _ => updateChoice category (now w) hashedIP userID UUID (privateDB w)
    | None => insertChoice choice (privateDB w)
    end in
  let startingVotes := if isUserVIP env (SponsorTimes.userID seg) then 10000 else 1 in
  let current := categoryVotesOf UUID (SponsorTimes.category seg) d2 in
  let currentCategoryCount := match current with Some v => v | None => startingVotes end in
  let d3 :=
    match current with
    | Some _ => d2
    | None => insertCategoryVotes UUID (SponsorTimes.category seg) currentCategoryCount d2
    end in
  let p2 :=
    match current with
    | Some _ => p1
    | None =>
        insertChoice
          {| PrivateCategoryVotes.UUID := UUID;
             PrivateCategoryVotes.userID := SponsorTimes.userID seg;
             PrivateCategoryVotes.hashedIP := "unknown";
             PrivateCategoryVotes.category := SponsorTimes.category seg;
             PrivateCategoryVotes.timeSubmitted := SponsorTimes.timeSubmitted seg |} p1
    end in
  let nextCategoryCount :=
    match categoryVotesOf UUID category (db w) with Some v => v | None => 0 end
    + voteAmount in
  let d4 :=
    if isVIP || isTempVIP || isOwn
       || (nextCategoryCount - currentCategoryCount
           >=? Z.max (ceil_half (SponsorTimes.votes seg)) 2)
    then updateSegments UUID (SponsorTimes.set_category category) d3
    else d3 in
  fst (categoryVote config env UUID userID isVIP isTempVIP isOwn category hashedIP fr w)
  = Returned (respond 200)
  /\ db (snd (categoryVote config env UUID userID isVIP isTempVIP isOwn category hashedIP
                           fr w)) = d4
  /\ privateDB (snd (categoryVote config env UUID userID isVIP isTempVIP isOwn category
                                  hashedIP fr w)) = p2.
Proof.
  intros (Hf & Hseg & Hdouble & Hsupp & Hlist & Hnext & Hlocked & Hstatus).
  intros voteAmount last d1 d2 choice p1 startingVotes current currentCategoryCount
         d3 p2 nextCategoryCount d4.
  unfold categoryVote.
  rewrite (run_privateDB_query _ _ w Hf). rewrite Hdouble.
  rewrite (run_db_query _ _ w Hf), Hseg, (supported_not_inherited _ _ _ _ Hsupp), Hsupp, Hlist.
  rewrite (run_db_query _ _ w Hf), Hnext, Hlocked.
  rewrite (run_db_query _ _ w Hf), run_Date_now. cbv zeta. rewrite Hstatus.
  apply Z.eqb_eq in Hstatus. rewrite Hstatus.
  subst d4 p2 d3 nextCategoryCount currentCategoryCount current startingVotes p1 choice
        d2 d1 last voteAmount.
  rewrite !bind_assoc, (run_db_query _ _ w Hf).
  destruct (categoryVotesCount UUID category (db w) >? 0);
    mrun; cbn [db privateDB with_db with_privateDB].
  all: destruct (usersLastVote UUID userID (privateDB w)) as [[n lastCategory]|] eqn:Hlast;
    [rewrite (usersLastVote_count _ _ _ _ _ Hlast) |];
    mrun; cbn [db privateDB with_db with_privateDB].
  all: rewrite ?segmentByUUID_addCategoryVotes, ?segmentByUUID_insertCategoryVotes, Hseg.
  all: match goal with
       | |- context [bind (match ?c with Some _ => _ | None => _ end) _ _] =>
           destruct c
       end;
    mrun; cbn [db privateDB with_db with_privateDB].
  all: match goal with
       | |- context [bind (if ?c then _ else _) _ _] => destruct c
       end;
    mrun; cbn [db privateDB with_db with_privateDB].
  all: repeat split.
Qed.

Lemma categoryVotesOf_updateSegments UUID c U f d :
  categoryVotesOf UUID c (updateSegments U f d) = categoryVotesOf UUID c d.
Proof. reflexivity. Qed.

Lemma option_map_same {A} (o : option A) : option_map (fun v => v) o = o.
Proof. destruct o; reflexivity. Qed.

(** The candidate's aggregate once the vote is credited. *)
Lemma credited_candidate UUID category amount d :
  categoryVotesOf UUID category
    (if categoryVotesCount UUID category d >? 0
     then addCategoryVotes UUID category amount d
     else insertCategoryVotes UUID category amount d)
  = Some (match categoryVotesOf UUID category d with Some v => v | None => 0 end + amount).
Proof.
  rewrite categoryVotesCount_pos.
  destruct (categoryVotesOf UUID category d) as [v|] eqn:E; cbn [isSome].
  - rewrite categoryVotesOf_add, E, String.eqb_refl. reflexivity.
  - rewrite categoryVotesOf_insert, E, String.eqb_refl. reflexivity.
Qed.

Lemma credited_other UUID category c amount d :
  String.eqb c category = false ->
  categoryVotesOf UUID c
    (if categoryVotesCount UUID category d >? 0
     then addCategoryVotes UUID category amount d
     else insertCategoryVotes UUID category amount d)
  = categoryVotesOf UUID c d.
Proof.
  intros Hne. destruct (_ >? 0).
  - rewrite categoryVotesOf_add, Hne. apply option_map_same.
  - rewrite categoryVotesOf_insert, String.eqb_sym, Hne.
    destruct (categoryVotesOf UUID c d); reflexivity.
Qed.

(** C2. In an eligible category vote the candidate's aggregate after the
    credit is its earlier value (0 without a row) plus the weight of the
    vote; the current category's aggregate is the one read after the tally,
    or the starting value seeded for it (10000 for a VIP submitter, else 1)
    when it has no row; and the segment's category afterwards is the
    candidate if the caller is VIP, temporary VIP or the submitter, or if
    the first minus the second is at least max(ceil(votes / 2), 2), and is
    the category it was otherwise.  Here ceil(votes / 2) is [half], the
    least integer whose double is at least the segment's votes. *)
Theorem categoryVote_flips_at_threshold config env UUID userID isVIP isTempVIP isOwn
  category hashedIP fr seg w half :
  eligibleCategoryVote config UUID userID isVIP category fr seg w ->
  SponsorTimes.votes seg <= 2 * half < SponsorTimes.votes seg + 2 ->
  exists next current,
    categoryVotesOf UUID category
      (db (snd (categoryVote config env UUID userID isVIP isTempVIP isOwn category hashedIP
                             fr w))) = Some next
    /\ next = match categoryVotesOf UUID category (db w) with Some v => v | None => 0 end
              + (if isVIP || isTempVIP then 500 else 1)
    /\ categoryVotesOf UUID (SponsorTimes.category seg)
         (db (snd (categoryVote config env UUID userID isVIP isTempVIP isOwn category
                                hashedIP fr w))) = Some current
    /\ (categoryVotesOf UUID (SponsorTimes.category seg) (db w) = None ->
        SponsorTimes.category seg <> category ->
        current = if isUserVIP env (SponsorTimes.userID seg) then 10000 else 1)
    /\ option_map SponsorTimes.category
         (segmentByUUID UUID
            (db (snd (categoryVote config env UUID userID isVIP isTempVIP isOwn category
                                   hashedIP fr w))))
       = Some (if isVIP || isTempVIP || isOwn
                  || (next - current >=? Z.max half 2)
               then category
               else SponsorTimes.category seg).
Proof.
  intros Helig Hhalf.
  assert (Hceil : half = ceil_half (SponsorTimes.votes seg)).
  { pose proof (ceil_half_spec (SponsorTimes.votes seg)). lia. }
  subst half. clear Hhalf.
  destruct (categoryVote_eligible_run config env UUID userID isVIP isTempVIP isOwn
              category hashedIP fr seg w Helig) as (_ & Hdb & _).
  destruct Helig as (Hf & Hseg & Hdouble & _).
  cbv zeta in Hdb. rewrite Hdb. clear Hdb.
  set (amount := if isVIP || isTempVIP then 500 else 1).
  set (starting := if isUserVIP env (SponsorTimes.userID seg) then 10000 else 1).
  set (d1 := if categoryVotesCount UUID category (db w) >? 0
             then addCategoryVotes UUID category amount (db w)
             else insertCategoryVotes UUID category amount (db w)).
  set (d2 := match usersLastVote UUID userID (privateDB w) with
             | Some (_, lastCategory) => addCategoryVotes UUID lastCategory (- amount) d1
             | None => d1
             end).
  set (next := match categoryVotesOf UUID category (db w) with Some v => v | None => 0 end
               + amount).
  assert (Hnext2 : categoryVotesOf UUID category d2 = Some next).
  { subst d2. destruct (usersLastVote UUID userID (privateDB w)) as [[n last]|].
    - rewrite categoryVotesOf_add, String.eqb_sym, Hdouble, option_map_same.
      apply credited_candidate.
    - apply credited_candidate. }
  assert (Hseg2 : segmentByUUID UUID d2 = Some seg).
  { subst d2 d1. destruct (usersLastVote _ _ _) as [[n last]|]; destruct (_ >? 0);
      exact Hseg. }
  assert (Hcur2 : categoryVotesOf UUID (SponsorTimes.category seg) (db w) = None ->
                  SponsorTimes.category seg <> category ->
                  categoryVotesOf UUID (SponsorTimes.category seg) d2 = None).
  { intros Hnone Hne. apply String.eqb_neq in Hne. subst d2.
    destruct (usersLastVote _ _ _) as [[n last]|].
    - rewrite categoryVotesOf_add. subst d1. rewrite credited_other, Hnone by exact Hne.
      reflexivity.
    - subst d1. rewrite credited_other by exact Hne. exact Hnone. }
  clearbody d2. clear d1.
  destruct (categoryVotesOf UUID (SponsorTimes.category seg) d2) as [cur|] eqn:Hcur.
  - exists next, cur.
    assert (Hfinal : forall b : bool,
               categoryVotesOf UUID category
                 (if b then updateSegments UUID (SponsorTimes.set_category category) d2
                  else d2) = Some next
               /\ categoryVotesOf UUID (SponsorTimes.category seg)
                    (if b then updateSegments UUID (SponsorTimes.set_category category) d2
                     else d2) = Some cur
               /\ option_map SponsorTimes.category
                    (segmentByUUID UUID
                       (if b then updateSegments UUID (SponsorTimes.set_category category) d2
                        else d2))
                  = Some (if b then category else SponsorTimes.category seg)).
    { intros [|]; (split; [| split]); rewrite ?categoryVotesOf_updateSegments;
        try assumption.
      - rewrite segmentByUUID_updateSegments by (intros r; reflexivity).
        rewrite Hseg2. reflexivity.
      - rewrite Hseg2. reflexivity. }
    destruct (Hfinal (isVIP || isTempVIP || isOwn
                      || (next - cur >=? Z.max (ceil_half (SponsorTimes.votes seg)) 2)))
      as (H1 & H2 & H3).
    split; [exact H1 |]. split; [reflexivity |]. split; [exact H2 |].
    split; [| exact H3].
    intros Hnone Hne. discriminate (Hcur2 Hnone Hne).
  - exists next, starting.
    set (d3 := insertCategoryVotes UUID (SponsorTimes.category seg) starting d2).
    assert (Hnext3 : categoryVotesOf UUID category d3 = Some next).
    { subst d3. rewrite categoryVotesOf_insert, Hnext2. reflexivity. }
    assert (Hcur3 : categoryVotesOf UUID (SponsorTimes.category seg) d3 = Some starting).
    { subst d3. rewrite categoryVotesOf_insert, Hcur, String.eqb_refl. reflexivity. }
    assert (Hseg3 : segmentByUUID UUID d3 = Some seg) by exact Hseg2.
    clearbody d3.
    assert (Hfinal : forall b : bool,
               categoryVotesOf UUID category
                 (if b then updateSegments UUID (SponsorTimes.set_category category) d3
                  else d3) = Some next
               /\ categoryVotesOf UUID (SponsorTimes.category seg)
                    (if b then updateSegments UUID (SponsorTimes.set_category category) d3
                     else d3) = Some starting
               /\ option_map SponsorTimes.category
                    (segmentByUUID UUID
                       (if b then updateSegments UUID (SponsorTimes.set_category category) d3
                        else d3))
                  = Some (if b then category else SponsorTimes.category seg)).
    { intros [|]; (split; [| split]); rewrite ?categoryVotesOf_updateSegments;
        try assumption.
      - rewrite segmentByUUID_updateSegments by (intros r; reflexivity).
        rewrite Hseg3. reflexivity.
      - rewrite Hseg3. reflexivity. }
    destruct (Hfinal (isVIP || isTempVIP || isOwn
                      || (next - starting
                          >=? Z.max (ceil_half (SponsorTimes.votes seg)) 2)))
      as (H1 & H2 & H3).
    split; [exact H1 |]. split; [reflexivity |]. split; [exact H2 |].
    split; [reflexivity | exact H3].
Qed.

(** Runs of C2's theorem, with an ordinary user voting "intro" on a
    "sponsor" segment.  With nine votes the threshold is max(5, 2) = 5:
    aggregates of 1 and 5 give 6 - 1 = 5 and the category changes;
    aggregates of 2 and 5 give 6 - 2 = 4 and it stays.  With one vote the
    threshold is max(1, 2) = 2: aggregates of 1 and 1 give 2 - 1 = 1 and
    the category stays; aggregates of 1 and 2 give 3 - 1 = 2 and it
    changes.  With three votes and no aggregate yet, 1 - 1 = 0 (the second
    1 is the seeded starting value) and the category stays, unless the
    caller is the submitter. *)
Lemma categoryVote_flips_at_threshold_witness :
  option_map SponsorTimes.category
    (segmentByUUID "seg"
       (db (snd (categoryVote Sample.config Sample.env "seg" "#user-u" false false false
                              "intro" "#1.2.3.4salt" Sample.finalResponse
                              (Sample.tally_world 9 1 5)))))
  = Some "intro"
  /\ option_map SponsorTimes.category
    (segmentByUUID "seg"
       (db (snd (categoryVote Sample.config Sample.env "seg" "#user-u" false false false
                              "intro" "#1.2.3.4salt" Sample.finalResponse
                              (Sample.tally_world 9 2 5)))))
  = Some "sponsor"
  /\ option_map SponsorTimes.category
    (segmentByUUID "seg"
       (db (snd (categoryVote Sample.config Sample.env "seg" "#user-u" false false false
                              "intro" "#1.2.3.4salt" Sample.finalResponse
                              (Sample.tally_world 1 1 1)))))
  = Some "sponsor"
  /\ option_map SponsorTimes.category
    (segmentByUUID "seg"
       (db (snd (categoryVote Sample.config Sample.env "seg" "#user-u" false false false
                              "intro" "#1.2.3.4salt" Sample.finalResponse
                              (Sample.tally_world 1 1 2)))))
  = Some "intro"
  /\ option_map SponsorTimes.category
    (segmentByUUID "seg"
       (db (snd (categoryVote Sample.config Sample.env "seg" "#user-u" false false false
                              "intro" "#1.2.3.4salt" Sample.finalResponse
                              Sample.quiet_world))))
  = Some "sponsor"
  /\ option_map SponsorTimes.category
    (segmentByUUID "seg"
       (db (snd (categoryVote Sample.config Sample.env "seg" "#owner" false false true
                              "intro" "#1.2.3.4salt" Sample.finalResponse
                              Sample.quiet_world))))
  = Some "intro".
Proof.
  assert (Hrun : forall own user v w half,
             eligibleCategoryVote Sample.config "seg" user false "intro"
               Sample.finalResponse (Sample.segment "seg" v "sponsor" Skip "#owner") w ->
             v <= 2 * half < v + 2 ->
             option_map SponsorTimes.category
               (segmentByUUID "seg"
                  (db (snd (categoryVote Sample.config Sample.env "seg" user false false own
                                         "intro" "#1.2.3.4salt" Sample.finalResponse w))))
             = Some (if own
                        || (match categoryVotesOf "seg" "intro" (db w) with
                            | Some x => x
                            | None => 0
                            end + 1
                            - match categoryVotesOf "seg" "sponsor"
                                      (db (snd (categoryVote Sample.config Sample.env "seg"
                                                  user false false own "intro"
                                                  "#1.2.3.4salt" Sample.finalResponse w)))
                              with
                              | Some x => x
                              | None => 0
                              end
                            >=? Z.max half 2)
                     then "intro" else "sponsor")).
  { intros own user v w half Helig Hhalf.
    destruct (categoryVote_flips_at_threshold Sample.config Sample.env "seg" user
                false false own "intro" "#1.2.3.4salt" Sample.finalResponse
                (Sample.segment "seg" v "sponsor" Skip "#owner") w half Helig Hhalf)
      as (next & current & _ & H2 & H3 & _ & H5).
    cbn [SponsorTimes.category Sample.segment] in H3, H5.
    rewrite H5, H3, H2. reflexivity. }
  split; [rewrite (Hrun false "#user-u" 9 _ 5); [reflexivity | repeat split | lia] |].
  split; [rewrite (Hrun false "#user-u" 9 _ 5); [reflexivity | repeat split | lia] |].
  split; [rewrite (Hrun false "#user-u" 1 _ 1); [reflexivity | repeat split | lia] |].
  split; [rewrite (Hrun false "#user-u" 1 _ 1); [reflexivity | repeat split | lia] |].
  split; [rewrite (Hrun false "#user-u" 3 _ 2); [reflexivity | repeat split | lia] |].
  rewrite (Hrun true "#owner" 3 _ 2); [reflexivity | repeat split | lia].
Defined.

(** ** One category per user *)

Lemma filter_update_where {R} (c : R -> bool) (f : R -> R) (l : list R) :
  (forall r, c (f r) = c r) ->
  filter c (update_where c f l) = map f (filter c l).
Proof.
  intros Hf. induction l as [|r l IH]; [reflexivity |].
  cbn [update_where map filter]. destruct (c r) eqn:Hr.
  - rewrite Hf, Hr. cbn [map]. f_equal. exact IH.
  - rewrite Hr. exact IH.
Qed.

Lemma choicesOf_updateChoice UUID u c t ip p :
  choicesOf UUID u (updateChoice c t ip u UUID p) = map (fun _ => c) (choicesOf UUID u p).
Proof.
  unfold choicesOf, updateChoice. cbn [privateCategoryVotes with_privateCategoryVotes].
  rewrite filter_update_where by (intros r; reflexivity).
  rewrite !map_map. reflexivity.
Qed.

Lemma choicesOf_insertChoice UUID u r p :
  choicesOf UUID u (insertChoice r p)
  = choicesOf UUID u p
    ++ (if isChoiceOf UUID u r then [PrivateCategoryVotes.category r] else []).
Proof.
  unfold choicesOf, insertChoice. cbn [privateCategoryVotes with_privateCategoryVotes].
  rewrite filter_app, map_app. cbn [filter]. destruct (isChoiceOf UUID u r); reflexivity.
Qed.

Lemma usersLastVote_none UUID u p :
  usersLastVote UUID u p = None -> choicesOf UUID u p = [].
Proof.
  unfold usersLastVote, choicesOf. destruct (filter _ _); [reflexivity | discriminate].
Qed.

Lemma usersLastVote_some UUID u p n c :
  usersLastVote UUID u p = Some (n, c) -> In c (choicesOf UUID u p).
Proof. apply usersLastVote_member. Qed.

(** When all the user's rows name one category, the query returns it. *)
Lemma usersLastVote_all UUID u p c :
  choicesOf UUID u p <> [] ->
  (forall c', In c' (choicesOf UUID u p) -> c' = c) ->
  option_map snd (usersLastVote UUID u p) = Some c.
Proof.
  intros Hne Hall.
  destruct (usersLastVote UUID u p) as [[n c0]|] eqn:Hlast.
  - cbn. f_equal. apply Hall. exact (usersLastVote_some _ _ _ _ _ Hlast).
  - contradiction Hne. apply usersLastVote_none, Hlast.
Qed.

(** The user's rows after the tally of an eligible vote: as many as before
    (one where there was none), all under the candidate. *)
Lemma choicesOf_tallied UUID userID category t hashedIP p :
  choicesOf UUID userID
    match usersLastVote UUID userID p with
    | Some _ => updateChoice category t hashedIP userID UUID p
    | None =>
        insertChoice
          {| PrivateCategoryVotes.UUID := UUID; PrivateCategoryVotes.userID := userID;
             PrivateCategoryVotes.hashedIP := hashedIP;
             PrivateCategoryVotes.category := category;
             PrivateCategoryVotes.timeSubmitted := t |} p
    end
  = repeat category (Nat.max 1 (length (choicesOf UUID userID p))).
Proof.
  destruct (usersLastVote UUID userID p) as [[n last]|] eqn:Hlast.
  - rewrite choicesOf_updateChoice, map_const.
    pose proof (usersLastVote_some _ _ _ _ _ Hlast) as Hin.
    destruct (choicesOf UUID userID p) as [|c l]; [destruct Hin |].
    cbn [length]. rewrite Nat.max_r by lia. reflexivity.
  - rewrite choicesOf_insertChoice, (usersLastVote_none _ _ _ Hlast).
    unfold isChoiceOf. cbn. rewrite !String.eqb_refl. reflexivity.
Qed.

(** Whether lines 278-290 run: the aggregates after the tally have a row
    for the current category exactly when there was one or it is the
    candidate. *)
Lemma tallied_current UUID category amount (last : option (Z * Category)) current d :
  isSome
    (categoryVotesOf UUID current
       match last with
       | Some (_, lastCategory) =>
           addCategoryVotes UUID lastCategory (- amount)
             (if categoryVotesCount UUID category d >? 0
              then addCategoryVotes UUID category amount d
              else insertCategoryVotes UUID category amount d)
       | None =>
           if categoryVotesCount UUID category d >? 0
           then addCategoryVotes UUID category amount d
           else insertCategoryVotes UUID category amount d
       end)
  = isSome (categoryVotesOf UUID current d) || String.eqb current category.
Proof.
  assert (H : isSome
                (categoryVotesOf UUID current
                   (if categoryVotesCount UUID category d >? 0
                    then addCategoryVotes UUID category amount d
                    else insertCategoryVotes UUID category amount d))
              = isSome (categoryVotesOf UUID current d) || String.eqb current category).
  { destruct (String.eqb_spec current category) as [-> | Hne].
    - rewrite credited_candidate, orb_true_r. reflexivity.
    - apply String.eqb_neq in Hne. rewrite credited_other, orb_false_r by exact Hne.
      reflexivity. }
  destruct last as [[n lastCategory]|]; [| exact H].
  rewrite categoryVotesOf_add, <- H.
  destruct (categoryVotesOf UUID current _); reflexivity.
Qed.

(** The candidate's aggregate after an eligible category vote. *)
Lemma categoryVote_credits config env UUID userID isVIP isTempVIP isOwn category
  hashedIP fr seg w :
  eligibleCategoryVote config UUID userID isVIP category fr seg w ->
  categoryVotesOf UUID category
    (db (snd (categoryVote config env UUID userID isVIP isTempVIP isOwn category hashedIP
                           fr w)))
  = Some (match categoryVotesOf UUID category (db w) with Some v => v | None => 0 end
          + (if isVIP || isTempVIP then 500 else 1)).
Proof.
  intros Helig.
  destruct (categoryVote_eligible_run config env UUID userID isVIP isTempVIP isOwn
              category hashedIP fr seg w Helig) as (_ & Hdb & _).
  destruct Helig as (Hf & Hseg & Hdouble & _).
  cbv zeta in Hdb. rewrite Hdb. clear Hdb.
  set (amount := if isVIP || isTempVIP then 500 else 1).
  set (d1 := if categoryVotesCount UUID category (db w) >? 0
             then addCategoryVotes UUID category amount (db w)
             else insertCategoryVotes UUID category amount (db w)).
  set (d2 := match usersLastVote UUID userID (privateDB w) with
             | Some (_, lastCategory) => addCategoryVotes UUID lastCategory (- amount) d1
             | None => d1
             end).
  assert (Hnext2 : categoryVotesOf UUID category d2
                   = Some (match categoryVotesOf UUID category (db w) with
                           | Some v => v
                           | None => 0
                           end + amount)).
  { subst d2. destruct (usersLastVote UUID userID (privateDB w)) as [[n last]|].
    - rewrite categoryVotesOf_add, String.eqb_sym, Hdouble, option_map_same.
      apply credited_candidate.
    - apply credited_candidate. }
  clearbody d2. clear d1.
  match goal with |- context [if ?b then _ else _] => destruct b end;
    rewrite ?categoryVotesOf_updateSegments;
    destruct (categoryVotesOf UUID (SponsorTimes.category seg) d2);
    rewrite ?categoryVotesOf_insert, Hnext2; reflexivity.
Qed.

(** The caller's private rows after an eligible category vote. *)
Lemma categoryVote_rows config env UUID userID isVIP isTempVIP isOwn category
  hashedIP fr seg w :
  eligibleCategoryVote config UUID userID isVIP category fr seg w ->
  choicesOf UUID userID
    (privateDB (snd (categoryVote config env UUID userID isVIP isTempVIP isOwn
                                  category hashedIP fr w)))
  = repeat category (Nat.max 1 (length (choicesOf UUID userID (privateDB w))))
    ++ (if seededFor UUID userID category seg (db w)
        then [SponsorTimes.category seg]
        else []).
Proof.
  intros Helig.
  destruct (categoryVote_eligible_run config env UUID userID isVIP isTempVIP isOwn
              category hashedIP fr seg w Helig) as (_ & _ & Hpriv).
  cbv zeta in Hpriv. rewrite Hpriv. clear Hpriv.
  set (amount := if isVIP || isTempVIP then 500 else 1).
  pose proof (tallied_current UUID category amount
                (usersLastVote UUID userID (privateDB w)) (SponsorTimes.category seg)
                (db w)) as Hcur.
  pose proof (choicesOf_tallied UUID userID category (now w) hashedIP (privateDB w)) as Hp1.
  set (d2 := match usersLastVote UUID userID (privateDB w) with
             | Some (_, lastCategory) =>
                 addCategoryVotes UUID lastCategory (- amount)
                   (if categoryVotesCount UUID category (db w) >? 0
                    then addCategoryVotes UUID category amount (db w)
                    else insertCategoryVotes UUID category amount (db w))
             | None =>
                 if categoryVotesCount UUID category (db w) >? 0
                 then addCategoryVotes UUID category amount (db w)
                 else insertCategoryVotes UUID category amount (db w)
             end) in *.
  set (p1 := match usersLastVote UUID userID (privateDB w) with
             | Some _ => updateChoice category (now w) hashedIP userID UUID (privateDB w)
             | None => _
             end) in *.
  clearbody d2 p1. unfold seededFor.
  destruct (categoryVotesOf UUID (SponsorTimes.category seg) d2) as [v|].
  - cbn [isSome] in Hcur. rewrite Hp1.
    destruct (isSome (categoryVotesOf UUID (SponsorTimes.category seg) (db w)));
      cbn [negb andb orb] in *.
    + rewrite andb_false_r, app_nil_r. reflexivity.
    + rewrite <- Hcur, andb_false_r, app_nil_r. reflexivity.
  - cbn [isSome] in Hcur. symmetry in Hcur. apply orb_false_elim in Hcur.
    destruct Hcur as [-> ->]. cbn [negb]. rewrite !andb_true_r.
    rewrite choicesOf_insertChoice, Hp1. unfold isChoiceOf. cbn.
    rewrite String.eqb_refl, (String.eqb_sym (SponsorTimes.userID seg)). reflexivity.
Qed.

(** Unless a row is seeded in the caller's name, the caller's rows after
    an eligible vote all name the candidate, and so does the group that the
    query returns next. *)
Lemma categoryVote_records_choice config env UUID userID isVIP isTempVIP isOwn category
  hashedIP fr seg w :
  eligibleCategoryVote config UUID userID isVIP category fr seg w ->
  seededFor UUID userID category seg (db w) = false ->
  (forall c,
     In c (choicesOf UUID userID
             (privateDB (snd (categoryVote config env UUID userID isVIP isTempVIP isOwn
                                           category hashedIP fr w)))) ->
     c = category)
  /\ option_map snd
       (usersLastVote UUID userID
          (privateDB (snd (categoryVote config env UUID userID isVIP isTempVIP isOwn
                                        category hashedIP fr w))))
     = Some category.
Proof.
  intros Helig Hseeded.
  pose proof (categoryVote_rows config env UUID userID isVIP isTempVIP isOwn category
                hashedIP fr seg w Helig) as Hrows.
  rewrite Hseeded, app_nil_r in Hrows.
  assert (Hall : forall c,
             In c (choicesOf UUID userID
                     (privateDB (snd (categoryVote config env UUID userID isVIP isTempVIP
                                                   isOwn category hashedIP fr w)))) ->
             c = category).
  { intros c Hc. rewrite Hrows in Hc. exact (repeat_spec _ _ _ Hc). }
  split; [exact Hall |].
  apply usersLastVote_all; [| exact Hall].
  rewrite Hrows.
  destruct (Nat.max 1 (length (choicesOf UUID userID (privateDB w)))) eqn:E;
    [lia | discriminate].
Qed.

(** C8, as stated, fails.  The submitter of a "sponsor" segment that has no
    category votes yet votes "intro" on it: the vote is eligible and
    answered with 200; the private table had no row for the submitter and
    now records them under "intro", for the vote, and under "sponsor", for
    the submission counted as a vote, with an aggregate of 1 in each. *)
Lemma categoryVote_submitter_in_two_categories :
  eligibleCategoryVote Sample.config "seg" "#owner" false "intro" Sample.finalResponse
    (Sample.segment "seg" 3 "sponsor" Skip "#owner") Sample.quiet_world
  /\ oneCategory "seg" "#owner" (privateDB Sample.quiet_world)
  /\ fst (vote Sample.config Sample.env "1.2.3.4" "seg" "owner" JsUndefined (Some "intro")
               Sample.quiet_world) = Returned (respond 200)
  /\ choicesOf "seg" "#owner"
       (privateDB (snd (vote Sample.config Sample.env "1.2.3.4" "seg" "owner" JsUndefined
                             (Some "intro") Sample.quiet_world)))
     = ["intro"; "sponsor"]
  /\ categoryVotesOf "seg" "intro"
       (db (snd (vote Sample.config Sample.env "1.2.3.4" "seg" "owner" JsUndefined
                      (Some "intro") Sample.quiet_world))) = Some 1
  /\ categoryVotesOf "seg" "sponsor"
       (db (snd (vote Sample.config Sample.env "1.2.3.4" "seg" "owner" JsUndefined
                      (Some "intro") Sample.quiet_world))) = Some 1
  /\ ~ oneCategory "seg" "#owner"
         (privateDB (snd (vote Sample.config Sample.env "1.2.3.4" "seg" "owner" JsUndefined
                               (Some "intro") Sample.quiet_world))).
Proof.
  split; [repeat split |]. split; [intros c c' [] |].
  split; [reflexivity |]. split; [reflexivity |]. split; [reflexivity |].
  split; [reflexivity |].
  intros H. specialize (H "intro" "sponsor").
  assert (Hc : choicesOf "seg" "#owner"
                 (privateDB (snd (vote Sample.config Sample.env "1.2.3.4" "seg" "owner"
                                       JsUndefined (Some "intro") Sample.quiet_world)))
               = ["intro"; "sponsor"]) by reflexivity.
  rewrite Hc in H. discriminate H; cbn; auto.
Qed.

(** C8, amended.  An eligible category vote credits the candidate's
    aggregate with the caller's weight (500 for a VIP or temporary VIP,
    else 1), creating the row when there is none.  When the query of lines
    152-157 returned a group for the caller, the aggregate of that group's
    category is debited by the same weight (if that category has no row,
    nothing is debited, and when it is the segment's current category the
    row seeded for the submission takes its place).  Afterwards the caller
    has as many private rows for the segment as before (one if there was
    none), all under the candidate, and one more, under the segment's
    current category, exactly when lines 278-290 seed a row in the caller's
    name: the caller is the submitter, and the current category had no
    aggregate row and is not the candidate.  So, but for that case, the
    caller is recorded under one category, the candidate, which is what
    the query returns next; and in that case the caller is recorded under
    two. *)
Theorem categoryVote_reassigns config env UUID userID isVIP isTempVIP isOwn category
  hashedIP fr seg w :
  eligibleCategoryVote config UUID userID isVIP category fr seg w ->
  categoryVotesOf UUID category
    (db (snd (categoryVote config env UUID userID isVIP isTempVIP isOwn category hashedIP
                           fr w)))
  = Some (match categoryVotesOf UUID category (db w) with Some v => v | None => 0 end
          + (if isVIP || isTempVIP then 500 else 1))
  /\ (forall n last,
        usersLastVote UUID userID (privateDB w) = Some (n, last) ->
        categoryVotesOf UUID last
          (db (snd (categoryVote config env UUID userID isVIP isTempVIP isOwn category
                                 hashedIP fr w)))
        = match categoryVotesOf UUID last (db w) with
          | Some v => Some (v - (if isVIP || isTempVIP then 500 else 1))
          | None =>
              if String.eqb (SponsorTimes.category seg) last
              then Some (if isUserVIP env (SponsorTimes.userID seg) then 10000 else 1)
              else None
          end)
  /\ choicesOf UUID userID
       (privateDB (snd (categoryVote config env UUID userID isVIP isTempVIP isOwn
                                     category hashedIP fr w)))
     = repeat category (Nat.max 1 (length (choicesOf UUID userID (privateDB w))))
       ++ (if seededFor UUID userID category seg (db w)
           then [SponsorTimes.category seg]
           else [])
  /\ (seededFor UUID userID category seg (db w) = false ->
      oneCategory UUID userID
        (privateDB (snd (categoryVote config env UUID userID isVIP isTempVIP isOwn
                                      category hashedIP fr w)))
      /\ option_map snd
           (usersLastVote UUID userID
              (privateDB (snd (categoryVote config env UUID userID isVIP isTempVIP isOwn
                                            category hashedIP fr w))))
         = Some category)
  /\ (seededFor UUID userID category seg (db w) = true ->
      ~ oneCategory UUID userID
          (privateDB (snd (categoryVote config env UUID userID isVIP isTempVIP isOwn
                                        category hashedIP fr w)))).
Proof.
  intros Helig.
  pose proof (categoryVote_credits config env UUID userID isVIP isTempVIP isOwn
                category hashedIP fr seg w Helig) as Hn.
  pose proof (categoryVote_rows config env UUID userID isVIP isTempVIP isOwn category
                hashedIP fr seg w Helig) as Hrows.
  pose proof (categoryVote_records_choice config env UUID userID isVIP isTempVIP isOwn
                category hashedIP fr seg w Helig) as Hchoice.
  destruct (categoryVote_eligible_run config env UUID userID isVIP isTempVIP isOwn
              category hashedIP fr seg w Helig) as (_ & Hdb & _).
  destruct Helig as (Hf & Hseg & Hdouble & _).
  cbv zeta in Hdb.
  split; [exact Hn |]. clear Hn.
  split; [| split; [exact Hrows | split]].
  - intros n last Hlast. rewrite Hdb. clear Hdb Hrows Hchoice.
    set (amount := if isVIP || isTempVIP then 500 else 1) in *.
    set (starting := if isUserVIP env (SponsorTimes.userID seg) then 10000 else 1) in *.
    set (d1 := if categoryVotesCount UUID category (db w) >? 0
               then addCategoryVotes UUID category amount (db w)
               else insertCategoryVotes UUID category amount (db w)) in *.
    set (d2 := match usersLastVote UUID userID (privateDB w) with
               | Some (_, lastCategory) => addCategoryVotes UUID lastCategory (- amount) d1
               | None => d1
               end) in *.
    rewrite Hlast in Hdouble.
    assert (Hd2 : categoryVotesOf UUID last d2
                  = option_map (fun v => v - amount) (categoryVotesOf UUID last (db w))).
    { subst d2. rewrite Hlast, categoryVotesOf_add, String.eqb_refl.
      subst d1. rewrite credited_other by exact Hdouble.
      destruct (categoryVotesOf UUID last (db w)); reflexivity. }
    assert (Hin : categoryVotesOf UUID last
                    match categoryVotesOf UUID (SponsorTimes.category seg) d2 with
                    | Some _ => d2
                    | None =>
                        insertCategoryVotes UUID (SponsorTimes.category seg)
                          match categoryVotesOf UUID (SponsorTimes.category seg) d2 with
                          | Some v => v
                          | None => starting
                          end d2
                    end
                  = match categoryVotesOf UUID last (db w) with
                    | Some v => Some (v - amount)
                    | None => if String.eqb (SponsorTimes.category seg) last
                              then Some starting else None
                    end).
    { destruct (categoryVotesOf UUID (SponsorTimes.category seg) d2) as [v|] eqn:Hcur.
      - rewrite Hd2. destruct (categoryVotesOf UUID last (db w)) as [v0|] eqn:Hpre;
          [reflexivity |].
        destruct (String.eqb_spec (SponsorTimes.category seg) last) as [<- | Hne];
          [| reflexivity].
        rewrite Hd2 in Hcur. discriminate.
      - rewrite categoryVotesOf_insert, Hd2.
        destruct (categoryVotesOf UUID last (db w)) as [v0|]; reflexivity. }
    match goal with |- context [if ?b then _ else _] => destruct b end;
      [rewrite categoryVotesOf_updateSegments |]; exact Hin.
  - intros Hseeded. destruct (Hchoice Hseeded) as [Hall Hnext].
    split; [| exact Hnext].
    intros c c' H1 H2. rewrite (Hall c H1), (Hall c' H2). reflexivity.
  - intros Hseeded Hone. rewrite Hseeded in Hrows.
    unfold seededFor in Hseeded. apply andb_prop in Hseeded. destruct Hseeded as [_ Hne].
    apply negb_true_iff, String.eqb_neq in Hne. apply Hne. symmetry.
    apply (Hone category (SponsorTimes.category seg)); rewrite Hrows; apply in_or_app.
    + left. destruct (Nat.max 1 _) eqn:E; [lia | left; reflexivity].
    + right. left. reflexivity.
Qed.

(** A run of the amended C8: "user-u", who has voted "intro" before,
    votes "sponsor".  The aggregate of "sponsor" goes from 1 to 2, that of
    "intro" from 5 to 4, and the one private row of "user-u" now names
    "sponsor". *)
Lemma categoryVote_reassigns_witness :
  categoryVotesOf "seg" "sponsor"
    (db (snd (categoryVote Sample.config Sample.env "seg" "#user-u" false false false
                           "sponsor" "#1.2.3.4salt" Sample.finalResponse
                           Sample.switch_world)))
  = Some 2
  /\ categoryVotesOf "seg" "intro"
       (db (snd (categoryVote Sample.config Sample.env "seg" "#user-u" false false false
                              "sponsor" "#1.2.3.4salt" Sample.finalResponse
                              Sample.switch_world)))
     = Some 4
  /\ choicesOf "seg" "#user-u"
       (privateDB (snd (categoryVote Sample.config Sample.env "seg" "#user-u" false false
                                     false "sponsor" "#1.2.3.4salt" Sample.finalResponse
                                     Sample.switch_world)))
     = ["sponsor"]
  /\ oneCategory "seg" "#user-u"
       (privateDB (snd (categoryVote Sample.config Sample.env "seg" "#user-u" false false
                                     false "sponsor" "#1.2.3.4salt" Sample.finalResponse
                                     Sample.switch_world))).
Proof.
  destruct (categoryVote_reassigns Sample.config Sample.env "seg" "#user-u"
              false false false "sponsor" "#1.2.3.4salt" Sample.finalResponse
              (Sample.segment "seg" 10 "sponsor" Skip "#owner") Sample.switch_world)
    as (Hcredit & Hdebit & Hrows & Hone & _).
  - repeat split.
  - split; [exact Hcredit |].
    split; [exact (Hdebit 1 "intro" eq_refl) |].
    split; [exact Hrows |].
    exact (proj1 (Hone eq_refl)).
Defined.

(** ** The detached duration check *)

Lemma map_update_where {R B} (g : R -> B) (c : R -> bool) (f : R -> R) (l : list R) :
  (forall r, g (f r) = g r) -> map g (update_where c f l) = map g l.
Proof.
  intros Hg. unfold update_where. rewrite map_map. apply map_ext.
  intros r. destruct (c r); [apply Hg | reflexivity].
Qed.

(** Whenever it runs and whatever fails, [checkVideoDuration] changes no
    segment's id or vote count, no category aggregate and nothing in the
    private database: the statements about votes hold for every schedule
    of the detached work. *)
Lemma checkVideoDuration_keeps_votes env deleteLockCategories UUID counts aggregates p0 :
  preserves
    (onStores (fun d p =>
       map (fun r => (SponsorTimes.UUID r, SponsorTimes.votes r)) (sponsorTimes d) = counts
       /\ categoryVotes d = aggregates /\ p = p0))
    (checkVideoDuration env deleteLockCategories UUID).
Proof.
  unfold checkVideoDuration.
  apply preserves_bind; [apply onStores_db_query |].
  intros [r|]; [| apply preserves_throw]. cbv zeta.
  apply preserves_bind; [apply onStores_apiVideoDuration |].
  intros [dur|]; [| apply preserves_ret].
  apply preserves_bind; [apply onStores_db_query |].
  intros [l|]; [| apply preserves_ret].
  destruct (videoDurationChanged _ _); [| apply preserves_ret].
  apply preserves_bind.
  - apply onStores_db_run. intros d p (H1 & H2 & H3). split; [| split]; try assumption.
    unfold hideUpTo. cbn [sponsorTimes].
    rewrite map_update_where by (intros x; reflexivity). exact H1.
  - intros _. unfold catch_log. apply preserves_try_catch.
    + apply onStores_db_run. intros d p H. exact H.
    + intros e. apply onStores_Logger_error.
Qed.


(** * Further properties of the code *)

(** ** The lock around [vote] *)

(** X1. A call of [vote] that is granted the lock calls [unlock] exactly
    once when it returns, whatever statements fail on the way, and at most
    once when it throws: no path releases the lock twice. *)
Theorem vote_unlocks_at_most_once config env ip UUID paramUserID type category w :
  entersPipeline config UUID paramUserID type category w ->
  match vote config env ip UUID paramUserID type category w with
  | (Returned _, w') => unlockCalls w' = S (unlockCalls w)
  | (Thrown _, w') => unlockCalls w' = unlockCalls w \/ unlockCalls w' = S (unlockCalls w)
  end.
Proof.
  intros Henter.
  destruct (vote_enters config env ip UUID paramUserID type category w Henter)
    as (unlock & w1 & Hb & (_ & _ & _ & Hc & _) & ->).
  pose proof (unlocked_votePipeline (unlockCalls w) config env UUID type category
                (getHashCache env paramUserID) (getHashCache env (paramUserID +++ UUID))
                (getHashCache env (ip +++ globalSalt config)) unlock Hb w1 Hc) as H.
  destruct (votePipeline _ _ _ _ _ _ _ _ _ w1) as [[r|e] w']; exact H.
Qed.

(** A run of X1: an upvote by an ordinary user. *)
Lemma vote_unlocks_at_most_once_witness :
  unlockCalls (snd (vote Sample.config Sample.env "1.2.3.4" "seg" "user-u" (JsNum 1) None
                         Sample.quiet_world)) = 1%nat.
Proof.
  exact (vote_unlocks_at_most_once Sample.config Sample.env "1.2.3.4" "seg" "user-u"
           (JsNum 1) None Sample.quiet_world (conj eq_refl (conj eq_refl eq_refl))).
Defined.

(** ** What the detached duration check can do *)

Lemma Forall2_hiddenOrSame_refl l : Forall2 hiddenOrSame l l.
Proof. induction l; constructor; [left; reflexivity | assumption]. Qed.

Lemma Forall2_hiddenOrSame_hide (c : SponsorTimes.row -> bool) l0 l :
  Forall2 hiddenOrSame l0 l ->
  Forall2 hiddenOrSame l0 (update_where c (SponsorTimes.set_flags None (Some 1) None) l).
Proof.
  intros H. induction H as [|r r' l0 l Hr _ IH]; [constructor |].
  cbn [update_where map]. constructor; [| exact IH].
  destruct (c r'); [| exact Hr].
  destruct Hr as [-> | ->]; right; reflexivity.
Qed.

Lemma checkVideoDuration_hides_only env deleteLockCategories UUID rows aggregates warns p0 :
  preserves
    (onStores (fun d p =>
       Forall2 hiddenOrSame rows (sponsorTimes d)
       /\ categoryVotes d = aggregates /\ warnings d = warns /\ p = p0))
    (checkVideoDuration env deleteLockCategories UUID).
Proof.
  unfold checkVideoDuration.
  apply preserves_bind; [apply onStores_db_query |].
  intros [r|]; [| apply preserves_throw]. cbv zeta.
  apply preserves_bind; [apply onStores_apiVideoDuration |].
  intros [dur|]; [| apply preserves_ret].
  apply preserves_bind; [apply onStores_db_query |].
  intros [l|]; [| apply preserves_ret].
  destruct (videoDurationChanged _ _); [| apply preserves_ret].
  apply preserves_bind.
  - apply onStores_db_run. intros d p (H1 & H2 & H3 & H4). repeat split; try assumption.
    unfold hideUpTo. cbn [sponsorTimes]. apply Forall2_hiddenOrSame_hide, H1.
  - intros _. unfold catch_log. apply preserves_try_catch.
    + apply onStores_db_run. intros d p H. exact H.
    + intros e. apply onStores_Logger_error.
Qed.

(** The duration check run on stores that are those of [w]: every segment
    row is the row it was or that row hidden, and the category aggregates
    and the private database are as they were. *)
Lemma checkVideoDuration_after env deleteLockCategories UUID w w1 :
  db w1 = db w -> privateDB w1 = privateDB w ->
  Forall2 hiddenOrSame (sponsorTimes (db w))
    (sponsorTimes (db (snd (checkVideoDuration env deleteLockCategories UUID w1))))
  /\ categoryVotes (db (snd (checkVideoDuration env deleteLockCategories UUID w1)))
     = categoryVotes (db w)
  /\ privateDB (snd (checkVideoDuration env deleteLockCategories UUID w1)) = privateDB w.
Proof.
  intros Hd Hp.
  pose proof (checkVideoDuration_hides_only env deleteLockCategories UUID
                (sponsorTimes (db w)) (categoryVotes (db w)) (warnings (db w))
                (privateDB w) w1) as H.
  unfold onStores in H. rewrite Hd, Hp in H.
  specialize (H (conj (Forall2_hiddenOrSame_refl _) (conj eq_refl (conj eq_refl eq_refl)))).
  destruct (checkVideoDuration env deleteLockCategories UUID w1) as [[r|e] w2];
    cbn [snd]; destruct H as (H1 & H2 & _ & H4); repeat split; assumption.
Qed.

(** ** What a refused vote leaves behind *)

Lemma hoare_any {A} (P : World -> Prop) (m : M A) :
  hoare P m (fun _ _ => True) (fun _ => True).
Proof. intros w _. destruct (m w) as [[a|e] w']; exact I. Qed.

Lemma hoare_exn_any {A} P (m : M A) Q (E : World -> Prop) :
  hoare P m Q E -> hoare P m Q (fun _ => True).
Proof.
  intros H w Hw. specialize (H w Hw). destruct (m w) as [[a|e] w']; [exact H | exact I].
Qed.

(** Whatever comes first, the computation ends as its last step does. *)
Lemma hoare_ends_with {A B} (P : World -> Prop) (m : M A) (k : A -> M B) Q :
  (forall a, hoare (fun _ => True) (k a) Q (fun _ => True)) ->
  hoare P (bind m k) Q (fun _ => True).
Proof.
  intros Hk. eapply hoare_bind; [apply hoare_any |]. intros a. apply Hk.
Qed.

(** *** Work that is started and not awaited *)

Lemma keepsDetached_ret {A} (a : A) : keepsDetached (ret a).
Proof. intros w. reflexivity. Qed.

Lemma keepsDetached_throw {A} e : keepsDetached (@throw A e).
Proof. intros w. reflexivity. Qed.

Lemma keepsDetached_bind {A B} (m : M A) (k : A -> M B) :
  keepsDetached m -> (forall a, keepsDetached (k a)) -> keepsDetached (bind m k).
Proof.
  intros Hm Hk w. unfold bind. specialize (Hm w).
  destruct (m w) as [[a|e] w1]; cbn [snd] in *; [rewrite Hk |]; exact Hm.
Qed.

Lemma keepsDetached_statement : keepsDetached statement.
Proof. intros w. unfold statement. destruct (dbFaults w) as [|[|] fs]; reflexivity. Qed.

Lemma keepsDetached_db_query {A} (q : Database -> A) : keepsDetached (db_query q).
Proof.
  apply keepsDetached_bind; [apply keepsDetached_statement | intros _ w; reflexivity].
Qed.

Lemma keepsDetached_privateDB_query {A} (q : PrivateDB -> A) :
  keepsDetached (privateDB_query q).
Proof.
  apply keepsDetached_bind; [apply keepsDetached_statement | intros _ w; reflexivity].
Qed.

Lemma keepsDetached_call_unlock u : benign u -> keepsDetached (call_unlock u).
Proof.
  intros Hb w. unfold call_unlock.
  destruct (Hb (with_unlockCalls (S (unlockCalls w)) w))
    as (w' & Hu & _ & _ & _ & _ & Hdt & _).
  rewrite Hu. exact Hdt.
Qed.

Lemma keepsDetached_unlock_ret u (r : Response) :
  benign u -> keepsDetached (call_unlock u ;; ret r).
Proof.
  intros Hb. apply keepsDetached_bind; [apply keepsDetached_call_unlock, Hb |].
  intros _. apply keepsDetached_ret.
Qed.

Lemma keepsDetached_checkLocks isVIP type seg fr0 :
  keepsDetached (checkLocks isVIP type seg fr0).
Proof.
  unfold checkLocks.
  destruct (negb isVIP && _); [| apply keepsDetached_ret].
  apply keepsDetached_bind.
  - destruct (negb (SponsorTimes.locked seg =? 0)); [apply keepsDetached_ret |].
    apply keepsDetached_bind; [apply keepsDetached_db_query |].
    intros r. apply keepsDetached_ret.
  - intros [|]; apply keepsDetached_ret.
Qed.

Lemma keepsDetached_ableToVote isVIP isTempVIP isOwn inc old t0 seg fr nonAnon UUID hashedIP
  userID :
  keepsDetached
    (ableToVote isVIP isTempVIP isOwn inc old t0 seg fr nonAnon UUID hashedIP userID).
Proof.
  unfold ableToVote.
  destruct (isVIP || isTempVIP); [apply keepsDetached_ret |].
  match goal with |- context [if ?c then _ else _] => destruct c end;
    [| apply keepsDetached_ret].
  apply keepsDetached_bind; [apply keepsDetached_db_query |].
  intros s. destruct (isSome s); [| apply keepsDetached_ret].
  apply keepsDetached_bind; [apply keepsDetached_privateDB_query |].
  intros v. apply keepsDetached_ret.
Qed.

(** A computation that starts no work keeps [untouched] where it keeps
    [unchanged]. *)
Lemma untouched_value {A} d p n l (m : M A) (phi : A -> Prop) :
  keepsDetached m ->
  hoare (unchanged d p n) m (fun a w => phi a /\ unchanged d p n w) (unchanged d p n) ->
  hoare (untouched d p n l) m (fun a w => phi a /\ untouched d p n l w) (untouched d p n l).
Proof.
  intros Hk H w [Hu Hl]. specialize (H w Hu). specialize (Hk w).
  destruct (m w) as [[a|e] w']; cbn [snd] in Hk.
  - destruct H as [Hphi Hu']. split; [exact Hphi |]. split; [exact Hu' | congruence].
  - split; [exact H | congruence].
Qed.

Lemma untouched_preserves {A} d p n l (m : M A) :
  keepsDetached m -> preserves (unchanged d p n) m -> preserves (untouched d p n l) m.
Proof.
  intros Hk H w [Hu Hl]. specialize (H w Hu). specialize (Hk w).
  destruct (m w) as [[a|e] w']; cbn [snd] in Hk; (split; [exact H | congruence]).
Qed.

Lemma untouched_db_query_any {A} d p n l (q : Database -> A) :
  preserves (untouched d p n l) (db_query q).
Proof.
  apply untouched_preserves; [apply keepsDetached_db_query | apply unchanged_db_query_any].
Qed.

Lemma untouched_privateDB_query_any {A} d p n l (q : PrivateDB -> A) :
  preserves (untouched d p n l) (privateDB_query q).
Proof.
  apply untouched_preserves;
    [apply keepsDetached_privateDB_query | apply unchanged_privateDB_query_any].
Qed.

Lemma untouched_call_unlock d p n l u :
  benign u -> preserves (untouched d p n l) (call_unlock u).
Proof.
  intros Hb. apply untouched_preserves;
    [apply keepsDetached_call_unlock, Hb | apply unchanged_call_unlock, Hb].
Qed.

Lemma untouched_unlock_ret d p n l u (r : Response) :
  benign u -> preserves (untouched d p n l) (call_unlock u ;; ret r).
Proof.
  intros Hb. apply untouched_preserves;
    [apply keepsDetached_unlock_ret, Hb | apply unchanged_unlock_ret, Hb].
Qed.

(** Lines 462-464. *)
Lemma untouched_starts_check d p n l type UUID (E : World -> Prop) :
  hoare (untouched d p n l)
    (if js_le type 0 then spawn (CheckVideoDuration UUID) else ret tt)
    (fun _ => untouched d p n (if js_le type 0 then CheckVideoDuration UUID :: l else l))
    E.
Proof.
  intros w [Hu Hl]. destruct (js_le type 0); cbn; (split; [exact Hu |]); cbn; congruence.
Qed.

(** [vote] up to the lock. *)
Lemma untouched_vote_from_pipeline config env ip UUID paramUserID type category d p n l
  (Q : Response -> World -> Prop) (E : World -> Prop) :
  (forall r, hoare (untouched d p n l) (ret r) Q E) ->
  (forall unlock, benign unlock ->
     hoare (untouched d p n l)
       (votePipeline config env UUID type category
                     (getHashCache env paramUserID)
                     (getHashCache env (paramUserID +++ UUID))
                     (getHashCache env (ip +++ globalSalt config)) unlock) Q E) ->
  hoare (untouched d p n l) (vote config env ip UUID paramUserID type category) Q E.
Proof.
  intros Hret H. unfold vote.
  destruct (missingKeyParameters _ _ _ _); [apply Hret |].
  destruct (_ <? _); [apply Hret |]. cbv zeta.
  eapply hoare_bind with
    (R := fun lk w => (forall u, lk = LockHeld u -> benign u) /\ untouched d p n l w).
  - intros w ((Hd & Hp & Hn) & Hl).
    destruct (acquireLock_cases config (lockKey UUID paramUserID) defaultTimeout w)
      as (lk & w1 & Hacq & (Hd1 & Hp1 & _ & _ & Hdt1 & Hn1) & Hben).
    rewrite Hacq. split; [exact Hben |]. repeat split; congruence.
  - intros [|unlock]; apply hoare_pure; intros Hben.
    + apply Hret.
    + apply H. apply Hben. reflexivity.
Qed.

(** *** Refusals *)

Lemma refusal_of_preserves d p n l type UUID (m : M Response) :
  preserves (untouched d p n l) m ->
  hoare (untouched d p n l) m (leftByRefusal d p n l type UUID) (fun _ => True).
Proof.
  intros H w Hw. specialize (H w Hw).
  destruct (m w) as [[r|e] w']; [| exact I].
  intros _. destruct H as [Hu Hl]. split; [exact Hu | left; exact Hl].
Qed.

Lemma refusal_of_answer {A} (P : World -> Prop) d p n l type UUID (m : M A)
  (r : Response) :
  status r = 200 \/ status r = 500 ->
  hoare P (m ;; ret r) (leftByRefusal d p n l type UUID) (fun _ => True).
Proof.
  intros Hr. apply hoare_ends_with. intros _. apply hoare_ret.
  intros w _ [H2 H5]. destruct Hr; contradiction.
Qed.

Lemma categoryVote_refusal d p n l type config env UUID userID isVIP isTempVIP isOwn
  category hashedIP fr :
  finalStatus fr = 200 ->
  hoare (untouched d p n l)
    (categoryVote config env UUID userID isVIP isTempVIP isOwn category hashedIP fr)
    (leftByRefusal d p n l type UUID) (fun _ => True).
Proof.
  intros Hfs. unfold categoryVote.
  eapply hoare_bind; [eapply hoare_exn_any; apply untouched_privateDB_query_any |].
  intros last.
  match goal with |- hoare _ (if ?c then _ else _) _ _ => destruct c end.
  { apply refusal_of_preserves, preserves_ret. }
  eapply hoare_bind; [eapply hoare_exn_any; apply untouched_db_query_any |].
  intros [seg|]; [| apply hoare_throw; auto].
  destruct (inheritedSupport config category); [apply hoare_throw; auto |].
  match goal with |- hoare _ (if ?c then _ else _) _ _ => destruct c end.
  { apply refusal_of_preserves, preserves_ret. }
  match goal with |- hoare _ (if ?c then _ else _) _ _ => destruct c end.
  { apply refusal_of_preserves, preserves_ret. }
  eapply hoare_bind; [eapply hoare_exn_any; apply untouched_db_query_any |].
  intros locked.
  match goal with |- hoare _ (if ?c then _ else _) _ _ => destruct c end.
  { apply refusal_of_preserves, preserves_ret. }
  match goal with |- hoare _ (if ?c then _ else _) _ _ => destruct c end.
  { apply refusal_of_preserves, preserves_ret. }
  apply hoare_ends_with. intros next.
  apply hoare_ends_with. intros t. cbv zeta.
  apply hoare_ends_with. intros _.
  apply hoare_ends_with. intros _.
  apply hoare_ret. intros w _ [H _]. cbn in H. contradiction.
Qed.

Lemma unchanged_checkLocks_status d p n isVIP type seg fr0 :
  hoare (unchanged d p n) (checkLocks isVIP type seg fr0)
    (fun fr w => (finalStatus fr = finalStatus fr0 /\ finalMessage fr = finalMessage fr0)
                 /\ unchanged d p n w)
    (unchanged d p n).
Proof.
  unfold checkLocks.
  destruct (negb isVIP && _); [| apply hoare_ret; auto].
  eapply hoare_bind with (R := fun _ => unchanged d p n).
  - destruct (negb (SponsorTimes.locked seg =? 0)); [apply preserves_ret |].
    apply preserves_bind; [apply unchanged_db_query_any | intros r; apply preserves_ret].
  - intros [|]; apply hoare_ret; auto.
Qed.

Lemma numericVote_refusal d p n l env unlock UUID type nonAnon userID hashedIP seg isVIP
  isTempVIP isOwn fr0 :
  benign unlock ->
  finalStatus fr0 = 200 ->
  hoare (untouched d p n l)
    (numericVote env unlock UUID type nonAnon userID hashedIP seg isVIP isTempVIP isOwn fr0)
    (leftByRefusal d p n l type UUID) (fun _ => True).
Proof.
  intros Hb Hfs. unfold numericVote.
  eapply hoare_bind.
  { eapply hoare_exn_any. apply untouched_value;
      [apply keepsDetached_checkLocks | apply unchanged_checkLocks_status]. }
  intros fr. apply hoare_pure. intros [Hfr _]. rewrite Hfs in Hfr. cbv zeta.
  destruct (_ && js_eq type 1); [apply refusal_of_preserves, untouched_unlock_ret, Hb |].
  destruct (_ && js_eq type 0); [apply refusal_of_preserves, untouched_unlock_ret, Hb |].
  eapply hoare_bind; [apply untouched_starts_check |].
  intros ?. eapply hoare_try_catch with (E' := fun _ => True).
  - unfold voteBody.
    eapply hoare_bind; [eapply hoare_exn_any; apply untouched_privateDB_query_any |].
    intros votesRow.
    destruct (incrementAmountOf type) as [[t0 i0]|] eqn:Hinc.
    + destruct (amplified _ _ _ _ _) as [ty inc].
      apply hoare_ends_with. intros able.
      apply hoare_ends_with. intros _.
      apply hoare_ends_with. intros _.
      apply hoare_ret. intros w _ [H _]. cbn in H. contradiction.
    + eapply hoare_bind; [eapply hoare_exn_any; apply untouched_call_unlock, Hb |].
      intros ?. apply hoare_ret. intros w [Hu Hl] _. split; [exact Hu |].
      destruct (js_le type 0); [right | left; exact Hl].
      repeat split; assumption.
  - intros e.
    apply hoare_ends_with. intros _.
    apply hoare_ends_with. intros _.
    apply hoare_ret. intros w _ [_ H]. cbn in H. contradiction.
Qed.

Lemma votePipeline_refusal d p n l config env UUID type category nonAnon userID hashedIP
  unlock :
  benign unlock ->
  hoare (untouched d p n l)
    (votePipeline config env UUID type category nonAnon userID hashedIP unlock)
    (leftByRefusal d p n l type UUID) (fun _ => True).
Proof.
  intros Hb. unfold votePipeline. cbv zeta.
  eapply hoare_bind; [eapply hoare_exn_any; apply untouched_db_query_any |].
  intros [seg|]; [| apply refusal_of_preserves, untouched_unlock_ret, Hb].
  destruct (js_eq type 10 || js_eq type 11);
    [apply refusal_of_preserves, untouched_unlock_ret, Hb |].
  eapply hoare_bind with (R := fun _ => untouched d p n l); [intros w Hw; exact Hw |].
  intros now0.
  eapply hoare_bind; [eapply hoare_exn_any; apply untouched_db_query_any |].
  intros ws.
  destruct (_ >=? _).
  { apply refusal_of_preserves.
    apply preserves_bind; [apply untouched_call_unlock, Hb | intros _].
    destruct (hd_error _); [apply preserves_ret | apply preserves_throw]. }
  destruct (checkBanStatus env nonAnon hashedIP);
    [apply refusal_of_preserves, untouched_unlock_ret, Hb |].
  destruct (js_not type && truthy_opt category).
  - eapply hoare_bind; [eapply hoare_exn_any; apply untouched_call_unlock, Hb |].
    intros ?. apply categoryVote_refusal. reflexivity.
  - apply numericVote_refusal; [exact Hb | reflexivity].
Qed.

(** X2. A refused vote writes nothing: whenever [vote] answers with a
    status other than 200 and 500 (the 400, 403, 404 and 429 answers of the
    vote and of the category vote), no statement of the call has written:
    both databases are exactly as they were before the call, whatever
    statements failed on the way.  The call has started no work either,
    with one exception: the 400 for an unrecognised type is answered after
    lines 462-464, so that for a type of 0 or less the duration check has
    been started and is left running; it is then the only thing that can
    still write, and whenever it runs on the stores that the call left it
    can only hide segments: every segment row is then the row it was before
    the call or that row hidden, and the category aggregates and the
    private database are as they were. *)
Theorem vote_refused_writes_nothing config env ip UUID paramUserID type category w r w' :
  vote config env ip UUID paramUserID type category w = (Returned r, w') ->
  refused r ->
  db w' = db w /\ privateDB w' = privateDB w
  /\ (detached w' = detached w
      \/ (js_le type 0 = true /\ incrementAmountOf type = None /\ status r = 400
          /\ detached w' = CheckVideoDuration UUID :: detached w))
  /\ (forall deleteLockCategories w1,
        db w1 = db w' -> privateDB w1 = privateDB w' ->
        Forall2 hiddenOrSame (sponsorTimes (db w))
          (sponsorTimes (db (snd (checkVideoDuration env deleteLockCategories UUID w1))))
        /\ categoryVotes (db (snd (checkVideoDuration env deleteLockCategories UUID w1)))
           = categoryVotes (db w)
        /\ privateDB (snd (checkVideoDuration env deleteLockCategories UUID w1))
           = privateDB w).
Proof.
  intros Hvote Href.
  assert (H : hoare (untouched (db w) (privateDB w) (now w) (detached w))
                (vote config env ip UUID paramUserID type category)
                (leftByRefusal (db w) (privateDB w) (now w) (detached w) type UUID)
                (fun _ => True)).
  { apply untouched_vote_from_pipeline.
    - intros r0. apply refusal_of_preserves, preserves_ret.
    - intros unlock Hb. apply votePipeline_refusal, Hb. }
  specialize (H w (conj (conj eq_refl (conj eq_refl eq_refl)) eq_refl)).
  rewrite Hvote in H. destruct (H Href) as ((Hd & Hp & _) & Hdet).
  split; [exact Hd |]. split; [exact Hp |]. split; [exact Hdet |].
  intros deleteLockCategories w1 Hd1 Hp1.
  apply checkVideoDuration_after; congruence.
Qed.

(** Runs of X2.  The warned user of [Sample.warned_world] is answered 403:
    nothing is written and nothing started.  A vote of type -1 is answered
    400: nothing is written, and the duration check has been started. *)
Lemma vote_refused_writes_nothing_witness :
  (db (snd (vote Sample.config Sample.env "1.2.3.4" "seg" "user-u" (JsNum 1) None
                Sample.warned_world)) = db Sample.warned_world
   /\ privateDB (snd (vote Sample.config Sample.env "1.2.3.4" "seg" "user-u" (JsNum 1) None
                           Sample.warned_world)) = privateDB Sample.warned_world
   /\ detached (snd (vote Sample.config Sample.env "1.2.3.4" "seg" "user-u" (JsNum 1) None
                          Sample.warned_world)) = [])
  /\ (fst (vote Sample.config Sample.env "1.2.3.4" "seg" "user-u" (JsNum (-1)) None
               Sample.quiet_world) = Returned (respond 400)
      /\ db (snd (vote Sample.config Sample.env "1.2.3.4" "seg" "user-u" (JsNum (-1)) None
                       Sample.quiet_world)) = db Sample.quiet_world
      /\ privateDB (snd (vote Sample.config Sample.env "1.2.3.4" "seg" "user-u" (JsNum (-1))
                              None Sample.quiet_world)) = privateDB Sample.quiet_world
      /\ detached (snd (vote Sample.config Sample.env "1.2.3.4" "seg" "user-u" (JsNum (-1))
                             None Sample.quiet_world)) = [CheckVideoDuration "seg"]).
Proof.
  split.
  - destruct (vote_refused_writes_nothing Sample.config Sample.env "1.2.3.4" "seg" "user-u"
                (JsNum 1) None Sample.warned_world
                (respond_message 403 (warningMessage "first tip"))
                (snd (vote Sample.config Sample.env "1.2.3.4" "seg" "user-u" (JsNum 1) None
                           Sample.warned_world)))
      as (Hd & Hp & [Hdet | (Hle & _)] & _).
    + reflexivity.
    + split; discriminate.
    + split; [exact Hd |]. split; [exact Hp | exact Hdet].
    + discriminate Hle.
  - destruct (vote_refused_writes_nothing Sample.config Sample.env "1.2.3.4" "seg" "user-u"
                (JsNum (-1)) None Sample.quiet_world (respond 400)
                (snd (vote Sample.config Sample.env "1.2.3.4" "seg" "user-u" (JsNum (-1))
                           None Sample.quiet_world)))
      as (Hd & Hp & [Hdet | (_ & _ & _ & Hdet)] & _).
    + reflexivity.
    + split; discriminate.
    + discriminate Hdet.
    + split; [reflexivity |]. split; [exact Hd |]. split; [exact Hp | exact Hdet].
Defined.

(** ** The lock as a mutual exclusion *)

Lemma mem_live_without key t r :
  mem key (map fst (filter (live t) (without_key key r))) = false.
Proof.
  unfold without_key. induction r as [|[k e] r IH]; [reflexivity |].
  cbn [filter fst]. destruct (String.eqb k key) eqn:E; cbn [negb]; [exact IH |].
  cbn [filter]. destruct (live t (k, e)); [| exact IH].
  cbn [map fst mem]. rewrite E. exact IH.
Qed.

Lemma mem_live_without_other key key' t r :
  key' <> key ->
  mem key' (map fst (filter (live t) (without_key key r)))
  = mem key' (map fst (filter (live t) r)).
Proof.
  intros Hne. unfold without_key. induction r as [|[k e] r IH]; [reflexivity |].
  cbn [filter fst]. destruct (String.eqb_spec k key) as [-> | Hk]; cbn [negb].
  - rewrite IH. destruct (live t (key, e)); [| reflexivity].
    cbn [map fst mem]. destruct (String.eqb_spec key key'); [congruence | reflexivity].
  - cbn [filter]. destruct (live t (k, e)); [| exact IH].
    cbn [map fst mem]. rewrite IH. reflexivity.
Qed.

Lemma live_without_free key t r :
  mem key (map fst (filter (live t) r)) = false ->
  map fst (filter (live t) (without_key key r)) = map fst (filter (live t) r).
Proof.
  unfold without_key. induction r as [|[k e] r IH]; [reflexivity |].
  cbn [filter fst]. destruct (live t (k, e)) eqn:L.
  - cbn [map fst mem]. intros H. apply orb_false_elim in H. destruct H as [Hk H].
    rewrite Hk. cbn [negb filter]. rewrite L. cbn [map fst]. f_equal. exact (IH H).
  - intros H. destruct (String.eqb k key); cbn [negb filter]; rewrite ?L; exact (IH H).
Qed.

Lemma without_key_twice key r : without_key key (without_key key r) = without_key key r.
Proof.
  unfold without_key. induction r as [|[k e] r IH]; [reflexivity |].
  cbn [filter fst]. destruct (String.eqb k key) eqn:E; cbn [negb]; [exact IH |].
  cbn [filter fst]. rewrite E. cbn [negb]. f_equal. exact IH.
Qed.

Lemma redisKeys_set key e r w :
  redisKeys (with_redis ((key, e) :: r) w)
  = if now w <? e then key :: map fst (filter (live (now w)) r)
    else map fst (filter (live (now w)) r).
Proof.
  unfold redisKeys. cbn [redis now with_redis filter]. unfold live at 1. cbn [snd].
  destruct (now w <? e); reflexivity.
Qed.

Lemma redisKeys_set_at t key e r w :
  redisKeys (with_now t (with_redis ((key, e) :: r) w))
  = if t <? e then key :: map fst (filter (live t) r) else map fst (filter (live t) r).
Proof.
  unfold redisKeys. cbn [redis now with_redis with_now filter]. unfold live at 1. cbn [snd].
  destruct (t <? e); reflexivity.
Qed.

(** [acquireLock] when redis is enabled and answers. *)
Lemma run_acquireLock config key timeout w :
  redis_enabled config = true ->
  redisFaults w = [] ->
  acquireLock config key timeout w
  = if mem key (redisKeys w)
    then (Returned LockFailed, w)
    else (Returned (LockHeld (catch_log (redis_del key))),
          with_redis ((key, now w + timeout) :: without_key key (redis w)) w).
Proof.
  intros Hen Hrf. unfold acquireLock. rewrite Hen. cbn [negb].
  unfold try_catch, bind. rewrite (run_redis_set_nx key timeout w Hrf).
  destruct (mem key (redisKeys w)); reflexivity.
Qed.

Lemma run_unlock key w :
  redisFaults w = [] ->
  catch_log (redis_del key) w = (Returned tt, with_redis (without_key key (redis w)) w).
Proof.
  intros Hrf. unfold catch_log, try_catch. rewrite (run_redis_del key w Hrf). reflexivity.
Qed.

(** X3. With redis enabled and answering, a lock taken on a free key with
    a positive lease keeps every other caller out until it is released or
    the lease has run out.  While the lease runs, that is at any time from
    the moment the lock was taken up to [timeout] milliseconds later, a
    second [acquireLock] on the same key fails and changes nothing; once
    the lease has run out the lock is granted again although it was never
    released; a lock on another free key is granted all the while.
    [unlock] (whose DEL the model completes at once) frees the key again,
    after which the lock can be taken anew; and calling [unlock] a second
    time changes nothing. *)
Theorem acquireLock_excludes_until_unlock config key timeout w :
  redis_enabled config = true ->
  redisFaults w = [] ->
  mem key (redisKeys w) = false ->
  0 < timeout ->
  exists unlock w1,
    acquireLock config key timeout w = (Returned (LockHeld unlock), w1)
    /\ now w1 = now w
    /\ (forall t,
          now w <= t < now w + timeout ->
          acquireLock config key timeout (with_now t w1)
          = (Returned LockFailed, with_now t w1))
    /\ (forall t,
          now w + timeout <= t ->
          lock_status
            (match fst (acquireLock config key timeout (with_now t w1)) with
             | Returned l => l
             | Thrown _ => LockFailed
             end) = true)
    /\ (forall key',
          key' <> key -> mem key' (redisKeys w) = false ->
          lock_status
            (match fst (acquireLock config key' timeout w1) with
             | Returned l => l
             | Thrown _ => LockFailed
             end) = true)
    /\ exists w2,
         unlock w1 = (Returned tt, w2)
         /\ redisKeys w2 = redisKeys w
         /\ unlock w2 = (Returned tt, w2)
         /\ lock_status
              (match fst (acquireLock config key timeout w2) with
               | Returned l => l
               | Thrown _ => LockFailed
               end) = true.
Proof.
  intros Hen Hrf Hfree Hpos.
  exists (catch_log (redis_del key)).
  exists (with_redis ((key, now w + timeout) :: without_key key (redis w)) w).
  split; [rewrite (run_acquireLock config key timeout w Hen Hrf), Hfree; reflexivity |].
  split; [reflexivity |].
  split; [| split; [| split]].
  - intros t Ht. rewrite run_acquireLock by assumption.
    rewrite redisKeys_set_at.
    replace (t <? now w + timeout) with true by (symmetry; apply Z.ltb_lt; lia).
    cbn [mem]. rewrite String.eqb_refl. reflexivity.
  - intros t Ht. rewrite run_acquireLock by assumption.
    rewrite redisKeys_set_at.
    replace (t <? now w + timeout) with false by (symmetry; apply Z.ltb_ge; lia).
    rewrite mem_live_without. reflexivity.
  - intros key' Hne Hfree'. rewrite run_acquireLock by assumption.
    rewrite redisKeys_set.
    replace (now w <? now w + timeout) with true by (symmetry; apply Z.ltb_lt; lia).
    cbn [mem]. rewrite mem_live_without_other by exact Hne.
    unfold redisKeys in Hfree'. rewrite Hfree'.
    destruct (String.eqb_spec key key'); [congruence | reflexivity].
  - exists (with_redis (without_key key (redis w)) w).
    split; [| split; [| split]].
    + rewrite run_unlock by exact Hrf. cbn [redis with_redis].
      unfold without_key at 1. cbn [filter fst]. rewrite String.eqb_refl. cbn [negb].
      fold (without_key key (without_key key (redis w))). rewrite without_key_twice.
      reflexivity.
    + unfold redisKeys. cbn [redis now with_redis]. apply live_without_free. exact Hfree.
    + rewrite run_unlock by exact Hrf. cbn [redis with_redis].
      rewrite without_key_twice. reflexivity.
    + rewrite run_acquireLock by assumption.
      unfold redisKeys at 1. cbn [redis now with_redis]. rewrite mem_live_without.
      reflexivity.
Qed.

(** A run of X3: the key of a vote in an empty redis, taken at time
    100000000 with the default lease of 20000.  The lock is refused at
    100019999 and granted at 100020000. *)
Lemma acquireLock_excludes_until_unlock_witness :
  exists unlock w1,
    acquireLock Sample.config "voteOnSponsorTime:seg.user-u" defaultTimeout Sample.quiet_world
    = (Returned (LockHeld unlock), w1)
    /\ acquireLock Sample.config "voteOnSponsorTime:seg.user-u" defaultTimeout
                   (with_now 100019999 w1)
       = (Returned LockFailed, with_now 100019999 w1)
    /\ lock_status
         (match fst (acquireLock Sample.config "voteOnSponsorTime:seg.user-u" defaultTimeout
                                 (with_now 100020000 w1)) with
          | Returned l => l
          | Thrown _ => LockFailed
          end) = true.
Proof.
  destruct (acquireLock_excludes_until_unlock Sample.config "voteOnSponsorTime:seg.user-u"
              defaultTimeout Sample.quiet_world eq_refl eq_refl eq_refl eq_refl)
    as (unlock & w1 & H1 & _ & Hwhile & Hafter & _).
  exists unlock, w1. split; [exact H1 |]. split.
  - apply Hwhile. cbn. unfold defaultTimeout. lia.
  - apply Hafter. cbn. unfold defaultTimeout. lia.
Defined.

(** X4. [forceUnLock] never throws and touches nothing but redis and the
    error log.  With redis disabled it does nothing at all; with redis
    enabled it deletes the key when the DEL command goes through, and logs
    the error and leaves the keys alone when it fails. *)
Theorem forceUnLock_frees_the_key config key w :
  exists w',
    forceUnLock config key w = (Returned tt, w')
    /\ same_stores w w'
    /\ (redis_enabled config = false -> w' = w)
    /\ (redis_enabled config = true ->
        match redisFaults w with
        | true :: _ => redisKeys w' = redisKeys w /\ errorLog w' = "redis error" :: errorLog w
        | _ => mem key (redisKeys w') = false /\ errorLog w' = errorLog w
                /\ forall key', key' <> key -> mem key' (redisKeys w') = mem key' (redisKeys w)
        end).
Proof.
  unfold forceUnLock. destruct (redis_enabled config); cbn [negb].
  - unfold try_catch, catch_log, try_catch, redis_del, Logger_error.
    destruct (redisFaults w) as [|[|] fs]; cbn [tl fst snd];
      eexists; (split; [reflexivity |]); (split; [repeat split |]);
      (split; [discriminate |]); intros _.
    + unfold redisKeys. cbn [redis now with_redis with_redisFaults].
      split; [apply mem_live_without |]. split; [reflexivity |].
      intros key' Hne. apply mem_live_without_other, Hne.
    + split; reflexivity.
    + unfold redisKeys. cbn [redis now with_redis with_redisFaults].
      split; [apply mem_live_without |]. split; [reflexivity |].
      intros key' Hne. apply mem_live_without_other, Hne.
  - exists w. split; [reflexivity |]. split; [apply same_stores_refl |].
    split; [reflexivity | discriminate].
Qed.

(** X5. While a call holds the lock of a segment and user, [vote] for the
    same segment and user is turned away: with redis enabled and answering,
    once [acquireLock] has been granted on the key of the pair, a call of
    [vote] with well-formed parameters answers 429 "Vote already in
    progress" and leaves the whole world (both databases, redis, the log,
    the detached work) as it found it; in particular it never calls
    [unlock] on the lock it did not get. *)
Theorem vote_in_progress_is_turned_away
  config env ip UUID paramUserID type category w unlock w1 :
  redis_enabled config = true ->
  redisFaults w = [] ->
  missingKeyParameters UUID paramUserID type category = false ->
  (Z.of_nat (String.length paramUserID) <? minUserIDLength config) = false ->
  acquireLock config (lockKey UUID paramUserID) defaultTimeout w
  = (Returned (LockHeld unlock), w1) ->
  vote config env ip UUID paramUserID type category w1
  = (Returned (respond_message 429 "Vote already in progress"), w1).
Proof.
  intros Hen Hrf Hm Hs Hacq. unfold vote. rewrite Hm, Hs. cbv zeta.
  remember (lockKey UUID paramUserID) as key eqn:Hkey. clear Hkey.
  rewrite (run_acquireLock config key defaultTimeout w Hen Hrf) in Hacq.
  destruct (mem key (redisKeys w)); [discriminate Hacq |].
  injection Hacq as _ <-. unfold bind.
  rewrite run_acquireLock by assumption.
  rewrite (mem_redisKeys_set key defaultTimeout _ w) by reflexivity.
  reflexivity.
Qed.

(** A run of X5: a second upvote while the first one holds the lock. *)
Lemma vote_in_progress_is_turned_away_witness :
  fst (vote Sample.config Sample.env "1.2.3.4" "seg" "user-u" (JsNum 1) None
            (with_redisKeys ["voteOnSponsorTime:seg.user-u"] Sample.quiet_world))
  = Returned (respond_message 429 "Vote already in progress").
Proof.
  rewrite (vote_in_progress_is_turned_away Sample.config Sample.env "1.2.3.4" "seg" "user-u"
             (JsNum 1) None Sample.quiet_world
             (catch_log (redis_del "voteOnSponsorTime:seg.user-u"))
             (with_redisKeys ["voteOnSponsorTime:seg.user-u"] Sample.quiet_world)
             eq_refl eq_refl eq_refl eq_refl eq_refl).
  reflexivity.
Defined.

(** ** Answers of the pipeline *)

(** X6. A vote on a segment that does not exist (the call passes the
    parameter checks, is granted the lock and the SELECT goes through) is
    answered 404; the lock is released, nothing is written and no detached
    work is started. *)
Theorem vote_unknown_segment_is_404 config env ip UUID paramUserID type category w :
  entersPipeline config UUID paramUserID type category w ->
  dbFaults w = [] ->
  segmentByUUID UUID (db w) = None ->
  fst (vote config env ip UUID paramUserID type category w) = Returned (respond 404)
  /\ db (snd (vote config env ip UUID paramUserID type category w)) = db w
  /\ privateDB (snd (vote config env ip UUID paramUserID type category w)) = privateDB w
  /\ detached (snd (vote config env ip UUID paramUserID type category w)) = detached w
  /\ unlockCalls (snd (vote config env ip UUID paramUserID type category w))
     = S (unlockCalls w).
Proof.
  intros Henter Hf Hseg.
  destruct (vote_enters config env ip UUID paramUserID type category w Henter)
    as (unlock & w1 & Hb & (Hd & Hp & Hf1 & Hc & Hdt & Hn) & ->).
  unfold votePipeline. cbv zeta.
  rewrite run_db_query by congruence. rewrite Hd, Hseg.
  destruct (run_call_unlock unlock (fun _ => ret (respond 404)) w1 Hb)
    as (w2 & -> & Hd2 & Hp2 & _ & Hc2 & Hdt2 & _).
  cbn. repeat split; congruence.
Qed.

(** A run of X6: the sample world has no segment "nope". *)
Lemma vote_unknown_segment_is_404_witness :
  fst (vote Sample.config Sample.env "1.2.3.4" "nope" "user-u" (JsNum 1) None
            Sample.quiet_world) = Returned (respond 404).
Proof.
  exact (proj1 (vote_unknown_segment_is_404 Sample.config Sample.env "1.2.3.4" "nope"
                  "user-u" (JsNum 1) None Sample.quiet_world
                  (conj eq_refl (conj eq_refl eq_refl)) eq_refl eq_refl)).
Defined.

(** ** The effect of an accepted vote *)

Lemma counted_stable UUID userID c a f :
  (forall r, SponsorTimes.UUID (f r) = SponsorTimes.UUID r) ->
  (forall r, SponsorTimes.votes (f r) = SponsorTimes.votes r) ->
  forall d p,
    votesOf UUID d = Some c /\ voteTypeOf userID UUID p = Some a ->
    votesOf UUID (updateSegments UUID f d) = Some c /\ voteTypeOf userID UUID p = Some a.
Proof.
  intros HU Hv d p [H1 H2]. split; [| exact H2]. unfold votesOf in *.
  rewrite segmentByUUID_updateSegments by exact HU.
  destruct (segmentByUUID UUID d) as [r|]; [| discriminate].
  cbn in *. rewrite Hv. exact H1.
Qed.

Lemma voteBody_accepted env unlock UUID type t0 i0 ty inc nonAnon userID hashedIP seg
  isVIP isTempVIP isOwn fr vte w w2 :
  benign unlock ->
  dbFaults w = [] -> dbFaults w2 = [] -> db w2 = db w -> privateDB w2 = privateDB w ->
  segmentByUUID UUID (db w) = Some seg ->
  incrementAmountOf type = Some (t0, i0) ->
  amplified (isVIP || isTempVIP || isOwn) (SponsorTimes.votes seg)
            (oldIncrementAmountOf (voteTypeOf userID UUID (privateDB w))) t0 i0 = (ty, inc) ->
  fst (ableToVote isVIP isTempVIP isOwn inc
         (oldIncrementAmountOf (voteTypeOf userID UUID (privateDB w)))
         t0 seg fr nonAnon UUID hashedIP userID w) = Returned true ->
  hoare (fun w' => w' = w2)
    (voteBody env unlock UUID type nonAnon userID hashedIP seg isVIP isTempVIP isOwn fr vte)
    (fun _ => onStores (fun d p =>
       votesOf UUID d
       = Some (SponsorTimes.votes seg
               + (inc - oldIncrementAmountOf (voteTypeOf userID UUID (privateDB w))))
       /\ voteTypeOf userID UUID p = Some ty))
    (onStores (fun d p =>
       votesOf UUID d
       = Some (SponsorTimes.votes seg
               + (inc - oldIncrementAmountOf (voteTypeOf userID UUID (privateDB w))))
       /\ voteTypeOf userID UUID p = Some ty)).
Proof.
  intros Hb Hf Hf2 Hd2 Hp2 Hseg Hinc Hamp Hable w' ->.
  set (old := oldIncrementAmountOf (voteTypeOf userID UUID (privateDB w))) in *.
  unfold voteBody. rewrite (run_privateDB_query _ _ w2 Hf2), Hp2.
  rewrite Hinc. fold old. rewrite Hamp. cbv iota beta.
  destruct (ableToVote_run isVIP isTempVIP isOwn inc old t0 seg fr nonAnon UUID hashedIP userID
              w2 Hf2) as (b & Hrun).
  pose proof (ableToVote_frame isVIP isTempVIP isOwn inc old t0 seg fr nonAnon UUID hashedIP
                userID w w2 Hf Hf2 Hd2 Hp2) as Hfr.
  rewrite Hrun, Hable in Hfr. cbn in Hfr. injection Hfr as ->.
  unfold bind at 1. rewrite Hrun. cbv iota beta.
  rewrite !bind_assoc.
  match goal with
  | |- context [bind (if isSome ?v then privateDB_run ?u1 else privateDB_run ?u2) ?k w2] =>
      assert (Hw : exists u,
                 bind (if isSome v then privateDB_run u1 else privateDB_run u2) k w2
                 = k tt (with_privateDB (u (privateDB w2)) w2)
                 /\ voteTypeOf userID UUID (u (privateDB w2)) = Some ty)
  end.
  { destruct (voteTypeOf userID UUID (privateDB w)) as [ty0|] eqn:Hrow; cbn [isSome].
    - exists (updateVote ty t0 userID UUID). split; [apply run_privateDB_run, Hf2 |].
      rewrite voteTypeOf_updateVote, Hp2, Hrow. reflexivity.
    - exists (insertVote {| Votes.UUID := UUID; Votes.userID := userID;
                            Votes.hashedIP := hashedIP; Votes.type := ty;
                            Votes.normalUserID := nonAnon; Votes.originalType := t0 |}).
      split; [apply run_privateDB_run, Hf2 |].
      rewrite voteTypeOf_insertVote; [reflexivity | rewrite Hp2; exact Hrow |].
      unfold isVoteOf. cbn. rewrite !String.eqb_refl. reflexivity. }
  destruct Hw as (u & -> & Hrow').
  rewrite !bind_assoc, run_db_run by exact Hf2.
  cbn [db with_privateDB with_db].
  match goal with
  | |- match ?m ?w3 with _ => _ end =>
      refine ((_ : preserves (onStores (fun d p =>
                 votesOf UUID d = Some (SponsorTimes.votes seg + (inc - old))
                 /\ voteTypeOf userID UUID p = Some ty)) m) w3 _)
  end.
  - pose proof (counted_stable UUID userID (SponsorTimes.votes seg + (inc - old)) ty) as Hst.
    repeat first
      [ apply preserves_ret
      | apply onStores_spawn
      | apply onStores_call_unlock, Hb
      | apply onStores_updateSegmentVideoDuration; intros dur; apply Hst; intros r; reflexivity
      | apply onStores_db_run; apply Hst; intros r; reflexivity
      | match goal with |- preserves _ (if ?c then _ else _) => destruct c end
      | apply preserves_bind; [| intros _] ].
  - unfold onStores. cbn [db privateDB with_db with_privateDB]. split; [| exact Hrow'].
    unfold votesOf. rewrite segmentByUUID_updateSegments by (intros r; reflexivity).
    rewrite Hd2, Hseg. reflexivity.
Qed.

Lemma numericVote_accepted env unlock UUID type t0 i0 ty inc nonAnon userID hashedIP seg
  isVIP isTempVIP isOwn fr0 fr w w1 :
  benign unlock ->
  dbFaults w = [] -> dbFaults w1 = [] -> db w1 = db w -> privateDB w1 = privateDB w ->
  segmentByUUID UUID (db w) = Some seg ->
  deadSegmentReturn type seg isVIP isTempVIP isOwn = false ->
  incrementAmountOf type = Some (t0, i0) ->
  amplified (isVIP || isTempVIP || isOwn) (SponsorTimes.votes seg)
            (oldIncrementAmountOf (voteTypeOf userID UUID (privateDB w))) t0 i0 = (ty, inc) ->
  fst (checkLocks isVIP type seg fr0 w) = Returned fr ->
  fst (ableToVote isVIP isTempVIP isOwn inc
         (oldIncrementAmountOf (voteTypeOf userID UUID (privateDB w)))
         t0 seg fr nonAnon UUID hashedIP userID w) = Returned true ->
  onStores (fun d p =>
      votesOf UUID d
      = Some (SponsorTimes.votes seg
              + (inc - oldIncrementAmountOf (voteTypeOf userID UUID (privateDB w))))
      /\ voteTypeOf userID UUID p = Some ty)
    (snd (numericVote env unlock UUID type nonAnon userID hashedIP seg
                      isVIP isTempVIP isOwn fr0 w1)).
Proof.
  intros Hb Hf Hf1 Hd1 Hp1 Hseg Hdead Hinc Hamp Hlocks Hable.
  unfold numericVote.
  destruct (checkLocks_run isVIP type seg fr0 w1 Hf1) as (fr' & Hrun & _).
  pose proof (checkLocks_frame isVIP type seg fr0 w w1 Hf Hf1 Hd1) as Hfr.
  rewrite Hrun, Hlocks in Hfr. cbn in Hfr. injection Hfr as ->.
  unfold bind at 1. rewrite Hrun. cbv zeta.
  unfold deadSegmentReturn in Hdead.
  match type of Hdead with
  | (?dead && (_ || _)) = false =>
      assert (H1 : (dead && js_eq type 1) = false)
        by (destruct dead; [cbn in Hdead |- *; apply orb_false_iff in Hdead; apply Hdead
                           | reflexivity]);
      assert (H0 : (dead && js_eq type 0) = false)
        by (destruct dead; [cbn in Hdead |- *; apply orb_false_iff in Hdead; apply Hdead
                           | reflexivity])
  end.
  rewrite H1, H0.
  set (I := onStores (fun d p =>
              votesOf UUID d
              = Some (SponsorTimes.votes seg
                      + (inc - oldIncrementAmountOf (voteTypeOf userID UUID (privateDB w))))
              /\ voteTypeOf userID UUID p = Some ty)).
  assert (Htry : forall w2,
             dbFaults w2 = [] -> db w2 = db w -> privateDB w2 = privateDB w ->
             forall h, (forall e, preserves I (h e)) ->
             forall vte,
               I (snd (try_catch
                         (voteBody env unlock UUID type nonAnon userID hashedIP seg
                                   isVIP isTempVIP isOwn fr vte) h w2))).
  { intros w2 Hf2 Hd2 Hp2 h Hh vte.
    pose proof (hoare_try_catch _ _ h _ _ _
                  (voteBody_accepted env unlock UUID type t0 i0 ty inc nonAnon userID
                     hashedIP seg isVIP isTempVIP isOwn fr vte w w2
                     Hb Hf Hf2 Hd2 Hp2 Hseg Hinc Hamp Hable) Hh w2 eq_refl) as H.
    destruct (try_catch _ h w2) as [[r|e] w']; exact H. }
  destruct (js_le type 0); [rewrite run_spawn | rewrite run_ret];
    apply Htry; try assumption;
    intros e;
    (apply preserves_bind; [apply onStores_call_unlock, Hb | intros _]);
    (apply preserves_bind; [apply onStores_Logger_error | intros _]);
    apply preserves_ret.
Qed.

(** The stores after an accepted vote, in terms of the increment [inc] and
    the type [ty] that lines 513-523 arrive at. *)
Lemma vote_accepted_run config env ip UUID paramUserID t i ty inc category seg w :
  let nonAnonUserID := getHashCache env paramUserID in
  let userID := getHashCache env (paramUserID +++ UUID) in
  let oldIncrementAmount := oldIncrementAmountOf (voteTypeOf userID UUID (privateDB w)) in
  acceptedVote config env ip UUID paramUserID t category seg w ->
  incrementAmountOf (JsNum t) = Some (t, i) ->
  amplified (isUserVIP env nonAnonUserID
             || isUserTempVIP env nonAnonUserID (SponsorTimes.videoID seg)
             || String.eqb nonAnonUserID (SponsorTimes.userID seg))
            (SponsorTimes.votes seg) oldIncrementAmount t i = (ty, inc) ->
  votesOf UUID (db (snd (vote config env ip UUID paramUserID (JsNum t) category w)))
  = Some (SponsorTimes.votes seg + (inc - oldIncrementAmount))
  /\ voteTypeOf userID UUID
       (privateDB (snd (vote config env ip UUID paramUserID (JsNum t) category w)))
     = Some ty.
Proof.
  intros nonAnonUserID userID old (Hreach & Hnum & Hdead & Hacc) Hinc Hamp.
  cbv zeta in Hacc. rewrite Hinc in Hacc.
  destruct (vote_reaches_numericVote config env ip UUID paramUserID (JsNum t) category seg w
              Hreach Hnum) as (unlock & w1 & Hb & (Hd & Hp & Hf1 & _) & ->).
  destruct Hreach as ((_ & Hf & Hseg & _) & _).
  destruct (fst (checkLocks _ _ _ _ w)) as [fr|e] eqn:Hlocks; [| contradiction].
  fold nonAnonUserID userID old in Hacc. rewrite Hamp in Hacc. cbn [snd] in Hacc.
  apply (numericVote_accepted env unlock UUID (JsNum t) t i ty inc nonAnonUserID userID
           (getHashCache env (ip +++ globalSalt config)) seg _ _ _ _ fr w w1);
    try assumption; congruence.
Qed.

(** X7. An accepted vote is counted once: when a numeric vote of a
    recognised type gets through all the checks ([acceptedVote]), the
    segment's votes afterwards are its votes before plus the new increment
    minus the increment that the caller's earlier vote row stood for, and
    the caller's vote row holds the type that goes with the new increment
    (the type sent, or the boosted or capped increment itself); the extra
    statements of a VIP's or temporary VIP's vote change neither. *)
Theorem vote_accepted_is_counted config env ip UUID paramUserID t i category seg w :
  let nonAnonUserID := getHashCache env paramUserID in
  let userID := getHashCache env (paramUserID +++ UUID) in
  let privileged :=
    isUserVIP env nonAnonUserID
    || isUserTempVIP env nonAnonUserID (SponsorTimes.videoID seg)
    || String.eqb nonAnonUserID (SponsorTimes.userID seg) in
  let applied :=
    appliedVote privileged (SponsorTimes.votes seg)
                (voteTypeOf userID UUID (privateDB w)) t i in
  acceptedVote config env ip UUID paramUserID t category seg w ->
  incrementAmountOf (JsNum t) = Some (t, i) ->
  votesOf UUID (db (snd (vote config env ip UUID paramUserID (JsNum t) category w)))
  = Some (SponsorTimes.votes seg + snd applied)
  /\ voteTypeOf userID UUID
       (privateDB (snd (vote config env ip UUID paramUserID (JsNum t) category w)))
     = Some (fst applied).
Proof.
  intros nonAnonUserID userID privileged applied Hacc Hinc.
  subst applied. unfold appliedVote.
  destruct (amplified privileged (SponsorTimes.votes seg)
              (oldIncrementAmountOf (voteTypeOf userID UUID (privateDB w))) t i)
    as [ty inc] eqn:Hamp.
  cbn [fst snd].
  exact (vote_accepted_run config env ip UUID paramUserID t i ty inc category seg w
           Hacc Hinc Hamp).
Qed.

(** A run of X7: the first upvote of "user-u" takes "seg" from 3 votes to
    4 and stores a row of type 1. *)
Lemma vote_accepted_is_counted_witness :
  votesOf "seg" (db Fixtures.voter_world_upvoted) = Some 4
  /\ voteTypeOf "#user-useg" "seg" (privateDB Fixtures.voter_world_upvoted) = Some 1.
Proof.
  apply (vote_accepted_is_counted Sample.config Sample.env "1.2.3.4" "seg" "user-u"
           VoteType.Upvote 1 None (Sample.segment "seg" 3 "sponsor" Skip "#owner")
           Fixtures.voter_world).
  - repeat split.
  - reflexivity.
Defined.

(** X8. Undoing a vote takes it back: an ordinary caller (not VIP,
    temporary VIP or submitter) without an earlier vote row upvotes or
    downvotes a segment, and then sends the undo type 20; when both votes
    are accepted, the segment counts the votes it had before the first of
    the two calls, and the caller's row is left with type 20. *)
Theorem vote_then_undo_restores config env ip UUID paramUserID t category seg seg1 w :
  let userID := getHashCache env (paramUserID +++ UUID) in
  let w1 := snd (vote config env ip UUID paramUserID (JsNum t) category w) in
  t = VoteType.Upvote \/ t = VoteType.Downvote ->
  ordinaryCaller env paramUserID seg ->
  ordinaryCaller env paramUserID seg1 ->
  voteTypeOf userID UUID (privateDB w) = None ->
  acceptedVote config env ip UUID paramUserID t category seg w ->
  acceptedVote config env ip UUID paramUserID VoteType.Undo category seg1 w1 ->
  votesOf UUID
    (db (snd (vote config env ip UUID paramUserID (JsNum VoteType.Undo) category w1)))
  = Some (SponsorTimes.votes seg)
  /\ voteTypeOf userID UUID
       (privateDB (snd (vote config env ip UUID paramUserID (JsNum VoteType.Undo) category
                             w1)))
     = Some VoteType.Undo.
Proof.
  intros userID w1 Ht (Hvip & Htemp & Hown) (Hvip1 & Htemp1 & Hown1) Hrow Hacc Hacc1.
  subst userID.
  assert (Hfirst : exists i,
             incrementAmountOf (JsNum t) = Some (t, i)
             /\ amplified false (SponsorTimes.votes seg) 0 t i = (t, i)
             /\ oldIncrementAmountOf (Some t) = i).
  { destruct Ht as [-> | ->]; [exists 1 | exists (-1)]; repeat split. }
  destruct Hfirst as (i & Hinc & Hamp & Hold).
  destruct (vote_accepted_run config env ip UUID paramUserID t i t i category seg w Hacc Hinc)
    as (Hv1 & Hr1).
  { rewrite Hvip, Htemp, Hown, Hrow. exact Hamp. }
  fold w1 in Hv1, Hr1. rewrite Hrow in Hv1. cbn [oldIncrementAmountOf] in Hv1.
  assert (Hseg1 : segmentByUUID UUID (db w1) = Some seg1) by apply Hacc1.
  unfold votesOf in Hv1. rewrite Hseg1 in Hv1. cbn in Hv1. injection Hv1 as Hv1.
  destruct (vote_accepted_run config env ip UUID paramUserID VoteType.Undo 0
              VoteType.Undo 0 category seg1 w1 Hacc1 eq_refl) as (Hv2 & Hr2).
  { rewrite Hvip1, Htemp1, Hown1. reflexivity. }
  rewrite Hr1, Hold in Hv2.
  split; [| exact Hr2]. rewrite Hv2, Hv1. f_equal. lia.
Qed.

(** A run of X8: "user-u" upvotes "seg" (3 votes) and undoes the vote. *)
Lemma vote_then_undo_restores_witness :
  votesOf "seg"
    (db (snd (vote Sample.config Sample.env "1.2.3.4" "seg" "user-u" (JsNum VoteType.Undo)
                   None Fixtures.voter_world_upvoted)))
  = Some 3.
Proof.
  apply (vote_then_undo_restores Sample.config Sample.env "1.2.3.4" "seg" "user-u"
           VoteType.Upvote None (Sample.segment "seg" 3 "sponsor" Skip "#owner")
           (Sample.segment "seg" 4 "sponsor" Skip "#owner") Fixtures.voter_world).
  - left. reflexivity.
  - repeat split.
  - repeat split.
  - reflexivity.
  - repeat split.
  - repeat split.
Defined.

(** ** The vote of a VIP *)

Lemma updateSegmentVideoDuration_keeps_segment env UUID :
  hoare (fun w => dbFaults w = [] /\ isSome (segmentByUUID UUID (db w)) = true)
    (updateSegmentVideoDuration env UUID)
    (fun _ w => dbFaults w = [] /\ isSome (segmentByUUID UUID (db w)) = true)
    (fun _ => True).
Proof.
  intros w [Hf Hs]. unfold updateSegmentVideoDuration.
  rewrite (run_db_query _ _ w Hf).
  destruct (segmentByUUID UUID (db w)) as [r|] eqn:Hseg; [| exact I].
  unfold apiVideoDuration.
  destruct (if String.eqb _ Service.YouTube then _ else None) as [page|];
    [| rewrite run_ret; cbn; rewrite Hseg; auto].
  destruct (filter _ page) as [|pg l]; [exact I |].
  rewrite run_ret.
  destruct (videoDurationChanged _ _); [| cbn; rewrite Hseg; auto].
  unfold db_run, bind, statement. rewrite Hf. cbn [db with_db dbFaults].
  split; [exact Hf |].
  rewrite segmentByUUID_updateSegments by (intros x; reflexivity).
  rewrite Hseg. reflexivity.
Qed.

Lemma segment_kept_db_run UUID f :
  (forall r, SponsorTimes.UUID (f r) = SponsorTimes.UUID r) ->
  hoare (fun w => dbFaults w = [] /\ isSome (segmentByUUID UUID (db w)) = true)
    (db_run (updateSegments UUID f))
    (fun _ w => dbFaults w = [] /\ isSome (segmentByUUID UUID (db w)) = true)
    (fun _ => True).
Proof.
  intros HU w [Hf Hs]. unfold db_run, bind, statement. rewrite Hf. cbn [db with_db dbFaults].
  split; [exact Hf |]. rewrite segmentByUUID_updateSegments by exact HU.
  destruct (segmentByUUID UUID (db w)); [reflexivity | discriminate].
Qed.

Lemma flags_set_db_run UUID l h s :
  hoare (fun w => dbFaults w = [] /\ isSome (segmentByUUID UUID (db w)) = true)
    (db_run (updateSegments UUID (SponsorTimes.set_flags (Some l) (Some h) (Some s))))
    (fun _ : unit => onStores (fun d _ => flagsOf UUID d = Some (l, h, s)))
    (fun _ => True).
Proof.
  intros w [Hf Hs]. unfold db_run, bind, statement. rewrite Hf.
  unfold onStores, flagsOf. cbn [db with_db].
  rewrite segmentByUUID_updateSegments by (intros r; reflexivity).
  destruct (segmentByUUID UUID (db w)); [reflexivity | discriminate].
Qed.

Lemma vip_upvote_tail env unlock UUID (isTempVIP : bool) c (r : Response) :
  benign unlock ->
  hoare (fun w => dbFaults w = [] /\ isSome (segmentByUUID UUID (db w)) = true)
    (((if isTempVIP
       then db_run (updateSegments UUID (SponsorTimes.set_flags None (Some 0) None))
       else ret tt) ;;
      (updateSegmentVideoDuration env UUID ;;
       db_run (updateSegments UUID (SponsorTimes.set_flags (Some 1) (Some 0) (Some 0)))) ;;
      spawn c) ;;
     call_unlock unlock ;;
     ret r)
    (fun _ : Response => onStores (fun d _ => flagsOf UUID d = Some (1, 0, 0)))
    (fun _ => True).
Proof.
  intros Hb.
  eapply hoare_bind with (R := fun _ => onStores (fun d _ => flagsOf UUID d = Some (1, 0, 0))).
  - eapply hoare_bind with
      (R := fun _ w => dbFaults w = [] /\ isSome (segmentByUUID UUID (db w)) = true).
    { destruct isTempVIP; [apply segment_kept_db_run; intros x; reflexivity |].
      apply hoare_ret. auto. }
    intros ?. eapply hoare_bind.
    { eapply hoare_bind; [apply updateSegmentVideoDuration_keeps_segment |].
      intros ?. apply flags_set_db_run. }
    intros ?. eapply hoare_exn_any. apply onStores_spawn.
  - intros ?. eapply hoare_bind; [eapply hoare_exn_any; apply onStores_call_unlock, Hb |].
    intros ?. apply hoare_ret. auto.
Qed.


Lemma flags_kept_set_votes UUID f seg d :
  segmentByUUID UUID d = Some seg ->
  segmentByUUID UUID (updateSegments UUID (SponsorTimes.set_votes f) d)
  = Some (SponsorTimes.set_votes f seg).
Proof.
  intros H. rewrite segmentByUUID_updateSegments by (intros r; reflexivity).
  rewrite H. reflexivity.
Qed.

Lemma voteBody_vip env unlock UUID t i nonAnon userID hashedIP seg isTempVIP isOwn fr w2 :
  benign unlock ->
  dbFaults w2 = [] ->
  segmentByUUID UUID (db w2) = Some seg ->
  incrementAmountOf (JsNum t) = Some (t, i) ->
  match voteBody env unlock UUID (JsNum t) nonAnon userID hashedIP seg true isTempVIP isOwn fr
                 voteTypes.normal w2 with
  | (Returned _, w') =>
      flagsOf UUID (db w')
      = Some (if snd (amplified true (SponsorTimes.votes seg)
                        (oldIncrementAmountOf (voteTypeOf userID UUID (privateDB w2))) t i)
                 >? 0
              then (1, 0, 0)
              else (0, SponsorTimes.hidden seg, SponsorTimes.shadowHidden seg))
  | (Thrown _, _) => True
  end.
Proof.
  intros Hb Hf Hseg Hinc.
  unfold voteBody. rewrite (run_privateDB_query _ _ w2 Hf), Hinc. cbn [orb].
  destruct (amplified true _ _ t i) as [ty inc] eqn:Hamp. cbn [snd].
  unfold ableToVote. cbn [orb]. rewrite run_ret. rewrite !bind_assoc.
  change (voteTypes.normal =? voteTypes.normal) with true. rewrite !andb_true_r. cbn [andb].
  match goal with
  | |- context [bind (if isSome ?v then privateDB_run ?u1 else privateDB_run ?u2) ?k w2] =>
      assert (Hw : exists u,
                 bind (if isSome v then privateDB_run u1 else privateDB_run u2) k w2
                 = k tt (with_privateDB (u (privateDB w2)) w2))
  end.
  { destruct (isSome _);
      [exists (updateVote ty t userID UUID)
      | exists (insertVote {| Votes.UUID := UUID; Votes.userID := userID;
                              Votes.hashedIP := hashedIP; Votes.type := ty;
                              Votes.normalUserID := nonAnon; Votes.originalType := t |})];
      apply run_privateDB_run, Hf. }
  destruct Hw as (u & ->).
  rewrite ?bind_assoc, run_db_run by nofault. cbn [db with_db with_privateDB].
  match goal with
  | |- let (_, _) := _ ?w3 in _ =>
      assert (Hf3 : dbFaults w3 = []) by nofault;
      assert (Hseg3 : segmentByUUID UUID (db w3)
                      = Some (SponsorTimes.set_votes
                                (fun v => v + (inc - oldIncrementAmountOf
                                                       (voteTypeOf userID UUID (privateDB w2))))
                                seg))
        by (cbn [db with_db with_privateDB]; apply flags_kept_set_votes, Hseg);
      generalize dependent w3
  end.
  intros w3 Hf3 Hseg3.
  destruct (inc >? 0) eqn:Hpos; rewrite ?andb_false_r, ?andb_true_r.
  - pose proof (vip_upvote_tail env unlock UUID isTempVIP (ClearSegmentCache seg)
                  {| status := finalStatus fr; message := finalMessage fr; json := None |}
                  Hb w3) as H.
    apply H. split; [exact Hf3 | rewrite Hseg3; reflexivity].
  - assert (Hle : (inc <=? 0) = true).
    { apply Z.leb_le. apply Z.gtb_ltb in Hpos || idtac.
      rewrite Z.gtb_ltb in Hpos. apply Z.ltb_ge in Hpos. exact Hpos. }
    rewrite Hle. rewrite !bind_assoc, run_ret.
    rewrite !bind_assoc, run_db_run by exact Hf3. rewrite run_spawn.
    match goal with
    | |- let (_, _) := bind (call_unlock unlock) ?k ?w4 in _ =>
        destruct (run_call_unlock unlock k w4 Hb) as (w5 & -> & Hd5 & _)
    end.
    cbn [ret]. rewrite Hd5. cbn [db with_db with_detached].
    unfold flagsOf. rewrite segmentByUUID_updateSegments by (intros x; reflexivity).
    rewrite Hseg3. reflexivity.
Qed.

Lemma keepsDetached_db_run u : keepsDetached (db_run u).
Proof.
  apply keepsDetached_bind; [apply keepsDetached_statement | intros _ w; reflexivity].
Qed.

Lemma keepsDetached_privateDB_run u : keepsDetached (privateDB_run u).
Proof.
  apply keepsDetached_bind; [apply keepsDetached_statement | intros _ w; reflexivity].
Qed.

Lemma keepsDetached_updateSegmentVideoDuration env UUID :
  keepsDetached (updateSegmentVideoDuration env UUID).
Proof.
  unfold updateSegmentVideoDuration.
  apply keepsDetached_bind; [apply keepsDetached_db_query |].
  intros [r|]; [| apply keepsDetached_throw].
  apply keepsDetached_bind.
  - unfold apiVideoDuration.
    destruct (if String.eqb _ Service.YouTube then _ else None) as [page|];
      [| apply keepsDetached_ret].
    destruct (filter _ page); [apply keepsDetached_throw | apply keepsDetached_ret].
  - intros [d|]; [| apply keepsDetached_ret].
    destruct (videoDurationChanged _ _); [apply keepsDetached_db_run | apply keepsDetached_ret].
Qed.

Lemma detached_kept {A} l (m : M A) :
  keepsDetached m -> preserves (fun w => detached w = l) m.
Proof.
  intros Hk w Hl. specialize (Hk w).
  destruct (m w) as [[a|e] w']; cbn [snd] in Hk; congruence.
Qed.

(** The work that the vote of a VIP leaves detached: the cache of the
    segment is cleared. *)
Lemma voteBody_vip_detached env unlock UUID type nonAnon userID hashedIP seg isTempVIP isOwn
  fr voteTypeEnum l :
  benign unlock ->
  hoare (fun w => detached w = l)
    (voteBody env unlock UUID type nonAnon userID hashedIP seg true isTempVIP isOwn fr
              voteTypeEnum)
    (fun _ w => detached w = match incrementAmountOf type with
                             | Some _ => ClearSegmentCache seg :: l
                             | None => l
                             end)
    (fun _ => True).
Proof.
  intros Hb. unfold voteBody.
  eapply hoare_bind;
    [eapply hoare_exn_any; apply detached_kept, keepsDetached_privateDB_query |].
  intros votesRow.
  destruct (incrementAmountOf type) as [[t0 i0]|].
  2: { eapply hoare_bind;
         [eapply hoare_exn_any; apply detached_kept, keepsDetached_call_unlock, Hb |].
       intros ?. apply hoare_ret. auto. }
  destruct (amplified _ _ _ _ _) as [ty inc].
  unfold ableToVote. cbn [orb].
  eapply hoare_bind with (R := fun able w => able = true /\ detached w = l);
    [apply hoare_ret; auto |].
  intros able. apply hoare_pure. intros ->. cbv iota.
  eapply hoare_bind with (R := fun _ w => detached w = ClearSegmentCache seg :: l).
  - eapply hoare_bind.
    { eapply hoare_exn_any. apply detached_kept.
      destruct (isSome votesRow); apply keepsDetached_privateDB_run. }
    intros ?. eapply hoare_bind;
      [eapply hoare_exn_any; apply detached_kept, keepsDetached_db_run |].
    intros ?. eapply hoare_bind.
    { eapply hoare_exn_any. apply detached_kept.
      destruct (_ && _); [apply keepsDetached_db_run | apply keepsDetached_ret]. }
    intros ?. eapply hoare_bind.
    { eapply hoare_exn_any. apply detached_kept.
      destruct (_ && _).
      - apply keepsDetached_bind; [apply keepsDetached_updateSegmentVideoDuration |].
        intros ?. apply keepsDetached_db_run.
      - destruct (_ && _); [apply keepsDetached_db_run | apply keepsDetached_ret]. }
    intros ?. intros w Hw. cbn. congruence.
  - intros ?. eapply hoare_bind;
      [eapply hoare_exn_any; apply detached_kept, keepsDetached_call_unlock, Hb |].
    intros ?. apply hoare_ret. auto.
Qed.

(** X9. The vote of a VIP locks or unlocks the segment.  When a VIP's vote
    of a normal type (upvote 1, downvote 0, undo 20) is answered 200, the
    segment is afterwards locked (locked = 1) if the increment that lines
    513-518 arrive at is positive, and unlocked (locked = 0) otherwise.
    For an upvote the increment is 1 and for an undo 0, and the only work
    left running is the clearing of the cache: after the upvote the segment
    is also visible (hidden = 0, shadowHidden = 0); after the undo its
    visibility is as it was.  For a downvote the increment is
    -(votes + 2 - old), old being the increment that the caller's earlier
    vote stands for: it is positive exactly when votes + 2 < old.  The
    downvote has also started the duration check of lines 462-464, which is
    left running beside the clearing of the cache and may hide the segment;
    so nothing is said of the visibility after a downvote (the check
    leaves the lock alone, X18). *)
Theorem vote_vip_locks_or_unlocks config env ip UUID paramUserID t i category seg w r w' :
  let nonAnonUserID := getHashCache env paramUserID in
  let userID := getHashCache env (paramUserID +++ UUID) in
  let old := oldIncrementAmountOf (voteTypeOf userID UUID (privateDB w)) in
  let incrementAmount := snd (amplified true (SponsorTimes.votes seg) old t i) in
  reachesDelegation config env ip UUID paramUserID (JsNum t) category seg w ->
  (js_not (JsNum t) && truthy_opt category) = false ->
  isUserVIP env nonAnonUserID = true ->
  incrementAmountOf (JsNum t) = Some (t, i) ->
  t <> VoteType.Malicious ->
  vote config env ip UUID paramUserID (JsNum t) category w = (Returned r, w') ->
  status r = 200 ->
  option_map SponsorTimes.locked (segmentByUUID UUID (db w'))
  = Some (if incrementAmount >? 0 then 1 else 0)
  /\ (t <> VoteType.Downvote ->
      incrementAmount = i
      /\ flagsOf UUID (db w')
         = Some (if i >? 0 then (1, 0, 0)
                 else (0, SponsorTimes.hidden seg, SponsorTimes.shadowHidden seg))
      /\ detached w' = ClearSegmentCache seg :: detached w)
  /\ (t = VoteType.Downvote ->
      incrementAmount = - (SponsorTimes.votes seg + 2 - old)
      /\ (incrementAmount >? 0) = (SponsorTimes.votes seg + 2 <? old)
      /\ detached w' = ClearSegmentCache seg :: CheckVideoDuration UUID :: detached w).
Proof.
  intros nonAnonUserID userID old incrementAmount Hreach Hnum Hvip Hinc Ht Hvote Hstatus.
  destruct (vote_reaches_numericVote config env ip UUID paramUserID (JsNum t) category seg w
              Hreach Hnum) as (unlock & w1 & Hb & (Hd & Hp & Hf1 & _ & Hdt & _) & Heq).
  destruct Hreach as ((_ & Hf & Hseg & _) & _).
  rewrite Heq in Hvote. clear Heq. fold nonAnonUserID userID in Hvote.
  unfold numericVote, checkLocks in Hvote. rewrite Hvip in Hvote.
  cbn [negb andb orb] in Hvote. rewrite run_ret in Hvote. cbv zeta in Hvote.
  rewrite !andb_false_r in Hvote. cbn [andb] in Hvote.
  assert (Hcases : t = VoteType.Upvote /\ i = 1 \/ t = VoteType.Downvote /\ i = -1
                   \/ t = VoteType.Undo /\ i = 0).
  { unfold incrementAmountOf in Hinc.
    destruct (Z.eqb_spec t VoteType.Upvote); [left; split; congruence |].
    destruct (Z.eqb_spec t VoteType.Downvote).
    { right. left. cbn [orb] in Hinc. split; congruence. }
    destruct (Z.eqb_spec t VoteType.Malicious); [contradiction |]. cbn [orb] in Hinc.
    destruct (Z.eqb_spec t VoteType.Undo); [| discriminate].
    right. right. split; congruence. }
  assert (Hnormal : (js_eq (JsNum t) 0 || js_eq (JsNum t) 1 || js_eq (JsNum t) 20) = true).
  { destruct Hcases as [[-> _] | [[-> _] | [-> _]]]; reflexivity. }
  rewrite Hnormal in Hvote.
  assert (Hrun : exists w2,
             dbFaults w2 = [] /\ db w2 = db w /\ privateDB w2 = privateDB w
             /\ detached w2 = (if js_le (JsNum t) 0
                               then CheckVideoDuration UUID :: detached w
                               else detached w)
             /\ try_catch
                  (voteBody env unlock UUID (JsNum t) nonAnonUserID userID
                     (getHashCache env (ip +++ globalSalt config)) seg true
                     (isUserTempVIP env nonAnonUserID (SponsorTimes.videoID seg))
                     (String.eqb nonAnonUserID (SponsorTimes.userID seg))
                     {| blockVote := false; finalStatus := 200; finalMessage := None;
                        webhookType := Normal; webhookMessage := None |} voteTypes.normal)
                  (fun err =>
                     call_unlock unlock ;;
                     Logger_error err ;;
                     ret {| status := 500; message := None;
                            json := Some "{ error: 'Internal error creating segment vote' }" |})
                  w2 = (Returned r, w')).
  { destruct (js_le (JsNum t) 0); [rewrite run_spawn in Hvote | rewrite run_ret in Hvote];
      eexists; (split; [| split; [| split; [| split; [| exact Hvote]]]]);
      cbn [dbFaults db privateDB detached with_detached]; congruence. }
  clear Hvote. destruct Hrun as (w2 & Hf2 & Hd2 & Hp2 & Hdt2 & Hvote).
  unfold try_catch in Hvote.
  pose proof (voteBody_vip env unlock UUID t i nonAnonUserID userID
                (getHashCache env (ip +++ globalSalt config)) seg
                (isUserTempVIP env nonAnonUserID (SponsorTimes.videoID seg))
                (String.eqb nonAnonUserID (SponsorTimes.userID seg))
                {| blockVote := false; finalStatus := 200; finalMessage := None;
                   webhookType := Normal; webhookMessage := None |} w2 Hb Hf2) as H.
  rewrite Hd2, Hp2 in H. specialize (H Hseg Hinc).
  pose proof (voteBody_vip_detached env unlock UUID (JsNum t) nonAnonUserID userID
                (getHashCache env (ip +++ globalSalt config)) seg
                (isUserTempVIP env nonAnonUserID (SponsorTimes.videoID seg))
                (String.eqb nonAnonUserID (SponsorTimes.userID seg))
                {| blockVote := false; finalStatus := 200; finalMessage := None;
                   webhookType := Normal; webhookMessage := None |} voteTypes.normal
                (detached w2) Hb w2 eq_refl) as Hleft.
  rewrite Hinc in Hleft.
  destruct (voteBody _ _ _ _ _ _ _ _ _ _ _ _ _ w2) as [[r0|e] w0].
  2: { match type of Hvote with
       | bind (call_unlock unlock) ?k w0 = _ =>
           destruct (run_call_unlock unlock k w0 Hb) as (w5 & Hrun & _)
       end.
       rewrite Hrun in Hvote. cbn in Hvote. injection Hvote as <- _. discriminate Hstatus. }
  injection Hvote as _ <-. fold old in H. fold incrementAmount in H.
  rewrite Hdt2 in Hleft.
  split; [| split].
  - unfold flagsOf in H. destruct (segmentByUUID UUID (db w0)) as [s0|]; [| discriminate H].
    cbn [option_map] in H |- *. injection H as H. f_equal.
    destruct (incrementAmount >? 0); congruence.
  - intros Hup.
    assert (Hi : incrementAmount = i).
    { subst incrementAmount.
      destruct Hcases as [[-> ->] | [[-> _] | [-> ->]]];
        [reflexivity | contradiction | reflexivity]. }
    split; [exact Hi |]. rewrite <- Hi. split; [exact H |].
    rewrite Hleft.
    destruct Hcases as [[-> _] | [[-> _] | [-> _]]];
      [reflexivity | contradiction | reflexivity].
  - intros ->.
    assert (Hi : incrementAmount = - (SponsorTimes.votes seg + 2 - old)).
    { subst incrementAmount.
      destruct Hcases as [[Hc _] | [[_ ->] | [Hc _]]]; try discriminate Hc.
      rewrite amplified_privileged_downvote. reflexivity. }
    split; [exact Hi |]. split; [| rewrite Hleft; reflexivity].
    rewrite Hi. destruct (Z.ltb_spec (SponsorTimes.votes seg + 2) old);
      [apply Z.gtb_lt | rewrite Z.gtb_ltb; apply Z.ltb_ge]; lia.
Qed.

(** Runs of X9.  A VIP upvotes a hidden segment: it is locked and visible,
    and only the clearing of the cache is left running.  A VIP downvotes
    the segment, which has three votes: the increment is -5, the segment
    is unlocked, and the duration check is left running as well. *)
Lemma vote_vip_locks_or_unlocks_witness :
  (flagsOf "seg"
     (db (snd (vote Sample.config Sample.env "1.2.3.4" "seg" "vip-user" (JsNum 1) None
                    Fixtures.hidden_world)))
   = Some (1, 0, 0)
   /\ detached (snd (vote Sample.config Sample.env "1.2.3.4" "seg" "vip-user" (JsNum 1) None
                          Fixtures.hidden_world))
      = [ClearSegmentCache Fixtures.hidden_segment])
  /\ (option_map SponsorTimes.locked
        (segmentByUUID "seg"
           (db (snd (vote Sample.config Sample.env "1.2.3.4" "seg" "vip-user" (JsNum 0) None
                          Fixtures.locked_world))))
      = Some 0
      /\ detached (snd (vote Sample.config Sample.env "1.2.3.4" "seg" "vip-user" (JsNum 0)
                             None Fixtures.locked_world))
         = [ClearSegmentCache Fixtures.locked_segment; CheckVideoDuration "seg"]).
Proof.
  split.
  - destruct (vote_vip_locks_or_unlocks Sample.config Sample.env "1.2.3.4" "seg" "vip-user"
                1 1 None Fixtures.hidden_segment Fixtures.hidden_world (respond 200)
                (snd (vote Sample.config Sample.env "1.2.3.4" "seg" "vip-user" (JsNum 1)
                           None Fixtures.hidden_world)))
      as (_ & Hup & _).
    + repeat split.
    + reflexivity.
    + reflexivity.
    + reflexivity.
    + discriminate.
    + reflexivity.
    + reflexivity.
    + destruct Hup as (_ & Hflags & Hdet); [discriminate |].
      split; [exact Hflags | exact Hdet].
  - destruct (vote_vip_locks_or_unlocks Sample.config Sample.env "1.2.3.4" "seg" "vip-user"
                0 (-1) None Fixtures.locked_segment Fixtures.locked_world (respond 200)
                (snd (vote Sample.config Sample.env "1.2.3.4" "seg" "vip-user" (JsNum 0)
                           None Fixtures.locked_world)))
      as (Hlocked & _ & Hdown).
    + repeat split.
    + reflexivity.
    + reflexivity.
    + reflexivity.
    + discriminate.
    + reflexivity.
    + reflexivity.
    + destruct (Hdown eq_refl) as (_ & _ & Hdet).
      split; [exact Hlocked | exact Hdet].
Defined.

(** ** Votes that are answered but not counted *)

(** The part of [ableToVote] that asks no database. *)
Lemma ableToVote_turned_down d p n isOwn inc old t0 seg fr nonAnon UUID hashedIP userID :
  (isOwn && (inc >? 0) && (old >=? 0) = true
   \/ (t0 =? VoteType.Malicious)
      && negb (ActionType_eqb (SponsorTimes.actionType seg) Chapter) = true
   \/ blockVote fr = true
   \/ countedSubmission nonAnon (SponsorTimes.category seg) d = None) ->
  hoare (unchanged d p n)
    (ableToVote false false isOwn inc old t0 seg fr nonAnon UUID hashedIP userID)
    (fun b w => b = false /\ unchanged d p n w) (unchanged d p n).
Proof.
  intros Hwhy. unfold ableToVote. cbn [orb].
  match goal with |- context [if ?c then _ else _] => destruct c eqn:Hc end;
    [| apply hoare_ret; auto].
  eapply hoare_bind; [apply unchanged_db_query |].
  intros s. apply hoare_pure. intros ->.
  destruct (countedSubmission nonAnon (SponsorTimes.category seg) d) eqn:Hsub;
    cbn [isSome]; [| apply hoare_ret; auto].
  exfalso.
  apply andb_prop in Hc. destruct Hc as [Hc _].
  apply andb_prop in Hc. destruct Hc as [Hc Hblock].
  apply andb_prop in Hc. destruct Hc as [Hown Hmal].
  destruct Hwhy as [H | [H | [H | H]]].
  - rewrite H in Hown. discriminate.
  - rewrite H in Hmal. discriminate.
  - rewrite H in Hblock. discriminate.
  - discriminate.
Qed.

Lemma hoare_bind_exn {A B} (P : World -> Prop) (m : M A) (k : A -> M B)
  (R : A -> World -> Prop) (Q : B -> World -> Prop) (E' E : World -> Prop) :
  hoare P m R E' -> (forall w, E' w -> E w) -> (forall a, hoare (R a) (k a) Q E) ->
  hoare P (bind m k) Q E.
Proof.
  intros Hm HE Hk. eapply hoare_bind; [| exact Hk].
  eapply hoare_weaken; [exact Hm | auto | auto | exact HE].
Qed.

Lemma untouched_Logger_error d p n l s : preserves (untouched d p n l) (Logger_error s).
Proof. intros w H. exact H. Qed.

Lemma checkingAtMost_none d p n l type UUID w :
  untouched d p n l w -> unchanged d p n w /\ checkingAtMost type UUID l w.
Proof. intros [Hu Hl]. split; [exact Hu | left; exact Hl]. Qed.

Lemma checkingAtMost_started d p n l type UUID w :
  untouched d p n (if js_le type 0 then CheckVideoDuration UUID :: l else l) w ->
  unchanged d p n w /\ checkingAtMost type UUID l w.
Proof.
  intros [Hu Hl]. split; [exact Hu |]. unfold checkingAtMost.
  destruct (js_le type 0); [right; split; [reflexivity | exact Hl] | left; exact Hl].
Qed.

Lemma turned_down_of_preserves {A} d p n l type UUID (m : M A) :
  preserves (untouched d p n l) m ->
  hoare (untouched d p n l) m
    (fun _ w => unchanged d p n w /\ checkingAtMost type UUID l w)
    (fun w => unchanged d p n w /\ checkingAtMost type UUID l w).
Proof.
  intros H. eapply hoare_weaken; [exact H | auto | |];
    intros; apply checkingAtMost_none; assumption.
Qed.

Lemma numericVote_turned_down_unchanged d p n l env unlock UUID type nonAnon userID hashedIP
  seg isOwn fr0 (Phi : FinalResponse -> Prop) :
  benign unlock ->
  hoare (unchanged d p n) (checkLocks false type seg fr0)
    (fun fr w => Phi fr /\ unchanged d p n w) (unchanged d p n) ->
  (forall fr t0 i0 ty inc,
     Phi fr ->
     incrementAmountOf type = Some (t0, i0) ->
     amplified (false || false || isOwn) (SponsorTimes.votes seg)
               (oldIncrementAmountOf (voteTypeOf userID UUID p)) t0 i0 = (ty, inc) ->
     hoare (unchanged d p n)
       (ableToVote false false isOwn inc (oldIncrementAmountOf (voteTypeOf userID UUID p))
                   t0 seg fr nonAnon UUID hashedIP userID)
       (fun b w => b = false /\ unchanged d p n w) (unchanged d p n)) ->
  hoare (untouched d p n l)
    (numericVote env unlock UUID type nonAnon userID hashedIP seg false false isOwn fr0)
    (fun _ w => unchanged d p n w /\ checkingAtMost type UUID l w)
    (fun w => unchanged d p n w /\ checkingAtMost type UUID l w).
Proof.
  intros Hb Hlocks Hable. unfold numericVote.
  eapply hoare_bind_exn.
  { apply untouched_value with (phi := Phi); [apply keepsDetached_checkLocks | exact Hlocks]. }
  { intros w. apply checkingAtMost_none. }
  intros fr. apply hoare_pure. intros Hphi. cbv zeta.
  destruct (_ && js_eq type 1);
    [apply turned_down_of_preserves, untouched_unlock_ret, Hb |].
  destruct (_ && js_eq type 0);
    [apply turned_down_of_preserves, untouched_unlock_ret, Hb |].
  eapply hoare_bind; [apply untouched_starts_check |].
  intros ?.
  eapply hoare_weaken with
    (P' := untouched d p n (if js_le type 0 then CheckVideoDuration UUID :: l else l))
    (Q' := fun _ => untouched d p n (if js_le type 0 then CheckVideoDuration UUID :: l else l))
    (E' := untouched d p n (if js_le type 0 then CheckVideoDuration UUID :: l else l));
    [| auto | intros ? w; apply checkingAtMost_started
     | intros w; apply checkingAtMost_started].
  apply preserves_try_catch.
  - unfold voteBody.
    eapply hoare_bind.
    { apply untouched_value;
        [apply keepsDetached_privateDB_query | apply unchanged_privateDB_query]. }
    intros votesRow. apply hoare_pure. intros ->.
    destruct (incrementAmountOf type) as [[t0 i0]|] eqn:Hinc;
      [| apply untouched_unlock_ret, Hb].
    destruct (amplified _ _ _ _ _) as [ty inc] eqn:Hamp.
    eapply hoare_bind.
    { apply untouched_value;
        [apply keepsDetached_ableToVote | exact (Hable fr t0 i0 ty inc Hphi eq_refl Hamp)]. }
    intros b. apply hoare_pure. intros ->.
    apply preserves_bind; [apply preserves_ret |].
    intros _. apply untouched_unlock_ret, Hb.
  - intros e.
    apply preserves_bind; [apply untouched_call_unlock, Hb | intros _].
    apply preserves_bind; [apply untouched_Logger_error | intros _].
    apply preserves_ret.
Qed.

(** From the numeric vote to [vote], for a caller who is neither VIP nor
    temporary VIP. *)
Lemma vote_turned_down_of_numericVote config env ip UUID paramUserID type category d p n l :
  isUserVIP env (getHashCache env paramUserID) = false ->
  (forall seg, segmentByUUID UUID d = Some seg ->
               isUserTempVIP env (getHashCache env paramUserID) (SponsorTimes.videoID seg)
               = false) ->
  (js_not type && truthy_opt category) = false ->
  (forall unlock seg fr0,
     benign unlock -> segmentByUUID UUID d = Some seg ->
     hoare (untouched d p n l)
       (numericVote env unlock UUID type (getHashCache env paramUserID)
                    (getHashCache env (paramUserID +++ UUID))
                    (getHashCache env (ip +++ globalSalt config)) seg false false
                    (String.eqb (getHashCache env paramUserID) (SponsorTimes.userID seg))
                    fr0)
       (fun _ w => unchanged d p n w /\ checkingAtMost type UUID l w)
       (fun w => unchanged d p n w /\ checkingAtMost type UUID l w)) ->
  hoare (untouched d p n l) (vote config env ip UUID paramUserID type category)
    (fun _ w => unchanged d p n w /\ checkingAtMost type UUID l w)
    (fun w => unchanged d p n w /\ checkingAtMost type UUID l w).
Proof.
  intros Hvip Htemp Hnum Hnv.
  apply untouched_vote_from_pipeline.
  { intros r. apply turned_down_of_preserves, preserves_ret. }
  intros unlock Hb.
  unfold votePipeline. cbv zeta.
  eapply hoare_bind_exn.
  { apply untouched_value; [apply keepsDetached_db_query | apply unchanged_db_query]. }
  { intros w. apply checkingAtMost_none. }
  intros seg. apply hoare_pure. intros ->.
  destruct (segmentByUUID UUID d) as [seg|] eqn:Hseg;
    [| apply turned_down_of_preserves, untouched_unlock_ret, Hb].
  destruct (js_eq type 10 || js_eq type 11);
    [apply turned_down_of_preserves, untouched_unlock_ret, Hb |].
  eapply hoare_bind with (R := fun a w => a = n /\ untouched d p n l w).
  { intros w Hw. split; [apply Hw | exact Hw]. }
  intros n'. apply hoare_pure. intros ->.
  eapply hoare_bind_exn.
  { apply untouched_value; [apply keepsDetached_db_query | apply unchanged_db_query]. }
  { intros w. apply checkingAtMost_none. }
  intros ws. apply hoare_pure. intros ->.
  destruct (_ >=? _).
  { apply turned_down_of_preserves.
    apply preserves_bind; [apply untouched_call_unlock, Hb | intros _].
    destruct (hd_error _); [apply preserves_ret | apply preserves_throw]. }
  destruct (checkBanStatus env _ _);
    [apply turned_down_of_preserves, untouched_unlock_ret, Hb |].
  rewrite Hnum, Hvip, (Htemp seg eq_refl).
  apply Hnv; [exact Hb | reflexivity].
Qed.

Lemma run_bind_returned {A B} (m : M A) (k : A -> M B) w a w1 :
  m w = (Returned a, w1) -> bind m k w = k a w1.
Proof. intros H. unfold bind. rewrite H. reflexivity. Qed.

Lemma js_eq_one_not_le_zero type : js_eq type 1 = true -> js_le type 0 = false.
Proof.
  destruct type as [| |z]; cbn; try discriminate.
  intros H. apply Z.eqb_eq in H. subst z. reflexivity.
Qed.

Lemma numericVote_turned_down_response env unlock UUID type nonAnon userID hashedIP seg isOwn
  fr0 t0 i0 w (Phi : FinalResponse -> Prop) :
  benign unlock ->
  dbFaults w = [] ->
  incrementAmountOf type = Some (t0, i0) ->
  finalStatus fr0 = 200 -> finalMessage fr0 = None ->
  hoare (unchanged (db w) (privateDB w) (now w)) (checkLocks false type seg fr0)
    (fun fr w' => Phi fr /\ unchanged (db w) (privateDB w) (now w) w')
    (unchanged (db w) (privateDB w) (now w)) ->
  (forall fr ty inc,
     Phi fr ->
     amplified (false || false || isOwn) (SponsorTimes.votes seg)
               (oldIncrementAmountOf (voteTypeOf userID UUID (privateDB w))) t0 i0
     = (ty, inc) ->
     hoare (unchanged (db w) (privateDB w) (now w))
       (ableToVote false false isOwn inc
                   (oldIncrementAmountOf (voteTypeOf userID UUID (privateDB w)))
                   t0 seg fr nonAnon UUID hashedIP userID)
       (fun b w' => b = false /\ unchanged (db w) (privateDB w) (now w) w')
       (unchanged (db w) (privateDB w) (now w))) ->
  fst (numericVote env unlock UUID type nonAnon userID hashedIP seg false false isOwn fr0 w)
  = Returned
      (if negb (js_isNaN type) && (SponsorTimes.votes seg <=? -2)
          && negb (ActionType_eqb (SponsorTimes.actionType seg) Full)
          && negb (false || false || isOwn) && js_eq type 1
       then respond_message 403
              "Not allowed to upvote segment with too many downvotes unless you are VIP."
       else respond 200)
  /\ detached
       (snd (numericVote env unlock UUID type nonAnon userID hashedIP seg false false isOwn
                         fr0 w))
     = (if js_le type 0 && negb (deadSegmentReturn type seg false false isOwn)
        then CheckVideoDuration UUID :: detached w
        else detached w).
Proof.
  intros Hb Hf Hinc Hst Hmsg Hlocks Hable. unfold numericVote, deadSegmentReturn.
  destruct (checkLocks_run false type seg fr0 w Hf) as (fr & Hrun & Hst' & Hmsg').
  pose proof (Hlocks w (conj eq_refl (conj eq_refl eq_refl))) as Hphi.
  rewrite Hrun in Hphi. destruct Hphi as [Hphi _].
  rewrite !(run_bind_returned _ _ _ _ _ Hrun). cbv zeta.
  set (dead := negb (js_isNaN type) && (SponsorTimes.votes seg <=? -2)
               && negb (ActionType_eqb (SponsorTimes.actionType seg) Full)
               && negb (false || false || isOwn)).
  destruct (dead && js_eq type 1) eqn:H1.
  { apply andb_prop in H1. destruct H1 as [_ H1].
    rewrite (js_eq_one_not_le_zero type H1). cbn [andb].
    destruct (run_call_unlock unlock
                (fun _ => ret (respond_message 403
                   "Not allowed to upvote segment with too many downvotes unless you are VIP."))
                w Hb) as (w' & -> & _ & _ & _ & _ & Hdt & _).
    split; [reflexivity | exact Hdt]. }
  destruct (dead && js_eq type 0) eqn:H0.
  { apply andb_prop in H0. destruct H0 as [-> ->].
    rewrite orb_true_r. cbn [andb negb]. rewrite andb_false_r.
    destruct (run_call_unlock unlock (fun _ => ret (respond 200)) w Hb)
      as (w' & -> & _ & _ & _ & _ & Hdt & _).
    split; [reflexivity | exact Hdt]. }
  replace (dead && (js_eq type 1 || js_eq type 0)) with false
    by (rewrite andb_orb_distrib_r, H1, H0; reflexivity).
  cbn [negb]. rewrite andb_true_r.
  assert (Hbody : forall w2 vte,
             dbFaults w2 = [] -> db w2 = db w -> privateDB w2 = privateDB w ->
             now w2 = now w ->
             fst (voteBody env unlock UUID type nonAnon userID hashedIP seg
                           false false isOwn fr vte w2) = Returned (respond 200)
             /\ detached (snd (voteBody env unlock UUID type nonAnon userID hashedIP seg
                                        false false isOwn fr vte w2)) = detached w2).
  { intros w2 vte Hf2 Hd2 Hp2 Hn2. unfold voteBody.
    rewrite (run_privateDB_query _ _ w2 Hf2), Hinc, Hp2.
    destruct (amplified _ _ _ _ _) as [ty inc] eqn:Hamp.
    destruct (ableToVote_run false false isOwn inc
                (oldIncrementAmountOf (voteTypeOf userID UUID (privateDB w)))
                t0 seg fr nonAnon UUID hashedIP userID w2 Hf2) as (b & Hab).
    pose proof (Hable fr ty inc Hphi eq_refl w2 (conj Hd2 (conj Hp2 Hn2))) as Hfalse.
    rewrite Hab in Hfalse. destruct Hfalse as [-> _].
    rewrite !(run_bind_returned _ _ _ _ _ Hab). cbv iota beta. rewrite !run_ret.
    destruct (run_call_unlock unlock
                (fun _ => ret {| status := finalStatus fr; message := finalMessage fr;
                                 json := None |}) w2 Hb)
      as (w' & -> & _ & _ & _ & _ & Hdt & _).
    cbn. rewrite Hst', Hmsg', Hst, Hmsg. split; [reflexivity | exact Hdt]. }
  assert (Htry : forall w2 vte h,
             dbFaults w2 = [] -> db w2 = db w -> privateDB w2 = privateDB w ->
             now w2 = now w ->
             fst (try_catch (voteBody env unlock UUID type nonAnon userID hashedIP seg
                                      false false isOwn fr vte) h w2)
             = Returned (respond 200)
             /\ detached (snd (try_catch (voteBody env unlock UUID type nonAnon userID
                                            hashedIP seg false false isOwn fr vte) h w2))
                = detached w2).
  { intros w2 vte h Hf2 Hd2 Hp2 Hn2. specialize (Hbody w2 vte Hf2 Hd2 Hp2 Hn2).
    unfold try_catch.
    destruct (voteBody _ _ _ _ _ _ _ _ _ _ _ _ _ w2) as [[r|e] w']; cbn in *;
      [exact Hbody | destruct Hbody as [Hbody _]; discriminate]. }
  destruct (js_le type 0); [rewrite !run_spawn | rewrite !run_ret]; apply Htry;
    first [exact Hf | reflexivity].
Qed.

Lemma checkLocks_whatever d p n type seg fr0 :
  hoare (unchanged d p n) (checkLocks false type seg fr0)
    (fun _ w => True /\ unchanged d p n w) (unchanged d p n).
Proof.
  intros w Hw. pose proof (unchanged_checkLocks d p n false type seg fr0 w Hw) as H.
  destruct (checkLocks false type seg fr0 w) as [[fr|e] w']; [split; [exact I | exact H] |].
  exact H.
Qed.

Lemma stores_of_preserved {A} (m : M A) w :
  preserves (unchanged (db w) (privateDB w) (now w)) m ->
  db (snd (m w)) = db w /\ privateDB (snd (m w)) = privateDB w.
Proof.
  intros H. specialize (H w (conj eq_refl (conj eq_refl eq_refl))).
  destruct (m w) as [[r|e] w']; cbn; split; apply H.
Qed.

Lemma left_by_turned_down {A} (m : M A) type UUID w :
  hoare (untouched (db w) (privateDB w) (now w) (detached w)) m
    (fun _ w' => unchanged (db w) (privateDB w) (now w) w'
                 /\ checkingAtMost type UUID (detached w) w')
    (fun w' => unchanged (db w) (privateDB w) (now w) w'
               /\ checkingAtMost type UUID (detached w) w') ->
  db (snd (m w)) = db w /\ privateDB (snd (m w)) = privateDB w
  /\ (detached (snd (m w)) = detached w
      \/ (js_le type 0 = true
          /\ detached (snd (m w)) = CheckVideoDuration UUID :: detached w)).
Proof.
  intros H. specialize (H w (conj (conj eq_refl (conj eq_refl eq_refl)) eq_refl)).
  destruct (m w) as [[r|e] w']; cbn [snd]; destruct H as ((Hd & Hp & _) & Hdet);
    (split; [exact Hd |]; split; [exact Hp | exact Hdet]).
Qed.

(** A vote by a caller who is neither VIP nor temporary VIP, for which
    [ableToVote] is bound to answer false: nothing is written, at most the
    duration check is started, and the answer is the one of the checks
    before. *)
Lemma vote_turned_down config env ip UUID paramUserID type category w
  (Phi : FinalResponse -> Prop) :
  let nonAnonUserID := getHashCache env paramUserID in
  let userID := getHashCache env (paramUserID +++ UUID) in
  let hashedIP := getHashCache env (ip +++ globalSalt config) in
  isUserVIP env nonAnonUserID = false ->
  (forall seg, segmentByUUID UUID (db w) = Some seg ->
               isUserTempVIP env nonAnonUserID (SponsorTimes.videoID seg) = false) ->
  (js_not type && truthy_opt category) = false ->
  (forall seg fr0,
     segmentByUUID UUID (db w) = Some seg ->
     hoare (unchanged (db w) (privateDB w) (now w)) (checkLocks false type seg fr0)
       (fun fr w' => Phi fr /\ unchanged (db w) (privateDB w) (now w) w')
       (unchanged (db w) (privateDB w) (now w))) ->
  (forall seg fr t0 i0 ty inc,
     segmentByUUID UUID (db w) = Some seg ->
     Phi fr ->
     incrementAmountOf type = Some (t0, i0) ->
     amplified (false || false || String.eqb nonAnonUserID (SponsorTimes.userID seg))
               (SponsorTimes.votes seg)
               (oldIncrementAmountOf (voteTypeOf userID UUID (privateDB w))) t0 i0
     = (ty, inc) ->
     hoare (unchanged (db w) (privateDB w) (now w))
       (ableToVote false false (String.eqb nonAnonUserID (SponsorTimes.userID seg)) inc
          (oldIncrementAmountOf (voteTypeOf userID UUID (privateDB w)))
          t0 seg fr nonAnonUserID UUID hashedIP userID)
       (fun b w' => b = false /\ unchanged (db w) (privateDB w) (now w) w')
       (unchanged (db w) (privateDB w) (now w))) ->
  (db (snd (vote config env ip UUID paramUserID type category w)) = db w
   /\ privateDB (snd (vote config env ip UUID paramUserID type category w)) = privateDB w
   /\ (detached (snd (vote config env ip UUID paramUserID type category w)) = detached w
       \/ (js_le type 0 = true
           /\ detached (snd (vote config env ip UUID paramUserID type category w))
              = CheckVideoDuration UUID :: detached w)))
  /\ (forall seg t0 i0,
        reachesDelegation config env ip UUID paramUserID type category seg w ->
        incrementAmountOf type = Some (t0, i0) ->
        fst (vote config env ip UUID paramUserID type category w)
        = Returned
            (if negb (js_isNaN type) && (SponsorTimes.votes seg <=? -2)
                && negb (ActionType_eqb (SponsorTimes.actionType seg) Full)
                && negb (String.eqb nonAnonUserID (SponsorTimes.userID seg))
                && js_eq type 1
             then respond_message 403
                    "Not allowed to upvote segment with too many downvotes unless you are VIP."
             else respond 200)
        /\ detached (snd (vote config env ip UUID paramUserID type category w))
           = (if js_le type 0
                 && negb (deadSegmentReturn type seg false false
                            (String.eqb nonAnonUserID (SponsorTimes.userID seg)))
              then CheckVideoDuration UUID :: detached w
              else detached w)).
Proof.
  intros nonAnonUserID userID hashedIP Hvip Htemp Hnum Hlocks Hable.
  split.
  - apply left_by_turned_down.
    apply vote_turned_down_of_numericVote; [exact Hvip | exact Htemp | exact Hnum |].
    intros unlock seg fr0 Hb Hs. fold nonAnonUserID userID hashedIP.
    apply numericVote_turned_down_unchanged with (Phi := Phi);
      [exact Hb | apply Hlocks, Hs |].
    intros fr t0 i0 ty inc. apply Hable, Hs.
  - intros seg t0 i0 Hreach Hinc.
    destruct (vote_reaches_numericVote config env ip UUID paramUserID type
                category seg w Hreach Hnum)
      as (unlock & w1 & Hb & (Hd & Hp & Hf1 & _ & Hdt & Hn) & ->).
    destruct Hreach as ((_ & Hf & Hs & _) & _).
    fold nonAnonUserID userID hashedIP. rewrite Hvip, (Htemp seg Hs).
    rewrite <- Hdt.
    apply (numericVote_turned_down_response env unlock UUID type
             nonAnonUserID userID hashedIP seg _ _ t0 i0 w1 Phi Hb);
      try reflexivity; try congruence.
    + rewrite Hd, Hp, Hn. apply Hlocks, Hs.
    + intros fr ty inc Hphi Hamp. rewrite Hd, Hp, Hn in *.
      apply (Hable seg fr t0 i0 ty inc Hs Hphi Hinc Hamp).
Qed.

(** X10. The upvote of one's own segment is answered and not counted: when
    the caller is the segment's submitter (and neither VIP nor temporary
    VIP) and the earlier vote row, if any, stands for an increment of zero
    or more, an upvote leaves both databases as they were, whatever
    statements fail; and when the call gets to the numeric vote the answer
    is a plain 200, as for a counted vote. *)
Theorem vote_own_upvote_is_not_counted config env ip UUID paramUserID category w :
  let nonAnonUserID := getHashCache env paramUserID in
  let userID := getHashCache env (paramUserID +++ UUID) in
  isUserVIP env nonAnonUserID = false ->
  (forall seg, segmentByUUID UUID (db w) = Some seg ->
               isUserTempVIP env nonAnonUserID (SponsorTimes.videoID seg) = false
               /\ String.eqb nonAnonUserID (SponsorTimes.userID seg) = true) ->
  0 <= oldIncrementAmountOf (voteTypeOf userID UUID (privateDB w)) ->
  (db (snd (vote config env ip UUID paramUserID (JsNum VoteType.Upvote) category w)) = db w
   /\ privateDB (snd (vote config env ip UUID paramUserID (JsNum VoteType.Upvote) category w))
      = privateDB w)
  /\ (forall seg,
        reachesDelegation config env ip UUID paramUserID (JsNum VoteType.Upvote) category
                          seg w ->
        fst (vote config env ip UUID paramUserID (JsNum VoteType.Upvote) category w)
        = Returned (respond 200)).
Proof.
  intros nonAnonUserID userID Hvip Hseg Hold.
  destruct (vote_turned_down config env ip UUID paramUserID (JsNum VoteType.Upvote) category
              w (fun _ => True)) as [Hsame Hanswer]; try assumption; try reflexivity.
  - intros seg Hs. apply (Hseg seg Hs).
  - intros seg fr0 _. apply checkLocks_whatever.
  - intros seg fr t0 i0 ty inc Hs _ Hinc Hamp. fold nonAnonUserID userID in Hamp |- *.
    rewrite (proj2 (Hseg seg Hs)) in Hamp |- *. injection Hinc as <- <-.
    cbn in Hamp. injection Hamp as _ <-.
    apply ableToVote_turned_down. left. cbn [andb].
    change (1 >? 0) with true. cbn [andb]. apply Z.geb_le. exact Hold.
  - destruct Hsame as (Hd & Hp & _). split; [exact (conj Hd Hp) |]. intros seg Hreach.
    rewrite (proj1 (Hanswer seg VoteType.Upvote 1 Hreach eq_refl)).
    fold nonAnonUserID.
    assert (Hs : segmentByUUID UUID (db w) = Some seg) by apply Hreach.
    rewrite (proj2 (Hseg seg Hs)). cbn [negb]. rewrite !andb_false_r. reflexivity.
Qed.

(** A run of X10: the submitter of "seg" upvotes it. *)
Lemma vote_own_upvote_is_not_counted_witness :
  fst (vote Sample.config Sample.env "1.2.3.4" "seg" "owner" (JsNum VoteType.Upvote) None
            Sample.quiet_world) = Returned (respond 200)
  /\ db (snd (vote Sample.config Sample.env "1.2.3.4" "seg" "owner" (JsNum VoteType.Upvote)
                   None Sample.quiet_world)) = db Sample.quiet_world.
Proof.
  destruct (vote_own_upvote_is_not_counted Sample.config Sample.env "1.2.3.4" "seg" "owner"
              None Sample.quiet_world) as [[Hd _] Hanswer].
  - reflexivity.
  - intros seg Hs. vm_compute in Hs. injection Hs as <-. split; reflexivity.
  - vm_compute. discriminate.
  - split; [| exact Hd].
    apply (Hanswer (Sample.segment "seg" 3 "sponsor" Skip "#owner")). repeat split.
Defined.

(** X11. A malicious vote (type 30) on a segment that is not a chapter, by
    a caller who is neither VIP nor temporary VIP, is answered and not
    counted: both databases are left as they were, whatever statements
    fail, and when the call gets to the numeric vote the answer is a plain
    200. *)
Theorem vote_malicious_needs_a_chapter config env ip UUID paramUserID category w :
  let nonAnonUserID := getHashCache env paramUserID in
  isUserVIP env nonAnonUserID = false ->
  (forall seg, segmentByUUID UUID (db w) = Some seg ->
               isUserTempVIP env nonAnonUserID (SponsorTimes.videoID seg) = false
               /\ SponsorTimes.actionType seg <> Chapter) ->
  (db (snd (vote config env ip UUID paramUserID (JsNum VoteType.Malicious) category w)) = db w
   /\ privateDB (snd (vote config env ip UUID paramUserID (JsNum VoteType.Malicious)
                           category w))
      = privateDB w)
  /\ (forall seg,
        reachesDelegation config env ip UUID paramUserID (JsNum VoteType.Malicious) category
                          seg w ->
        fst (vote config env ip UUID paramUserID (JsNum VoteType.Malicious) category w)
        = Returned (respond 200)).
Proof.
  intros nonAnonUserID Hvip Hseg.
  destruct (vote_turned_down config env ip UUID paramUserID (JsNum VoteType.Malicious)
              category w (fun _ => True)) as [Hsame Hanswer]; try assumption; try reflexivity.
  - intros seg Hs. apply (Hseg seg Hs).
  - intros seg fr0 _. apply checkLocks_whatever.
  - intros seg fr t0 i0 ty inc Hs _ Hinc Hamp. injection Hinc as <- <-.
    apply ableToVote_turned_down. right. left.
    destruct (Hseg seg Hs) as [_ Hact].
    destruct (SponsorTimes.actionType seg); try reflexivity. contradiction.
  - destruct Hsame as (Hd & Hp & _). split; [exact (conj Hd Hp) |]. intros seg Hreach.
    rewrite (proj1 (Hanswer seg VoteType.Malicious (-1) Hreach eq_refl)).
    cbn [js_eq]. change (VoteType.Malicious =? 1) with false.
    rewrite !andb_false_r. reflexivity.
Qed.

(** A run of X11: "user-u" sends a malicious vote on a skip segment. *)
Lemma vote_malicious_needs_a_chapter_witness :
  fst (vote Sample.config Sample.env "1.2.3.4" "seg" "user-u" (JsNum VoteType.Malicious) None
            Fixtures.voter_world) = Returned (respond 200)
  /\ db (snd (vote Sample.config Sample.env "1.2.3.4" "seg" "user-u"
                   (JsNum VoteType.Malicious) None Fixtures.voter_world))
     = db Fixtures.voter_world.
Proof.
  destruct (vote_malicious_needs_a_chapter Sample.config Sample.env "1.2.3.4" "seg" "user-u"
              None Fixtures.voter_world) as [[Hd _] Hanswer].
  - reflexivity.
  - intros seg Hs. vm_compute in Hs. injection Hs as <-. split; [reflexivity | discriminate].
  - split; [| exact Hd].
    apply (Hanswer (Sample.segment "seg" 3 "sponsor" Skip "#owner")). repeat split.
Defined.

(** X12. A locked segment takes no vote from an ordinary caller: when the
    segment is locked, or its category is locked for the video, a vote that
    is not an upvote of a live segment, by a caller who is neither VIP nor
    temporary VIP, is answered and not counted.  No statement of the call
    writes: both databases are as they were when it returns, whatever
    statements fail.  The call starts at most the duration check of lines
    462-464, and that only for a type of 0 or less: a downvote has started
    it before it is turned down.  The check, left running, is then the
    only thing that can still write, and whenever it runs on the stores
    that the call left it can only hide segments: every segment row is then
    the row it was before the call or that row hidden, and the category
    aggregates and the private database are as they were.  When the call
    gets to the numeric vote with a recognised type the answer is the one
    of the checks before, 403 for the upvote of a dead segment, else a
    plain 200, and the check has been started exactly for a type of 0 or
    less that is not turned away for a dead segment. *)
Theorem vote_on_locked_segment_is_not_counted config env ip UUID paramUserID type category
  w :
  let nonAnonUserID := getHashCache env paramUserID in
  isUserVIP env nonAnonUserID = false ->
  (js_not type && truthy_opt category) = false ->
  (forall seg, segmentByUUID UUID (db w) = Some seg ->
               isUserTempVIP env nonAnonUserID (SponsorTimes.videoID seg) = false
               /\ (negb (js_eq type 1) || (SponsorTimes.votes seg <=? -2)) = true
               /\ (SponsorTimes.locked seg <> 0
                   \/ lockedCategoryAction (SponsorTimes.videoID seg)
                        (SponsorTimes.service seg) (SponsorTimes.category seg)
                        (SponsorTimes.actionType seg) (db w) <> None)) ->
  (db (snd (vote config env ip UUID paramUserID type category w)) = db w
   /\ privateDB (snd (vote config env ip UUID paramUserID type category w)) = privateDB w
   /\ (detached (snd (vote config env ip UUID paramUserID type category w)) = detached w
       \/ (js_le type 0 = true
           /\ detached (snd (vote config env ip UUID paramUserID type category w))
              = CheckVideoDuration UUID :: detached w))
   /\ (forall deleteLockCategories w1,
         db w1 = db (snd (vote config env ip UUID paramUserID type category w)) ->
         privateDB w1 = privateDB (snd (vote config env ip UUID paramUserID type category w)) ->
         Forall2 hiddenOrSame (sponsorTimes (db w))
           (sponsorTimes (db (snd (checkVideoDuration env deleteLockCategories UUID w1))))
         /\ categoryVotes (db (snd (checkVideoDuration env deleteLockCategories UUID w1)))
            = categoryVotes (db w)
         /\ privateDB (snd (checkVideoDuration env deleteLockCategories UUID w1))
            = privateDB w))
  /\ (forall seg t0 i0,
        reachesDelegation config env ip UUID paramUserID type category seg w ->
        incrementAmountOf type = Some (t0, i0) ->
        fst (vote config env ip UUID paramUserID type category w)
        = Returned
            (if negb (js_isNaN type) && (SponsorTimes.votes seg <=? -2)
                && negb (ActionType_eqb (SponsorTimes.actionType seg) Full)
                && negb (String.eqb nonAnonUserID (SponsorTimes.userID seg))
                && js_eq type 1
             then respond_message 403
                    "Not allowed to upvote segment with too many downvotes unless you are VIP."
             else respond 200)
        /\ detached (snd (vote config env ip UUID paramUserID type category w))
           = (if js_le type 0
                 && negb (deadSegmentReturn type seg false false
                            (String.eqb nonAnonUserID (SponsorTimes.userID seg)))
              then CheckVideoDuration UUID :: detached w
              else detached w)).
Proof.
  intros nonAnonUserID Hvip Hnum Hseg.
  destruct (vote_turned_down config env ip UUID paramUserID type category w
              (fun fr => blockVote fr = true)) as [(Hd & Hp & Hdet) Hanswer];
    try assumption;
    [| | | split; [| exact Hanswer]; split; [exact Hd |]; split; [exact Hp |];
           split; [exact Hdet |]; intros deleteLockCategories w1 Hd1 Hp1;
           apply checkVideoDuration_after; congruence].
  - intros seg Hs. apply (Hseg seg Hs).
  - intros seg fr0 Hs. destruct (Hseg seg Hs) as (_ & Hcond & Hlocked).
    unfold checkLocks. cbn [negb andb]. rewrite Hcond.
    eapply hoare_bind with
      (R := fun b w' => b = true /\ unchanged (db w) (privateDB w) (now w) w').
    + destruct (Z.eqb_spec (SponsorTimes.locked seg) 0) as [Hzero | Hnz]; cbn [negb].
      * eapply hoare_bind; [apply unchanged_db_query |].
        intros r. apply hoare_pure. intros ->. apply hoare_ret.
        intros w' Hw'. split; [| exact Hw'].
        destruct Hlocked as [H | H]; [contradiction |].
        destruct (lockedCategoryAction _ _ _ _ (db w)); [reflexivity | contradiction].
      * apply hoare_ret. auto.
    + intros b. apply hoare_pure. intros ->. apply hoare_ret. auto.
  - intros seg fr t0 i0 ty inc Hs Hblock Hinc Hamp.
    apply ableToVote_turned_down. right. right. left. exact Hblock.
Qed.

(** A run of X12: "user-u" downvotes a locked segment.  The answer is 200,
    the databases are as they were, and the duration check is running. *)
Lemma vote_on_locked_segment_is_not_counted_witness :
  fst (vote Sample.config Sample.env "1.2.3.4" "seg" "user-u" (JsNum VoteType.Downvote) None
            Fixtures.locked_world) = Returned (respond 200)
  /\ db (snd (vote Sample.config Sample.env "1.2.3.4" "seg" "user-u"
                   (JsNum VoteType.Downvote) None Fixtures.locked_world))
     = db Fixtures.locked_world
  /\ detached (snd (vote Sample.config Sample.env "1.2.3.4" "seg" "user-u"
                         (JsNum VoteType.Downvote) None Fixtures.locked_world))
     = [CheckVideoDuration "seg"].
Proof.
  destruct (vote_on_locked_segment_is_not_counted Sample.config Sample.env "1.2.3.4" "seg"
              "user-u" (JsNum VoteType.Downvote) None Fixtures.locked_world)
    as [(Hd & _) Hanswer].
  - reflexivity.
  - reflexivity.
  - intros seg Hs. vm_compute in Hs. injection Hs as <-.
    split; [reflexivity |]. split; [reflexivity |]. left. discriminate.
  - destruct (Hanswer Fixtures.locked_segment VoteType.Downvote (-1)) as [Hr Hdet];
      [repeat split | reflexivity |].
    split; [exact Hr |]. split; [exact Hd | exact Hdet].
Defined.

(** X13. Only a caller with a counted submission of their own can vote: a
    caller who is neither VIP nor temporary VIP and has no submission in
    the segment's category that is visible and above -2 votes is answered
    and not counted.  No statement of the call writes: both databases are
    as they were when it returns, whatever statements fail.  The call
    starts at most the duration check of lines 462-464, and that only for
    a type of 0 or less: a downvote has started it before it is turned
    down.  The check, left running, is then the only thing that can still
    write, and whenever it runs on the stores that the call left it can
    only hide segments: every segment row is then the row it was before the
    call or that row hidden, and the category aggregates and the private
    database are as they were.  When the call gets to the numeric vote with
    a recognised type the answer is the one of the checks before, and the
    check has been started exactly for a type of 0 or less that is not
    turned away for a dead segment. *)
Theorem vote_needs_a_counted_submission config env ip UUID paramUserID type category w :
  let nonAnonUserID := getHashCache env paramUserID in
  isUserVIP env nonAnonUserID = false ->
  (js_not type && truthy_opt category) = false ->
  (forall seg, segmentByUUID UUID (db w) = Some seg ->
               isUserTempVIP env nonAnonUserID (SponsorTimes.videoID seg) = false
               /\ countedSubmission nonAnonUserID (SponsorTimes.category seg) (db w) = None) ->
  (db (snd (vote config env ip UUID paramUserID type category w)) = db w
   /\ privateDB (snd (vote config env ip UUID paramUserID type category w)) = privateDB w
   /\ (detached (snd (vote config env ip UUID paramUserID type category w)) = detached w
       \/ (js_le type 0 = true
           /\ detached (snd (vote config env ip UUID paramUserID type category w))
              = CheckVideoDuration UUID :: detached w))
   /\ (forall deleteLockCategories w1,
         db w1 = db (snd (vote config env ip UUID paramUserID type category w)) ->
         privateDB w1 = privateDB (snd (vote config env ip UUID paramUserID type category w)) ->
         Forall2 hiddenOrSame (sponsorTimes (db w))
           (sponsorTimes (db (snd (checkVideoDuration env deleteLockCategories UUID w1))))
         /\ categoryVotes (db (snd (checkVideoDuration env deleteLockCategories UUID w1)))
            = categoryVotes (db w)
         /\ privateDB (snd (checkVideoDuration env deleteLockCategories UUID w1))
            = privateDB w))
  /\ (forall seg t0 i0,
        reachesDelegation config env ip UUID paramUserID type category seg w ->
        incrementAmountOf type = Some (t0, i0) ->
        fst (vote config env ip UUID paramUserID type category w)
        = Returned
            (if negb (js_isNaN type) && (SponsorTimes.votes seg <=? -2)
                && negb (ActionType_eqb (SponsorTimes.actionType seg) Full)
                && negb (String.eqb nonAnonUserID (SponsorTimes.userID seg))
                && js_eq type 1
             then respond_message 403
                    "Not allowed to upvote segment with too many downvotes unless you are VIP."
             else respond 200)
        /\ detached (snd (vote config env ip UUID paramUserID type category w))
           = (if js_le type 0
                 && negb (deadSegmentReturn type seg false false
                            (String.eqb nonAnonUserID (SponsorTimes.userID seg)))
              then CheckVideoDuration UUID :: detached w
              else detached w)).
Proof.
  intros nonAnonUserID Hvip Hnum Hseg.
  destruct (vote_turned_down config env ip UUID paramUserID type category w (fun _ => True))
    as [(Hd & Hp & Hdet) Hanswer];
    try assumption;
    [| | | split; [| exact Hanswer]; split; [exact Hd |]; split; [exact Hp |];
           split; [exact Hdet |]; intros deleteLockCategories w1 Hd1 Hp1;
           apply checkVideoDuration_after; congruence].
  - intros seg Hs. apply (Hseg seg Hs).
  - intros seg fr0 _. apply checkLocks_whatever.
  - intros seg fr t0 i0 ty inc Hs _ Hinc Hamp.
    apply ableToVote_turned_down. right. right. right. apply (Hseg seg Hs).
Qed.

(** Runs of X13: "user-u" has submitted nothing.  Their upvote of "seg" is
    answered 200 and nothing is written or started; their downvote is
    answered 200, nothing is written, and the duration check is running. *)
Lemma vote_needs_a_counted_submission_witness :
  (fst (vote Sample.config Sample.env "1.2.3.4" "seg" "user-u" (JsNum VoteType.Upvote) None
             Sample.quiet_world) = Returned (respond 200)
   /\ db (snd (vote Sample.config Sample.env "1.2.3.4" "seg" "user-u"
                    (JsNum VoteType.Upvote) None Sample.quiet_world))
      = db Sample.quiet_world
   /\ detached (snd (vote Sample.config Sample.env "1.2.3.4" "seg" "user-u"
                          (JsNum VoteType.Upvote) None Sample.quiet_world))
      = [])
  /\ (fst (vote Sample.config Sample.env "1.2.3.4" "seg" "user-u" (JsNum VoteType.Downvote)
                None Sample.quiet_world) = Returned (respond 200)
      /\ db (snd (vote Sample.config Sample.env "1.2.3.4" "seg" "user-u"
                       (JsNum VoteType.Downvote) None Sample.quiet_world))
         = db Sample.quiet_world
      /\ detached (snd (vote Sample.config Sample.env "1.2.3.4" "seg" "user-u"
                             (JsNum VoteType.Downvote) None Sample.quiet_world))
         = [CheckVideoDuration "seg"]).
Proof.
  split.
  - destruct (vote_needs_a_counted_submission Sample.config Sample.env "1.2.3.4" "seg"
                "user-u" (JsNum VoteType.Upvote) None Sample.quiet_world)
      as [(Hd & _) Hanswer].
    + reflexivity.
    + reflexivity.
    + intros seg Hs. vm_compute in Hs. injection Hs as <-. split; reflexivity.
    + destruct (Hanswer (Sample.segment "seg" 3 "sponsor" Skip "#owner") VoteType.Upvote 1)
        as [Hr Hdet]; [repeat split | reflexivity |].
      split; [exact Hr |]. split; [exact Hd | exact Hdet].
  - destruct (vote_needs_a_counted_submission Sample.config Sample.env "1.2.3.4" "seg"
                "user-u" (JsNum VoteType.Downvote) None Sample.quiet_world)
      as [(Hd & _) Hanswer].
    + reflexivity.
    + reflexivity.
    + intros seg Hs. vm_compute in Hs. injection Hs as <-. split; reflexivity.
    + destruct (Hanswer (Sample.segment "seg" 3 "sponsor" Skip "#owner")
                  VoteType.Downvote (-1)) as [Hr Hdet]; [repeat split | reflexivity |].
      split; [exact Hr |]. split; [exact Hd | exact Hdet].
Defined.

(** ** The category vote that is turned away *)

Lemma categoryVote_ineligible_unchanged d p n config env UUID userID isVIP isTempVIP isOwn
  category hashedIP fr :
  (match usersLastVote UUID userID p with
   | Some (_, c) => String.eqb c category
   | None => false
   end = true
   \/ (forall seg,
         segmentByUUID UUID d = Some seg ->
         (negb (supportsAction config category (SponsorTimes.actionType seg))
          || ActionType_eqb (SponsorTimes.actionType seg) Full) = true
         \/ mem category (categoryList config) = false
         \/ (isVIP = false
             /\ (lockedCategory (SponsorTimes.videoID seg) (SponsorTimes.service seg)
                                category d <> None
                 \/ SponsorTimes.locked seg = 1)))
   \/ finalStatus fr <> 200) ->
  preserves (unchanged d p n)
    (categoryVote config env UUID userID isVIP isTempVIP isOwn category hashedIP fr).
Proof.
  intros Hwhy. unfold categoryVote.
  eapply hoare_bind; [apply unchanged_privateDB_query |].
  intros last. apply hoare_pure. intros ->.
  destruct (match usersLastVote UUID userID p with
            | Some (_, c) => String.eqb c category
            | None => false
            end) eqn:Hdouble; [apply preserves_ret |].
  eapply hoare_bind; [apply unchanged_db_query |].
  intros s. apply hoare_pure. intros ->.
  destruct (segmentByUUID UUID d) as [seg|] eqn:Hseg; [| apply preserves_throw].
  destruct (inheritedSupport config category); [apply preserves_throw |].
  destruct (negb (supportsAction config category (SponsorTimes.actionType seg))
            || ActionType_eqb (SponsorTimes.actionType seg) Full) eqn:Hsupp;
    [apply preserves_ret |].
  destruct (mem category (categoryList config)) eqn:Hlist; cbn [negb];
    [| apply preserves_ret].
  eapply hoare_bind; [apply unchanged_db_query |].
  intros l. apply hoare_pure. intros ->.
  destruct (isSome (lockedCategory _ _ category d) && negb isVIP) eqn:Hnext;
    [apply preserves_ret |].
  destruct (negb isVIP && (SponsorTimes.locked seg =? 1)) eqn:Hlocked;
    [apply preserves_ret |].
  assert (Hst : (finalStatus fr =? 200) = false).
  { destruct Hwhy as [H | [H | H]]; [discriminate | | apply Z.eqb_neq, H].
    destruct (H seg eq_refl) as [H1 | [H1 | [-> [H1 | H1]]]]; try congruence.
    - cbn [negb] in Hnext. rewrite andb_true_r in Hnext.
      destruct (lockedCategory _ _ category d); [discriminate | contradiction].
    - rewrite H1 in Hlocked. discriminate. }
  eapply hoare_bind; [apply unchanged_db_query_any |].
  intros next. apply preserves_bind; [intros w Hw; exact Hw |].
  intros t. cbv zeta. rewrite Hst.
  apply preserves_bind; [apply preserves_ret |].
  intros _. apply preserves_bind; [apply unchanged_spawn |].
  intros _. apply preserves_ret.
Qed.

(** X14. A category vote writes only when it is eligible: when the group
    that the query of lines 152-157 returns for the caller (of the caller's
    rows for the segment, those of the least category) names this
    category, or the category is not allowed for the segment's action
    type, or the segment is a full-video label, or the category is unknown,
    or the category or the segment is locked and the caller is no VIP, or
    the status handed in is not 200, [categoryVote] leaves both databases
    as they were, whatever statements fail. *)
Theorem categoryVote_writes_only_when_eligible config env UUID userID isVIP isTempVIP isOwn
  category hashedIP fr w :
  (match usersLastVote UUID userID (privateDB w) with
   | Some (_, c) => String.eqb c category
   | None => false
   end = true
   \/ (forall seg,
         segmentByUUID UUID (db w) = Some seg ->
         (negb (supportsAction config category (SponsorTimes.actionType seg))
          || ActionType_eqb (SponsorTimes.actionType seg) Full) = true
         \/ mem category (categoryList config) = false
         \/ (isVIP = false
             /\ (lockedCategory (SponsorTimes.videoID seg) (SponsorTimes.service seg)
                                category (db w) <> None
                 \/ SponsorTimes.locked seg = 1)))
   \/ finalStatus fr <> 200) ->
  db (snd (categoryVote config env UUID userID isVIP isTempVIP isOwn category hashedIP fr w))
  = db w
  /\ privateDB (snd (categoryVote config env UUID userID isVIP isTempVIP isOwn category
                                  hashedIP fr w))
     = privateDB w.
Proof.
  intros Hwhy. apply stores_of_preserved.
  apply categoryVote_ineligible_unchanged, Hwhy.
Qed.

(** Runs of X14.  "chapter" is not allowed for a skip segment.  And the
    submitter of an "intro" segment, recorded under "sponsor" for an
    earlier vote and under "intro" for the submission, votes "intro": the
    query returns the group of "intro", although the row of "sponsor" is
    the older one, and nothing is written. *)
Lemma categoryVote_writes_only_when_eligible_witness :
  (db (snd (categoryVote Sample.config Sample.env "seg" "#user-u" false false false "chapter"
                         "#1.2.3.4salt" Sample.finalResponse Sample.quiet_world))
   = db Sample.quiet_world
   /\ privateDB (snd (categoryVote Sample.config Sample.env "seg" "#user-u" false false false
                                   "chapter" "#1.2.3.4salt" Sample.finalResponse
                                   Sample.quiet_world))
      = privateDB Sample.quiet_world)
  /\ choicesOf "seg" "#owner" (privateDB Fixtures.intro_world_voted) = ["sponsor"; "intro"]
  /\ db (snd (categoryVote Sample.config Sample.env "seg" "#owner" false false true "intro"
                           "#1.2.3.4salt" Sample.finalResponse Fixtures.intro_world_voted))
     = db Fixtures.intro_world_voted
  /\ privateDB (snd (categoryVote Sample.config Sample.env "seg" "#owner" false false true
                                  "intro" "#1.2.3.4salt" Sample.finalResponse
                                  Fixtures.intro_world_voted))
     = privateDB Fixtures.intro_world_voted.
Proof.
  split; [| split; [reflexivity |]].
  - apply (categoryVote_writes_only_when_eligible Sample.config Sample.env "seg" "#user-u"
             false false false "chapter" "#1.2.3.4salt" Sample.finalResponse
             Sample.quiet_world).
    right. left. intros seg Hs. vm_compute in Hs. injection Hs as <-. left. reflexivity.
  - apply (categoryVote_writes_only_when_eligible Sample.config Sample.env "seg" "#owner"
             false false true "intro" "#1.2.3.4salt" Sample.finalResponse
             Fixtures.intro_world_voted).
    left. reflexivity.
Defined.

(** A category that names a member of Object.prototype and has no entry in
    the configuration makes line 179 throw, where a category that names
    nothing is answered 400; neither writes. *)
Lemma categoryVote_inherited_member_throws :
  categoryVote Sample.config Sample.env "seg" "#user-u" false false false "constructor"
               "#1.2.3.4salt" Sample.finalResponse Sample.quiet_world
  = (Thrown "TypeError: config.categorySupport[category]?.includes is not a function",
     Sample.quiet_world)
  /\ categoryVote Sample.config Sample.env "seg" "#user-u" false false false "nothing"
                  "#1.2.3.4salt" Sample.finalResponse Sample.quiet_world
     = (Returned (respond_message 400
                    "Not allowed to change to nothing when for segment of type skip"),
        Sample.quiet_world).
Proof. split; reflexivity. Qed.

(** ** What a category vote can change *)

Lemma withoutCategory_updateSegments UUID c d :
  map (withoutCategory UUID) (sponsorTimes (updateSegments UUID (SponsorTimes.set_category c) d))
  = map (withoutCategory UUID) (sponsorTimes d).
Proof.
  unfold updateSegments, update_where. cbn [sponsorTimes]. rewrite map_map.
  apply map_ext. intros r. unfold withoutCategory.
  destruct (String.eqb (SponsorTimes.UUID r) UUID) eqn:E; [| rewrite E; reflexivity].
  cbn [SponsorTimes.UUID SponsorTimes.set_category]. rewrite E. reflexivity.
Qed.

Ltac keeps_stores :=
  repeat first
    [ apply preserves_ret
    | apply preserves_throw
    | apply onStores_db_query
    | apply onStores_privateDB_query
    | apply onStores_spawn
    | apply onStores_Logger_error
    | apply onStores_db_run
    | apply onStores_privateDB_run
    | match goal with |- preserves _ Date_now => intros ? ?; assumption end
    | match goal with |- preserves _ (if ?c then _ else _) => destruct c end
    | match goal with |- preserves _ (match ?c with Some _ => _ | None => _ end) =>
        destruct c end
    | match goal with |- preserves _ (match ?c with (_, _) => _ end) => destruct c end
    | apply preserves_bind; [| intros ?] ].

Lemma categoryVote_keeps_the_rest config env UUID userID isVIP isTempVIP isOwn category
  hashedIP fr segments numeric locks warns :
  preserves
    (onStores (fun d p =>
       map (withoutCategory UUID) (sponsorTimes d) = segments
       /\ votes p = numeric /\ lockCategories d = locks /\ warnings d = warns))
    (categoryVote config env UUID userID isVIP isTempVIP isOwn category hashedIP fr).
Proof.
  unfold categoryVote. keeps_stores.
  all: intros d p (H1 & H2 & H3 & H4);
    rewrite ?withoutCategory_updateSegments; repeat split; assumption.
Qed.

(** X15. A category vote changes nothing but categories: whatever the
    arguments and whatever statements fail, [categoryVote] leaves every
    segment row other than the one voted on as it was, changes at most the
    category of that one (its votes, lock and visibility stay), and leaves
    the numeric votes table, the lock table and the warnings alone. *)
Theorem categoryVote_changes_only_the_category config env UUID userID isVIP isTempVIP isOwn
  category hashedIP fr w :
  map (withoutCategory UUID)
      (sponsorTimes (db (snd (categoryVote config env UUID userID isVIP isTempVIP isOwn
                                           category hashedIP fr w))))
  = map (withoutCategory UUID) (sponsorTimes (db w))
  /\ votes (privateDB (snd (categoryVote config env UUID userID isVIP isTempVIP isOwn
                                         category hashedIP fr w)))
     = votes (privateDB w)
  /\ lockCategories (db (snd (categoryVote config env UUID userID isVIP isTempVIP isOwn
                                           category hashedIP fr w)))
     = lockCategories (db w)
  /\ warnings (db (snd (categoryVote config env UUID userID isVIP isTempVIP isOwn
                                     category hashedIP fr w)))
     = warnings (db w).
Proof.
  pose proof (categoryVote_keeps_the_rest config env UUID userID isVIP isTempVIP isOwn
                category hashedIP fr _ _ _ _ w
                (conj eq_refl (conj eq_refl (conj eq_refl eq_refl)))) as H.
  destruct (categoryVote _ _ _ _ _ _ _ _ _ _ w) as [[r|e] w']; exact H.
Qed.

(** ** One aggregate per segment and category *)

Lemma length_filter_update_where {R} (g c : R -> bool) (f : R -> R) (l : list R) :
  (forall r, g (f r) = g r) ->
  length (filter g (update_where c f l)) = length (filter g l).
Proof.
  intros Hg. induction l as [|r l IH]; [reflexivity |].
  cbn [update_where map filter]. fold (update_where c f l).
  destruct (c r); [rewrite Hg |]; destruct (g r); cbn [length]; rewrite ?IH; reflexivity.
Qed.

Lemma categoryVotesCount_add UUID c U c' amount d :
  categoryVotesCount UUID c (addCategoryVotes U c' amount d) = categoryVotesCount UUID c d.
Proof.
  unfold categoryVotesCount, addCategoryVotes. cbn [categoryVotes with_categoryVotes].
  rewrite length_filter_update_where by (intros r; reflexivity). reflexivity.
Qed.

Lemma categoryVotesCount_insert UUID c c' v d :
  categoryVotesCount UUID c (insertCategoryVotes UUID c' v d)
  = categoryVotesCount UUID c d + (if String.eqb c' c then 1 else 0).
Proof.
  unfold categoryVotesCount, insertCategoryVotes. cbn [categoryVotes with_categoryVotes].
  rewrite filter_app, length_app. cbn [filter]. unfold isCategoryRow at 2. cbn.
  rewrite String.eqb_refl. cbn [andb].
  destruct (String.eqb c' c); cbn [length]; lia.
Qed.

Lemma categoryVotesCount_nonneg UUID c d : 0 <= categoryVotesCount UUID c d.
Proof. unfold categoryVotesCount. lia. Qed.

Lemma oneAggregate_add UUID c amount d :
  oneAggregate UUID d -> oneAggregate UUID (addCategoryVotes UUID c amount d).
Proof. intros H c'. rewrite categoryVotesCount_add. apply H. Qed.

Lemma oneAggregate_insert UUID c v d :
  oneAggregate UUID d -> categoryVotesCount UUID c d = 0 ->
  oneAggregate UUID (insertCategoryVotes UUID c v d).
Proof.
  intros H H0 c'. rewrite categoryVotesCount_insert.
  destruct (String.eqb_spec c c') as [<- | _]; [rewrite H0; lia |].
  specialize (H c'). lia.
Qed.

Lemma onStores_db_query_value {A} (I : Database -> PrivateDB -> Prop) (q : Database -> A) :
  hoare (onStores I) (db_query q)
    (fun a => onStores (fun d p => I d p /\ a = q d)) (onStores I).
Proof.
  intros w H. unfold db_query, bind, statement, onStores in *.
  destruct (dbFaults w) as [|[|] fs]; cbn [db privateDB with_dbFaults];
    [split; [exact H | reflexivity] | exact H | split; [exact H | reflexivity]].
Qed.

Lemma hoare_exn_weaken {A} P (m : M A) Q (E E' : World -> Prop) :
  (forall w, E w -> E' w) -> hoare P m Q E -> hoare P m Q E'.
Proof.
  intros HE H w Hw. specialize (H w Hw).
  destruct (m w) as [[a|e] w']; [exact H | apply HE, H].
Qed.

Lemma oneAggregate_db_run_insert UUID c v (E : World -> Prop) :
  (forall w, onStores (fun d _ => oneAggregate UUID d) w -> E w) ->
  hoare (onStores (fun d _ => oneAggregate UUID d /\ categoryVotesCount UUID c d = 0))
    (db_run (insertCategoryVotes UUID c v))
    (fun _ => onStores (fun d _ => oneAggregate UUID d)) E.
Proof.
  intros HE w [HI H0]. unfold db_run, bind, statement.
  destruct (dbFaults w) as [|[|] fs]; cbn [fst snd];
    [apply oneAggregate_insert; assumption | apply HE; exact HI
    | apply oneAggregate_insert; assumption].
Qed.

Lemma categoryVote_keeps_oneAggregate config env UUID userID isVIP isTempVIP isOwn category
  hashedIP fr :
  preserves (onStores (fun d _ => oneAggregate UUID d))
    (categoryVote config env UUID userID isVIP isTempVIP isOwn category hashedIP fr).
Proof.
  set (I := onStores (fun d (_ : PrivateDB) => oneAggregate UUID d)).
  unfold categoryVote.
  apply preserves_bind; [apply onStores_privateDB_query |]. intros last.
  match goal with |- preserves _ (if ?c then _ else _) => destruct c end;
    [apply preserves_ret |].
  apply preserves_bind; [apply onStores_db_query |].
  intros [seg|]; [| apply preserves_throw].
  destruct (inheritedSupport config category); [apply preserves_throw |].
  match goal with |- preserves _ (if ?c then _ else _) => destruct c end;
    [apply preserves_ret |].
  match goal with |- preserves _ (if ?c then _ else _) => destruct c end;
    [apply preserves_ret |].
  apply preserves_bind; [apply onStores_db_query |]. intros l.
  match goal with |- preserves _ (if ?c then _ else _) => destruct c end;
    [apply preserves_ret |].
  match goal with |- preserves _ (if ?c then _ else _) => destruct c end;
    [apply preserves_ret |].
  apply preserves_bind; [apply onStores_db_query |]. intros next.
  apply preserves_bind; [intros w Hw; exact Hw |]. intros t. cbv zeta.
  apply preserves_bind;
    [| intros ?; apply preserves_bind; [apply onStores_spawn | intros ?; apply preserves_ret]].
  destruct (finalStatus fr =? 200); [| apply preserves_ret].
  eapply hoare_bind; [apply onStores_db_query_value |]. intros count.
  eapply hoare_bind with (R := fun _ => I).
  { destruct (count >? 0) eqn:Hc.
    - eapply hoare_weaken;
        [apply (onStores_db_run (fun d _ => oneAggregate UUID d)) | | |].
      + intros d p. apply oneAggregate_add.
      + intros w [H _]. exact H.
      + auto.
      + auto.
    - eapply hoare_weaken; [apply oneAggregate_db_run_insert with (E := I) | | |]; auto.
      intros w [H Hcount]. split; [exact H |].
      pose proof (categoryVotesCount_nonneg UUID category (db w)) as Hnn.
      rewrite <- Hcount. rewrite <- Hcount in Hnn.
      rewrite Z.gtb_ltb in Hc. apply Z.ltb_ge in Hc. lia. }
  intros ?.
  eapply hoare_bind with (R := fun _ => I).
  { destruct last as [[n lastCategory]|]; [destruct (n >? 0) |].
    - apply preserves_bind;
        [apply onStores_db_run; intros d p; apply oneAggregate_add | intros ?].
      apply onStores_privateDB_run. auto.
    - apply onStores_privateDB_run. auto.
    - apply onStores_privateDB_run. auto. }
  intros ?.
  eapply hoare_bind; [apply onStores_db_query_value |]. intros cur.
  eapply hoare_bind with
    (R := fun _ => onStores (fun d _ => oneAggregate UUID d
                                        /\ cur = categoryVotesOf UUID (SponsorTimes.category seg) d)).
  { eapply hoare_exn_weaken; [| apply onStores_db_query]. intros w [H _]. exact H. }
  intros sub.
  eapply hoare_bind with (R := fun _ => I).
  { destruct cur as [v|].
    - apply hoare_ret. intros w [H _]. exact H.
    - destruct sub as [s|]; [| apply hoare_ret; intros w [H _]; exact H].
      eapply hoare_bind with (R := fun _ => I).
      + eapply hoare_weaken; [apply oneAggregate_db_run_insert with (E := I) | | |]; auto.
        intros w [H Hcur]. split; [exact H |].
        pose proof (categoryVotesCount_pos UUID (SponsorTimes.category seg) (db w)) as Hpos.
        rewrite <- Hcur in Hpos. cbn [isSome] in Hpos.
        pose proof (categoryVotesCount_nonneg UUID (SponsorTimes.category seg) (db w)).
        rewrite Z.gtb_ltb in Hpos. apply Z.ltb_ge in Hpos. lia.
      + intros ?. apply onStores_privateDB_run. auto. }
  intros ?.
  match goal with |- hoare _ (if ?c then _ else _) _ _ => destruct c end;
    [| apply preserves_ret].
  apply onStores_db_run. auto.
Qed.

(** X16. The category vote keeps the aggregates unique: if the public
    category-vote table holds at most one row for each category of the
    segment before [categoryVote] runs, it does so afterwards, whatever the
    arguments and whatever statements fail.  (A row is inserted only where
    a count or a read just before found none.) *)
Theorem categoryVote_keeps_aggregates_unique config env UUID userID isVIP isTempVIP isOwn
  category hashedIP fr w :
  oneAggregate UUID (db w) ->
  oneAggregate UUID
    (db (snd (categoryVote config env UUID userID isVIP isTempVIP isOwn category hashedIP
                           fr w))).
Proof.
  intros H.
  pose proof (categoryVote_keeps_oneAggregate config env UUID userID isVIP isTempVIP isOwn
                category hashedIP fr w H) as Hk.
  destruct (categoryVote _ _ _ _ _ _ _ _ _ _ w) as [[r|e] w']; exact Hk.
Qed.

(** A run of X16: the first category vote on "seg" adds two rows, one for
    each category. *)
Lemma categoryVote_keeps_aggregates_unique_witness :
  oneAggregate "seg"
    (db (snd (categoryVote Sample.config Sample.env "seg" "#user-u" false false false "intro"
                           "#1.2.3.4salt" Sample.finalResponse Sample.quiet_world))).
Proof.
  apply (categoryVote_keeps_aggregates_unique Sample.config Sample.env "seg" "#user-u"
           false false false "intro" "#1.2.3.4salt" Sample.finalResponse Sample.quiet_world).
  intros c. vm_compute. discriminate.
Defined.

(** ** Voting twice for the same category *)

Lemma categoryVote_keeps_no_fault config env UUID userID isVIP isTempVIP isOwn category
  hashedIP fr :
  preserves (fun w => dbFaults w = [])
    (categoryVote config env UUID userID isVIP isTempVIP isOwn category hashedIP fr).
Proof.
  assert (Hst : preserves (fun w => dbFaults w = []) statement).
  { intros w H. unfold statement. rewrite H. exact H. }
  unfold categoryVote, db_query, db_run, privateDB_query, privateDB_run.
  repeat first
    [ apply preserves_ret
    | apply preserves_throw
    | exact Hst
    | match goal with |- preserves _ (fun w => (Returned _, _)) => intros ? ?; assumption end
    | match goal with |- preserves _ (spawn _) => intros ? ?; assumption end
    | match goal with |- preserves _ Date_now => intros ? ?; assumption end
    | match goal with |- preserves _ (if ?c then _ else _) => destruct c end
    | match goal with |- preserves _ (match ?c with Some _ => _ | None => _ end) =>
        destruct c end
    | match goal with |- preserves _ (match ?c with (_, _) => _ end) => destruct c end
    | apply preserves_bind; [| intros ?] ].
Qed.

(** The submitter of an "intro" segment without category votes votes
    "sponsor" twice.  The first vote seeds a row in the submitter's name
    under "intro"; the second call reads the group of "intro", takes the
    vote for a new one and credits "sponsor" again. *)
Lemma categoryVote_seeded_choice_counts_again :
  eligibleCategoryVote Sample.config "seg" "#owner" false "sponsor" Sample.finalResponse
    (Sample.segment "seg" 3 "intro" Skip "#owner") Fixtures.intro_world
  /\ seededFor "seg" "#owner" "sponsor" (Sample.segment "seg" 3 "intro" Skip "#owner")
       (db Fixtures.intro_world) = true
  /\ categoryVotesOf "seg" "sponsor"
       (db (snd (categoryVote Sample.config Sample.env "seg" "#owner" false false true
                   "sponsor" "#1.2.3.4salt" Sample.finalResponse Fixtures.intro_world)))
     = Some 1
  /\ categoryVotesOf "seg" "sponsor"
       (db (snd (categoryVote Sample.config Sample.env "seg" "#owner" false false true
                   "sponsor" "#1.2.3.4salt" Sample.finalResponse
                   (snd (categoryVote Sample.config Sample.env "seg" "#owner" false false
                           true "sponsor" "#1.2.3.4salt" Sample.finalResponse
                           Fixtures.intro_world)))))
     = Some 2.
Proof. repeat split. Qed.

(** X17. Voting twice for the same category counts once, unless the first
    vote seeds a row in the caller's name: after an eligible category vote
    in which lines 278-290 insert no private row for the caller (the caller
    is not the submitter, or the segment's current category has an
    aggregate row already, or it is the candidate), the same vote sent
    again by the same user is answered 200 and changes nothing at all: the
    world after the second call is the world it found. *)
Theorem categoryVote_twice_counts_once config env UUID userID isVIP isTempVIP isOwn category
  hashedIP fr seg w :
  eligibleCategoryVote config UUID userID isVIP category fr seg w ->
  seededFor UUID userID category seg (db w) = false ->
  categoryVote config env UUID userID isVIP isTempVIP isOwn category hashedIP fr
    (snd (categoryVote config env UUID userID isVIP isTempVIP isOwn category hashedIP fr w))
  = (Returned (respond 200),
     snd (categoryVote config env UUID userID isVIP isTempVIP isOwn category hashedIP fr w)).
Proof.
  intros Helig Hseeded.
  pose proof (proj2 (categoryVote_records_choice config env UUID userID isVIP isTempVIP
                       isOwn category hashedIP fr seg w Helig Hseeded)) as Hchoice.
  pose proof (categoryVote_keeps_no_fault config env UUID userID isVIP isTempVIP isOwn
                category hashedIP fr w (proj1 Helig)) as Hf.
  destruct Helig as (_ & _ & _ & _ & _ & _ & _ & Hst). apply Z.eqb_eq in Hst.
  destruct (categoryVote config env UUID userID isVIP isTempVIP isOwn category hashedIP fr w)
    as [o w1] eqn:Hfirst.
  cbn [snd] in *.
  assert (Hf1 : dbFaults w1 = []) by (destruct o; exact Hf).
  unfold categoryVote. rewrite (run_privateDB_query _ _ w1 Hf1).
  destruct (usersLastVote UUID userID (privateDB w1)) as [[n c]|]; [| discriminate].
  cbn in Hchoice. injection Hchoice as ->. rewrite String.eqb_refl, Hst. reflexivity.
Qed.

(** Runs of X17: "user-u" votes "intro" twice; and so does the submitter,
    whose submission is not counted as a vote here because "sponsor" has
    an aggregate row. *)
Lemma categoryVote_twice_counts_once_witness :
  categoryVotesOf "seg" "intro"
    (db (snd (categoryVote Sample.config Sample.env "seg" "#user-u" false false false "intro"
                "#1.2.3.4salt" Sample.finalResponse
                (snd (categoryVote Sample.config Sample.env "seg" "#user-u" false false false
                        "intro" "#1.2.3.4salt" Sample.finalResponse Sample.category_world)))))
  = Some 6
  /\ categoryVotesOf "seg" "intro"
       (db (snd (categoryVote Sample.config Sample.env "seg" "#owner" false false true "intro"
                   "#1.2.3.4salt" Sample.finalResponse
                   (snd (categoryVote Sample.config Sample.env "seg" "#owner" false false true
                           "intro" "#1.2.3.4salt" Sample.finalResponse
                           Sample.category_world)))))
     = Some 6.
Proof.
  split.
  - rewrite (categoryVote_twice_counts_once Sample.config Sample.env "seg" "#user-u"
               false false false "intro" "#1.2.3.4salt" Sample.finalResponse
               (Sample.segment "seg" 10 "sponsor" Skip "#owner") Sample.category_world).
    + reflexivity.
    + repeat split.
    + reflexivity.
  - rewrite (categoryVote_twice_counts_once Sample.config Sample.env "seg" "#owner"
               false false true "intro" "#1.2.3.4salt" Sample.finalResponse
               (Sample.segment "seg" 10 "sponsor" Skip "#owner") Sample.category_world).
    + reflexivity.
    + repeat split.
    + reflexivity.
Defined.

(** ** The detached duration check, row by row *)

(** X18. The detached duration check can only hide: whenever
    [checkVideoDuration] runs and whatever fails, every segment row is
    afterwards the row it was or that row with [hidden] set to 1 (no votes,
    category, lock or duration changes, no row is added or dropped), and
    the category aggregates, the warnings and the private database are
    untouched. *)
Theorem checkVideoDuration_can_only_hide env deleteLockCategories UUID w :
  Forall2 hiddenOrSame (sponsorTimes (db w))
    (sponsorTimes (db (snd (checkVideoDuration env deleteLockCategories UUID w))))
  /\ categoryVotes (db (snd (checkVideoDuration env deleteLockCategories UUID w)))
     = categoryVotes (db w)
  /\ warnings (db (snd (checkVideoDuration env deleteLockCategories UUID w)))
     = warnings (db w)
  /\ privateDB (snd (checkVideoDuration env deleteLockCategories UUID w)) = privateDB w.
Proof.
  pose proof (checkVideoDuration_hides_only env deleteLockCategories UUID
                (sponsorTimes (db w)) _ _ _ w
                (conj (Forall2_hiddenOrSame_refl _) (conj eq_refl (conj eq_refl eq_refl))))
    as H.
  destruct (checkVideoDuration env deleteLockCategories UUID w) as [[r|e] w']; exact H.
Qed.

(** X19. No change of duration, no write: when the video API has no
    duration for the segment's video (or the service is not the one it
    serves), or the duration it reports is not positive or is within two
    seconds of the duration of the latest counted submission,
    [checkVideoDuration] writes nothing, whatever statements fail. *)
Theorem checkVideoDuration_within_tolerance env deleteLockCategories UUID w :
  (forall r dur l,
     segmentByUUID UUID (db w) = Some r ->
     fst (apiVideoDuration env (SponsorTimes.videoID r) (SponsorTimes.cid r)
                           (SponsorTimes.service r) w) = Returned (Some dur) ->
     latestOf (filter (fun x => countedOnVideo (SponsorTimes.videoID r)
                                  (SponsorTimes.service r) x
                                && negb (SponsorTimes.videoDuration x =? 0))
                      (sponsorTimes (db w))) = Some l ->
     dur <= 0 \/ Z.abs (SponsorTimes.videoDuration l - dur) <= 2) ->
  db (snd (checkVideoDuration env deleteLockCategories UUID w)) = db w
  /\ privateDB (snd (checkVideoDuration env deleteLockCategories UUID w)) = privateDB w.
Proof.
  intros Hsame.
  assert (H : preserves (unchanged (db w) (privateDB w) (now w))
                (checkVideoDuration env deleteLockCategories UUID)).
  { unfold checkVideoDuration.
    eapply hoare_bind; [apply unchanged_db_query |].
    intros r. apply hoare_pure. intros ->.
    destruct (segmentByUUID UUID (db w)) as [r|] eqn:Hseg; [| apply preserves_throw].
    cbv zeta.
    assert (Hapi : forall w0,
               apiVideoDuration env (SponsorTimes.videoID r) (SponsorTimes.cid r)
                                (SponsorTimes.service r) w0
               = (fst (apiVideoDuration env (SponsorTimes.videoID r) (SponsorTimes.cid r)
                                        (SponsorTimes.service r) w), w0)).
    { intros w0. unfold apiVideoDuration.
      destruct (if String.eqb _ Service.YouTube then _ else None) as [page|];
        [| reflexivity].
      destruct (filter _ page); reflexivity. }
    eapply hoare_bind with
      (R := fun d w0 => fst (apiVideoDuration env (SponsorTimes.videoID r)
                               (SponsorTimes.cid r) (SponsorTimes.service r) w)
                        = Returned d
                        /\ unchanged (db w) (privateDB w) (now w) w0).
    { intros w0 Hw0. rewrite Hapi.
      destruct (fst (apiVideoDuration _ _ _ _ w)) as [d|e]; [split; [reflexivity |] |];
        exact Hw0. }
    intros [dur|]; apply hoare_pure; intros Hdur; [| apply preserves_ret].
    eapply hoare_bind; [apply unchanged_db_query |].
    intros l. apply hoare_pure. intros ->.
    destruct (latestOf _) as [l|] eqn:Hl; [| apply preserves_ret].
    assert (Hnot : videoDurationChanged (SponsorTimes.videoDuration l) dur = false).
    { unfold videoDurationChanged.
      destruct (Hsame r dur l eq_refl Hdur Hl) as [H | H].
      - destruct (Z.gtb_spec dur 0); [lia | reflexivity].
      - destruct (Z.gtb_spec (Z.abs (SponsorTimes.videoDuration l - dur)) 2); [lia |].
        apply andb_false_r. }
    rewrite Hnot. apply preserves_ret. }
  apply (stores_of_preserved _ w H).
Qed.

(** A run of X19: the API reports 101 seconds for a video whose latest
    submission says 100. *)
Lemma checkVideoDuration_within_tolerance_witness :
  db (snd (checkVideoDuration Fixtures.env_with_api (fun _ _ l => l) "seg"
                              Sample.quiet_world))
  = db Sample.quiet_world.
Proof.
  apply (checkVideoDuration_within_tolerance Fixtures.env_with_api (fun _ _ l => l) "seg"
           Sample.quiet_world).
  intros r dur l Hs Hd Hl. vm_compute in Hs. injection Hs as <-.
  vm_compute in Hd. injection Hd as <-. vm_compute in Hl. injection Hl as <-.
  right. vm_compute. discriminate.
Defined.

(** ** Refreshing the duration of a segment *)

Lemma apiVideoDuration_pure env v c s w w0 :
  apiVideoDuration env v c s w0 = (fst (apiVideoDuration env v c s w), w0).
Proof.
  unfold apiVideoDuration.
  destruct (if String.eqb _ Service.YouTube then _ else None) as [page|]; [| reflexivity].
  destruct (filter _ page); reflexivity.
Qed.

(** X20. After [updateSegmentVideoDuration] has returned, the segment's
    stored duration agrees with the video API: it is within two seconds of
    the reported duration (or that duration is not positive), the row is
    otherwise as it was, and it is now the reported duration itself when
    the stored one was off by more. *)
Theorem updateSegmentVideoDuration_agrees_with_api env UUID w w' r dur :
  updateSegmentVideoDuration env UUID w = (Returned tt, w') ->
  segmentByUUID UUID (db w) = Some r ->
  fst (apiVideoDuration env (SponsorTimes.videoID r) (SponsorTimes.cid r)
                        (SponsorTimes.service r) w) = Returned (Some dur) ->
  exists r',
    segmentByUUID UUID (db w') = Some r'
    /\ videoDurationChanged (SponsorTimes.videoDuration r') dur = false
    /\ r' = SponsorTimes.set_videoDuration
              (if videoDurationChanged (SponsorTimes.videoDuration r) dur then dur
               else SponsorTimes.videoDuration r) r
    /\ privateDB w' = privateDB w.
Proof.
  intros Hrun Hseg Hapi. unfold updateSegmentVideoDuration in Hrun.
  assert (Hsame : videoDurationChanged dur dur = false).
  { unfold videoDurationChanged. rewrite Z.sub_diag. apply andb_false_r. }
  assert (Heta : SponsorTimes.set_videoDuration (SponsorTimes.videoDuration r) r = r)
    by (destruct r; reflexivity).
  unfold db_query, bind at 1, bind at 1, statement in Hrun.
  destruct (dbFaults w) as [|[|] fs] eqn:Hf; cbn [fst snd] in Hrun; try discriminate.
  - rewrite Hseg in Hrun. unfold bind at 1 in Hrun.
    rewrite (apiVideoDuration_pure env _ _ _ w w), Hapi in Hrun.
    destruct (videoDurationChanged (SponsorTimes.videoDuration r) dur) eqn:Hch.
    + unfold db_run, bind, statement in Hrun. rewrite Hf in Hrun.
      injection Hrun as <-. cbn [db privateDB with_db].
      rewrite segmentByUUID_updateSegments by (intros x; reflexivity).
      rewrite Hseg. eexists. repeat split. exact Hsame.
    + injection Hrun as <-. exists r. rewrite Heta. repeat split; assumption.
  - cbn [db with_dbFaults] in Hrun. rewrite Hseg in Hrun. unfold bind at 1 in Hrun.
    rewrite (apiVideoDuration_pure env _ _ _ w (with_dbFaults fs w)), Hapi in Hrun.
    destruct (videoDurationChanged (SponsorTimes.videoDuration r) dur) eqn:Hch.
    + unfold db_run, bind, statement in Hrun. cbn [dbFaults with_dbFaults] in Hrun.
      destruct fs as [|[|] fs']; try discriminate; injection Hrun as <-;
        cbn [db privateDB with_db with_dbFaults];
        rewrite segmentByUUID_updateSegments by (intros x; reflexivity);
        rewrite Hseg; eexists; repeat split; exact Hsame.
    + injection Hrun as <-. exists r. rewrite Heta. repeat split; assumption.
Qed.

(** A run of X20: the stored duration is 100, the API says 250. *)
Lemma updateSegmentVideoDuration_agrees_with_api_witness :
  option_map SponsorTimes.videoDuration
    (segmentByUUID "seg"
       (db (snd (updateSegmentVideoDuration Fixtures.env_with_long_video "seg"
                                            Sample.quiet_world))))
  = Some 250.
Proof.
  destruct (updateSegmentVideoDuration_agrees_with_api Fixtures.env_with_long_video "seg"
              Sample.quiet_world
              (snd (updateSegmentVideoDuration Fixtures.env_with_long_video "seg"
                                               Sample.quiet_world))
              (Sample.segment "seg" 3 "sponsor" Skip "#owner") 250 eq_refl eq_refl eq_refl)
    as (r' & -> & _ & -> & _).
  reflexivity.
Defined.

(** * Properties of the cache and of the routes around it *)

(** ** Redis commands and the keyspace *)

Lemma with_commandFaults_same (s : Site) : with_commandFaults (commandFaults s) s = s.
Proof. destruct s; reflexivity. Qed.

Lemma command_answers {A} (run : Site -> A * Site) (s : Site) :
  commandFaults s = [] ->
  redis.command run s = (Returned (fst (run s)), snd (run s)).
Proof.
  intros H. unfold redis.command. rewrite H. cbn [tl].
  rewrite <- H, with_commandFaults_same. destruct (run s); reflexivity.
Qed.

Lemma lookup_filter_key (p : string -> bool) (key : string) (k : list (string * Cached.entry)) :
  lookup key (filter (fun xe => p (fst xe)) k) = if p key then lookup key k else None.
Proof.
  induction k as [|[x e] k IH]; simpl.
  - destruct (p key); reflexivity.
  - destruct (String.eqb x key) eqn:E.
    + apply String.eqb_eq in E. subst x. destruct (p key) eqn:P; simpl.
      * rewrite String.eqb_refl. reflexivity.
      * rewrite IH. reflexivity.
    + destruct (p x) eqn:P; simpl; rewrite ?E, IH; reflexivity.
Qed.

Lemma lookup_remove (key key' : string) (k : list (string * Cached.entry)) :
  lookup key' (remove key k) = if String.eqb key key' then None else lookup key' k.
Proof.
  unfold remove.
  rewrite (lookup_filter_key (fun x => negb (String.eqb x key)) key' k).
  rewrite (String.eqb_sym key' key). destruct (String.eqb key key'); reflexivity.
Qed.

Lemma lookup_put (key key' : string) (e : Cached.entry) (k : list (string * Cached.entry)) :
  lookup key' (put key e k) = if String.eqb key key' then Some e else lookup key' k.
Proof.
  unfold put. cbn. rewrite lookup_remove. destruct (String.eqb key key'); reflexivity.
Qed.

(** ** Reading through the cache *)

Lemma getWithCache_answers (key : string) (s : Site) :
  commandFaults s = [] ->
  redis.getWithCache key s = (Returned (option_map Cached.value (lookup key (keyspace s))), s).
Proof.
  intros H. unfold redis.getWithCache, redis.get. rewrite command_answers by exact H.
  reflexivity.
Qed.

Lemma cachedReply_miss {T} (JSON_parse : string -> option T) (key : string) (s : Site) :
  commandFaults s = [] ->
  lookup key (keyspace s) = None ->
  QueryCacher.cachedReply JSON_parse key s = (Returned None, s).
Proof.
  intros H L. unfold QueryCacher.cachedReply, Task.try_catch, Task.bind.
  rewrite getWithCache_answers by exact H. rewrite L. reflexivity.
Qed.

Lemma cachedReply_hit {T} (JSON_parse : string -> option T) (key : string) (s : Site)
  (e : Cached.entry) (v : T) :
  commandFaults s = [] ->
  lookup key (keyspace s) = Some e ->
  truthy (Cached.value e) = true ->
  JSON_parse (Cached.value e) = Some v ->
  QueryCacher.cachedReply JSON_parse key s = (Returned (Some v), s).
Proof.
  intros H L Ht Hp. unfold QueryCacher.cachedReply, Task.try_catch, Task.bind.
  rewrite getWithCache_answers by exact H. rewrite L. cbn [option_map truthy_opt].
  rewrite Ht, Hp. reflexivity.
Qed.

Lemma store_answers {T} (JSON_stringify : T -> string) (expiryTime : Z) (key : string)
  (ttl : Z) (data : T) (s : Site) :
  commandFaults s = [] ->
  (if ttl >=? 0 then
     Task.catch_log
       (redis.setExWithCache key (if ttl =? 0 then expiryTime else ttl) (JSON_stringify data))
   else Task.catch_log (redis.setWithCache key (JSON_stringify data))) s
  = (Returned tt, filled JSON_stringify expiryTime key ttl data s).
Proof.
  intros H. unfold filled.
  destruct (ttl >=? 0); unfold Task.catch_log, Task.try_catch, redis.setExWithCache,
    redis.setEx, redis.setWithCache; rewrite command_answers by exact H; reflexivity.
Qed.

(** X21. [get] reads through the cache.  When redis answers and holds
    nothing under the key, [get] asks the database, returns its data and
    caches it under the key with the expiry [ttl] (the configured expiry
    when [ttl] is 0, none when it is negative); nothing else changes.  A
    later [get] for the key returns what [JSON.parse] reads back from the
    cached text, without running its [fetchFromDB], provided that text is
    not empty. *)
Theorem get_reads_through {T} (JSON_stringify : T -> string) (JSON_parse : string -> option T)
  (expiryTime : Z) (fetchFromDB again : Task.t T) (key : string) (ttl ttl' : Z)
  (s s1 : Site) (data : T) :
  commandFaults s = [] ->
  lookup key (keyspace s) = None ->
  fetchFromDB s = (Returned data, s1) ->
  commandFaults s1 = [] ->
  let s2 := filled JSON_stringify expiryTime key ttl data s1 in
  QueryCacher.get expiryTime JSON_stringify JSON_parse fetchFromDB key ttl s = (Returned data, s2)
  /\ forall readBack : T,
       truthy (JSON_stringify data) = true ->
       JSON_parse (JSON_stringify data) = Some readBack ->
       QueryCacher.get expiryTime JSON_stringify JSON_parse again key ttl' s2
       = (Returned readBack, s2).
Proof.
  intros H L F H1 s2. split.
  - unfold QueryCacher.get. unfold Task.bind at 1.
    rewrite cachedReply_miss by assumption.
    unfold Task.bind at 1. rewrite F.
    unfold Task.bind at 1. rewrite store_answers by exact H1. reflexivity.
  - intros readBack Ht Hp. unfold QueryCacher.get. unfold Task.bind at 1.
    rewrite (cachedReply_hit JSON_parse key s2
               {| Cached.value := JSON_stringify data;
                  Cached.expiry := if ttl >=? 0 then Some (if ttl =? 0 then expiryTime else ttl)
                                   else None |} readBack).
    + reflexivity.
    + exact H1.
    + unfold s2, filled. cbn [keyspace with_keyspace]. rewrite lookup_put, String.eqb_refl.
      reflexivity.
    + exact Ht.
    + exact Hp.
Qed.

(** A run of X21: the data "rows" is cached under "key" and served from
    there. *)
Lemma get_reads_through_witness :
  QueryCacher.get 3600 (fun d : string => d) Some (Task.throw "not asked") "key" 0
                  (filled (fun d : string => d) 3600 "key" 0 "rows" SiteSample.site)
  = (Returned "rows", filled (fun d : string => d) 3600 "key" 0 "rows" SiteSample.site).
Proof.
  exact (proj2 (get_reads_through (fun d : string => d) Some 3600 (Task.ret "rows")
                  (Task.throw "not asked") "key" 0 0 SiteSample.site SiteSample.site "rows"
                  eq_refl eq_refl eq_refl eq_refl) "rows" eq_refl eq_refl).
Defined.

(** ** Reading while redis fails *)

Lemma sameDatabase_refl (s : Site) : sameDatabase s s.
Proof. repeat split. Qed.

Lemma sameDatabase_trans (s s' s'' : Site) :
  sameDatabase s s' -> sameDatabase s' s'' -> sameDatabase s s''.
Proof. unfold sameDatabase. intros (A & B & C) (A' & B' & C'). repeat split; congruence. Qed.

(** A redis command whose effect is on the keyspace leaves the database alone
    and does not throw past [catch_log]. *)
Lemma catch_log_command
  (u : list (string * Cached.entry) -> list (string * Cached.entry)) (s : Site) :
  exists s',
    Task.catch_log (redis.command (fun s => (tt, with_keyspace (u (keyspace s)) s))) s
    = (Returned tt, s')
    /\ sameDatabase s s'
    /\ (keyspace s' = u (keyspace s) \/ keyspace s' = keyspace s).
Proof.
  unfold Task.catch_log, Task.try_catch, redis.command, Task.Logger_error.
  destruct (commandFaults s) as [|[| |] fs] eqn:F; cbn;
    eexists; (split; [reflexivity|]); (split; [repeat split|]); cbn; auto.
Qed.

Lemma store_any {T} (JSON_stringify : T -> string) (expiryTime : Z) (key : string)
  (ttl : Z) (data : T) (s : Site) :
  exists s',
    (if ttl >=? 0 then
       Task.catch_log
         (redis.setExWithCache key (if ttl =? 0 then expiryTime else ttl) (JSON_stringify data))
     else Task.catch_log (redis.setWithCache key (JSON_stringify data))) s
    = (Returned tt, s')
    /\ sameDatabase s s'.
Proof.
  destruct (ttl >=? 0); unfold redis.setExWithCache, redis.setEx, redis.setWithCache.
  - destruct (catch_log_command
                (put key {| Cached.value := JSON_stringify data;
                            Cached.expiry := Some (if ttl =? 0 then expiryTime else ttl) |})
                s) as (s' & E & D & _).
    exists s'. split; assumption.
  - destruct (catch_log_command
                (put key {| Cached.value := JSON_stringify data; Cached.expiry := None |})
                s) as (s' & E & D & _).
    exists s'. split; assumption.
Qed.

Lemma cachedReply_cases {T} (JSON_parse : string -> option T) (key : string) (s : Site) :
  (exists fs, commandFaults s = TooManyActiveConnections :: fs
              /\ QueryCacher.cachedReply JSON_parse key s
                 = (Thrown TooManyActiveConnectionsError, afterCommand s))
  \/ (exists e v, hd Answers (commandFaults s) = Answers
                  /\ lookup key (keyspace s) = Some e
                  /\ truthy (Cached.value e) = true
                  /\ JSON_parse (Cached.value e) = Some v
                  /\ QueryCacher.cachedReply JSON_parse key s = (Returned (Some v), afterCommand s))
  \/ QueryCacher.cachedReply JSON_parse key s = (Returned None, afterCommand s).
Proof.
  unfold QueryCacher.cachedReply, Task.try_catch, Task.bind, redis.getWithCache, redis.get,
    redis.command, afterCommand.
  destruct (commandFaults s) as [|[| |] fs] eqn:F; cbn [tl hd].
  - destruct (lookup key (keyspace _)) as [e|] eqn:L; cbn [option_map truthy_opt].
    + cbn [keyspace with_commandFaults] in L.
      destruct (truthy (Cached.value e)) eqn:Ht.
      * destruct (JSON_parse (Cached.value e)) as [v|] eqn:Hp.
        -- right. left. exists e, v. auto.
        -- right. right. reflexivity.
      * right. right. reflexivity.
    + right. right. reflexivity.
  - destruct (lookup key (keyspace _)) as [e|] eqn:L; cbn [option_map truthy_opt].
    + cbn [keyspace with_commandFaults] in L.
      destruct (truthy (Cached.value e)) eqn:Ht.
      * destruct (JSON_parse (Cached.value e)) as [v|] eqn:Hp.
        -- right. left. exists e, v. auto.
        -- right. right. reflexivity.
      * right. right. reflexivity.
    + right. right. reflexivity.
  - right. right. reflexivity.
  - left. exists fs. split; reflexivity.
Qed.

(** X22. [get] fails open.  It throws only a
    [TooManyActiveConnectionsError] of its read of redis, without asking
    the database, or what [fetchFromDB] throws.  What it returns is the
    parsed, non-empty entry that redis holds under the key, or the data of
    [fetchFromDB]: a failed read, an entry that does not parse and a failed
    write are all passed over, and after the database has been asked [get]
    changes nothing but redis and the log. *)
Theorem get_fails_open {T} (JSON_stringify : T -> string) (JSON_parse : string -> option T)
  (expiryTime : Z) (fetchFromDB : Task.t T) (key : string) (ttl : Z) (s : Site) :
  match QueryCacher.get expiryTime JSON_stringify JSON_parse fetchFromDB key ttl s with
  | (Thrown err, s') =>
      (exists fs, commandFaults s = TooManyActiveConnections :: fs
                  /\ err = TooManyActiveConnectionsError /\ s' = afterCommand s)
      \/ fetchFromDB (afterCommand s) = (Thrown err, s')
  | (Returned v, s') =>
      (exists e, hd Answers (commandFaults s) = Answers
                 /\ lookup key (keyspace s) = Some e
                 /\ truthy (Cached.value e) = true
                 /\ JSON_parse (Cached.value e) = Some v /\ s' = afterCommand s)
      \/ (exists s1, fetchFromDB (afterCommand s) = (Returned v, s1) /\ sameDatabase s1 s')
  end.
Proof.
  unfold QueryCacher.get. unfold Task.bind at 1.
  destruct (cachedReply_cases JSON_parse key s)
    as [(fs & F & E) | [(e & v & F & L & Ht & Hp & E) | E]]; rewrite E.
  - left. exists fs. auto.
  - left. exists e. auto.
  - unfold Task.bind at 1.
    destruct (fetchFromDB (afterCommand s)) as [[data|err] s1] eqn:Hf.
    + unfold Task.bind at 1.
      destruct (store_any JSON_stringify expiryTime key ttl data s1) as (s2 & Es & D).
      rewrite Es. right. exists s1. split; [reflexivity | exact D].
    + right. reflexivity.
Qed.

(** [getTraced] reads and caches as [get] does with the default time to
    live: the same data or the same error, and the same state afterwards. *)
Lemma getTraced_agrees_with_get {T} (JSON_stringify : T -> string)
  (JSON_parse : string -> option T) (expiryTime : Z) (fetchFromDB : Task.t T)
  (key : string) (s : Site) :
  QueryCacher.get expiryTime JSON_stringify JSON_parse fetchFromDB key 0 s
  = (match fst (QueryCacher.getTraced expiryTime JSON_stringify JSON_parse fetchFromDB key s) with
     | Returned traced => Returned (Traced.data traced)
     | Thrown err => Thrown err
     end,
     snd (QueryCacher.getTraced expiryTime JSON_stringify JSON_parse fetchFromDB key s)).
Proof.
  unfold QueryCacher.get, QueryCacher.getTraced, Task.bind, Task.Date_now, Task.ret.
  destruct (QueryCacher.cachedReply JSON_parse key s) as [[[v|]|err] s0]; cbn [fst snd];
    try reflexivity.
  destruct (fetchFromDB s0) as [[data|err] s1]; cbn [fst snd Z.geb Z.eqb Z.compare];
    try reflexivity.
  destruct (Task.catch_log _ s1) as [[[]|err] s2]; reflexivity.
Qed.

(** ** Invalidation *)

Lemma shrinks_refl (s : Site) : shrinks s s.
Proof. split; [apply sameDatabase_refl | auto]. Qed.

Lemma shrinks_trans (s s' s'' : Site) : shrinks s s' -> shrinks s' s'' -> shrinks s s''.
Proof.
  intros [D L] [D' L']. split; [eapply sameDatabase_trans; eassumption | auto].
Qed.

Lemma shrinks_without (p : string -> bool) (s : Site) : shrinks s (without p s).
Proof.
  split; [repeat split|]. intros k e. unfold without. cbn [keyspace with_keyspace].
  rewrite (lookup_filter_key (fun x => negb (p x))). destruct (negb (p k)); congruence.
Qed.

Lemma deletes_command (p : string -> bool) :
  deletes p
    (Task.catch_log
       (redis.command
          (fun s => (tt, with_keyspace (filter (fun xe => negb (p (fst xe))) (keyspace s)) s)))).
Proof.
  intros s. unfold Task.catch_log, Task.try_catch, redis.command, Task.Logger_error.
  destruct (commandFaults s) as [|[| |] fs] eqn:F; cbn [tl].
  - eexists. split; [reflexivity|]. split.
    + eapply shrinks_trans; [|apply (shrinks_without p)]. split; [repeat split | auto].
    + intros _. rewrite <- F, with_commandFaults_same. reflexivity.
  - eexists. split; [reflexivity|]. split.
    + eapply shrinks_trans; [|apply (shrinks_without p)]. split; [repeat split | auto].
    + discriminate.
  - eexists. split; [reflexivity|]. split; [|discriminate]. split; [repeat split | auto].
  - eexists. split; [reflexivity|]. split; [|discriminate]. split; [repeat split | auto].
Qed.

Lemma deletes_del (key : string) :
  deletes (fun k => String.eqb k key) (Task.catch_log (redis.del key)).
Proof. apply (deletes_command (fun k => String.eqb k key)). Qed.

Lemma deletes_clearKeyPattern (keyMatches : string -> string -> bool) (keyPattern : string) :
  deletes (keyMatches keyPattern) (QueryCacher.clearKeyPattern keyMatches keyPattern).
Proof. apply (deletes_command (keyMatches keyPattern)). Qed.

Lemma filter_all {A} (l : list A) : filter (fun _ => true) l = l.
Proof. induction l; cbn; congruence. Qed.

Lemma with_keyspace_same (s : Site) : with_keyspace (keyspace s) s = s.
Proof. destruct s; reflexivity. Qed.

Lemma deletes_ret : deletes (fun _ => false) (Task.ret tt).
Proof.
  intros s. exists s. split; [reflexivity|]. split; [apply shrinks_refl|].
  intros _. unfold without. cbn [negb]. rewrite filter_all, with_keyspace_same. reflexivity.
Qed.

Lemma filter_filter {A} (f g : A -> bool) (l : list A) :
  filter g (filter f l) = filter (fun x => f x && g x) l.
Proof.
  induction l as [|a l IH]; cbn; [reflexivity|].
  destruct (f a); cbn; [destruct (g a)|]; rewrite IH; reflexivity.
Qed.

Lemma deletes_bind (p q : string -> bool) (m k : Task.t unit) :
  deletes p m -> deletes q k ->
  deletes (fun x => p x || q x) (Task.bind m (fun _ => k)).
Proof.
  intros Hm Hk s. unfold Task.bind.
  destruct (Hm s) as (s1 & E1 & S1 & N1). rewrite E1.
  destruct (Hk s1) as (s2 & E2 & S2 & N2). exists s2. split; [exact E2|]. split.
  - eapply shrinks_trans; eassumption.
  - intros F. pose proof (N1 F) as E. subst s1.
    assert (F1 : commandFaults (without p s) = []) by exact F.
    rewrite (N2 F1). unfold without, with_keyspace. cbn. rewrite filter_filter.
    f_equal. apply filter_ext. intros [x e]. cbn [fst]. symmetry. apply negb_orb.
Qed.

Lemma deletes_ext (p q : string -> bool) (m : Task.t unit) :
  (forall k, p k = q k) -> deletes p m -> deletes q m.
Proof.
  intros E H s. destruct (H s) as (s' & Em & S & N). exists s'. split; [exact Em|].
  split; [exact S|]. intros F. rewrite (N F). unfold without. f_equal.
  apply filter_ext. intros [x e]. cbn [fst]. rewrite E. reflexivity.
Qed.

Lemma clearSegmentCache_deletes (keyMatches : string -> string -> bool) (keys : RedisKeys)
  (videoInfo : SegmentCacheInfo.t) :
  deletes (dropped keyMatches keys videoInfo)
          (QueryCacher.clearSegmentCache keyMatches keys (Some videoInfo)).
Proof.
  unfold QueryCacher.clearSegmentCache.
  eapply deletes_ext; cycle 1.
  - apply deletes_bind; [apply deletes_del|].
    apply deletes_bind.
    + instantiate (1 := fun k =>
        match SegmentCacheInfo.cid videoInfo with
        | Some c =>
            if negb (truthy c) || String.eqb c "*"
            then keyMatches (skipSegmentGroupsKey keys (SegmentCacheInfo.videoID videoInfo) "*"
                               (SegmentCacheInfo.service videoInfo)) k
            else String.eqb k (skipSegmentGroupsKey keys (SegmentCacheInfo.videoID videoInfo) c
                                 (SegmentCacheInfo.service videoInfo))
        | None => keyMatches (skipSegmentGroupsKey keys (SegmentCacheInfo.videoID videoInfo) "*"
                                (SegmentCacheInfo.service videoInfo)) k
        end).
      destruct (SegmentCacheInfo.cid videoInfo) as [c|]; cbn [truthy_opt].
      * destruct (negb (truthy c) || String.eqb c "*").
        -- apply deletes_clearKeyPattern.
        -- apply deletes_del.
      * cbn [negb orb]. apply deletes_clearKeyPattern.
    + apply deletes_bind; [apply deletes_del|].
      apply deletes_bind; [apply deletes_del|].
      apply deletes_bind; [apply deletes_del|].
      instantiate (1 := fun k =>
        match SegmentCacheInfo.userID videoInfo with
        | Some u => truthy u && String.eqb k (reputationKey keys u)
        | None => false
        end).
      destruct (SegmentCacheInfo.userID videoInfo) as [u|]; [|apply deletes_ret].
      destruct (truthy u); cbn [andb]; [apply deletes_del | apply deletes_ret].
  - intros k. unfold dropped. cbn beta zeta.
    repeat rewrite orb_assoc. reflexivity.
Qed.

(** X23. [clearSegmentCache] never throws and only removes keys: the
    database is left alone and every entry of redis afterwards was there
    before, whatever commands fail.  When redis answers, nothing is logged
    and the keys removed are exactly those of the video: its segment list,
    its grouped views (the one of the cid, or all that match the pattern
    when the cid is missing, empty or "*"), the list of its hash, its two
    label views and, when a user is given, that user's reputation. *)
Theorem clearSegmentCache_drops_the_keys (keyMatches : string -> string -> bool)
  (keys : RedisKeys) (videoInfo : SegmentCacheInfo.t) (s : Site) :
  exists s',
    QueryCacher.clearSegmentCache keyMatches keys (Some videoInfo) s = (Returned tt, s')
    /\ sameDatabase s s'
    /\ (forall k e, lookup k (keyspace s') = Some e -> lookup k (keyspace s) = Some e)
    /\ (commandFaults s = [] ->
        logged s' = logged s
        /\ forall k, lookup k (keyspace s')
                     = if dropped keyMatches keys videoInfo k then None
                       else lookup k (keyspace s)).
Proof.
  destruct (clearSegmentCache_deletes keyMatches keys videoInfo s) as (s' & E & [D L] & N).
  exists s'. split; [exact E|]. split; [exact D|]. split; [exact L|].
  intros F. rewrite (N F). unfold without. cbn [logged keyspace with_keyspace].
  split; [reflexivity|]. intros k.
  rewrite (lookup_filter_key (fun x => negb (dropped keyMatches keys videoInfo x))).
  destruct (dropped keyMatches keys videoInfo k); reflexivity.
Qed.

(** The other invalidations never throw and remove their keys. *)
Lemma clearKey_deletes (key : string) :
  deletes (fun k => String.eqb k key) (QueryCacher.clearKey key).
Proof. apply deletes_del. Qed.

Lemma clearSegmentCacheByID_deletes (keyMatches : string -> string -> bool) (keys : RedisKeys)
  (getHash : VideoID -> VideoIDHash) (videoID : VideoID) (cid : option string) :
  truthy videoID = true ->
  deletes (dropped keyMatches keys
             {| SegmentCacheInfo.videoID := videoID; SegmentCacheInfo.cid := cid;
                SegmentCacheInfo.hashedVideoID := getHash videoID;
                SegmentCacheInfo.service := Service.YouTube;
                SegmentCacheInfo.userID := None |})
          (QueryCacher.clearSegmentCacheByID keyMatches keys getHash videoID cid).
Proof.
  intros H. unfold QueryCacher.clearSegmentCacheByID. rewrite H.
  apply clearSegmentCache_deletes.
Qed.

Lemma clearRatingCache_deletes (keys : RedisKeys) (hashedVideoID : VideoIDHash)
  (service : Service) :
  deletes (fun k => String.eqb k (ratingHashKey keys hashedVideoID service))
          (QueryCacher.clearRatingCache keys (Some (hashedVideoID, service))).
Proof. apply deletes_del. Qed.

Lemma clearFeatureCache_deletes (keys : RedisKeys) (userID : HashedUserID) (feature : Z) :
  deletes (fun k => String.eqb k (userFeatureKey keys userID feature))
          (QueryCacher.clearFeatureCache keys userID feature).
Proof. apply deletes_del. Qed.

Lemma clearPortVideoCache_deletes (keys : RedisKeys) (videoID : VideoID) (prefix : string) :
  deletes (fun k => String.eqb k (portVideoCacheKey keys videoID)
                    || (String.eqb k (portVideoByHashCacheKey keys prefix)
                        || String.eqb k ("updatePortSegment:" +++ videoID)))
          (QueryCacher.clearPortVideoCache keys videoID prefix).
Proof.
  unfold QueryCacher.clearPortVideoCache.
  apply deletes_bind; [apply deletes_del|]. apply deletes_bind; apply deletes_del.
Qed.

(** ** The segment readers *)


Lemma db_run_answers (u : Tables -> Tables) (s : Site) :
  statementFaults s = [] ->
  Task.db_run u s = (Returned tt, with_tables (u (tables s)) s).
Proof.
  intros H. unfold Task.db_run, Task.bind, Task.statement. rewrite H. reflexivity.
Qed.



(** X25. [getSegmentsFromDBByHash] caches prefixes of four characters
    only.  For a prefix of any other length it sends no redis command,
    leaves the keyspace, the log and the tables alone, and returns the
    rows that the table holds now unless the statement fails.  For a
    prefix of four characters whose key is cached, it returns the cached
    rows whatever the tables hold, and changes nothing. *)
Theorem getSegmentsFromDBByHash_caches_four_characters
  (expiryTime : Z) (LIKE : string -> string -> bool)
  (daoHashKey : VideoIDHash -> Service -> string)
  (JSON_stringify : list DBSegment.row -> string)
  (JSON_parse : string -> option (list DBSegment.row))
  (hashedVideoIDPrefix : VideoIDHash) (service : Service) (s : Site) :
  let read := getSegmentsFromDBByHash expiryTime LIKE daoHashKey JSON_stringify JSON_parse
                hashedVideoIDPrefix service in
  (String.length hashedVideoIDPrefix <> 4%nat ->
   sameButStatements s (snd (read s))
   /\ fst (read s)
      = if hd false (statementFaults s) then Thrown "database error"
        else Returned (segmentsByHash LIKE (hashedVideoIDPrefix +++ "%") service (tables s)))
  /\ (String.length hashedVideoIDPrefix = 4%nat ->
      forall (e : Cached.entry) (rows : list DBSegment.row),
        commandFaults s = [] ->
        lookup (daoHashKey hashedVideoIDPrefix service) (keyspace s) = Some e ->
        truthy (Cached.value e) = true ->
        JSON_parse (Cached.value e) = Some rows ->
        forall t : Tables, read (with_tables t s) = (Returned rows, with_tables t s)).
Proof.
  intros read. split.
  - intros Hlen.
    assert (E : read s = Task.db_query
                           (segmentsByHash LIKE (hashedVideoIDPrefix +++ "%") service) s).
    { unfold read, getSegmentsFromDBByHash.
      destruct (Z.of_nat (String.length hashedVideoIDPrefix) =? 4) eqn:B; [|reflexivity].
      apply Z.eqb_eq in B. lia. }
    rewrite E. unfold Task.db_query, Task.bind, Task.statement, sameButStatements.
    destruct (statementFaults s) as [|[|] fs]; cbn; repeat split.
  - intros Hlen e rows F L Ht Hp t. unfold read, getSegmentsFromDBByHash.
    rewrite Hlen. cbn [Z.of_nat Pos.of_succ_nat Pos.succ Z.eqb Pos.eqb].
    unfold QueryCacher.get. unfold Task.bind at 1.
    rewrite (cachedReply_hit JSON_parse _ (with_tables t s) e rows); auto.
Qed.

(** ** The date of a cached answer *)

(** X26. [getKeyLastModified] rejects with "ETag - Redis not enabled"
    without touching redis when redis is disabled, and with "ETag - Redis
    error" when the TTL command is not answered.  Otherwise it returns the
    current time for a key that is missing, has no expiry or has no time
    left, and the time (floor(now / 1000) - (expiryTime - ttl)) * 1000 for
    a key with [ttl] seconds left: that time is not after now exactly when
    [ttl] is at most [expiryTime], so a key that was cached with a longer
    time to live is dated in the future. *)
Theorem getKeyLastModified_dates (config : Config) (expiryTime : Z) (key : string) (s : Site) :
  match QueryCacher.getKeyLastModified config expiryTime key s with
  | (Thrown err, s') =>
      (redis_enabled config = false /\ err = "ETag - Redis not enabled" /\ s' = s)
      \/ (redis_enabled config = true /\ err = "ETag - Redis error"
          /\ hd Answers (commandFaults s) <> Answers /\ s' = afterCommand s)
  | (Returned date, s') =>
      redis_enabled config = true /\ s' = afterCommand s
      /\ match option_map Cached.expiry (lookup key (keyspace s)) with
         | Some (Some ttl) =>
             if 0 <? ttl then
               date = (clock s / 1000 - (expiryTime - ttl)) * 1000
               /\ (date <= clock s <-> ttl <= expiryTime)
             else date = clock s
         | _ => date = clock s
         end
  end.
Proof.
  unfold QueryCacher.getKeyLastModified.
  destruct (redis_enabled config) eqn:En; cbn [negb]; [|left; auto].
  unfold Task.try_catch, Task.bind, redis.ttl, redis.command, afterCommand, Task.Date_now,
    Task.ret, Task.throw.
  assert (D : forall t, (t <=? 0) = false ->
              (clock s / 1000 - (expiryTime - t)) * 1000 <= clock s <-> t <= expiryTime).
  { intros t B. apply Z.leb_gt in B.
    pose proof (Z.div_mod (clock s) 1000 ltac:(lia)) as Hd.
    pose proof (Z.mod_pos_bound (clock s) 1000 ltac:(lia)) as Hm. lia. }
  destruct (commandFaults s) as [|[| |] fs] eqn:F; cbn [tl hd keyspace with_commandFaults].
  - destruct (lookup key (keyspace s)) as [[v [t|]]|]; cbn [option_map Cached.expiry Cached.value].
    + destruct (t <=? 0) eqn:B; cbn [clock with_commandFaults];
        (split; [reflexivity|]); (split; [reflexivity|]).
      * apply Z.leb_le in B. destruct (0 <? t) eqn:B'; [apply Z.ltb_lt in B'; lia | reflexivity].
      * destruct (0 <? t) eqn:B'; [|apply Z.leb_gt in B; apply Z.ltb_ge in B'; lia].
        split; [reflexivity | apply D; exact B].
    + cbn. auto.
    + cbn. auto.
  - destruct (lookup key (keyspace s)) as [[v [t|]]|]; cbn [option_map Cached.expiry Cached.value].
    + destruct (t <=? 0) eqn:B; cbn [clock with_commandFaults];
        (split; [reflexivity|]); (split; [reflexivity|]).
      * apply Z.leb_le in B. destruct (0 <? t) eqn:B'; [apply Z.ltb_lt in B'; lia | reflexivity].
      * destruct (0 <? t) eqn:B'; [|apply Z.leb_gt in B; apply Z.ltb_ge in B'; lia].
        split; [reflexivity | apply D; exact B].
    + cbn. auto.
    + cbn. auto.
  - right. repeat split; auto. discriminate.
  - right. repeat split; auto. discriminate.
Qed.

(** ** Granting and revoking features *)

Ltac break_match :=
  match goal with
  | |- context [match ?x with _ => _ end] =>
      lazymatch x with
      | context [match _ with _ => _ end] => fail
      | _ => destruct x eqn:?
      end
  end.

(** X27. Once the hash and the VIP lookup have answered, [addFeature]
    never throws and answers 200, 400, 403 or 500.  An
    answer of 400 or 403 leaves the whole state as it was (no statement is
    sent, no key is deleted); an answer of 500 leaves the tables and redis
    as they were.  Only a caller whose hashed [adminUserID] is a VIP or the
    configured admin gets an answer of 200 or 500. *)
Theorem addFeature_refusal_changes_nothing (env : Collaborators) (keys : RedisKeys)
  (config_adminUserID : HashedUserID) (ChapterSubmitter FillerSubmitter DeArrowTitleSubmitter : Z)
  (userID adminUserID : option string) (feature : jsnum) (enabled : option string) (s : Site) :
  exists r s',
    addFeature env keys config_adminUserID ChapterSubmitter FillerSubmitter
               DeArrowTitleSubmitter userID adminUserID feature enabled s
    = (Returned r, s')
    /\ (statusOf r = 200 \/ statusOf r = 400 \/ statusOf r = 403 \/ statusOf r = 500)
    /\ (statusOf r = 400 \/ statusOf r = 403 -> s' = s)
    /\ (statusOf r = 500 ->
        tables s' = tables s /\ keyspace s' = keyspace s
        /\ commandFaults s' = commandFaults s)
    /\ (statusOf r = 200 \/ statusOf r = 500 ->
        exists a, adminUserID = Some a
                  /\ (isUserVIP env (getHashCache env a)
                      || String.eqb (getHashCache env a) config_adminUserID) = true).
Proof.
  unfold addFeature.
  destruct userID as [userID|]; [|do 2 eexists; split; [reflexivity|];
    cbn; repeat split; intros; try tauto; try discriminate; intuition discriminate].
  destruct adminUserID as [adminUserID|]; [|do 2 eexists; split; [reflexivity|];
    cbn; repeat split; intros; try tauto; try discriminate; intuition discriminate].
  destruct (negb (truthy userID) || negb (truthy adminUserID));
    [do 2 eexists; split; [reflexivity|];
     cbn; repeat split; intros; try tauto; try discriminate; intuition discriminate|].
  destruct (isUserVIP env (getHashCache env adminUserID)
            || String.eqb (getHashCache env adminUserID) config_adminUserID) eqn:V; cbn [negb];
    [|do 2 eexists; split; [reflexivity|];
      cbn; repeat split; intros; try tauto; try discriminate; intuition discriminate].
  assert (A : exists a, Some adminUserID = Some a
               /\ (isUserVIP env (getHashCache env a)
                   || String.eqb (getHashCache env a) config_adminUserID) = true)
    by (exists adminUserID; auto).
  unfold Task.try_catch, Task.bind, Task.db_query, Task.db_run, Task.bind, Task.statement,
    QueryCacher.clearFeatureCache, Task.catch_log, Task.try_catch, redis.del, redis.command,
    Task.Logger_error, Task.Date_now, Task.ret.
  destruct feature as [| |f];
    try (do 2 eexists; split; [reflexivity|];
         cbn; repeat split; intros; try tauto; try discriminate; intuition discriminate).
  repeat break_match; subst;
    repeat match goal with H : (_, _) = (_, _) |- _ => inversion H; clear H; subst end;
    try discriminate;
    do 2 eexists; (split; [reflexivity|]);
    cbn; repeat split; intros; try tauto; try discriminate; try (intuition discriminate).
Qed.

Lemma statement_cases (s : Site) :
  exists s0,
    (Task.statement s = (Returned tt, s0) \/ Task.statement s = (Thrown "database error", s0))
    /\ sameButStatements s s0.
Proof.
  unfold Task.statement, sameButStatements.
  destruct (statementFaults s) as [|[|] fs]; eexists; split; eauto; repeat split.
Qed.

Lemma filter_app_one {A} (p : A -> bool) (l : list A) (a : A) :
  filter p (l ++ [a]) = filter p l ++ (if p a then [a] else []).
Proof. rewrite filter_app. reflexivity. Qed.

Lemma find_none_filter {A} (p : A -> bool) (l : list A) :
  find p l = None -> filter p l = [].
Proof.
  induction l as [|a l IH]; cbn; [reflexivity|]. destruct (p a); [discriminate | exact IH].
Qed.

Lemma find_some_filter {A} (p : A -> bool) (l : list A) (a : A) :
  find p l = Some a -> filter p l <> [].
Proof.
  induction l as [|b l IH]; cbn; [discriminate|]. destruct (p b); [discriminate | exact IH].
Qed.

Lemma filter_negb_filter {A} (p : A -> bool) (l : list A) :
  filter p (filter (fun x => negb (p x)) l) = [].
Proof.
  rewrite filter_filter. induction l as [|a l IH]; cbn; [reflexivity|].
  destruct (p a); cbn; exact IH.
Qed.

Lemma filter_idem {A} (p : A -> bool) (l : list A) :
  filter p (filter p l) = filter p l.
Proof.
  rewrite filter_filter. apply filter_ext. intros a. destruct (p a); reflexivity.
Qed.

(** X28. What a 200 of [addFeature] has done.  The feature is one of the
    three that can be granted; the rows of other users and features and
    the other tables are as before; with [enabled] other than "false" the
    user keeps the rows that granted the feature already, or gets one new
    row with the raw [adminUserID] as issuer and the current time, and with
    [enabled] "false" the user has no row for the feature left.  When
    redis answers, the cached flag of the user and feature is gone. *)
Theorem addFeature_grants_or_revokes (env : Collaborators) (keys : RedisKeys)
  (config_adminUserID : HashedUserID) (ChapterSubmitter FillerSubmitter DeArrowTitleSubmitter : Z)
  (userID adminUserID : string) (feature : jsnum) (enabled : option string)
  (s s' : Site) (r : Sent unit) :
  addFeature env keys config_adminUserID ChapterSubmitter FillerSubmitter
             DeArrowTitleSubmitter (Some userID) (Some adminUserID) feature enabled s
  = (Returned r, s') ->
  statusOf r = 200 ->
  exists f,
    feature = JsNum f
    /\ In f [ChapterSubmitter; FillerSubmitter; DeArrowTitleSubmitter]
    /\ grants userID f (tables s')
       = (if match enabled with Some e => String.eqb e "false" | None => false end then []
          else match grants userID f (tables s) with
               | [] => [{| UserFeatures.userID := userID; UserFeatures.feature := f;
                           UserFeatures.issuerUserID := adminUserID;
                           UserFeatures.timeSubmitted := clock s |}]
               | earlier => earlier
               end)
    /\ otherGrants userID f (tables s') = otherGrants userID f (tables s)
    /\ segments (tables s') = segments (tables s)
    /\ videoInfo (tables s') = videoInfo (tables s)
    /\ portVideo (tables s') = portVideo (tables s)
    /\ (commandFaults s = [] -> lookup (userFeatureKey keys userID f) (keyspace s') = None).
Proof.
  unfold addFeature.
  destruct (negb (truthy userID) || negb (truthy adminUserID)); [intros E; inversion E; subst; discriminate|].
  destruct (negb _); [intros E; inversion E; subst; discriminate|].
  assert (Hal : forall b : bool, (if b then allowedFeatures_admin ChapterSubmitter FillerSubmitter DeArrowTitleSubmitter
                       else allowedFeatures_vip ChapterSubmitter FillerSubmitter DeArrowTitleSubmitter)
                = [ChapterSubmitter; FillerSubmitter; DeArrowTitleSubmitter])
    by (intros []; reflexivity).
  rewrite Hal.
  destruct feature as [| |f];
    try (cbn; intros E; inversion E; subst; discriminate).
  unfold Task.try_catch at 1. unfold Task.bind at 1.
  destruct (existsb (Z.eqb f) [ChapterSubmitter; FillerSubmitter; DeArrowTitleSubmitter]) eqn:Hin;
    [|cbn; intros E; inversion E; subst; discriminate].
  assert (Hf : In f [ChapterSubmitter; FillerSubmitter; DeArrowTitleSubmitter]).
  { apply existsb_exists in Hin. destruct Hin as (x & Hx & Ex). apply Z.eqb_eq in Ex.
    subst x. exact Hx. }
  assert (Hmine : forall r0, hasFeature userID f
                               {| UserFeatures.userID := userID; UserFeatures.feature := f;
                                  UserFeatures.issuerUserID := adminUserID;
                                  UserFeatures.timeSubmitted := r0 |} = true).
  { intros r0. unfold hasFeature. cbn. rewrite String.eqb_refl, Z.eqb_refl. reflexivity. }
  assert (Hclear : forall s0, exists s1,
             QueryCacher.clearFeatureCache keys userID f s0 = (Returned tt, s1)
             /\ tables s1 = tables s0
             /\ (commandFaults s0 = [] ->
                 lookup (userFeatureKey keys userID f) (keyspace s1) = None)).
  { intros s0. unfold QueryCacher.clearFeatureCache.
    destruct (deletes_del (userFeatureKey keys userID f) s0) as (s1 & E & [[D _] _] & N).
    exists s1. split; [exact E|]. split; [exact D|]. intros F. rewrite (N F).
    unfold without. cbn [keyspace with_keyspace].
    rewrite (lookup_filter_key (fun x => negb (String.eqb x (userFeatureKey keys userID f)))).
    rewrite String.eqb_refl. reflexivity. }
  destruct (negb match enabled with Some e => String.eqb e "false" | None => false end) eqn:En.
  - apply negb_true_iff in En. rewrite En.
    unfold Task.bind at 1. unfold Task.db_query at 1. unfold Task.bind at 1.
    destruct (statement_cases s) as (s0 & [E0|E0] & (T0 & K0 & C0 & Cl0 & L0)); rewrite E0.
    2:{ cbn. intros E; inversion E; subst; discriminate. }
    unfold featureAdded at 1.
    destruct (find (hasFeature userID f) (userFeatures (tables s0))) as [row|] eqn:Hfind;
      cbn [option_map isSome negb].
    + unfold Task.ret at 1. unfold Task.bind at 1.
      destruct (Hclear s0) as (s1 & E1 & T1 & N1). rewrite E1.
      cbn. intros E; inversion E; subst. intros _. exists f.
      split; [reflexivity|]. split; [exact Hf|].
      unfold grants, otherGrants. rewrite T1, T0.
      rewrite T0 in Hfind. apply find_some_filter in Hfind.
      split; [destruct (filter (hasFeature userID f) (userFeatures (tables s))); congruence|].
      repeat split. intros F. apply N1. congruence.
    + unfold Task.bind at 1. unfold Task.Date_now at 1. unfold Task.bind at 1.
      unfold Task.db_run at 1. unfold Task.bind at 1.
      destruct (statement_cases s0) as (s0' & [E0'|E0'] & (T0' & K0' & C0' & Cl0' & L0'));
        rewrite E0'.
      2:{ cbn. intros E; inversion E; subst; discriminate. }
      unfold Task.bind at 1.
      match goal with |- context [QueryCacher.clearFeatureCache keys userID f ?S] =>
        destruct (Hclear S) as (s1 & E1 & T1 & N1) end.
      rewrite E1. cbn. intros E; inversion E; subst. intros _. exists f.
      split; [reflexivity|]. split; [exact Hf|].
      unfold grants, otherGrants. rewrite T1. cbn [tables with_tables insertFeature userFeatures
        with_userFeatures segments videoInfo portVideo].
      rewrite T0', T0, !filter_app_one, Hmine. cbn [negb].
      rewrite T0 in Hfind. apply find_none_filter in Hfind. rewrite Hfind, app_nil_r.
      rewrite Cl0. repeat split. intros F. apply N1. cbn. congruence.
  - apply negb_false_iff in En. rewrite En.
    unfold Task.bind at 1. unfold Task.db_run at 1. unfold Task.bind at 1.
    destruct (statement_cases s) as (s0 & [E0|E0] & (T0 & K0 & C0 & Cl0 & L0)); rewrite E0.
    2:{ cbn. intros E; inversion E; subst; discriminate. }
    unfold Task.bind at 1.
    match goal with |- context [QueryCacher.clearFeatureCache keys userID f ?S] =>
      destruct (Hclear S) as (s1 & E1 & T1 & N1) end.
    rewrite E1. cbn. intros E; inversion E; subst. intros _. exists f.
    split; [reflexivity|]. split; [exact Hf|].
    unfold grants, otherGrants. rewrite T1. cbn [tables with_tables deleteFeature userFeatures
      with_userFeatures segments videoInfo portVideo].
    rewrite T0, filter_negb_filter, filter_idem.
    repeat split. intros F. apply N1. cbn. congruence.
Qed.

(** A run of X28: the VIP "vip-user" grants feature 0 to "user-x". *)
Lemma addFeature_grants_or_revokes_witness :
  grants "user-x" 0
    (tables (snd (addFeature Sample.env SiteSample.keys "#admin" 0 1 2 (Some "user-x")
                             (Some "vip-user") (JsNum 0) None SiteSample.site)))
  = [{| UserFeatures.userID := "user-x"; UserFeatures.feature := 0;
        UserFeatures.issuerUserID := "vip-user";
        UserFeatures.timeSubmitted := 100000000 |}].
Proof.
  destruct (addFeature_grants_or_revokes Sample.env SiteSample.keys "#admin" 0 1 2
              "user-x" "vip-user" (JsNum 0) None SiteSample.site
              (snd (addFeature Sample.env SiteSample.keys "#admin" 0 1 2 (Some "user-x")
                               (Some "vip-user") (JsNum 0) None SiteSample.site))
              (SendStatus 200) eq_refl eq_refl) as (f & Hf & _ & Hg & _).
  injection Hf as <-. exact Hg.
Defined.

(** ** Saving the details of a video *)

Lemma existsb_find {A} (p : A -> bool) (l : list A) :
  existsb p l = isSome (find p l).
Proof. induction l as [|a l IH]; cbn; [reflexivity|]. destruct (p a); [reflexivity | exact IH]. Qed.

Lemma find_app_one {A} (p : A -> bool) (l : list A) (a : A) :
  find p (l ++ [a]) = match find p l with Some x => Some x | None => if p a then Some a else None end.
Proof. induction l as [|b l IH]; cbn; [reflexivity|]. destruct (p b); [reflexivity | exact IH]. Qed.

Lemma videoInfoOf_insertVideoInfo (r : VideoInfo.row) (v : VideoID) (t : Tables) :
  videoInfoOf v (insertVideoInfo r t)
  = match videoInfoOf v t with
    | Some x => Some x
    | None => if String.eqb (VideoInfo.videoID r) v then Some r else None
    end.
Proof.
  unfold insertVideoInfo, videoInfoOf. rewrite existsb_find.
  destruct (find (fun x => String.eqb (VideoInfo.videoID x) (VideoInfo.videoID r)) (videoInfo t))
    as [x|] eqn:E; cbn [isSome].
  - destruct (find (fun r0 => String.eqb (VideoInfo.videoID r0) v) (videoInfo t)) eqn:E';
      [reflexivity|].
    destruct (String.eqb (VideoInfo.videoID r) v) eqn:B; [|reflexivity].
    apply String.eqb_eq in B. subst v. congruence.
  - cbn [videoInfo with_videoInfo]. rewrite find_app_one. reflexivity.
Qed.

(** X29. In [saveVideoInfo] the first write wins.  The rows of other
    videos are never touched; when the video has a row already, the tables
    stay as they are; when the call returns, the video has as row the one
    it had or else the one built from the details (missing fields as the
    empty string and 0), and saving details for the same video again
    changes no table.  The call throws only when the statement fails, and
    then no table has changed. *)
Theorem saveVideoInfo_first_write_wins (d : videoDetails.t) (s : Site) :
  let row := {| VideoInfo.videoID := videoDetails.videoId d;
                VideoInfo.channelID := or_empty (videoDetails.authorId d);
                VideoInfo.title := or_empty (videoDetails.title d);
                VideoInfo.published := or_zero (videoDetails.published d) |} in
  exists o s',
    saveVideoInfo (Some d) s = (o, s')
    /\ (forall v, v <> videoDetails.videoId d ->
                  videoInfoOf v (tables s') = videoInfoOf v (tables s))
    /\ (forall r, videoInfoOf (videoDetails.videoId d) (tables s) = Some r ->
                  tables s' = tables s)
    /\ (o = Returned tt ->
        videoInfoOf (videoDetails.videoId d) (tables s')
        = Some match videoInfoOf (videoDetails.videoId d) (tables s) with
               | Some r => r
               | None => row
               end
        /\ forall d' : videoDetails.t,
             videoDetails.videoId d' = videoDetails.videoId d ->
             tables (snd (saveVideoInfo (Some d') s')) = tables s')
    /\ (o <> Returned tt ->
        o = Thrown "database error" /\ hd false (statementFaults s) = true
        /\ tables s' = tables s).
Proof.
  intros row. unfold saveVideoInfo. fold row.
  assert (Hkeep : forall (r' : VideoInfo.row) (t : Tables) (x : VideoInfo.row),
             videoInfoOf (VideoInfo.videoID r') t = Some x -> insertVideoInfo r' t = t).
  { intros r' t x Hx. unfold insertVideoInfo. rewrite existsb_find.
    unfold videoInfoOf in Hx. rewrite Hx. reflexivity. }
  assert (Hsecond : forall (d' : videoDetails.t) (s0 : Site) (x : VideoInfo.row),
             videoDetails.videoId d' = videoDetails.videoId d ->
             videoInfoOf (videoDetails.videoId d) (tables s0) = Some x ->
             tables (snd (saveVideoInfo (Some d') s0)) = tables s0).
  { intros d' s0 x Hd Hx. unfold saveVideoInfo, Task.db_run, Task.bind, Task.statement.
    destruct (statementFaults s0) as [|[|] fs]; cbn [snd tables with_tables with_statementFaults];
      try reflexivity; eapply Hkeep; cbn [VideoInfo.videoID]; rewrite Hd; exact Hx. }
  unfold Task.db_run, Task.bind, Task.statement.
  destruct (statementFaults s) as [|[|] fs] eqn:F; cbn [hd].
  - do 2 eexists. split; [reflexivity|]. cbn [tables with_tables].
    split; [|split; [|split]].
    + intros v Hv. rewrite videoInfoOf_insertVideoInfo. cbn [VideoInfo.videoID row].
      destruct (videoInfoOf v (tables s)); [reflexivity|].
      destruct (String.eqb (videoDetails.videoId d) v) eqn:B; [|reflexivity].
      apply String.eqb_eq in B. congruence.
    + intros r Hr. eapply (Hkeep row). exact Hr.
    + intros _.
      assert (Hnow : videoInfoOf (videoDetails.videoId d) (insertVideoInfo row (tables s))
                     = Some match videoInfoOf (videoDetails.videoId d) (tables s) with
                            | Some r => r
                            | None => row
                            end).
      { rewrite videoInfoOf_insertVideoInfo. cbn [VideoInfo.videoID row].
        rewrite String.eqb_refl.
        destruct (videoInfoOf (videoDetails.videoId d) (tables s)); reflexivity. }
      split; [exact Hnow|]. intros d' Hd. eapply Hsecond; [exact Hd | exact Hnow].
    + intros C. congruence.
  - do 2 eexists. split; [reflexivity|]. cbn [tables with_tables with_statementFaults].
    split; [|split; [|split]].
    + auto.
    + auto.
    + discriminate.
    + auto.
  - do 2 eexists. split; [reflexivity|]. cbn [tables with_tables with_statementFaults].
    split; [|split; [|split]].
    + intros v Hv. rewrite videoInfoOf_insertVideoInfo. cbn [VideoInfo.videoID row].
      destruct (videoInfoOf v (tables s)); [reflexivity|].
      destruct (String.eqb (videoDetails.videoId d) v) eqn:B; [|reflexivity].
      apply String.eqb_eq in B. congruence.
    + intros r Hr. eapply (Hkeep row). exact Hr.
    + intros _.
      assert (Hnow : videoInfoOf (videoDetails.videoId d) (insertVideoInfo row (tables s))
                     = Some match videoInfoOf (videoDetails.videoId d) (tables s) with
                            | Some r => r
                            | None => row
                            end).
      { rewrite videoInfoOf_insertVideoInfo. cbn [VideoInfo.videoID row].
        rewrite String.eqb_refl.
        destruct (videoInfoOf (videoDetails.videoId d) (tables s)); reflexivity. }
      split; [exact Hnow|]. intros d' Hd. eapply Hsecond; [exact Hd | exact Hnow].
    + intros C. congruence.
Qed.

(** ** The port-video route *)

(** X30. [getPortVideo] hides a port whose duration does not fit.  When
    the id is valid and the reader finds records, the answer is 200 with
    the bvID, ytbID, UUID, votes and lock of the first record and without
    its cid, also when the record has just been hidden.  After the reader,
    the tables change only when a positive duration is given that is not
    equal to the two durations of the record: then the record gets
    hidden = 1 and the segments ported from it hidden = 2.  The route
    itself sends no redis command.  When the call throws, there was such a
    mismatch and no segment has been changed. *)
Theorem getPortVideo_hides_a_mismatch
  (validate : VideoID -> bool) (durationsAllEqual : list VideoDuration -> bool)
  (getPortVideoByBvIDCached : VideoID -> Task.t (option (list PortVideo.row)))
  (bvID : VideoID) (parsedDuration : option VideoDuration)
  (s s1 : Site) (portVideo : PortVideo.row) (others : list PortVideo.row) :
  validate bvID = true ->
  getPortVideoByBvIDCached bvID s = (Returned (Some (portVideo :: others)), s1) ->
  let duration := or_zero parsedDuration in
  let mismatch :=
    (duration >? 0)
    && negb (durationsAllEqual [duration; PortVideo.biliDuration portVideo;
                                PortVideo.ytbDuration portVideo]) in
  exists o s2,
    getPortVideo validate durationsAllEqual getPortVideoByBvIDCached bvID parsedDuration s
    = (o, s2)
    /\ keyspace s2 = keyspace s1
    /\ commandFaults s2 = commandFaults s1
    /\ match o with
       | Returned r =>
           r = Json 200 (portVideoInterface portVideo)
           /\ tables s2
              = (if mismatch then
                   hidePortedSegments HiddenType.MismatchHidden (PortVideo.UUID portVideo)
                     (hidePortVideo (PortVideo.UUID portVideo) (tables s1))
                 else tables s1)
       | Thrown _ =>
           mismatch = true
           /\ (tables s2 = tables s1
               \/ tables s2 = hidePortVideo (PortVideo.UUID portVideo) (tables s1))
       end.
Proof.
  intros Hv Hr duration mismatch. unfold getPortVideo. rewrite Hv. cbn [negb].
  unfold Task.bind at 1. rewrite Hr. fold duration.
  unfold Task.bind at 1.
  set (s1' := snd ((if 2 <=? Z.of_nat (List.length (portVideo :: others))
                    then Task.Logger_error ("Multiple port video matches found for " +++ bvID)
                    else Task.ret tt) s1)).
  assert (E1 : (if 2 <=? Z.of_nat (List.length (portVideo :: others))
                then Task.Logger_error ("Multiple port video matches found for " +++ bvID)
                else Task.ret tt) s1 = (Returned tt, s1')).
  { unfold s1'. destruct (2 <=? _); reflexivity. }
  assert (S1 : tables s1' = tables s1 /\ keyspace s1' = keyspace s1
               /\ commandFaults s1' = commandFaults s1).
  { unfold s1'. destruct (2 <=? _); repeat split. }
  destruct S1 as (T1 & K1 & C1). rewrite E1. clearbody s1'.
  unfold Task.bind at 1. unfold mismatch.
  destruct (duration >? 0); cbn [andb].
  2:{ do 2 eexists. split; [reflexivity|]. cbn. auto. }
  unfold checkDuration.
  destruct (durationsAllEqual _); cbn [negb].
  { do 2 eexists. split; [reflexivity|]. cbn. auto. }
  unfold Task.bind at 1. unfold Task.bind at 1. unfold Task.db_run at 1. unfold Task.bind at 1.
  destruct (statement_cases s1') as (s0 & [E0|E0] & (T0 & K0 & C0 & Cl0 & L0)); rewrite E0.
  2:{ do 2 eexists. split; [reflexivity|]. cbn. repeat split; try congruence. left. congruence. }
  unfold Task.bind at 1. unfold Task.db_run at 1. unfold Task.bind at 1.
  match goal with |- context [Task.statement ?S] =>
    destruct (statement_cases S) as (s0' & [E0'|E0'] & (T0' & K0' & C0' & Cl0' & L0')) end;
    rewrite E0'; cbn in T0', K0', C0'.
  - do 2 eexists. split; [reflexivity|]. cbn. repeat split; try congruence.
  - do 2 eexists. split; [reflexivity|]. cbn. repeat split; try congruence. right. congruence.
Qed.

(** A run of X30: the client reports 250 seconds for a port of 100. *)
Lemma getPortVideo_hides_a_mismatch_witness :
  exists o s2,
    getPortVideo (fun _ => true) SiteSample.durationsAllEqual
                 (fun _ => Task.ret (Some [SiteSample.port])) "BV1" (Some 250) SiteSample.site
    = (o, s2)
    /\ keyspace s2 = []
    /\ commandFaults s2 = []
    /\ match o with
       | Returned r =>
           r = Json 200 (portVideoInterface SiteSample.port)
           /\ tables s2
              = hidePortedSegments 2 "port-1" (hidePortVideo "port-1" SiteSample.emptyTables)
       | Thrown _ =>
           true = true
           /\ (tables s2 = SiteSample.emptyTables
               \/ tables s2 = hidePortVideo "port-1" SiteSample.emptyTables)
       end.
Proof.
  exact (getPortVideo_hides_a_mismatch (fun _ => true) SiteSample.durationsAllEqual
           (fun _ => Task.ret (Some [SiteSample.port])) "BV1" (Some 250) SiteSample.site
           SiteSample.site SiteSample.port [] eq_refl eq_refl).
Defined.
